(* ===== verification/_CoqProject ===== *)
-Q . S2P
Prelude.v
Number.v
Rounding.v
JsSort.v
Types.v
Fixtures.v
Print.v
Program.v
Compile.v
Select.v
Latency.v
Premium.v
Dominance.v
Diff.v
Serving.v
Queue.v
Resilience.v
Store.v
Shape.v
Prompt.v
Consensus.v
Demand.v
Interp.v
InterpSafety.v
InterpBilling.v
InterpEval.v
InterpSound.v
Calls.v
Strategies.v
StrategiesBilling.v
StrategiesBounds.v
StrategiesSpec.v
Calendar.v
Limits.v
LimitsBucket.v
LimitsStores.v
LimitsSafe.v
Stats.v
StatsSpec.v
Evidence.v
EvidenceSpec.v
Recompute.v
RecomputeSpec.v
JobGuard.v
JobGuardSpec.v
DemandMerge.v
DemandMergeSpec.v
Coverage.v
CoverageSpec.v
Learning.v
LearningSpec.v
Statements.v
Guarantee.v
GuaranteeJobs.v
GuaranteeSpec.v
GuaranteeSafety.v
UsageRollup.v
Credits.v
Budgets.v
BudgetsSpec.v
BudgetsExamples.v
Lift.v
Retention.v
RetentionSpec.v
Suites.v
SuiteVerify.v
SuiteVerifySpec.v
SuiteVerifyExamples.v
