(* ===== verification/Prelude.v ===== *)
(** * Potion: a verification library for the routing core

    Potion measures inference strategies (a model, a cascade, a program of
    calls) on a customer's kinds of work, keeps the non-dominated ones as a
    frontier per cluster, and serves each request with the point of the frontier
    that the customer's policy selects.  This library models the parts that
    decide: the measured data and its order, policy evaluation, the serving
    decision, the store of frontier versions, the resilience of provider calls,
    the job queue, and the aggregates of demand.

    ** Files

    - [Prelude]: shared tactics and lemmas (this file).
    - [Number]: JavaScript numbers as binary64 (the Standard Library's
      [SpecFloat]), their order, and that a sum or difference is the rounding of
      the exact value.  NaN, infinities and signed zeros are values; a theorem
      that needs finite numbers says so.
    - [JsSort]: [Array.prototype.sort] as a stable sort; a comparator that is
      consistent on the list ([Consistent]) makes the first element a least one.
      [localeCompare] is the class [Collation].
    - [Print]: number and string formatting.  [Fixtures]: concrete points and
      policies for the witnesses.
    - [Types]: core/src/types.ts, a record or an inductive type for each
      interface or union.
    - [Program]: core/src/coverage.ts and hash.ts, the models a program
      mentions, the static bound on its calls, the canonical keys of its nodes.
    - [Compile]: core/src/compile.ts, handwritten shapes as programs.
    - [Select]: core/src/select.ts, policy evaluation.
    - [Latency], [Premium]: core/src/latency.ts and premium.ts, the latency a
      policy is judged on and what its bound costs.
    - [Dominance], [Diff]: pareto/src/dominance.ts and diff.ts, the frontier of a
      set of aggregates and the difference of two frontiers.
    - [Serving]: pareto/src/serving.ts and strategies/src/capabilities.ts, the
      composed serving decision with its caches, guards and fallbacks.
    - [Queue]: queue/src/memory.ts and index.ts, the in-process queue as a state
      machine.
    - [Resilience]: providers/src/errors.ts and resilience.ts, the error
      taxonomy, the circuit breaker, retries, hedging and failover.
    - [Store]: pareto/src/persistence.ts, db/src/repos/frontiers.ts and
      frontier-pins.ts, versioned frontiers under concurrent savers.
    - [Shape], [Demand]: core/src/shape.ts, coverage.ts, lsh.ts and demand.ts,
      request shapes, coverage verdicts and the demand accumulator.
    - [Prompt]: core/src/safety.ts, prompt-variant.ts, context-select.ts,
      tool-select.ts and the judge and self-report protocols of
      strategies/src/helpers.ts and cascade.ts: what is put into a prompt and
      what is read from a reply.
    - [Consensus]: core/src/consensus.ts, when two replies agree.
    - [Interp]: strategies/src/program.ts with the records of types.ts, resolve.ts
      and core/src/prices.ts, the interpreter of programs as a machine over its
      memo.  [InterpSafety]: its invariant, the bound on calls, termination.
      [InterpBilling]: what a settled program bills.  [InterpEval]: the meaning
      of a program, and that every run agrees with it; the program schema of
      core/src/schemas.ts.  [InterpSound]: valid programs do not go wrong.
    - [Calls]: strategies/src/helpers.ts, provider calls as a tree of what is sent
      and how the code goes on.  [Strategies]: the handwritten strategies and
      execute.ts.  [StrategiesBilling], [StrategiesBounds], [StrategiesSpec]: what
      they bill, what they may send, what they answer and stream.
    - [Calendar]: the UTC day of an instant.  [Limits]:
      apps/server/src/middleware/ratelimit.ts and redis-rate-limiter.ts, both
      rate-limit stores behind the class [RateLimiterStore], and the request
      hook as a tree of questions to the store.  [LimitsBucket]: what a bucket
      admits over a window and when it admits again; [LimitsStores]: the Lua
      script refines the in-memory store; [LimitsSafe]: the daily caps of keys
      and organizations.
    - [Rounding]: relative error of products and quotients, and that means of
      numbers of the unit interval stay in it.  [Stats]: core/src/stats.ts, the
      seeded generator, the nearest-rank quantile, the bootstrap and the Jeffreys
      interval; [StatsSpec]: what the quantile is, and where intervals lie.
    - [Evidence]: harness/src/aggregate.ts, pareto/src/outcome-evidence.ts and
      shadow-evidence.ts, what is computed from recorded observations;
      [EvidenceSpec]: its theorems.
    - [Recompute]: pareto/src/recompute.ts, the plan of a new model, the version
      of the price table, the aggregates of the measured cells and the new
      frontier of each cluster; [RecomputeSpec]: its theorems.
    - [JobGuard]: db/src/repos/job-executions.ts, the guard around every worker
      (workers/src/handlers.ts) and its failure alert
      (workers/src/suite-verify-job.ts); [JobGuardSpec]: its theorems.
    - [DemandMerge]: db/src/repos/demand.ts and the flush of
      apps/server/src/demand.ts, how the windows of the servers become published
      cells; [DemandMergeSpec]: its theorems.
    - [Coverage]: pareto/src/coverage.ts, the ranking of the cells no frontier
      covers; [CoverageSpec]: its theorems.
    - [Learning]: workers/src/learning.ts, db/src/repos/learning-runs.ts and
      workers/src/measurement-budget.ts, what is measured next and for how much;
      [LearningSpec]: its theorems.
    - [Statements]: handlers as trees of database statements, any number of them
      interleaved over one database, and the rely-guarantee rule their theorems
      use.  [Guarantee]: db/src/repos/guarantee.ts and cluster-incumbents.ts, the
      sampled evidence, incidents, incumbents, the rollback target and the
      evaluation.  [GuaranteeJobs]: apps/server/src/guarantee.ts and the
      guarantee:evaluate job of workers/src/handlers.ts, who evaluates.
      [GuaranteeSpec]: that every statement of them keeps the invariant.
      [GuaranteeSafety]: their theorems.
    - [UsageRollup]: db/src/repos/usage.ts and the spends of request-logs.ts, how
      the log of requests becomes usage by organization, day and cluster.
      [Credits]: effects that must be earned, amortized over interleaved
      processes.  [Budgets]: db/src/repos/budgets.ts,
      apps/server/src/routes/budgets.ts and the budget:evaluate job of
      workers/src/handlers.ts; [BudgetsSpec]: their theorems;
      [BudgetsExamples]: their witnesses and edges.
    - [Lift]: processes over a part of a store, as processes over the whole.
    - [Retention], [RetentionSpec]: db/src/repos/eval-results.ts and the
      arithmetic of workers/src/suite-verify-job.ts, how much of the incumbent's
      quality a strategy retains.
    - [Suites]: db/src/repos/derived-suites.ts, suite-certifications.ts and
      verdicts.ts, what a guarantee is measured on, what vouches for it and what
      a measurement leaves.  [SuiteVerify]: the guarantee:suite-verify and
      suite:certify jobs of workers/src/suite-verify-job.ts, processes over the
      stores of the guarantee, the budgets and the suites together;
      [SuiteVerifySpec]: their theorems; [SuiteVerifyExamples]: their witnesses.

    ** How the parts meet

    [Stats] turns scores into the intervals of an aggregate ([Evidence]);
    [Recompute] reads the measured cells, aggregates them and runs
    [Dominance] and [Store] to make and save a frontier.
    [Dominance] makes the frontier that [Store] versions; [Serving] loads it,
    guards its provenance, binds the serving latency ([Latency]), excludes
    degenerate points and calls [Select.selectPoint], explaining the outcome
    with [Premium].  [Compile] and [Program] describe the strategies a point may
    hold; [Strategies.execute] runs them, [Interp] the programs among them, on
    prompts [Prompt] builds; [Resilience] wraps every provider call they make.  [Shape] and
    [Demand] turn requests into the demand that decides what to measure next:
    [DemandMerge] publishes the accumulated windows, [Coverage] holds them against
    the frontiers of [Store], and [Learning] authorizes a sweep of the worst gap.
    Jobs of the [Queue] run behind [JobGuard].  What was served is sampled:
    [Guarantee] holds the samples against the policy's promise with an interval
    of [Stats], takes the rollback target from the frontiers of [Store], and the
    open rollback overrides what [Serving] selects; where the policy's clusters
    have an incumbent, [SuiteVerify] re-evaluates on the suite of [Suites], asks
    [Budgets] first and [Retention] after, and opens or resolves the incidents of
    [Guarantee].  What was served is also
    spent: [UsageRollup] sums the log and [Budgets] holds the sums against the
    caps before the next request is served.

    ** State and concurrency

    JavaScript runs to the next [await].  Where state is shared between awaits
    the model is a step function over events, each event one such block, with
    the reachable states as an inductive predicate: [Queue.step] (calls,
    settlements, woken closers), [Resilience.step] (starts and settlements of
    requests on the shared breaker registry), [Resilience.race_step] (the two
    calls and the timer of a hedged attempt), [Store.step] (the reads and inserts
    of savers), [JobGuard.step] (the statements of the deliveries of jobs, and the
    statements and workers that are lost), [DemandMerge.step] (the statements of
    the flushes), [Statements.step] (the statements of the guarantee's services and of the
    budgets, whose process-wide cache is part of the store, and of the contractual
    jobs over all of them), [Interp.step] (provider responses and failures, bodies that resume
    with their awaited results, rejections that travel up), and [LimitsSafe.step]
    (requests that arrive, hooks that take their turn at the store).  The handwritten
    strategies await one call or one fan-out at a time: they are trees
    ([Calls.prog]) run against a provider that may answer each call differently.  Theorems about reachable states hold for every interleaving.
    Objects that are shared are kept in a store ([Queue.records], the breaker
    registry); maps are [gmap], or association lists where the order of
    insertion is observable ([Demand.cells]).

    ** What the theorems show

    - Selection: what is selected is feasible and best ([Select]); the frontier
      is sound and, away from the epsilon band, complete ([Dominance]).
    - Serving: no fallback means the bound holds; a live server never serves
      simulated evidence; violations that are reported are real; exclusion never
      empties a frontier ([Serving]).
    - Resilience: the breaker's invariant under interleaving, what its gate
      admits, when it opens and closes, the shape of a request's retries, the
      order of failover, and the settlement of a hedged attempt.
    - Storage: version chains without gaps under concurrent savers, a returned
      save is the latest version, when a save is retried and given up, and what
      a pin protects.
    - Queue: every job is where its state says, deliveries are in order, and the
      queue drains.
    - Demand: every observation is counted once or reported as dropped; keys of
      shapes read back; coverage verdicts are sound for bounded buckets.
    - Programs: in every interleaving the interpreter stays within the static
      call count, ends, bills every response once and settles on the value of a
      compositional evaluator; a program the schema accepts rejects only because
      of a model or a provider.
    - Strategies: every call is billed and traced, the number of calls and the
      models are those of the config whatever the models answer, a compiled
      cascade answers as the cascade, and a stream is the text of the result up
      to white space.
    - Prompts: a judge's last line decides whatever is quoted before it; context
      and tool selection keep the best and leave the rest alone; a declared
      answer decides agreement.
    - Rate limits: a bucket's rate over every window, its daily cap, the
      organization's ceiling under interleaved requests, the advice to retry, and
      that the Redis store answers as the in-memory one.
    - Evidence: the nearest-rank quantile is the order statistic its rank names;
      intervals lie in the unit interval and contain the Jeffreys interval; an
      aggregate lists the cells it was computed from; a customer's newest signal
      counts once; a challenger qualifies only on its own samples.
    - Recomputation: aggregates never mix tenants, price versions, instruments or
      stale cells; a job saves the frontier of what was measured and what is
      carried over; the version string stays bounded.
    - Jobs: a guarded job's body is started once however deliveries interleave,
      and every delivery that returns a result returns that body's.
    - Published demand: no cell is published below the required organizations
      and requests, under any interleaving of flushes; an uninterrupted merge
      adds its deltas exactly.
    - Coverage and learning: the ranking does not depend on the order of the
      rows; a plan is for the first gap a sweep can close, the capability filter
      lets through models that close it, and jobs that do not overlap keep to
      the daily cap.
    - The quality guarantee: however its services interleave, incidents keep
      their verdicts, every breach can be derived again from the samples, and a
      cluster with an incumbent gets no breach from served samples; a rollback
      goes to the target the frontiers determine and is what is served next.
    - Budgets: when Potion pays, no request passes the check without a spend read
      below the cap, under any interleaving and loss; alerts are at most one of
      a kind per organization and day; the rollup counts every served request
      once and is written idempotently.
    - The contractual leg: however verifications, certifications and changes of
      the suites interleave, a verdict follows from its interval, effects on an
      agent's cluster rest on a certification that measured the incumbent against
      itself, and every result has its verdict; the gate opens exactly for an
      active certification of the suite's version and content; the retention
      does not depend on the order of the cells or pairs.
    - Some theorems state what the code does where its comments say otherwise;
      their comments say so.

    ** Bounds and fuel

    [Resilience.ladder] runs on [retries + 1], the loop's own bound;
    [Store.save_loop] on [SAVE_RETRIES]; [DemandMerge.merge_loop] on five
    statements for each delta; [Demand.to_hex] on four digits, enough
    for the 16-bit labels ([hex_label]); [Print.shortest] on the 17 digits that
    identify a double.  Everything else is structural, the scanners of regular
    expressions included.

    ** Parameters

    Code outside the repository, and hashes, enter as arguments: the collation
    of [localeCompare], [strategyHash], the LSH planes, database reads of the
    serving decision, clock readings, random identifiers and the outcomes of
    provider calls.  [Interp.Texts] holds the regular expressions a program
    names and [JSON.parse]; [Strategies.Sandbox] the worker that evaluates
    generated JavaScript.  [Limits] takes sha256, the lookup of an api key and
    Lua's conversions between numbers and strings; [Stats] takes sha256 and
    [Math.log], [Math.exp] and [Math.sin], whose accuracy the language leaves
    open: its theorems hold whatever they return.  [Guarantee.IsoDates] is the text
    of instants; the judge's score of a served answer is an argument.
    [UsageRollup.Numeric] is the database's exact decimal sum, and the order in which it
    returns groups is an argument; [toPrecision] and the power of the
    language are arguments of [Budgets].  The body of a guarded job and
    the sweep a learning run pays for are functions of their arguments;
    [SuiteVerify] takes the harness's evaluation, the version of the price
    table, the judge a live run can reach and the hash of a suite's content;
    environment variables are the numbers they are read as.

    ** Not modelled

    Reliability and branching of core, the other routes of the server, the transports, the bullmq driver, the
    dashboard, the bodies of the other jobs and the laboratory packages.  A string is a sequence of units
    of eight bits: text outside ASCII appears as its UTF-8 bytes, so lengths and
    cuts are exact for ASCII texts.  The fixed regular expressions of the source
    are scanners that follow their backtracking. *)

From Stdlib Require Export ZArith Lia Bool Sorted.
From stdpp Require Export base list gmap strings option.
Export stdpp.list_basics.list stdpp.list_relations.list.

#[export] Set Default Goal Selector "!".

(** ** Case analysis *)

(** Split every [match]/[if] of the goal and of the hypotheses, keeping the
    equations. *)
Ltac case_all :=
  repeat match goal with
  | |- context [match ?x with _ => _ end] => destruct x eqn:?; simplify_eq/=
  | H : context [match ?x with _ => _ end] |- _ => destruct x eqn:?; simplify_eq/=
  end.

(** Turn boolean conjunctions, disjunctions and negations into propositions. *)
Ltac bool_prop :=
  repeat match goal with
  | H : (_ && _)%bool = true |- _ => apply andb_prop in H as [? ?]
  | H : (_ || _)%bool = false |- _ => apply orb_false_elim in H as [? ?]
  | H : negb _ = true |- _ => apply negb_true_iff in H
  | H : negb _ = false |- _ => apply negb_false_iff in H
  end.

(** Read every [Forall] over a list as a statement about its elements. *)
Ltac forall_elim :=
  repeat match goal with
  | H : Forall _ _ |- _ => rewrite Forall_forall in H
  | |- Forall _ _ => apply Forall_forall; intros ? ?
  end.

(** A list without duplicate keys has one element per key. *)
Lemma NoDup_key_inj {A B} (f : A -> B) l x y :
  NoDup (map f l) -> x ∈ l -> y ∈ l -> f x = f y -> x = y.
Proof.
  induction l as [|a l IH]; simpl; [by intros _ ?%elem_of_nil|].
  rewrite NoDup_cons, !elem_of_cons. intros [Ha Hd] [->|Hx] [->|Hy] E; auto.
  - destruct Ha. rewrite E. by apply list_elem_of_fmap_2.
  - destruct Ha. rewrite <- E. by apply list_elem_of_fmap_2.
Qed.

Lemma sorted_app {A} (R : A -> A -> Prop) l k :
  StronglySorted R l -> StronglySorted R k -> (forall x y, x ∈ l -> y ∈ k -> R x y) -> StronglySorted R (l ++ k).
Proof.
  intros Hl Hk H. induction Hl as [|x l Hl IH Hx]; simpl; [done|]. constructor.
  - apply IH. intros y z Hy. apply H. by right.
  - apply Forall_app. split; [done|]. apply Forall_forall. intros y. apply H. left.
Qed.

Lemma filter_length_app {A} (f g : A -> bool) l k :
  (forall x, x ∈ l -> f x = true -> g x = true) ->
  (length (List.filter f l) <= length (List.filter g (l ++ k)))%nat.
Proof.
  intros H. induction l as [|x l IH]; simpl; [lia|].
  pose proof (IH (fun y Hy => H y (list_elem_of_further _ _ _ Hy))) as Hle.
  pose proof (H x (list_elem_of_here _ _)) as Hx. destruct (f x); [rewrite Hx by done|destruct (g x)]; simpl; lia.
Qed.

Lemma elem_filter {A} (f : A -> bool) l x : x ∈ List.filter f l <-> x ∈ l /\ f x = true.
Proof. rewrite !list_elem_of_In. apply filter_In. Qed.

Lemma filter_none {A} (f : A -> bool) l : (forall x, x ∈ l -> f x = false) -> List.filter f l = [].
Proof.
  induction l as [|x l IH]; intros H; simpl; [done|]. rewrite (H x) by left. apply IH. intros y ?. apply H. by right.
Qed.

Lemma filter_all {A} (f : A -> bool) l : (forall x, x ∈ l -> f x = true) -> List.filter f l = l.
Proof.
  induction l as [|x l IH]; intros H; simpl; [done|]. rewrite (H x) by left. f_equal. apply IH. intros y ?. apply H. by right.
Qed.

#[export] Set Warnings "-register-all,-clear-no-such-hyp".

Create HintDb potion.
