(* ===== verification/Number.v ===== *)
(** * JavaScript numbers

    Every quality, cost, latency and count of the program is a JavaScript
    number, that is an IEEE-754 binary64 value.  This file takes Stdlib's
    executable specification [SpecFloat] at precision 53 and maximal exponent
    1024, names the operators the source uses ([<], [<=], [===], [+], [-],
    [*], [/], [Math.max], [Math.min], [||], [Number.isFinite]), and proves what
    the components rely on: comparison is the order of the exact values, the
    rounding of an exact result lies between its representable neighbours, the
    sign of [a - b] is the comparison of [a] and [b]. *)

From Stdlib Require Export SpecFloat.
From S2P Require Import Prelude.

Local Open Scope Z_scope.

Module Num.

(** ** The operators *)

Definition prec : Z := 53.
Definition emax : Z := 1024.

Abbreviation number := spec_float.

Definition NaN : number := S754_nan.
Definition Infinity : number := S754_infinity false.
Definition zero : number := S754_zero false.

(** The double nearest to an integer: numeric literals and integer results. *)
Definition of_Z (z : Z) : number := binary_normalize prec emax z 0 false.

Definition one : number := of_Z 1.

Definition add (a b : number) : number := SFadd prec emax a b.
Definition sub (a b : number) : number := SFsub prec emax a b.
Definition mul (a b : number) : number := SFmul prec emax a b.
Definition div (a b : number) : number := SFdiv prec emax a b.
Definition abs (a : number) : number := SFabs a.

(** The decimal literal [n / 10^k]: numerator and denominator are exact
    doubles, so one correctly rounded division gives the literal's value. *)
Definition lit (n : Z) (k : Z) : number := div (of_Z n) (of_Z (10 ^ k)).

(** [a < b], [a <= b] and [a === b]: false as soon as one side is NaN. *)
Definition ltb (a b : number) : bool := SFltb a b.
Definition leb (a b : number) : bool := SFleb a b.
Definition gtb (a b : number) : bool := SFltb b a.
Definition geb (a b : number) : bool := SFleb b a.
Definition eqb (a b : number) : bool := SFeqb a b.

Definition is_nan (a : number) : bool :=
  match a with S754_nan => true | _ => false end.

(** [Number.isFinite]. *)
Definition is_finite (a : number) : bool :=
  match a with S754_zero _ | S754_finite _ _ _ => true | _ => false end.

(** [a || b] on numbers: both zeros and NaN are falsy. *)
Definition truthy (a : number) : bool :=
  match a with S754_zero _ | S754_nan => false | _ => true end.
Definition or_else (a b : number) : number := if truthy a then a else b.

(** [Math.max] and [Math.min]: NaN is contagious, [-0] is below [+0]. *)
Definition max (a b : number) : number :=
  if is_nan a || is_nan b then NaN
  else match a, b with
       | S754_zero sa, S754_zero sb => S754_zero (sa && sb)
       | _, _ => if ltb a b then b else a
       end.
Definition min (a b : number) : number :=
  if is_nan a || is_nan b then NaN
  else match a, b with
       | S754_zero sa, S754_zero sb => S754_zero (sa || sb)
       | _, _ => if ltb b a then b else a
       end.

(** Well-formedness: a canonical binary64 encoding.  Every JavaScript number
    has one. *)
Definition valid (a : number) : bool := valid_binary prec emax a.

(** A valid number other than NaN. *)
Definition real (a : number) : bool := valid a && negb (is_nan a).

(** A valid number other than NaN and the infinities. *)
Definition fin (a : number) : bool := valid a && is_finite a.

(** How a sort reads a comparator's result: negative, positive, and zero for
    both zeros and NaN. *)
Definition sign (a : number) : comparison :=
  match a with
  | S754_zero _ | S754_nan => Eq
  | S754_infinity s | S754_finite s _ _ => if s then Lt else Gt
  end.

#[export] Instance number_eq_dec : EqDecision number.
Proof. solve_decision. Defined.

(** ** Order

    Comparison is the lexicographic order of (class and sign, exponent,
    mantissa), which makes every order law a fact about integers. *)

Definition rank (a : number) : Z * Z * Z :=
  match a with
  | S754_infinity true => (-2, 0, 0)
  | S754_finite true m e => (-1, - e, Z.neg m)
  | S754_zero _ | S754_nan => (0, 0, 0)
  | S754_finite false m e => (1, e, Z.pos m)
  | S754_infinity false => (2, 0, 0)
  end.

Definition lex (p q : Z * Z * Z) : comparison :=
  let '(a, b, c) := p in
  let '(a', b', c') := q in
  match a ?= a' with
  | Eq => match b ?= b' with Eq => c ?= c' | o => o end
  | o => o
  end.

(** The comparison of two numbers other than NaN. *)
Definition cmp (a b : number) : comparison := lex (rank a) (rank b).

Lemma lex_opp p q : lex q p = CompOpp (lex p q).
Proof.
  destruct p as [[a b] c], q as [[a' b'] c']. simpl.
  rewrite (Z.compare_antisym a a'), (Z.compare_antisym b b'), (Z.compare_antisym c c').
  destruct (a ?= a'), (b ?= b'); reflexivity.
Qed.

Lemma lex_le_trans p q r : lex p q <> Gt -> lex q r <> Gt -> lex p r <> Gt.
Proof.
  destruct p as [[a b] c], q as [[a' b'] c'], r as [[a'' b''] c'']. simpl.
  repeat match goal with
  | |- context [?x ?= ?y] => destruct (Z.compare_spec x y)
  | |- context [match ?x with _ => _ end] => destruct x
  end; intros; try congruence; lia.
Qed.

Lemma lex_eq_refl p : lex p p = Eq.
Proof. destruct p as [[a b] c]. simpl. by rewrite !Z.compare_refl. Qed.

Lemma SFcompare_cmp a b :
  is_nan a = false -> is_nan b = false -> SFcompare a b = Some (cmp a b).
Proof.
  unfold cmp. destruct a as [[]|[]| |[] m e], b as [[]|[]| |[] m' e'];
    simpl; try discriminate; intros _ _; try reflexivity.
  rewrite (Z.compare_opp e e'), (Z.compare_antisym e e').
  by destruct (e ?= e').
Qed.

Lemma ltb_cmp a b :
  is_nan a = false -> is_nan b = false ->
  ltb a b = match cmp a b with Lt => true | _ => false end.
Proof. intros. unfold ltb, SFltb. rewrite SFcompare_cmp by done. by destruct (cmp a b). Qed.

Lemma leb_cmp a b :
  is_nan a = false -> is_nan b = false ->
  leb a b = match cmp a b with Gt => false | _ => true end.
Proof. intros. unfold leb, SFleb. rewrite SFcompare_cmp by done. by destruct (cmp a b). Qed.

Lemma cmp_antisym a b : cmp b a = CompOpp (cmp a b).
Proof. apply lex_opp. Qed.

Lemma cmp_le_trans a b c : cmp a b <> Gt -> cmp b c <> Gt -> cmp a c <> Gt.
Proof. apply lex_le_trans. Qed.

Lemma leb_nan a b : leb a b = true -> is_nan a = false /\ is_nan b = false.
Proof. by destruct a, b. Qed.

Lemma ltb_nan a b : ltb a b = true -> is_nan a = false /\ is_nan b = false.
Proof. by destruct a, b. Qed.

Lemma leb_refl a : is_nan a = false -> leb a a = true.
Proof. intros. rewrite leb_cmp by done. unfold cmp. by rewrite lex_eq_refl. Qed.

Lemma leb_trans a b c : leb a b = true -> leb b c = true -> leb a c = true.
Proof.
  intros H1 H2. destruct (leb_nan _ _ H1), (leb_nan _ _ H2).
  rewrite leb_cmp in * by done. pose proof (cmp_le_trans a b c).
  destruct (cmp a b), (cmp b c), (cmp a c); naive_solver.
Qed.

Lemma leb_total a b : is_nan a = false -> is_nan b = false -> leb a b = false -> ltb b a = true.
Proof.
  intros. rewrite leb_cmp in * by done. rewrite ltb_cmp by done.
  rewrite cmp_antisym. by destruct (cmp a b).
Qed.

Lemma not_ltb_leb a b : is_nan a = false -> is_nan b = false -> ltb a b = false -> leb b a = true.
Proof.
  intros ? ? H. rewrite ltb_cmp in H by done. rewrite leb_cmp, cmp_antisym by done. by destruct (cmp a b).
Qed.

Lemma ltb_leb a b : ltb a b = true -> leb a b = true.
Proof.
  intros H. destruct (ltb_nan _ _ H). rewrite ltb_cmp in H by done.
  rewrite leb_cmp by done. by destruct (cmp a b).
Qed.

Lemma ltb_not_leb a b : ltb a b = true -> leb b a = false.
Proof.
  intros H. destruct (ltb_nan _ _ H). rewrite ltb_cmp in H by done.
  rewrite leb_cmp, cmp_antisym by done. by destruct (cmp a b).
Qed.

Lemma leb_not_ltb a b : leb a b = true -> ltb b a = false.
Proof.
  intros H. destruct (leb_nan _ _ H). rewrite leb_cmp in H by done.
  rewrite ltb_cmp, cmp_antisym by done. by destruct (cmp a b).
Qed.

Lemma ltb_leb_trans a b c : ltb a b = true -> leb b c = true -> ltb a c = true.
Proof.
  intros H1 H2. destruct (ltb_nan _ _ H1), (leb_nan _ _ H2).
  destruct (ltb a c) eqn:E; [done|]. exfalso.
  assert (leb c a = true) as Hca.
  { rewrite leb_cmp, cmp_antisym by done. rewrite ltb_cmp in E by done. by destruct (cmp a c). }
  apply ltb_not_leb in H1. rewrite (leb_trans b c a) in H1; done.
Qed.

Lemma leb_ltb_trans a b c : leb a b = true -> ltb b c = true -> ltb a c = true.
Proof.
  intros H1 H2. destruct (leb_nan _ _ H1), (ltb_nan _ _ H2).
  destruct (ltb a c) eqn:E; [done|]. exfalso.
  assert (leb c a = true) as Hca.
  { rewrite leb_cmp, cmp_antisym by done. rewrite ltb_cmp in E by done. by destruct (cmp a c). }
  apply ltb_not_leb in H2. rewrite (leb_trans c a b) in H2; done.
Qed.

Lemma ltb_irrefl a : ltb a a = false.
Proof.
  destruct (ltb a a) eqn:E; [|done]. pose proof (ltb_nan _ _ E) as [? _].
  rewrite ltb_cmp in E by done. unfold cmp in E. by rewrite lex_eq_refl in E.
Qed.

(** ** Rounding

    A finite valid double is an integer number of units of [2^-1074].  [units]
    is that integer, so statements about exact values are statements in [Z]. *)

Definition umin : Z := emin prec emax.

Definition mag (m : positive) (e : Z) : Z := Z.pos m * 2 ^ (e - umin).

Definition units (a : number) : Z :=
  match a with
  | S754_finite s m e => cond_Zopp s (mag m e)
  | _ => 0
  end.

Lemma digits2_pos_bounds m :
  2 ^ (Z.pos (digits2_pos m) - 1) <= Z.pos m < 2 ^ Z.pos (digits2_pos m).
Proof.
  induction m as [m IH|m IH|]; simpl digits2_pos; [| |simpl; lia];
    rewrite Pos2Z.inj_succ;
    replace (Z.succ (Z.pos (digits2_pos m)) - 1) with (Z.succ (Z.pos (digits2_pos m) - 1)) by lia;
    rewrite !Z.pow_succ_r by lia; lia.
Qed.

Lemma digits2_unique m d : 2 ^ (d - 1) <= Z.pos m < 2 ^ d -> Z.pos (digits2_pos m) = d.
Proof.
  intros [Hl Hu]. pose proof (digits2_pos_bounds m) as [Hl' Hu'].
  set (d' := Z.pos (digits2_pos m)) in *.
  assert (0 <= d) as Hd.
  { destruct (Z.neg_nonneg_cases d); [|lia]. rewrite (Z.pow_neg_r 2 d) in Hu by lia. lia. }
  assert (d' - 1 < d) by (apply (Z.pow_lt_mono_r_iff 2); lia).
  assert (d - 1 < d') by (apply (Z.pow_lt_mono_r_iff 2); lia). lia.
Qed.

Lemma digits2_le m d : 0 <= d -> Z.pos m < 2 ^ d -> Z.pos (digits2_pos m) <= d.
Proof.
  intros Hd Hu. pose proof (digits2_pos_bounds m) as [Hl _].
  enough (Z.pos (digits2_pos m) - 1 < d) by lia. apply (Z.pow_lt_mono_r_iff 2); lia.
Qed.

Lemma digits2_ge m d : 2 ^ (d - 1) <= Z.pos m -> d <= Z.pos (digits2_pos m).
Proof.
  intros Hl. pose proof (digits2_pos_bounds m) as [_ Hu].
  enough (d - 1 < Z.pos (digits2_pos m)) by lia. apply (Z.pow_lt_mono_r_iff 2); lia.
Qed.

Lemma fexp_unfold e : fexp prec emax e = Z.max (e - 53) (-1074).
Proof. reflexivity. Qed.

(** What a canonical mantissa is: at most 53 digits, exactly 53 above the
    subnormal range. *)
Lemma bounded_spec m e :
  bounded prec emax m e = true <->
  -1074 <= e <= 971 /\ Z.pos m < 2 ^ 53 /\ (-1074 < e -> 2 ^ 52 <= Z.pos m).
Proof.
  unfold bounded, canonical_mantissa.
  rewrite fexp_unfold, andb_true_iff, Z.eqb_eq, Z.leb_le.
  change (emax - prec) with 971. pose proof (digits2_pos_bounds m) as Hb.
  split.
  - intros [Hc He]. split; [lia|]. split.
    + eapply Z.lt_le_trans; [apply Hb|]. apply Z.pow_le_mono_r; lia.
    + intros ?. etrans; [|apply Hb]. apply Z.pow_le_mono_r; lia.
  - intros (He & Hu & Hl). split; [|lia].
    pose proof (digits2_le m 53 ltac:(lia) Hu).
    destruct (Z.eq_dec e (-1074)); [lia|].
    pose proof (digits2_ge m 53 (Hl ltac:(lia))). lia.
Qed.

(** Shifting right divides by a power of two, and stays exact only when the
    division is. *)
Lemma iter_pos_nat {A} (f : A -> A) n x : SpecFloat.iter_pos f n x = Nat.iter (Pos.to_nat n) f x.
Proof.
  revert x. induction n as [n IH|n IH|]; intros x; simpl SpecFloat.iter_pos; [| |done].
  - rewrite !IH, <- Nat.iter_add, <- Nat.iter_succ_r. f_equal. lia.
  - rewrite !IH, <- Nat.iter_add. f_equal. lia.
Qed.

Definition shr_exact (r : shr_record) : Prop := shr_r r = false /\ shr_s r = false.

Lemma shr_1_spec r :
  0 <= shr_m r ->
  shr_m (shr_1 r) = shr_m r / 2 /\
  (shr_exact (shr_1 r) <-> shr_exact r /\ shr_m r mod 2 = 0).
Proof.
  destruct r as [m r s]. unfold shr_exact. simpl. intros Hm.
  destruct m as [|[p|p|]|]; simpl; try lia; rewrite ?orb_false_iff.
  - rewrite Z.mod_0_l by lia. split; [done|tauto].
  - split; [rewrite Pos2Z.inj_xI, Z.add_comm, Z.mul_comm, Z.div_add by lia; done|].
    rewrite Pos2Z.inj_xI, Z.add_comm, Z.mul_comm, Z.mod_add by lia.
    split; [intros [? ?]; done|]. intros [_ H]. done.
  - split; [rewrite Pos2Z.inj_xO, Z.mul_comm, Z.div_mul by lia; done|].
    rewrite Pos2Z.inj_xO, Z.mul_comm, Z.mod_mul by lia. tauto.
  - split; [done|]. split; [intros [? ?]; done|]. intros [_ H]. done.
Qed.

Lemma shr_iter_spec r n :
  0 <= shr_m r ->
  shr_m (Nat.iter n shr_1 r) = shr_m r / 2 ^ Z.of_nat n /\
  (shr_exact (Nat.iter n shr_1 r) <-> shr_exact r /\ shr_m r mod 2 ^ Z.of_nat n = 0).
Proof.
  intros Hm. induction n as [|n [IHd IHe]]; simpl Nat.iter.
  - change (2 ^ Z.of_nat 0) with 1. rewrite Z.div_1_r, Z.mod_1_r. tauto.
  - set (q := Nat.iter n shr_1 r) in *.
    assert (0 <= shr_m q) as Hq by (rewrite IHd; apply Z.div_pos; lia).
    destruct (shr_1_spec q Hq) as [Hd He]. rewrite Nat2Z.inj_succ, Z.pow_succ_r by lia.
    split; [rewrite Hd, IHd, Z.div_div by lia; f_equal; lia|].
    rewrite He, IHe, IHd, (Z.mul_comm 2), Z.rem_mul_r by lia.
    pose proof (Z.mod_pos_bound (shr_m r) (2 ^ Z.of_nat n) ltac:(lia)).
    pose proof (Z.mod_pos_bound (shr_m r / 2 ^ Z.of_nat n) 2 ltac:(lia)).
    split; [intros [[? ->] ->]; split; [done|lia]|]. intros [? Heq]. split; [split; [done|]|]; nia.
Qed.

Lemma shr_spec m l e n :
  0 <= m -> 0 <= n ->
  exists r, shr (shr_record_of_loc m l) e n = (r, e + n) /\
    shr_m r = m / 2 ^ n /\
    (loc_of_shr_record r = loc_Exact <-> l = loc_Exact /\ m mod 2 ^ n = 0).
Proof.
  intros Hm Hn. assert (shr_m (shr_record_of_loc m l) = m) as Hm0 by (by destruct l as [|[]]).
  assert (forall r, loc_of_shr_record r = loc_Exact <-> shr_exact r) as Hx
    by (intros [m' [] []]; split; try done; intros [? ?]; done).
  assert (shr_exact (shr_record_of_loc m l) <-> l = loc_Exact) as Hl
    by (destruct l as [|[]]; split; try done; intros [? ?]; done).
  destruct n as [|p|p]; [| |lia]; simpl shr.
  - eexists. rewrite Z.add_0_r. split; [done|]. change (2 ^ 0) with 1.
    rewrite Z.div_1_r, Z.mod_1_r, Hm0, Hx. tauto.
  - eexists. split; [done|]. rewrite iter_pos_nat.
    destruct (shr_iter_spec (shr_record_of_loc m l) (Pos.to_nat p)) as [Hd He]; [lia|].
    rewrite Hx, He, Hd, Hl, Hm0, positive_nat_Z. tauto.
Qed.

Lemma shr_neg r e n : n <= 0 -> shr r e n = (r, e).
Proof. by destruct n. Qed.

Lemma round_nearest_even_spec q l :
  round_nearest_even q l = q \/ (round_nearest_even q l = q + 1 /\ l <> loc_Exact).
Proof. destruct l as [|[]]; simpl; auto. destruct (Z.even q); auto. Qed.

(** The canonical encoding of [r * 2^e'], once [r] has at most 53 digits or is
    the carry [2^53]. *)
Lemma renormalize r e' :
  0 < r <= 2 ^ 53 -> umin <= e' -> (umin < e' -> 2 ^ 52 <= r) ->
  exists m e,
    (let '(mrs, e'') := shr_fexp prec emax r e' loc_Exact in
     shr_m mrs = Z.pos m /\ e'' = e) /\
    e' <= e /\ Z.pos m * 2 ^ (e - e') = r /\
    Z.pos m < 2 ^ 53 /\ (umin < e -> 2 ^ 52 <= Z.pos m).
Proof.
  change umin with (-1074). intros Hr He Hl. destruct r as [|m|]; try lia.
  unfold shr_fexp. simpl Zdigits2. rewrite fexp_unfold.
  destruct (Z.eq_dec (Z.pos m) (2 ^ 53)) as [Hc|Hc].
  - rewrite (digits2_unique m 54) by lia.
    replace (Z.max (54 + e' - 53) (-1074) - e') with 1 by lia.
    destruct (shr_spec (Z.pos m) loc_Exact e' 1) as (rr & -> & Hm & _); [lia..|].
    exists (2 ^ 52)%positive, (e' + 1). rewrite Hm, Hc.
    replace (e' + 1 - e') with 1 by lia. repeat split; lia.
  - assert (Z.pos (digits2_pos m) <= 53) by (apply digits2_le; lia).
    assert (umin < e' -> Z.pos (digits2_pos m) = 53).
    { intros. apply digits2_unique. change umin with (-1074) in *. simpl. lia. }
    change umin with (-1074) in *. rewrite shr_neg by lia.
    exists m, e'. rewrite Z.sub_diag, Z.mul_1_r. repeat split; lia.
Qed.

(** [binary_round_aux] on a mantissa that needs no left shift: with [G] the
    spacing of doubles at the result's exponent, the result is the truncation
    [q * G] or, when something was lost, [(q + 1) * G]. *)
Lemma binary_round_aux_spec s m ex l :
  0 < m -> let e' := fexp prec emax (Zdigits2 m + ex) in
  ex <= e' ->
  let q := m / 2 ^ (e' - ex) in let G := 2 ^ (e' - umin) in
  0 <= q < 2 ^ 53 /\ (umin < e' -> 2 ^ 52 <= q) /\
  exists R, (R = q * G \/ (R = (q + 1) * G /\ ~ (l = loc_Exact /\ m mod 2 ^ (e' - ex) = 0))) /\
    match binary_round_aux prec emax s m ex l with
    | S754_zero s' => s' = s /\ R = 0
    | S754_finite s' m' e => s' = s /\ bounded prec emax m' e = true /\ mag m' e = R
    | S754_infinity s' => s' = s /\ 2 ^ (1024 - umin) <= R
    | S754_nan => False
    end.
Proof.
  intros Hm e' He q G. destruct m as [|m|]; try lia. simpl Zdigits2 in *.
  pose proof (digits2_pos_bounds m) as [Hdl Hdu]. set (d := Z.pos (digits2_pos m)) in *.
  assert (e' = Z.max (d + ex - 53) (-1074)) as He' by apply fexp_unfold.
  assert (0 < 2 ^ (e' - ex)) by (apply Z.pow_pos_nonneg; lia).
  assert (umin < e' -> 2 ^ 52 <= q) as Hql.
  { change umin with (-1074). intros. apply Z.div_le_lower_bound; [lia|]. etrans; [|apply Hdl].
    rewrite <- Z.pow_add_r by lia. apply Z.pow_le_mono_r; lia. }
  assert (0 <= q < 2 ^ 53) as Hqu.
  { split; [apply Z.div_pos; lia|]. apply Z.div_lt_upper_bound; [lia|]. eapply Z.lt_le_trans; [apply Hdu|].
    rewrite <- Z.pow_add_r by lia. apply Z.pow_le_mono_r; lia. }
  split; [done|]. split; [done|].
  unfold binary_round_aux. unfold shr_fexp at 1. simpl Zdigits2. fold d. fold e'.
  destruct (shr_spec (Z.pos m) l ex (e' - ex)) as (mrs & -> & Hsm & Hsx); [lia..|].
  fold q in Hsm. rewrite Hsm. replace (ex + (e' - ex)) with e' by lia.
  set (r := round_nearest_even q (loc_of_shr_record mrs)).
  assert (0 <= r <= 2 ^ 53 /\ (r = q \/ (r = q + 1 /\ ~ (l = loc_Exact /\ Z.pos m mod 2 ^ (e' - ex) = 0))))
    as [Hr Hrq].
  { subst r. destruct (round_nearest_even_spec q (loc_of_shr_record mrs)) as [->|[-> Hne]];
      [split; [lia|auto]|]. rewrite <- Hsx. split; [lia|auto]. }
  exists (r * G). split; [destruct Hrq as [->|[-> ?]]; auto|].
  destruct (Z.eq_dec r 0) as [->|Hr0].
  { unfold shr_fexp. simpl Zdigits2. rewrite fexp_unfold, shr_neg by lia. simpl. by rewrite Z.mul_0_l. }
  destruct (renormalize r e') as (m' & e & Hs & Hee & Hmr & Hm53 & Hm52); [lia|change umin with (-1074); lia|lia|].
  destruct (shr_fexp prec emax r e' loc_Exact) as [mrs' e'']. destruct Hs as [-> ->].
  assert (mag m' e = r * G) as HR.
  { unfold mag, G. rewrite <- Hmr, <- Z.mul_assoc, <- Z.pow_add_r by (change umin with (-1074); lia).
    do 2 f_equal. lia. }
  change (emax - prec) with 971. destruct (Z.leb_spec e 971).
  - split; [done|]. split; [|done]. apply bounded_spec. change umin with (-1074) in *. lia.
  - split; [done|]. rewrite <- HR. unfold mag.
    change (1024 - umin) with (52 + (972 - umin)). rewrite Z.pow_add_r by done.
    apply Z.mul_le_mono_nonneg; try lia; [change umin with (-1074) in *; lia|].
    apply Z.pow_le_mono_r; lia.
Qed.

(** ** Rounding is monotone around every double *)

Definition opp (a : number) : number := SFopp a.

(** [z] is a rounding of the exact value [v] (in units): a double below [v]
    stays below [z], a double above [v] stays above [z]. *)
Record rounds (v : Z) (z : number) : Prop := {
  rounds_real : real z = true;
  rounds_below y : fin y = true -> units y <= v -> leb y z = true;
  rounds_above y : fin y = true -> v <= units y -> leb z y = true;
}.

Lemma fin_spec a : fin a = true <->
  match a with
  | S754_finite _ m e => bounded prec emax m e = true
  | S754_zero _ => True
  | _ => False
  end.
Proof. unfold fin. destruct a; simpl; rewrite ?andb_true_r; done. Qed.

Lemma mag_pos m e : umin <= e -> 0 < mag m e.
Proof. intros. unfold mag. pose proof (Z.pow_pos_nonneg 2 (e - umin)). lia. Qed.

Lemma mag_lt m e m' e' :
  bounded prec emax m e = true -> bounded prec emax m' e' = true -> e < e' -> mag m e < mag m' e'.
Proof.
  intros (? & ? & _)%bounded_spec (? & _ & Hl)%bounded_spec ?. unfold mag. change umin with (-1074).
  apply (Z.lt_le_trans _ (2 ^ 53 * 2 ^ (e - -1074))).
  { apply Z.mul_lt_mono_pos_r; [|done]. apply Z.pow_pos_nonneg; lia. }
  rewrite <- Z.pow_add_r by lia. replace (53 + (e - -1074)) with (52 + (e + 1 - -1074)) by lia.
  rewrite Z.pow_add_r by lia. apply Z.mul_le_mono_nonneg; [lia|apply Hl; lia|lia|].
  apply Z.pow_le_mono_r; lia.
Qed.

Lemma mag_compare m e m' e' :
  bounded prec emax m e = true -> bounded prec emax m' e' = true ->
  (mag m e ?= mag m' e') = match e ?= e' with Eq => Z.pos m ?= Z.pos m' | o => o end.
Proof.
  intros H H'. destruct (Z.compare_spec e e') as [<-|?|?].
  - apply bounded_spec in H. change (-1074) with umin in H. unfold mag.
    pose proof (Z.pow_pos_nonneg 2 (e - umin)).
    destruct (Z.compare_spec (Z.pos m) (Z.pos m')) as [->|?|?].
    + apply Z.compare_refl.
    + apply Z.compare_lt_iff, Z.mul_lt_mono_pos_r; lia.
    + apply Z.compare_gt_iff, Z.mul_lt_mono_pos_r; lia.
  - apply Z.compare_lt_iff. by apply mag_lt.
  - apply Z.compare_gt_iff. by apply mag_lt.
Qed.

(** Finite doubles compare as their exact values do. *)
Lemma fin_cmp a b : fin a = true -> fin b = true -> cmp a b = (units a ?= units b).
Proof.
  rewrite !fin_spec. unfold cmp.
  destruct a as [| | |s m e], b as [| | |s' m' e']; try done; intros H H';
    try (assert (0 < mag m e) by (apply mag_pos; apply bounded_spec in H; change umin with (-1074); lia));
    try (assert (0 < mag m' e') by (apply mag_pos; apply bounded_spec in H'; change umin with (-1074); lia));
    try destruct s; try destruct s'; simpl; try done; symmetry;
    try (apply Z.compare_lt_iff; lia); try (apply Z.compare_gt_iff; lia);
    try (destruct (mag m' e'); (done || lia)); try (destruct (mag m e); (done || lia)).
  - rewrite Z.compare_opp, (Z.compare_opp e), (mag_compare m' e' m e) by done.
    destruct (e' ?= e); try done. simpl. by rewrite <- Pos.compare_antisym.
  - by apply mag_compare.
Qed.

Lemma fin_not_nan a : fin a = true -> is_nan a = false.
Proof. rewrite fin_spec. by destruct a. Qed.

Lemma fin_leb a b : fin a = true -> fin b = true -> leb a b = (units a <=? units b).
Proof.
  intros Ha Hb. rewrite leb_cmp by auto using fin_not_nan. rewrite fin_cmp by done.
  unfold Z.leb. by destruct (units a ?= units b).
Qed.

Lemma fin_ltb a b : fin a = true -> fin b = true -> ltb a b = (units a <? units b).
Proof.
  intros Ha Hb. rewrite ltb_cmp by auto using fin_not_nan. rewrite fin_cmp by done.
  unfold Z.ltb. by destruct (units a ?= units b).
Qed.

Lemma fin_real a : fin a = true -> real a = true.
Proof. rewrite fin_spec. unfold real. destruct a; simpl; try done. by intros ->. Qed.

Lemma real_not_nan a : real a = true -> is_nan a = false.
Proof. unfold real. intros [_ ?]%andb_prop. by apply negb_true_iff. Qed.

Lemma real_opp a : real (opp a) = real a.
Proof. by destruct a. Qed.

Lemma fin_opp a : fin (opp a) = fin a.
Proof. by destruct a. Qed.

Lemma units_opp a : units (opp a) = - units a.
Proof. destruct a as [| | |[] m e]; simpl; lia. Qed.

Lemma opp_involutive a : opp (opp a) = a.
Proof. destruct a as [[]|[]| |[] m e]; done. Qed.

Lemma leb_opp a b : leb (opp a) (opp b) = leb b a.
Proof.
  destruct (is_nan a) eqn:Ha; [destruct a, b; done|].
  destruct (is_nan b) eqn:Hb; [destruct a, b; done|].
  rewrite !leb_cmp by (by destruct a, b). unfold cmp.
  destruct a as [[]|[]| |[] m e], b as [[]|[]| |[] m' e']; try done; simpl;
    repeat match goal with |- context [?x ?= ?y] => destruct (Z.compare_spec x y) end;
    try done; try lia; rewrite (Pos.compare_antisym m m'); by destruct (m ?= m')%positive.
Qed.

Lemma rounds_opp v z : rounds v z -> rounds (- v) (opp z).
Proof.
  intros [Hr Hb Ha]. split.
  - by rewrite real_opp.
  - intros y Hy Hv. rewrite <- (opp_involutive y), leb_opp.
    apply Ha; rewrite ?fin_opp, ?units_opp; (done || lia).
  - intros y Hy Hv. rewrite <- (opp_involutive y), leb_opp.
    apply Hb; rewrite ?fin_opp, ?units_opp; (done || lia).
Qed.

(** With [G] the spacing at exponent [f] and [v] between [q * G] and
    [(q + 1) * G], no double lies strictly between those two neighbours. *)
Lemma grid_below q f m e v :
  umin <= f -> (umin < f -> 2 ^ 52 <= q) -> 0 <= q -> bounded prec emax m e = true ->
  v < (q + 1) * 2 ^ (f - umin) -> mag m e <= v -> mag m e <= q * 2 ^ (f - umin).
Proof.
  change umin with (-1074). intros Hf Hl Hq (He & Hm & _)%bounded_spec Hv. unfold mag.
  change umin with (-1074). intros Hmv. destruct (Z.le_gt_cases f e).
  - replace (e - -1074) with ((e - f) + (f - -1074)) in * by lia.
    rewrite Z.pow_add_r, Z.mul_assoc in * by lia.
    set (G := 2 ^ (f - -1074)) in *. assert (0 < G) by (apply Z.pow_pos_nonneg; lia).
    apply Z.mul_le_mono_nonneg_r; [lia|].
    enough (Z.pos m * 2 ^ (e - f) < q + 1) by lia.
    apply (Z.mul_lt_mono_pos_r G); lia.
  - transitivity (2 ^ 53 * 2 ^ (e - -1074)).
    { apply Z.mul_le_mono_nonneg_r; [|lia]. apply Z.pow_nonneg; lia. }
    rewrite <- Z.pow_add_r by lia. transitivity (2 ^ 52 * 2 ^ (f - -1074)).
    + rewrite <- Z.pow_add_r by lia. apply Z.pow_le_mono_r; lia.
    + apply Z.mul_le_mono_nonneg_r; [apply Z.pow_nonneg; lia|lia].
Qed.

Lemma grid_above q f m e v :
  umin <= f -> (umin < f -> 2 ^ 52 <= q) -> 0 <= q -> bounded prec emax m e = true ->
  q * 2 ^ (f - umin) < v -> v <= mag m e -> (q + 1) * 2 ^ (f - umin) <= mag m e.
Proof.
  intros. destruct (Z.le_gt_cases ((q + 1) * 2 ^ (f - umin)) (mag m e)) as [|Hlt]; [done|].
  pose proof (grid_below q f m e (mag m e) H H0 H1 H2 Hlt (Z.le_refl _)). lia.
Qed.

Lemma units_nonpos a : fin a = true ->
  match a with S754_finite false _ _ => False | _ => True end -> units a <= 0.
Proof.
  rewrite fin_spec. destruct a as [| | |[] m e]; simpl; try lia.
  intros (? & _)%bounded_spec _. pose proof (mag_pos m e). change umin with (-1074) in *. lia.
Qed.

(** [z] is a rounding of an exact value lying between the integers [lo] and
    [hi] (its floor and its ceiling when it is not an integer). *)
Record rounds_between (lo hi : Z) (z : number) : Prop := {
  between_real : real z = true;
  between_below y : fin y = true -> units y <= lo -> leb y z = true;
  between_above y : fin y = true -> hi <= units y -> leb z y = true;
}.

(** A rounded magnitude [R] that no double separates from the exact value. *)
Lemma magnitude_rounds lo hi R z :
  match z with
  | S754_zero s' => s' = false /\ R = 0
  | S754_finite s' m' e => s' = false /\ bounded prec emax m' e = true /\ mag m' e = R
  | S754_infinity s' => s' = false /\ 2 ^ (1024 - umin) <= R
  | S754_nan => False
  end ->
  (forall y, fin y = true -> units y <= lo -> units y <= R) ->
  (forall y, fin y = true -> hi <= units y -> R <= units y) ->
  rounds_between lo hi z.
Proof.
  intros Hz Hbelow Habove. destruct z as [s|s| |s m' e]; [| |done|].
  - destruct Hz as [-> ->]. split; [done|..]; intros y Hy Hyv; rewrite fin_leb; auto; apply Z.leb_le; simpl; auto.
  - destruct Hz as [-> Hz]. split; [done|..]; intros y Hy Hyv.
    + apply fin_spec in Hy. by destruct y as [[]| | |[] ? ?].
    + exfalso. specialize (Habove y Hy Hyv).
      assert (0 < 2 ^ (1024 - umin)) by (apply Z.pow_pos_nonneg; [lia|done]).
      destruct y as [| | |[] my ey]; try done; try (simpl units in *; lia).
      { pose proof (units_nonpos (S754_finite true my ey) Hy I). lia. }
      apply fin_spec, bounded_spec in Hy as (? & ? & _). simpl in Habove. unfold mag in Habove.
      change umin with (-1074) in *.
      assert (Z.pos my * 2 ^ (ey - -1074) < 2 ^ 53 * 2 ^ (971 - -1074)); [|simpl in *; lia].
      apply (Z.lt_le_trans _ (2 ^ 53 * 2 ^ (ey - -1074))).
      * apply Z.mul_lt_mono_pos_r; [apply Z.pow_pos_nonneg; lia|done].
      * apply Z.mul_le_mono_nonneg_l; [lia|]. apply Z.pow_le_mono_r; lia.
  - destruct Hz as (-> & Hb & <-). split; [unfold real; simpl; by rewrite Hb|..]; intros y Hy Hyv;
      rewrite fin_leb; auto; try (by apply fin_spec); apply Z.leb_le; simpl; auto.
Qed.

(** One rounding of a positive mantissa aligned at or below its target
    exponent, the location telling whether something was lost below it. *)
Lemma round_aux_between m ex l lo hi :
  0 < m -> umin <= ex <= fexp prec emax (Zdigits2 m + ex) ->
  m * 2 ^ (ex - umin) <= lo < (m + 1) * 2 ^ (ex - umin) -> m * 2 ^ (ex - umin) <= hi ->
  l = loc_Exact \/ m * 2 ^ (ex - umin) < hi ->
  rounds_between lo hi (binary_round_aux prec emax false m ex l).
Proof.
  intros Hm [Hex He] Hlo Hhi Hl'.
  destruct (binary_round_aux_spec false m ex l Hm He) as (Hq & Hl & R & HR & Hz).
  set (f := fexp prec emax (Zdigits2 m + ex)) in *. set (q := m / 2 ^ (f - ex)) in *.
  set (D := 2 ^ (f - ex)) in *. assert (0 < D) by (apply Z.pow_pos_nonneg; lia).
  set (X := 2 ^ (ex - umin)) in *. assert (0 < X) by (apply Z.pow_pos_nonneg; lia).
  assert (2 ^ (f - umin) = D * X) as HG.
  { subst D X. rewrite <- Z.pow_add_r by lia. f_equal. lia. }
  pose proof (Z.div_mod m D ltac:(lia)) as Hdm. fold q in Hdm.
  pose proof (Z.mod_pos_bound m D ltac:(lia)) as Hmb.
  assert (q * 2 ^ (f - umin) <= m * X /\ (m + 1) * X <= (q + 1) * 2 ^ (f - umin)) as [Hv1 Hv2].
  { rewrite HG. split; nia. }
  assert (R = q * 2 ^ (f - umin) \/ (R = (q + 1) * 2 ^ (f - umin) /\ q * 2 ^ (f - umin) < hi)) as HR'.
  { destruct HR as [HR|[HR Hne]]; [by left|right]. split; [done|]. destruct Hl' as [Hl'|]; [|lia].
    rewrite HG. assert (m mod D <> 0) by (intros ?; apply Hne; done). nia. }
  apply magnitude_rounds with (R := R); [done|..]; intros y Hy Hyv.
  - enough (units y <= q * 2 ^ (f - umin)) by lia.
    destruct y as [| | |[] my ey]; try done; try (apply fin_spec in Hy; simpl in *; lia).
    + pose proof (units_nonpos (S754_finite true my ey) Hy I). lia.
    + apply fin_spec in Hy. apply (grid_below q f my ey lo); try done; lia.
  - destruct HR' as [->|[-> Hlt]]; [lia|].
    destruct y as [| | |[] my ey]; try done; try (apply fin_spec in Hy; simpl in *; lia).
    + pose proof (units_nonpos (S754_finite true my ey) Hy I). lia.
    + apply fin_spec in Hy. apply (grid_above q f my ey hi); try done; lia.
Qed.

Lemma round_aux_rounds m ex :
  0 < m -> umin <= ex <= fexp prec emax (Zdigits2 m + ex) ->
  rounds (m * 2 ^ (ex - umin)) (binary_round_aux prec emax false m ex loc_Exact).
Proof.
  intros Hm He. assert (0 < 2 ^ (ex - umin)) by (apply Z.pow_pos_nonneg; lia).
  destruct (round_aux_between m ex loc_Exact (m * 2 ^ (ex - umin)) (m * 2 ^ (ex - umin)));
    [done|done|lia|lia|by left|by split].
Qed.

Lemma shl_align_spec m e e' :
  e' <= e -> exists m', shl_align m e e' = (m', e') /\ Z.pos m' = Z.pos m * 2 ^ (e - e').
Proof.
  intros H. unfold shl_align. destruct (e' - e) as [|p|p] eqn:E; [|lia|].
  - exists m. replace e' with e by lia. rewrite Z.sub_diag, Z.mul_1_r. done.
  - exists (Pos.iter xO m p). split; [done|]. replace (e - e') with (Z.pos p) by lia.
    clear. revert m.
    induction p as [|p IH] using Pos.peano_ind; intros m; [simpl; lia|].
    rewrite Pos.iter_succ, Pos2Z.inj_succ, Z.pow_succ_r by lia. specialize (IH m).
    rewrite Pos2Z.inj_xO. lia.
Qed.

Lemma Zdigits2_shift m k : 0 <= k -> Zdigits2 (Z.pos m * 2 ^ k) = Zdigits2 (Z.pos m) + k.
Proof.
  intros Hk. destruct (Z.pos m * 2 ^ k) as [|p|p] eqn:E; try lia.
  simpl. apply digits2_unique. pose proof (digits2_pos_bounds m) as [Hl Hu].
  rewrite <- E. replace (Z.pos (digits2_pos m) + k - 1) with (Z.pos (digits2_pos m) - 1 + k) by lia.
  rewrite !Z.pow_add_r by lia. pose proof (Z.pow_pos_nonneg 2 k). split; nia.
Qed.

Lemma binary_round_rounds m e :
  umin <= e -> rounds (mag m e) (binary_round prec emax false m e).
Proof.
  intros He. unfold binary_round. set (f := fexp prec emax (Z.pos (digits2_pos m) + e)).
  assert (umin <= f) by (unfold f; rewrite fexp_unfold; change umin with (-1074); lia).
  destruct (Z.le_gt_cases f e) as [Hf|Hf].
  - destruct (shl_align_spec m e f Hf) as (m' & -> & Hm').
    replace (mag m e) with (Z.pos m' * 2 ^ (f - umin)).
    + apply round_aux_rounds; [lia|]. split; [done|]. rewrite Hm', Zdigits2_shift by lia.
      simpl Zdigits2. replace (Z.pos (digits2_pos m) + (e - f) + f) with (Z.pos (digits2_pos m) + e) by lia.
      reflexivity.
    + unfold mag. rewrite Hm', <- Z.mul_assoc, <- Z.pow_add_r by lia. do 2 f_equal. lia.
  - assert (shl_align m e f = (m, e)) as ->.
    { unfold shl_align. by destruct (f - e) eqn:E; try lia. }
    apply round_aux_rounds; [lia|]. simpl Zdigits2. fold f. lia.
Qed.

Lemma binary_round_true m e : binary_round prec emax true m e = opp (binary_round prec emax false m e).
Proof.
  unfold binary_round. destruct (shl_align _ _ _) as [mz ez]. unfold binary_round_aux.
  destruct (shr_fexp prec emax (Z.pos mz) ez loc_Exact) as [r e'].
  destruct (shr_fexp prec emax _ e' loc_Exact) as [r' e'']. destruct (shr_m r'); try done.
  by destruct (e'' <=? emax - prec).
Qed.

(** The double of an integer number of steps of [2^e] rounds it. *)
Lemma binary_normalize_rounds m e s :
  umin <= e -> rounds (m * 2 ^ (e - umin)) (binary_normalize prec emax m e s).
Proof.
  intros He. destruct m as [|m|m]; simpl binary_normalize.
  - simpl. split; [done|..]; intros y Hy Hv; rewrite fin_leb; auto; by apply Z.leb_le.
  - by apply binary_round_rounds.
  - rewrite binary_round_true, <- Pos2Z.opp_pos, Z.mul_opp_l. by apply rounds_opp, binary_round_rounds.
Qed.

Lemma rounds_fin a : fin a = true -> rounds (units a) a.
Proof.
  intros Ha. split; [by apply fin_real|..]; intros y Hy Hv; rewrite fin_leb by done; by apply Z.leb_le.
Qed.

Lemma aligned sx mx ex ez :
  umin <= ez <= ex ->
  cond_Zopp sx (Z.pos (fst (shl_align mx ex ez))) * 2 ^ (ez - umin) = cond_Zopp sx (mag mx ex).
Proof.
  intros H. destruct (shl_align_spec mx ex ez ltac:(lia)) as (m' & -> & Hm'). simpl fst.
  assert (Z.pos m' * 2 ^ (ez - umin) = mag mx ex) as <-.
  { unfold mag. rewrite Hm', <- Z.mul_assoc, <- Z.pow_add_r by lia. do 2 f_equal. lia. }
  destruct sx; simpl; lia.
Qed.

(** [a + b] and [a - b] round the exact sum and difference. *)
Lemma add_rounds a b : fin a = true -> fin b = true -> rounds (units a + units b) (add a b).
Proof.
  intros Ha Hb. pose proof (rounds_fin a Ha) as Ra. pose proof (rounds_fin b Hb) as Rb.
  destruct a as [sa| | |sa ma ea], b as [sb| | |sb mb eb]; try done; simpl in *; rewrite ?Z.add_0_r; try done.
  - destruct sa, sb; done || apply (rounds_fin zero); done.
  - apply fin_spec, bounded_spec in Ha as [? _], Hb as [? _]. change (-1074) with umin in *.
    unfold add. simpl. rewrite <- (aligned sa ma ea (Z.min ea eb)), <- (aligned sb mb eb (Z.min ea eb)) by lia.
    rewrite <- Z.mul_add_distr_r. apply binary_normalize_rounds. lia.
Qed.

Lemma sub_rounds a b : fin a = true -> fin b = true -> rounds (units a - units b) (sub a b).
Proof.
  intros Ha Hb. pose proof (rounds_fin a Ha) as Ra. pose proof (rounds_opp _ _ (rounds_fin b Hb)) as Rb.
  destruct a as [sa| | |sa ma ea], b as [sb| | |sb mb eb]; try done; simpl in *; rewrite ?Z.sub_0_r; try done.
  - destruct sa, sb; done || apply (rounds_fin zero); done.
  - apply fin_spec, bounded_spec in Ha as [? _], Hb as [? _]. change (-1074) with umin in *.
    unfold sub. simpl. rewrite <- (aligned sa ma ea (Z.min ea eb)), <- (aligned sb mb eb (Z.min ea eb)) by lia.
    rewrite <- Z.mul_sub_distr_r. apply binary_normalize_rounds. lia.
Qed.

Lemma of_Z_rounds z : rounds (z * 2 ^ 1074) (of_Z z).
Proof. apply (binary_normalize_rounds z 0). done. Qed.

(** ** Consequences *)

(** Adding a non-negative margin never lowers a finite number. *)
Lemma add_margin a eps : fin a = true -> fin eps = true -> 0 <= units eps -> leb a (add a eps) = true.
Proof. intros Ha He H. apply (rounds_below _ _ (add_rounds a eps Ha He)); [done|lia]. Qed.

Lemma sub_margin a eps : fin a = true -> fin eps = true -> 0 <= units eps -> leb (sub a eps) a = true.
Proof. intros Ha He H. apply (rounds_above _ _ (sub_rounds a eps Ha He)); [done|lia]. Qed.

Definition tiny : number := S754_finite false 1 (-1074).

Lemma rounds_sign v z : rounds v z -> sign z = (v ?= 0).
Proof.
  intros [Hr Hb Ha]. destruct (Z.compare_spec v 0) as [->|Hv|Hv].
  - specialize (Hb zero eq_refl (Z.le_refl _)). specialize (Ha zero eq_refl (Z.le_refl _)).
    by destruct z as [[]|[]| |[] m e].
  - specialize (Ha (opp tiny) eq_refl). change (units (opp tiny)) with (-1) in Ha.
    specialize (Ha ltac:(lia)). by destruct z as [[]|[]| |[] m e].
  - specialize (Hb tiny eq_refl). change (units tiny) with 1 in Hb.
    specialize (Hb ltac:(lia)). by destruct z as [[]|[]| |[] m e].
Qed.

Lemma real_cases a : real a = true -> fin a = true \/ exists s, a = S754_infinity s.
Proof.
  unfold real, fin. destruct a as [| | |s m e]; simpl; eauto.
Qed.

(** The sign of a difference is the comparison: a comparator [(a, b) => a - b]
    sorts by [<]. *)
Lemma sub_sign a b : real a = true -> real b = true -> sign (sub a b) = cmp a b.
Proof.
  intros Ha Hb. destruct (real_cases a Ha) as [Fa|[sa ->]], (real_cases b Hb) as [Fb|[sb ->]].
  - rewrite (rounds_sign _ _ (sub_rounds a b Fa Fb)), fin_cmp by done. symmetry; apply Z.compare_sub.
  - clear Hb. apply fin_spec in Fa. by destruct a as [[]| | |[] ? ?], sb.
  - clear Ha. apply fin_spec in Fb. by destruct b as [[]| | |[] ? ?], sa.
  - by destruct sa, sb.
Qed.

Lemma sub_real a b : fin a = true -> fin b = true -> real (sub a b) = true.
Proof. intros. by eapply rounds_real, sub_rounds. Qed.

Lemma add_real a b : fin a = true -> fin b = true -> real (add a b) = true.
Proof. intros. by eapply rounds_real, add_rounds. Qed.

Lemma truthy_sign a : truthy a = match sign a with Eq => false | _ => true end.
Proof. by destruct a as [[]|[]| |[] ? ?]. Qed.

(** [a - b || c - d]: the first difference that is not zero decides. *)
Lemma or_else_sign a b : sign (or_else a b) = match sign a with Eq => sign b | o => o end.
Proof. unfold or_else. rewrite truthy_sign. by destruct (sign a) eqn:?. Qed.

Lemma eqb_cmp a b :
  is_nan a = false -> is_nan b = false -> eqb a b = match cmp a b with Eq => true | _ => false end.
Proof. intros. unfold eqb, SFeqb. rewrite SFcompare_cmp by done. by destruct (cmp a b). Qed.

(** [a - b || c - d] is negative when [a < b], or [a === b] and [c < d]. *)
Lemma or_else_sub_lt a b c d :
  real a = true -> real b = true -> real c = true -> real d = true ->
  sign (or_else (sub a b) (sub c d)) = Lt <-> ltb a b || (eqb a b && ltb c d) = true.
Proof.
  intros. rewrite or_else_sign, !sub_sign, !ltb_cmp, eqb_cmp by auto using real_not_nan.
  by destruct (cmp a b), (cmp c d).
Qed.

Lemma sub_lt a b : real a = true -> real b = true -> sign (sub a b) = Lt <-> ltb a b = true.
Proof. intros. rewrite sub_sign, ltb_cmp by auto using real_not_nan. by destruct (cmp a b). Qed.

Lemma real_refl_eqb a : real a = true -> eqb a a = true.
Proof. intros. rewrite eqb_cmp by auto using real_not_nan. unfold cmp. by rewrite lex_eq_refl. Qed.

(** [Math.floor]: exact on finite numbers, the identity elsewhere. *)
Definition floor (a : number) : number :=
  match a with
  | S754_finite _ _ _ => of_Z (units a / 2 ^ 1074)
  | _ => a
  end.

(** [Math.ceil], for the non-negative values it is used on. *)
Definition ceil (a : number) : number :=
  match a with
  | S754_finite _ _ _ => of_Z (- (- units a / 2 ^ 1074))
  | _ => a
  end.

(** [Math.sqrt]. *)
Definition sqrt (a : number) : number := SFsqrt prec emax a.

(** ** Quotients and roots are numbers

    [div] and [sqrt] hand [binary_round_aux] a mantissa that needs no left
    shift, so their results are canonical. *)

Lemma fexp_mono a b : a <= b -> fexp prec emax a <= fexp prec emax b.
Proof. rewrite !fexp_unfold. lia. Qed.

Lemma round_aux_real s m ex l :
  0 < m -> ex <= fexp prec emax (Zdigits2 m + ex) -> real (binary_round_aux prec emax s m ex l) = true.
Proof.
  intros Hm He. destruct (binary_round_aux_spec s m ex l Hm He) as (_ & _ & R & _ & H).
  destruct (binary_round_aux prec emax s m ex l); try done. destruct H as (_ & Hb & _).
  unfold real, valid. simpl. by rewrite Hb.
Qed.

Lemma round_aux_nonzero s m ex l z :
  0 < m -> -1074 < ex <= fexp prec emax (Zdigits2 m + ex) -> binary_round_aux prec emax s m ex l <> S754_zero z.
Proof.
  intros Hm [He He'] E. destruct (binary_round_aux_spec s m ex l Hm He') as (_ & Hq & R & HR & H).
  rewrite E in H. destruct H as [_ ->].
  assert (0 < 2 ^ (fexp prec emax (Zdigits2 m + ex) - umin)).
  { apply Z.pow_pos_nonneg; [lia|]. change umin with (-1074). lia. }
  specialize (Hq ltac:(change umin with (-1074); lia)). destruct HR as [HR|[HR _]]; nia.
Qed.

Lemma Zdigits2_ge m d : 0 <= d -> 2 ^ d <= m -> d + 1 <= Zdigits2 m.
Proof.
  intros Hd H. assert (0 < 2 ^ d) by (apply Z.pow_pos_nonneg; lia).
  destruct m as [|m|m]; try lia. simpl. apply digits2_ge. by replace (d + 1 - 1) with d by lia.
Qed.

Lemma sqrt_real m e :
  real (sqrt (S754_finite false m e)) = true /\
  (-1074 <= e -> forall s, sqrt (S754_finite false m e) <> S754_zero s).
Proof.
  unfold sqrt, SFsqrt, SFsqrt_core_binary. cbv zeta. simpl Zdigits2.
  set (d := Z.pos (digits2_pos m)). rewrite !Z.div2_div.
  set (e' := Z.min (fexp prec emax ((d + e + 1) / 2)) (e / 2)). set (s := e - 2 * e').
  pose proof (Z.div_mod e 2 ltac:(lia)) as Hde. pose proof (Z.mod_pos_bound e 2 ltac:(lia)) as Hme.
  assert (0 <= s) as Hs by lia.
  assert (match s with Z0 => Z.pos m | Z.pos _ => Z.shiftl (Z.pos m) s | Z.neg _ => 0 end = Z.pos m * 2 ^ s) as ->.
  { destruct s as [|p|p] eqn:E; [by rewrite Z.mul_1_r|by rewrite Z.shiftl_mul_pow2|lia]. }
  pose proof (Z.sqrtrem_spec (Z.pos m * 2 ^ s)) as Hq.
  destruct (Z.sqrtrem (Z.pos m * 2 ^ s)) as [q r].
  pose proof (digits2_pos_bounds m) as [Hdl _]. fold d in Hdl. assert (1 <= d) by (subst d; lia).
  assert (0 < 2 ^ s) by (apply Z.pow_pos_nonneg; lia).
  destruct Hq as [Hq Hr]; [lia|].
  set (k := (d + s - 1) / 2). pose proof (Z.div_mod (d + s - 1) 2 ltac:(lia)) as Hdk.
  pose proof (Z.mod_pos_bound (d + s - 1) 2 ltac:(lia)) as Hmk. fold k in Hdk.
  assert (0 <= k) as Hk by lia.
  assert (2 ^ k <= q) as Hkq.
  { destruct (Z.le_gt_cases (2 ^ k) q) as [|Hlt]; [done|exfalso].
    assert (2 ^ k * 2 ^ k <= Z.pos m * 2 ^ s); [|nia].
    rewrite <- Z.pow_add_r by lia. etrans; [|apply Z.mul_le_mono_nonneg_r; [lia|exact Hdl]].
    rewrite <- Z.pow_add_r by lia. apply Z.pow_le_mono_r; lia. }
  assert (0 < 2 ^ k) by (apply Z.pow_pos_nonneg; lia).
  pose proof (Zdigits2_ge q k Hk Hkq) as Hd.
  pose proof (Z.div_mod (d + e + 1) 2 ltac:(lia)). pose proof (Z.mod_pos_bound (d + e + 1) 2 ltac:(lia)).
  assert (e' <= fexp prec emax (Zdigits2 q + e')) as He'.
  { etrans; [apply Z.le_min_l|]. apply fexp_mono. fold e'. lia. }
  split; [by apply round_aux_real; [lia|]|]. intros He z. apply round_aux_nonzero; [lia|]. split; [|done].
  unfold e'. rewrite fexp_unfold. lia.
Qed.

(** A zero mantissa at the least exponent: what an underflowing quotient
    leaves. *)
Lemma round_aux_zero s l : real (binary_round_aux prec emax s 0 (-1074) l) = true.
Proof. by destruct s, l as [|[]]. Qed.

Lemma div_real s1 m1 e1 s2 m2 e2 :
  fin (S754_finite s1 m1 e1) = true -> fin (S754_finite s2 m2 e2) = true -> -1074 <= e1 - e2 ->
  real (div (S754_finite s1 m1 e1) (S754_finite s2 m2 e2)) = true.
Proof.
  intros F1 F2 He. unfold div, SFdiv, SFdiv_core_binary. cbv zeta. simpl Zdigits2.
  pose proof (digits2_pos_bounds m1) as [L1 U1]. pose proof (digits2_pos_bounds m2) as [L2 U2].
  assert (Z.pos (digits2_pos m1) <= 53 /\ Z.pos (digits2_pos m2) <= 53) as [D1 D2].
  { apply fin_spec, bounded_spec in F1 as (_ & ? & _), F2 as (_ & ? & _). split; apply digits2_le; lia. }
  set (d1 := Z.pos (digits2_pos m1)) in *. set (d2 := Z.pos (digits2_pos m2)) in *.
  set (e' := Z.min (fexp prec emax (d1 + e1 - (d2 + e2))) (e1 - e2)). set (s := e1 - e2 - e').
  assert (0 <= s) as Hs by lia. assert (0 < 2 ^ s) by (apply Z.pow_pos_nonneg; lia).
  assert (match s with Z0 => Z.pos m1 | Z.pos _ => Z.shiftl (Z.pos m1) s | Z.neg _ => 0 end = Z.pos m1 * 2 ^ s) as ->.
  { destruct s as [|p|p] eqn:E; [by rewrite Z.mul_1_r|by rewrite Z.shiftl_mul_pow2|lia]. }
  pose proof (Z_div_mod (Z.pos m1 * 2 ^ s) (Z.pos m2) ltac:(lia)) as Hq.
  destruct (Z.div_eucl (Z.pos m1 * 2 ^ s) (Z.pos m2)) as [q r]. destruct Hq as [Hq Hr].
  assert (0 <= q) as Hq0 by nia.
  destruct (Z.eq_dec e' (-1074)) as [He'|He'].
  - rewrite He'. destruct (Z.eq_dec q 0) as [->|]; [apply round_aux_zero|].
    apply round_aux_real; [lia|]. rewrite fexp_unfold. lia.
  - assert (e' = d1 + e1 - (d2 + e2) - 53 /\ 0 <= d1 + s - 1 - d2) as [Hee Hk].
    { unfold s, e' in *. rewrite fexp_unfold in *. subst d1 d2. lia. }
    assert (0 < 2 ^ (d1 + s - 1 - d2)) by (apply Z.pow_pos_nonneg; lia).
    assert (2 ^ (d1 + s - 1 - d2) <= q) as Hkq.
    { destruct (Z.le_gt_cases (2 ^ (d1 + s - 1 - d2)) q) as [|Hlt]; [done|exfalso].
      assert (2 ^ (d1 + s - 1 - d2) * 2 ^ d2 <= Z.pos m1 * 2 ^ s); [|nia].
      rewrite <- Z.pow_add_r by lia. etrans; [|apply Z.mul_le_mono_nonneg_r; [lia|exact L1]].
      rewrite <- Z.pow_add_r by lia. apply Z.pow_le_mono_r; lia. }
    apply round_aux_real; [lia|]. pose proof (Zdigits2_ge q _ Hk Hkq) as Hd.
    etrans; [apply Z.le_min_l|]. apply fexp_mono. fold e'. lia.
Qed.

Lemma of_Z_pos z :
  0 < z < 2 ^ 53 -> exists m e, of_Z z = S754_finite false m e /\ -53 < e /\ fin (of_Z z) = true.
Proof.
  intros [Hz Hu]. destruct (of_Z_rounds z) as [Hr Hb Ha].
  assert (leb one (of_Z z) = true) as H1.
  { apply Hb; [done|]. replace (units one) with (1 * 2 ^ 1074) by (by vm_compute).
    apply Z.mul_le_mono_nonneg_r; [apply Z.pow_nonneg; lia|lia]. }
  assert (leb (of_Z z) (of_Z (2 ^ 53)) = true) as H2.
  { apply Ha; [done|]. replace (units (of_Z (2 ^ 53))) with (2 ^ 53 * 2 ^ 1074) by (by vm_compute).
    apply Z.mul_le_mono_nonneg_r; [apply Z.pow_nonneg; lia|lia]. }
  destruct (real_cases _ Hr) as [Hf|[[] E]]; [|by rewrite E in H1|by rewrite E in H2].
  destruct (of_Z z) as [zs| | |[] m e]; try done. rewrite fin_leb in H1 by done.
  exists m, e. split; [done|]. split; [|done]. apply Z.leb_le in H1.
  apply fin_spec, bounded_spec in Hf as (He & Hm & _).
  replace (units one) with (2 ^ 1074) in H1 by (by vm_compute). simpl in H1. unfold mag in H1.
  change umin with (-1074) in H1. destruct (Z.le_gt_cases e (-53)) as [Hle|]; [exfalso|lia].
  assert (Z.pos m * 2 ^ (e - -1074) < 2 ^ 53 * 2 ^ (e - -1074)) as H.
  { apply Z.mul_lt_mono_pos_r; [apply Z.pow_pos_nonneg; lia|done]. }
  rewrite <- Z.pow_add_r in H by lia. assert (2 ^ (53 + (e - -1074)) <= 2 ^ 1074) by (apply Z.pow_le_mono_r; lia). lia.
Qed.

(** The quotient of a count by the root of a positive count. *)
Lemma div_sqrt_real n w : 0 <= n < 2 ^ 53 -> 0 < w < 2 ^ 53 -> real (div (of_Z n) (sqrt (of_Z w))) = true.
Proof.
  intros Hn Hw. destruct (of_Z_pos w Hw) as (m & e & -> & He & _).
  destruct (sqrt_real m e) as [Hs Hz]. specialize (Hz ltac:(lia)).
  destruct (Z.eq_dec n 0) as [->|]; [by destruct (sqrt (S754_finite false m e)) as [z| | |]; [destruct (Hz z)|..]|].
  destruct (of_Z_pos n ltac:(lia)) as (mn & en & -> & Hen & Hfn).
  destruct (real_cases _ Hs) as [Hf|[s ->]]; [|done].
  destruct (sqrt (S754_finite false m e)) as [z| | |s ms es]; [by destruct (Hz z)|done..|].
  apply div_real; [done..|]. apply fin_spec, bounded_spec in Hf. lia.
Qed.

(** ** Exact results

    Sums, differences and conversions of integers below [2^53] are exact, and
    so is every result that is a multiple of a power of two with at most 53
    digits. *)

Lemma double_exists n e :
  0 <= n < 2 ^ 53 -> -1074 <= e <= 971 -> exists y, fin y = true /\ units y = n * 2 ^ (e + 1074).
Proof.
  intros Hn He. destruct n as [|m|m]; [by exists zero| |lia].
  pose proof (digits2_pos_bounds m) as [Hl Hu].
  pose proof (digits2_le m 53 ltac:(lia) ltac:(lia)) as Hd. set (d := Z.pos (digits2_pos m)) in *.
  set (k := Z.min (53 - d) (e + 1074)).
  assert (0 < 2 ^ k) by (apply Z.pow_pos_nonneg; lia).
  destruct (Z.pos m * 2 ^ k) as [|m'|m'] eqn:E; try lia.
  exists (S754_finite false m' (e - k)). rewrite fin_spec, bounded_spec, <- E. split.
  - split; [lia|]. split.
    + eapply Z.lt_le_trans; [apply Z.mul_lt_mono_pos_r; [done|apply Hu]|].
      rewrite <- Z.pow_add_r by lia. apply Z.pow_le_mono_r; lia.
    + intros. etrans; [|apply Z.mul_le_mono_nonneg_r; [lia|apply Hl]].
      rewrite <- Z.pow_add_r by lia. apply Z.pow_le_mono_r; lia.
  - simpl. unfold mag. rewrite <- E, <- Z.mul_assoc, <- Z.pow_add_r by (change umin with (-1074); lia).
    do 2 f_equal. change umin with (-1074). lia.
Qed.

Lemma rounds_exact v z y : rounds v z -> fin y = true -> units y = v -> fin z = true /\ units z = v.
Proof.
  intros [Hr Hb Ha] Hy <-. specialize (Hb y Hy (Z.le_refl _)). specialize (Ha y Hy (Z.le_refl _)).
  destruct (real_cases _ Hr) as [Hf|[[] ->]].
  - split; [done|]. rewrite fin_leb, Z.leb_le in Hb, Ha by done. lia.
  - exfalso. apply fin_spec in Hy. by destruct y as [[]| | |[] ? ?].
  - exfalso. apply fin_spec in Hy. by destruct y as [[]| | |[] ? ?].
Qed.

Lemma rounds_double n e z :
  0 <= n < 2 ^ 53 -> -1074 <= e <= 971 -> rounds (n * 2 ^ (e + 1074)) z ->
  fin z = true /\ units z = n * 2 ^ (e + 1074).
Proof. intros Hn He Hz. destruct (double_exists n e Hn He) as (y & Hy & Hu). by apply (rounds_exact _ _ y). Qed.

Lemma of_Z_exact z : 0 <= z < 2 ^ 53 -> fin (of_Z z) = true /\ units (of_Z z) = z * 2 ^ 1074.
Proof. intros Hz. apply (rounds_double z 0); [done|done|apply of_Z_rounds]. Qed.

Lemma of_Z_fin z : 0 <= z < 2 ^ 53 -> fin (of_Z z) = true.
Proof. intros Hz. by apply of_Z_exact. Qed.

Lemma units_one : units one = 2 ^ 1074.
Proof. by vm_compute. Qed.

Lemma of_Z_order a b : 0 <= a < 2 ^ 53 -> 0 <= b < 2 ^ 53 -> leb (of_Z a) (of_Z b) = (a <=? b).
Proof.
  intros Ha Hb. destruct (of_Z_exact a Ha) as [Fa Ua], (of_Z_exact b Hb) as [Fb Ub].
  rewrite fin_leb by done. rewrite Ua, Ub. destruct (Z.leb_spec a b); [apply Z.leb_le|apply Z.leb_gt];
    pose proof (Z.pow_pos_nonneg 2 1074 ltac:(lia) ltac:(lia)); nia.
Qed.

Lemma scaled_lt m d x k : 0 <= d -> m < 2 ^ d -> 0 <= x <= k -> m * 2 ^ x < 2 ^ (d + k).
Proof.
  intros Hd Hm Hx. apply (Z.lt_le_trans _ (2 ^ d * 2 ^ x)).
  - apply Z.mul_lt_mono_pos_r; [apply Z.pow_pos_nonneg; lia|done].
  - rewrite <- Z.pow_add_r by lia. apply Z.pow_le_mono_r; lia.
Qed.

(** Subtracting one from a number of at least one loses nothing. *)
Lemma sub_one_exact t :
  fin t = true -> 2 ^ 1074 <= units t < 2 ^ 1127 ->
  fin (sub t one) = true /\ units (sub t one) = units t - 2 ^ 1074.
Proof.
  intros Ft [Hl Hu]. pose proof (sub_rounds t one Ft eq_refl) as Hr. rewrite units_one in Hr.
  assert (0 < 2 ^ 1074) by (apply Z.pow_pos_nonneg; lia).
  destruct t as [s| | |[] m e]; simpl in Hl, Hu; try lia; [by pose proof (units_nonpos _ Ft I); simpl in *; lia|].
  apply fin_spec, bounded_spec in Ft as (He & Hm & Hn). simpl units in *. unfold mag in *.
  change umin with (-1074) in *. replace (e - -1074) with (e + 1074) in * by lia.
  assert (e <= 0).
  { destruct (Z.le_gt_cases e 0) as [|Hgt]; [done|exfalso].
    assert (2 ^ 52 * 2 ^ 1075 <= Z.pos m * 2 ^ (e + 1074)); [|lia].
    apply Z.mul_le_mono_nonneg; try lia. apply Z.pow_le_mono_r; lia. }
  assert (-52 <= e).
  { destruct (Z.le_gt_cases (-52) e) as [|Hlt]; [done|exfalso].
    pose proof (scaled_lt (Z.pos m) 53 (e + 1074) 1021 ltac:(lia) ltac:(lia) ltac:(lia)). lia. }
  assert (2 ^ 1074 = 2 ^ (- e) * 2 ^ (e + 1074)) as E by (rewrite <- Z.pow_add_r by lia; f_equal; lia).
  assert (0 < 2 ^ (e + 1074)) by (apply Z.pow_pos_nonneg; lia).
  assert (0 < 2 ^ (- e)) by (apply Z.pow_pos_nonneg; lia).
  rewrite E, <- Z.mul_sub_distr_r in *. apply rounds_double; [nia|lia|done].
Qed.

(** [x] is the integer [n], which the counters of the program hold. *)
Definition counts (x : number) (n : Z) : Prop := fin x = true /\ units x = n * 2 ^ 1074.

Lemma counts_zero : counts zero 0.
Proof. done. Qed.

(** A count below [2^53] is incremented exactly. *)
Lemma counts_succ x n : counts x n -> 0 <= n -> n + 1 < 2 ^ 53 -> counts (add x one) (n + 1).
Proof.
  intros [F U] Hn Hu. pose proof (add_rounds x one F eq_refl) as Hr. rewrite U, units_one in Hr.
  apply (rounds_double (n + 1) 0); [lia|lia|].
  by replace ((n + 1) * 2 ^ (0 + 1074)) with (n * 2 ^ 1074 + 2 ^ 1074) by lia.
Qed.

Lemma counts_geb x n c : counts x n -> 0 <= c < 2 ^ 53 -> geb x (of_Z c) = (c <=? n).
Proof.
  intros [F U] Hc. destruct (of_Z_exact c Hc) as [Fc Uc]. unfold geb. change (SFleb (of_Z c) x) with (leb (of_Z c) x).
  rewrite fin_leb, U, Uc by done. assert (0 < 2 ^ 1074) by (apply Z.pow_pos_nonneg; lia).
  destruct (Z.leb_spec c n); [apply Z.leb_le|apply Z.leb_gt]; nia.
Qed.

(** A value other than zero has one encoding. *)
Lemma units_inj a b : fin a = true -> fin b = true -> units a = units b -> units a <> 0 -> a = b.
Proof.
  intros Fa Fb E H0. apply fin_spec in Fa, Fb.
  destruct a as [| | |sa ma ea], b as [| | |sb mb eb]; try done; simpl in E, H0; try done; try lia.
  pose proof (mag_compare ma ea mb eb Fa Fb) as C.
  pose proof (mag_pos ma ea) as Pa. pose proof (mag_pos mb eb) as Pb.
  apply bounded_spec in Fa as (? & _), Fb as (? & _). change umin with (-1074) in *.
  assert (sa = sb /\ mag ma ea = mag mb eb) as [-> Em] by (destruct sa, sb; simpl in E; (split; [done|lia]) || lia).
  rewrite Em, Z.compare_refl in C. destruct (Z.compare_spec ea eb) as [->| |]; try done.
  symmetry in C. apply Z.compare_eq in C. by simplify_eq.
Qed.

Lemma sub_of_Z a b : 0 <= b < a -> a < 2 ^ 53 -> sub (of_Z a) (of_Z b) = of_Z (a - b).
Proof.
  intros Hb Ha. destruct (of_Z_exact a ltac:(lia)) as [Fa Ua], (of_Z_exact b ltac:(lia)) as [Fb Ub].
  destruct (of_Z_exact (a - b) ltac:(lia)) as [F U].
  pose proof (sub_rounds _ _ Fa Fb) as Hr. rewrite Ua, Ub, <- Z.mul_sub_distr_r, <- U in Hr.
  destruct (rounds_exact _ _ _ Hr F eq_refl) as [Fs Us]. apply units_inj; [done..|]. rewrite Us, U.
  assert (0 < 2 ^ 1074) by (apply Z.pow_pos_nonneg; lia). nia.
Qed.

(** A rounding overshoots by at most one step of any grid of doubles. *)
Lemma rounds_grid v z e :
  rounds v z -> 0 <= v -> -1074 <= e <= 971 -> v + 2 ^ (e + 1074) < 2 ^ (53 + (e + 1074)) ->
  fin z = true /\ 0 <= units z < v + 2 ^ (e + 1074).
Proof.
  intros [Hr Hb Ha] Hv He Hu. set (G := 2 ^ (e + 1074)) in *. assert (0 < G) by (apply Z.pow_pos_nonneg; lia).
  rewrite Z.pow_add_r in Hu by lia. fold G in Hu.
  set (n := - (- v / G)). assert (v <= n * G < v + G) as Hn.
  { unfold n. pose proof (Z.div_mod (- v) G ltac:(lia)). pose proof (Z.mod_pos_bound (- v) G ltac:(lia)). nia. }
  destruct (double_exists n e) as (y & Fy & Uy); [nia|done|]. fold G in Uy.
  specialize (Ha y Fy ltac:(lia)). specialize (Hb zero eq_refl Hv).
  destruct (real_cases _ Hr) as [Hf|[[] ->]]; [|done|by apply fin_spec in Fy; destruct y as [[]| | |[] ? ?]].
  rewrite fin_leb, Z.leb_le in Ha, Hb by done. simpl in Hb. split; [done|lia].
Qed.

(** ** Products and quotients *)

(** The product of a number that is not tiny and a positive integer. *)
Lemma mul_of_Z_rounds a w :
  fin a = true -> 2 ^ 1014 <= units a -> 0 < w < 2 ^ 53 -> rounds (units a * w) (mul a (of_Z w)).
Proof.
  intros Fa Ha Hw. destruct (of_Z_pos w Hw) as (mb & eb & E & Heb & Fb).
  destruct (of_Z_exact w ltac:(lia)) as [_ Ub]. rewrite E in *.
  assert (0 < 2 ^ 1014) by (apply Z.pow_pos_nonneg; lia).
  destruct a as [s| | |[] ma ea]; try (simpl in Ha; lia);
    [by pose proof (units_nonpos _ Fa I); simpl in *; lia|].
  apply fin_spec, bounded_spec in Fa as (He & Hm & Hn). simpl units in *. unfold mag in *.
  change umin with (-1074) in *.
  assert (-113 < ea).
  { destruct (Z.le_gt_cases ea (-113)) as [Hle|]; [exfalso|lia].
    pose proof (scaled_lt (Z.pos ma) 53 (ea - -1074) 961 ltac:(lia) ltac:(lia) ltac:(lia)). lia. }
  assert (Z.pos ma * 2 ^ (ea - -1074) * w = Z.pos (ma * mb) * 2 ^ (ea + eb - umin)) as ->.
  { apply (Z.mul_reg_r _ _ (2 ^ 1074)); [lia|]. rewrite <- Z.mul_assoc, <- Ub, Pos2Z.inj_mul.
    rewrite <- Z.mul_assoc, <- Z.mul_assoc, <- Z.mul_assoc, <- Z.pow_add_r by (change umin with (-1074); lia).
    rewrite (Z.mul_comm (Z.pos mb)), (Z.mul_assoc _ _ (Z.pos mb)), <- Z.pow_add_r by lia.
    rewrite (Z.mul_comm _ (Z.pos mb)). do 3 f_equal. change umin with (-1074). lia. }
  unfold mul. simpl. apply round_aux_rounds; [lia|]. change umin with (-1074). split; [lia|].
  rewrite fexp_unfold. assert (53 <= Zdigits2 (Z.pos (ma * mb))); [|lia].
  apply (Zdigits2_ge _ 52); [lia|]. specialize (Hn ltac:(lia)). rewrite Pos2Z.inj_mul. nia.
Qed.

(** The quotient of two positive integers, between every pair of doubles
    around the exact quotient. *)
Record quotient (n d : Z) (z : number) : Prop := {
  quotient_real : real z = true;
  quotient_below y : fin y = true -> units y * d <= n * 2 ^ 1074 -> leb y z = true;
  quotient_above y : fin y = true -> n * 2 ^ 1074 <= units y * d -> leb z y = true;
}.

Lemma new_location_exact d r : new_location d r = loc_Exact <-> r = 0.
Proof.
  unfold new_location, new_location_even, new_location_odd.
  destruct (Z.even d), (Z.eqb_spec r 0); split; intros; done || congruence.
Qed.

(** What [SFdiv] hands to the rounding: the truncated quotient at an exponent
    that keeps 53 digits of it, and whether a remainder was lost. *)
Lemma div_finite m1 e1 m2 e2 :
  Z.pos m1 < 2 ^ 53 -> Z.pos m2 < 2 ^ 53 -> -53 < e1 <= 971 -> -53 < e2 <= 53 ->
  exists q r e', div (S754_finite false m1 e1) (S754_finite false m2 e2) =
      binary_round_aux prec emax false q e' (new_location (Z.pos m2) r) /\
    0 < q /\ 0 <= r < Z.pos m2 /\ umin <= e' <= e1 - e2 /\ e' <= fexp prec emax (Zdigits2 q + e') /\
    Z.pos m1 * 2 ^ (e1 - e2 - e') = Z.pos m2 * q + r.
Proof.
  intros Hm1 Hm2 He1 He2. unfold div, SFdiv, SFdiv_core_binary. cbv zeta. simpl Zdigits2.
  pose proof (digits2_pos_bounds m1) as [L1 _]. pose proof (digits2_pos_bounds m2) as [_ U2].
  pose proof (digits2_le m1 53 ltac:(lia) Hm1). pose proof (digits2_le m2 53 ltac:(lia) Hm2).
  set (d1 := Z.pos (digits2_pos m1)) in *. set (d2 := Z.pos (digits2_pos m2)) in *.
  assert (1 <= d1 /\ 1 <= d2) as [] by (subst d1 d2; lia).
  set (e' := Z.min (fexp prec emax (d1 + e1 - (d2 + e2))) (e1 - e2)). set (s := e1 - e2 - e').
  assert (0 <= s) as Hs by lia. assert (0 < 2 ^ s) by (apply Z.pow_pos_nonneg; lia).
  assert (match s with Z0 => Z.pos m1 | Z.pos _ => Z.shiftl (Z.pos m1) s | Z.neg _ => 0 end = Z.pos m1 * 2 ^ s) as ->.
  { destruct s as [|p|p] eqn:E; [by rewrite Z.mul_1_r|by rewrite Z.shiftl_mul_pow2|lia]. }
  pose proof (Z_div_mod (Z.pos m1 * 2 ^ s) (Z.pos m2) ltac:(lia)) as Hq.
  destruct (Z.div_eucl (Z.pos m1 * 2 ^ s) (Z.pos m2)) as [q r]. destruct Hq as [Hq Hr].
  assert (umin <= e' /\ 0 <= d1 + s - 1 - d2 /\ (e' = e1 - e2 \/ e' = d1 + e1 - (d2 + e2) - 53)) as (Hee & Hk & Hc).
  { unfold s, e'. rewrite fexp_unfold. change umin with (-1074). lia. }
  exists q, r, e'. split; [done|].
  assert (0 < 2 ^ (d1 + s - 1 - d2)) by (apply Z.pow_pos_nonneg; lia).
  assert (2 ^ (d1 + s - 1 - d2) <= q) as Hkq.
  { destruct (Z.le_gt_cases (2 ^ (d1 + s - 1 - d2)) q) as [|Hlt]; [done|exfalso].
    assert (2 ^ (d1 + s - 1 - d2) * 2 ^ d2 <= Z.pos m1 * 2 ^ s); [|nia].
    rewrite <- Z.pow_add_r by lia. etrans; [|apply Z.mul_le_mono_nonneg_r; [lia|exact L1]].
    rewrite <- Z.pow_add_r by lia. apply Z.pow_le_mono_r; lia. }
  repeat split; try exact Hq; try lia. pose proof (Zdigits2_ge q _ Hk Hkq) as Hd.
  etrans; [apply Z.le_min_l|]. apply fexp_mono. fold e'. lia.
Qed.

Lemma div_of_Z n d : 0 < n < 2 ^ 53 -> 0 < d < 2 ^ 53 -> quotient n d (div (of_Z n) (of_Z d)).
Proof.
  intros Hn Hd. destruct (of_Z_pos n Hn) as (m1 & e1 & E1 & He1 & F1), (of_Z_pos d Hd) as (m2 & e2 & E2 & He2 & F2).
  destruct (of_Z_exact n ltac:(lia)) as [_ U1], (of_Z_exact d ltac:(lia)) as [_ U2]. rewrite E1, E2 in *.
  apply fin_spec, bounded_spec in F1 as (? & ? & _), F2 as (? & ? & _). simpl units in U1, U2. unfold mag in U1, U2.
  assert (e2 <= 53).
  { destruct (Z.le_gt_cases e2 53) as [|Hgt]; [done|exfalso].
    pose proof (scaled_lt d 53 1074 1074 ltac:(lia) ltac:(lia) ltac:(lia)).
    assert (2 ^ (53 + 1074) <= 2 ^ (e2 - -1074)) by (apply Z.pow_le_mono_r; lia).
    change (e2 - umin) with (e2 - -1074) in U2. nia. }
  destruct (div_finite m1 e1 m2 e2) as (q & r & e' & -> & Hq & Hr & He' & Hf & Hqr); [lia..|].
  change umin with (-1074) in *. set (X := 2 ^ (e' - -1074)).
  assert (0 < X) by (apply Z.pow_pos_nonneg; lia).
  assert (n * 2 ^ 1074 * Z.pos m2 = d * ((Z.pos m2 * q + r) * X)) as Hx.
  { apply (Z.mul_reg_r _ _ (2 ^ (e2 - -1074))); [pose proof (Z.pow_pos_nonneg 2 (e2 - -1074)); lia|].
    rewrite <- U1, <- Hqr. unfold X.
    replace (d * (Z.pos m1 * 2 ^ (e1 - e2 - e') * 2 ^ (e' - -1074)) * 2 ^ (e2 - -1074))
      with (d * Z.pos m1 * (2 ^ (e1 - e2 - e') * 2 ^ (e' - -1074) * 2 ^ (e2 - -1074))) by ring.
    rewrite <- !Z.pow_add_r by lia.
    replace (e1 - e2 - e' + (e' - -1074) + (e2 - -1074)) with ((e1 - -1074) + 1074) by lia.
    rewrite Z.pow_add_r, Z.mul_assoc, <- (Z.mul_assoc _ _ (2 ^ 1074)) by lia.
    replace (Z.pos m1 * 2 ^ (e1 - -1074) * Z.pos m2 * 2 ^ (e2 - -1074))
      with (Z.pos m1 * 2 ^ (e1 - -1074) * (Z.pos m2 * 2 ^ (e2 - -1074))) by ring.
    rewrite U2. ring. }
  set (v := (Z.pos m2 * q + r) * X) in *.
  destruct (round_aux_between q e' (new_location (Z.pos m2) r) (v / Z.pos m2) (- (- v / Z.pos m2))) as [Hre Hbe Hab].
  - done.
  - change umin with (-1074). lia.
  - change umin with (-1074). fold X. split; [apply Z.div_le_lower_bound|apply Z.div_lt_upper_bound]; unfold v; nia.
  - change umin with (-1074). fold X. enough (- v / Z.pos m2 <= - (q * X)) by lia.
    apply Z.div_le_upper_bound; unfold v; nia.
  - rewrite new_location_exact. destruct (Z.eq_dec r 0); [by left|right]. change umin with (-1074). fold X.
    enough (- v / Z.pos m2 < - (q * X)) by lia. apply Z.div_lt_upper_bound; unfold v; nia.
  - split; [done|..]; intros y Hy Hc; [apply Hbe|apply Hab]; try done.
    + apply Z.div_le_lower_bound; [lia|]. nia.
    + enough (- units y <= - v / Z.pos m2) by lia. apply Z.div_le_lower_bound; [lia|]. nia.
Qed.

End Num.
