(* ===== verification/Rounding.v ===== *)
(** * Rounding of any result

    Products and quotients of arbitrary finite doubles, underflow included: no
    double separates the result from the exact value.  What follows from it
    alone: sums and means stay within the bounds of their terms, a midpoint lies
    between its ends, scaling by a fraction below one stays below. *)

From S2P Require Import Prelude Number.

Local Open Scope Z_scope.

Module Rounding.
Import Num.

(** [z] is a rounding of [n / d] units. *)
Record near (n d : Z) (z : number) : Prop := {
  near_real : real z = true;
  near_below y : fin y = true -> units y * d <= n -> leb y z = true;
  near_above y : fin y = true -> n <= units y * d -> leb z y = true;
}.

Lemma rounds_near v z : rounds v z -> near v 1 z.
Proof. intros [Hr Hb Ha]. split; [done|..]; intros y Hy; rewrite Z.mul_1_r; auto. Qed.

Lemma near_opp n d z : near n d z -> near (- n) d (opp z).
Proof.
  intros [Hr Hb Ha]. split; [by rewrite real_opp|..]; intros y Hy Hv; rewrite <- (opp_involutive y), leb_opp;
    [apply Ha|apply Hb]; rewrite ?fin_opp, ?units_opp; done || lia.
Qed.

(** A magnitude [R] on the grid of spacing [F] around [n / d]. *)
Lemma near_magnitude n d q f R z :
  0 < d -> 0 <= q -> umin <= f -> (umin < f -> 2 ^ 52 <= q) -> 
  let F := 2 ^ (f - umin) in
  q * F * d <= n < (q + 1) * F * d -> R = q * F \/ (R = (q + 1) * F /\ q * F * d < n) ->
  match z with
  | S754_zero s' => s' = false /\ R = 0
  | S754_finite s' m' e => s' = false /\ bounded prec emax m' e = true /\ mag m' e = R
  | S754_infinity s' => s' = false /\ 2 ^ (1024 - umin) <= R
  | S754_nan => False
  end ->
  near n d z.
Proof.
  intros Hd Hq Hf Hl F Hn HR Hz. assert (0 < F) by (apply Z.pow_pos_nonneg; lia).
  destruct (magnitude_rounds (n / d) (- (- n / d)) R z Hz) as [Hr Hb Ha].
  - intros y Hy Hyv. enough (units y <= q * F) by (destruct HR as [->|[-> _]]; lia).
    destruct y as [| | |[] my ey]; try done; try (simpl; nia).
    + pose proof (units_nonpos (S754_finite true my ey) Hy I). nia.
    + apply fin_spec in Hy. apply (grid_below q f my ey (n / d)); try done.
      apply Z.div_lt_upper_bound; [done|]. fold F. lia.
  - intros y Hy Hyv. assert (n <= units y * d) as Hnd.
    { pose proof (Z.div_mod (- n) d ltac:(lia)). pose proof (Z.mod_pos_bound (- n) d ltac:(lia)). nia. }
    destruct HR as [->|[-> Hlt]]; [nia|]. destruct y as [| | |[] my ey]; try done; try (simpl in *; nia).
    + pose proof (units_nonpos (S754_finite true my ey) Hy I). nia.
    + apply fin_spec in Hy. apply (grid_above q f my ey (mag my ey)); try done. fold F. simpl in Hnd. nia.
  - split; [done|..]; intros y Hy Hv; [apply Hb|apply Ha]; try done.
    + apply Z.div_le_lower_bound; [done|]. lia.
    + enough (- units y <= - n / d) by lia. apply Z.div_le_lower_bound; [done|]. lia.
Qed.

(** One rounding of a mantissa at any exponent, [2 ^ k] scaling it back onto
    the integers. *)
Lemma round_aux_near m ex l k n d :
  0 < m -> ex <= fexp prec emax (Zdigits2 m + ex) -> 0 < d -> 0 <= k -> umin <= ex + k ->
  let X := 2 ^ (ex + k - umin) in
  m * X * d <= n * 2 ^ k < (m + 1) * X * d -> l = loc_Exact \/ m * X * d < n * 2 ^ k ->
  near n d (binary_round_aux prec emax false m ex l).
Proof.
  intros Hm He Hd Hk Hex X Hn Hl.
  destruct (binary_round_aux_spec false m ex l Hm He) as (Hq & Hq52 & R & HR & Hz).
  set (f := fexp prec emax (Zdigits2 m + ex)) in *. set (q := m / 2 ^ (f - ex)) in *.
  assert (umin <= f) as Hf by (unfold f; rewrite fexp_unfold; change umin with (-1074); lia).
  set (F := 2 ^ (f - umin)) in *. set (D := 2 ^ (f - ex)) in *. set (K := 2 ^ k) in *.
  assert (0 < D) by (apply Z.pow_pos_nonneg; lia). assert (0 < K) by (apply Z.pow_pos_nonneg; lia).
  assert (0 < X) by (apply Z.pow_pos_nonneg; lia).
  assert (F * K = D * X) as E.
  { unfold F, K, D, X. rewrite <- !Z.pow_add_r by lia. f_equal. lia. }
  pose proof (Z.div_mod m D ltac:(lia)) as Hdm. fold q in Hdm.
  pose proof (Z.mod_pos_bound m D ltac:(lia)) as Hmb.
  assert (forall j, j * F * d * K = j * D * X * d) as Hj.
  { intros j. transitivity (j * (F * K) * d); [ring|]. rewrite E. ring. }
  apply (near_magnitude n d q f R _); [lia..|fold F; split| |done].
  - apply (Z.mul_le_mono_pos_r _ _ K); [done|]. rewrite Hj. etrans; [|apply Hn].
    apply Z.mul_le_mono_nonneg_r; [lia|]. apply Z.mul_le_mono_nonneg_r; lia.
  - apply (Z.mul_lt_mono_pos_r K); [done|]. rewrite Hj. eapply Z.lt_le_trans; [apply Hn|].
    apply Z.mul_le_mono_nonneg_r; [lia|]. apply Z.mul_le_mono_nonneg_r; lia.
  - destruct HR as [->|[-> Hne]]; [by left|right]. split; [done|].
    apply (Z.mul_lt_mono_pos_r K); [done|]. rewrite Hj.
    destruct (Z.eq_dec (m mod D) 0) as [E0|E0].
    + destruct Hl as [->|Hl]; [by destruct Hne|]. replace (q * D) with m by lia. done.
    + eapply Z.lt_le_trans; [|apply Hn]. apply Z.mul_lt_mono_pos_r; [done|]. apply Z.mul_lt_mono_pos_r; [done|]. lia.
Qed.

(** A zero mantissa: what an underflowing quotient leaves. *)
Lemma round_zero_near ex l n d :
  ex <= -1074 -> 0 < d -> 0 <= n -> n * 2 ^ (-1074 - ex) < d -> l = loc_Exact \/ 0 < n ->
  near n d (binary_round_aux prec emax false 0 ex l).
Proof.
  intros He Hd Hn Hlt Hl. set (k := -1074 - ex) in *. assert (0 < 2 ^ k) by (apply Z.pow_pos_nonneg; lia).
  assert (n < d) as Hnd by nia.
  unfold binary_round_aux, shr_fexp at 1. simpl Zdigits2. rewrite fexp_unfold.
  replace (Z.max (0 + ex - 53) (-1074) - ex) with k by (unfold k; lia).
  destruct (shr_spec 0 l ex k) as (r & -> & Hm & Hx); [lia..|]. rewrite Z.div_0_l in Hm by lia. rewrite Hm.
  replace (ex + k) with (-1074) by (unfold k; lia).
  rewrite Z.mod_0_l in Hx by lia.
  apply (near_magnitude n d 0 (-1074) (round_nearest_even 0 (loc_of_shr_record r)) _); try (done || lia).
  - change (2 ^ (-1074 - umin)) with 1. lia.
  - destruct (round_nearest_even_spec 0 (loc_of_shr_record r)) as [->|[-> Hne]]; [by left|right].
    split; [done|]. destruct Hl as [->|]; [|lia]. by destruct Hne; apply Hx.
  - destruct (round_nearest_even_spec 0 (loc_of_shr_record r)) as [->|[-> _]]; by vm_compute.
Qed.

(** The exponent at which two canonical mantissas are multiplied needs no left
    shift. *)
Lemma mul_exponent m1 e1 m2 e2 :
  bounded prec emax m1 e1 = true -> bounded prec emax m2 e2 = true ->
  e1 + e2 <= fexp prec emax (Zdigits2 (Z.pos (m1 * m2)) + (e1 + e2)).
Proof.
  intros (H1 & _ & N1)%bounded_spec (H2 & _ & N2)%bounded_spec. rewrite fexp_unfold.
  destruct (Z.eq_dec e1 (-1074)), (Z.eq_dec e2 (-1074)); try lia.
  all: assert (53 <= Zdigits2 (Z.pos (m1 * m2))); [|lia]; apply (Zdigits2_ge _ 52); [lia|].
  all: rewrite Pos2Z.inj_mul; change umin with (-1074) in *; pose proof (Pos2Z.is_pos m1); pose proof (Pos2Z.is_pos m2).
  - specialize (N2 ltac:(lia)). nia.
  - specialize (N1 ltac:(lia)). nia.
  - specialize (N1 ltac:(lia)). nia.
Qed.

Lemma mul_pos m1 e1 m2 e2 :
  bounded prec emax m1 e1 = true -> bounded prec emax m2 e2 = true ->
  near (mag m1 e1 * mag m2 e2) (2 ^ 1074) (binary_round_aux prec emax false (Z.pos (m1 * m2)) (e1 + e2) loc_Exact).
Proof.
  intros B1 B2. pose proof (mul_exponent _ _ _ _ B1 B2) as He.
  apply bounded_spec in B1 as (H1 & _), B2 as (H2 & _). unfold mag. change umin with (-1074) in *.
  assert (Z.pos (m1 * m2) * 2 ^ (e1 + e2 + 1074 - -1074) * 2 ^ 1074
    = Z.pos m1 * 2 ^ (e1 - -1074) * (Z.pos m2 * 2 ^ (e2 - -1074)) * 2 ^ 1074) as E.
  { rewrite Pos2Z.inj_mul. replace (e1 + e2 + 1074 - -1074) with ((e1 - -1074) + (e2 - -1074)) by lia.
    rewrite Z.pow_add_r by lia. ring. }
  assert (0 < 2 ^ (e1 + e2 + 1074 - -1074)) by (apply Z.pow_pos_nonneg; lia).
  assert (0 < 2 ^ 1074) as H0 by (apply Z.pow_pos_nonneg; lia).
  apply (round_aux_near _ _ _ 1074); [lia|done|done|lia|change umin with (-1074); lia|change umin with (-1074)..].
  - rewrite <- E. split; [lia|]. apply Z.mul_lt_mono_pos_r; [done|]. apply Z.mul_lt_mono_pos_r; [done|]. lia.
  - by left.
Qed.

Lemma div_pos_near m1 e1 m2 e2 :
  bounded prec emax m1 e1 = true -> bounded prec emax m2 e2 = true ->
  near (mag m1 e1 * 2 ^ 1074) (mag m2 e2) (div (S754_finite false m1 e1) (S754_finite false m2 e2)).
Proof.
  intros B1 B2. pose proof (mag_pos m1 e1) as P1. pose proof (mag_pos m2 e2) as P2.
  apply bounded_spec in B1 as (H1 & M1 & _), B2 as (H2 & M2 & _). change umin with (-1074) in *.
  specialize (P1 ltac:(lia)). specialize (P2 ltac:(lia)).
  unfold div, SFdiv, SFdiv_core_binary. cbv zeta. simpl Zdigits2.
  pose proof (digits2_pos_bounds m1) as [L1 U1]. pose proof (digits2_pos_bounds m2) as [L2 U2].
  pose proof (digits2_le m1 53 ltac:(lia) ltac:(lia)) as D1.
  pose proof (digits2_le m2 53 ltac:(lia) ltac:(lia)) as D2.
  assert (1 <= Z.pos (digits2_pos m1) /\ 1 <= Z.pos (digits2_pos m2)) as [G1 G2] by lia.
  set (d1 := Z.pos (digits2_pos m1)) in *. set (d2 := Z.pos (digits2_pos m2)) in *.
  set (e' := Z.min (fexp prec emax (d1 + e1 - (d2 + e2))) (e1 - e2)). set (s := e1 - e2 - e').
  assert (0 <= s) as Hs by lia. assert (0 < 2 ^ s) by (apply Z.pow_pos_nonneg; lia).
  assert (match s with Z0 => Z.pos m1 | Z.pos _ => Z.shiftl (Z.pos m1) s | Z.neg _ => 0 end = Z.pos m1 * 2 ^ s) as ->.
  { destruct s as [|p|p] eqn:E; [by rewrite Z.mul_1_r|by rewrite Z.shiftl_mul_pow2|lia]. }
  pose proof (Z_div_mod (Z.pos m1 * 2 ^ s) (Z.pos m2) ltac:(lia)) as Hq.
  destruct (Z.div_eucl (Z.pos m1 * 2 ^ s) (Z.pos m2)) as [q r]. destruct Hq as [Hq Hr].
  assert (0 <= q) as Hq0 by nia.
  assert (e' = Z.min (Z.max (d1 + e1 - (d2 + e2) - 53) (-1074)) (e1 - e2)) as Ee by (unfold e'; by rewrite fexp_unfold).
  assert (-2200 <= e' <= 2100) as He' by lia.
  assert (-1074 < e' -> 0 < 2 ^ (d1 + s - 1 - d2) <= q) as Hkq.
  { intros Hgt. assert (0 <= d1 + s - 1 - d2) as Hk by lia.
    assert (2 ^ (d1 + s - 1 - d2) * 2 ^ d2 <= Z.pos m1 * 2 ^ s).
    { rewrite <- Z.pow_add_r by lia. etrans; [|apply Z.mul_le_mono_nonneg_r; [lia|exact L1]].
      rewrite <- Z.pow_add_r by lia. apply Z.pow_le_mono_r; lia. }
    assert (0 < 2 ^ (d1 + s - 1 - d2)) by (apply Z.pow_pos_nonneg; lia). nia. }
  assert (exists k, 3000 <= k) as [k Hk] by (by exists 3000).
  assert (mag m1 e1 * 2 ^ 1074 * 2 ^ k = (Z.pos m2 * q + r) * 2 ^ (e' + k - -1074) * 2 ^ (e2 - -1074)) as E.
  { rewrite <- Hq. unfold mag. change umin with (-1074). rewrite <- !Z.mul_assoc, <- !Z.pow_add_r by lia.
    do 2 f_equal. unfold s. lia. }
  assert (0 < 2 ^ (e' + k - -1074)) by (apply Z.pow_pos_nonneg; lia).
  assert (0 < 2 ^ (e2 - -1074)) by (apply Z.pow_pos_nonneg; lia).
  destruct (Z.eq_dec q 0) as [->|Hqn].
  - assert (e' <= -1074) as He1.
    { destruct (Z.le_gt_cases e' (-1074)) as [|Hgt]; [done|]. specialize (Hkq Hgt). lia. }
    apply round_zero_near; [done|lia|lia| |right; lia].
    apply (Z.mul_lt_mono_pos_r (2 ^ (e' + k - -1074))); [done|].
    replace (mag m1 e1 * 2 ^ 1074 * 2 ^ (-1074 - e') * 2 ^ (e' + k - -1074))
      with (mag m1 e1 * 2 ^ 1074 * (2 ^ (-1074 - e') * 2 ^ (e' + k - -1074))) by ring.
    rewrite <- Z.pow_add_r by lia. replace (-1074 - e' + (e' + k - -1074)) with k by lia. rewrite E.
    unfold mag. change umin with (-1074). nia.
  - assert (e' <= fexp prec emax (Zdigits2 q + e')) as Hf.
    { destruct (Z.le_gt_cases e' (-1074)) as [|Hgt]; [rewrite fexp_unfold; lia|].
      specialize (Hkq Hgt). pose proof (Zdigits2_ge q (d1 + s - 1 - d2) ltac:(lia) ltac:(lia)) as Hd.
      etrans; [apply Z.le_min_l|]. apply fexp_mono. fold e'. lia. }
    apply (round_aux_near _ _ _ k); [lia|done|lia|lia|change umin with (-1074); lia|change umin with (-1074)..].
    + rewrite E. unfold mag. change umin with (-1074). clear - Hr H0 H3.
      revert H0 H3. generalize (2 ^ (e' + k - -1074)), (2 ^ (e2 - -1074)). intros X Y HX HY. split; nia.
    + rewrite new_location_exact, E. unfold mag. change umin with (-1074).
      destruct (Z.eq_dec r 0) as [|Hr0]; [by left|right]. clear - Hr Hr0 H0 H3.
      revert H0 H3. generalize (2 ^ (e' + k - -1074)), (2 ^ (e2 - -1074)). intros X Y HX HY. nia.
Qed.

Lemma round_aux_true m ex l : binary_round_aux prec emax true m ex l = opp (binary_round_aux prec emax false m ex l).
Proof.
  unfold binary_round_aux. destruct (shr_fexp prec emax m ex l) as [mrs' e'].
  destruct (shr_fexp prec emax (round_nearest_even (shr_m mrs') (loc_of_shr_record mrs')) e' loc_Exact) as [mrs'' e''].
  destruct (shr_m mrs''); try done. by destruct (e'' <=? emax - prec).
Qed.

Lemma near_zero d s : 0 < d -> near 0 d (S754_zero s).
Proof.
  intros Hd. split; [done|..]; intros y Hy Hv; rewrite fin_leb; auto; apply Z.leb_le; simpl; nia.
Qed.

(** The product of any two finite numbers. *)
Lemma mul_near a b : fin a = true -> fin b = true -> near (units a * units b) (2 ^ 1074) (mul a b).
Proof.
  intros Fa Fb. assert (0 < 2 ^ 1074) by (apply Z.pow_pos_nonneg; lia).
  apply fin_spec in Fa, Fb. destruct a as [sa| | |sa ma ea], b as [sb| | |sb mb eb]; try done;
    try (replace (units _ * units _) with 0 by (simpl; lia); by apply near_zero).
  unfold mul. simpl. pose proof (mul_pos ma ea mb eb Fa Fb) as H0.
  pose proof (near_opp _ _ _ H0) as H1. rewrite <- round_aux_true in H1.
  destruct sa, sb; cbn [xorb]; rewrite ?Z.mul_opp_opp, ?Z.mul_opp_l, ?Z.mul_opp_r; done.
Qed.

(** The quotient of a finite number by a positive one. *)
Lemma div_near a b :
  fin a = true -> fin b = true -> 0 < units b -> near (units a * 2 ^ 1074) (units b) (div a b).
Proof.
  intros Fa Fb Hb. destruct b as [sb| | |[] mb eb]; try done.
  { exfalso. pose proof (units_nonpos _ Fb I). lia. }
  destruct a as [sa| | |sa ma ea]; try done; [by apply near_zero|].
  apply fin_spec in Fa, Fb. pose proof (div_pos_near ma ea mb eb Fa Fb) as H0. destruct sa; [|done].
  pose proof (near_opp _ _ _ H0) as H1. rewrite <- Z.mul_opp_l in H1. simpl units.
  replace (div (S754_finite true ma ea) (S754_finite false mb eb))
    with (opp (div (S754_finite false ma ea) (S754_finite false mb eb))); [done|].
  unfold div, SFdiv. simpl. destruct (SFdiv_core_binary prec emax (Z.pos ma) ea (Z.pos mb) eb) as [[m e] l].
  by rewrite round_aux_true.
Qed.

Lemma add_near a b : fin a = true -> fin b = true -> near (units a + units b) 1 (add a b).
Proof. intros. by apply rounds_near, add_rounds. Qed.

(** ** What follows from roundings alone *)

Lemma near_between n d z lo hi :
  near n d z -> fin lo = true -> fin hi = true -> units lo * d <= n <= units hi * d ->
  fin z = true /\ units lo <= units z <= units hi.
Proof.
  intros [Hr Hb Ha] Fl Fh [Hl Hh]. specialize (Hb _ Fl Hl). specialize (Ha _ Fh Hh).
  assert (fin z = true) as Fz.
  { destruct (real_cases _ Hr) as [|[[] ->]]; [done|..]; exfalso.
    - by destruct lo as [[]| | |[] ? ?].
    - by destruct hi as [[]| | |[] ? ?]. }
  rewrite fin_leb, Z.leb_le in Hb, Ha by done. by split.
Qed.

(** [a] is a finite number from 0 to 1: a score, a rate, a probability. *)
Definition unital (a : number) : Prop := fin a = true /\ 0 <= units a <= 2 ^ 1074.

Lemma unital_leb a : fin a = true -> leb zero a = true -> leb a one = true -> unital a.
Proof.
  intros Fa. rewrite !fin_leb, !Z.leb_le, units_one by done. by intros.
Qed.

Lemma unital_bounds a : unital a -> leb zero a = true /\ leb a one = true.
Proof. intros [Fa Ha]. rewrite !fin_leb, !Z.leb_le, units_one by done. done. Qed.

Lemma unital_zero : unital zero.
Proof. split; [done|]. simpl. split; [lia|]. by apply Z.pow_nonneg. Qed.

Lemma unital_one : unital one.
Proof. split; [done|]. rewrite units_one. split; [by apply Z.pow_nonneg|done]. Qed.

(** Doubling loses nothing away from overflow. *)
Lemma double_of a :
  fin a = true -> 0 <= units a <= 2 ^ 1074 -> exists y, fin y = true /\ units y = 2 * units a.
Proof.
  intros Fa Ha. destruct a as [| | |[] m e]; try done; [by exists zero| |].
  { pose proof (units_nonpos _ Fa I). assert (units (S754_finite true m e) = 0) as -> by lia. by exists zero. }
  apply fin_spec, bounded_spec in Fa as (He & Hm & _). simpl units in *. unfold mag in *. change umin with (-1074) in *.
  destruct (double_exists (Z.pos m) (e + 1)) as (y & Fy & Uy); [lia| |].
  - split; [lia|]. destruct (Z.le_gt_cases e 970) as [|Hgt]; [lia|exfalso].
    assert (2 ^ 2045 <= 2 ^ (e - -1074)) by (apply Z.pow_le_mono_r; lia).
    assert (2 ^ 1074 < 2 ^ 2045) by (apply Z.pow_lt_mono_r; lia). nia.
  - exists y. split; [done|]. rewrite Uy. replace (e + 1 + 1074) with (1 + (e - -1074)) by lia.
    rewrite Z.pow_add_r by lia. ring.
Qed.

(** The midpoint of two numbers lies between them. *)
Lemma midpoint a b :
  unital a -> unital b -> units a <= units b ->
  let m := div (add a b) (of_Z 2) in fin m = true /\ units a <= units m <= units b.
Proof.
  intros [Fa Ha] [Fb Hb] Hab. destruct (of_Z_exact 2 ltac:(lia)) as [F2 U2].
  destruct (double_of a Fa ltac:(lia)) as (a2 & Fa2 & Ua2), (double_of b Fb ltac:(lia)) as (b2 & Fb2 & Ub2).
  destruct (near_between _ _ _ a2 b2 (add_near a b Fa Fb)) as [Fs Hs]; [done|done|lia|].
  pose proof (Z.pow_pos_nonneg 2 1074 ltac:(lia) ltac:(lia)) as P.
  pose proof (div_near (add a b) (of_Z 2) Fs F2 ltac:(lia)) as Hd. rewrite U2 in Hd.
  apply (near_between _ _ _ a b Hd Fa Fb). revert P Hs Ua2 Ub2. generalize (2 ^ 1074). intros U. nia.
Qed.

(** The sum of [k] scores is at most [k], and the mean of scores is a score. *)
Lemma sum_unital l : forall acc k,
  fin acc = true -> 0 <= units acc <= k * 2 ^ 1074 -> 0 <= k -> k + Z.of_nat (length l) < 2 ^ 53 -> Forall unital l ->
  let s := fold_left add l acc in
  fin s = true /\ 0 <= units s <= (k + Z.of_nat (length l)) * 2 ^ 1074.
Proof.
  induction l as [|x l IH]; intros acc k Fa Ha Hk Hl Hx; cbn [fold_left]; [split; [done|simpl length; lia]|].
  simpl length in *. inversion Hx as [|? ? [Fx Hux] Hx']; subst.
  destruct (of_Z_exact (k + 1) ltac:(lia)) as [Fk Uk].
  destruct (near_between _ _ _ zero (of_Z (k + 1)) (add_near acc x Fa Fx)) as [Fs Hs]; [done|done|rewrite Uk; simpl; lia|].
  rewrite Uk in Hs. simpl units at 1 in Hs. destruct (IH (add acc x) (k + 1)) as [F H]; [done|lia|lia|lia|done|].
  split; [done|]. lia.
Qed.

Lemma mean_unital l : l <> [] -> Z.of_nat (length l) < 2 ^ 53 -> Forall unital l ->
  unital (div (fold_left add l zero) (of_Z (Z.of_nat (length l)))).
Proof.
  intros Hne Hl Hx. assert (0 < Z.of_nat (length l)) as H0 by (destruct l; [done|simpl; lia]).
  destruct (sum_unital l zero 0) as [Fs Hs]; [done|simpl; lia|lia|lia|done|].
  destruct (of_Z_exact (Z.of_nat (length l)) ltac:(lia)) as [Fn Un].
  pose proof (Z.pow_pos_nonneg 2 1074 ltac:(lia) ltac:(lia)) as P.
  pose proof (div_near _ _ Fs Fn ltac:(nia)) as Hd. rewrite Un in Hd. unfold unital. rewrite <- units_one.
  apply (near_between _ _ _ zero one Hd); [done|done|]. rewrite units_one. simpl units at 1.
  revert P Hs. generalize (2 ^ 1074). intros U. nia.
Qed.

End Rounding.
