(* ===== verification/JsSort.v ===== *)
(** * Array.prototype.sort

    ECMAScript's sort is stable, and its result is determined as soon as the
    comparator is consistent on the elements (antisymmetric and transitive).
    [Sort.sort] is the stable insertion sort of a comparator read through its
    sign.  [Consistent P c] is the interface a comparator promises; its
    instances are the comparators the program builds, [a.k - b.k], [b.k - a.k]
    and their chains with [||]. *)

From S2P Require Import Prelude Number.

Module Sort.
Import Num.

Section sort.
  Context {A : Type}.
  Variable c : A -> A -> comparison.

Fixpoint insert (x : A) (l : list A) : list A :=
  match l with
  | [] => [x]
  | y :: l' => match c x y with Gt => y :: insert x l' | _ => x :: y :: l' end
  end.

Definition sort (l : list A) : list A := foldr insert [] l.

(** [x] sorts at or before [y]. *)
Definition le (x y : A) : Prop := c x y <> Gt.

Lemma insert_perm x l : insert x l ≡ₚ x :: l.
Proof.
  induction l as [|y l IH]; simpl; [done|]. destruct (c x y); try done.
  rewrite IH. constructor.
Qed.

Lemma sort_perm l : sort l ≡ₚ l.
Proof. induction l as [|x l IH]; simpl; [done|]. by rewrite insert_perm, IH. Qed.

Lemma elem_of_sort x l : x ∈ sort l <-> x ∈ l.
Proof. by rewrite (sort_perm l). Qed.

Lemma sort_length l : length (sort l) = length l.
Proof. by rewrite sort_perm. Qed.

(** Sorting what is sorted already changes nothing: the sort is stable. *)
Lemma sort_sorted_id l : StronglySorted le l -> sort l = l.
Proof.
  induction 1 as [|x l Hs IH Hx]; simpl; [done|]. rewrite IH. destruct l as [|y l]; [done|].
  simpl. inversion Hx as [|? ? Hxy]; subst. unfold le in Hxy. by destruct (c x y).
Qed.
End sort.

(** The comparator [c] is a total preorder on the elements [P] admits. *)
Class Consistent {A} (P : A -> Prop) (c : A -> A -> comparison) : Prop := {
  cons_antisym x y : P x -> P y -> c y x = CompOpp (c x y);
  cons_trans x y z : P x -> P y -> P z -> le c x y -> le c y z -> le c x z;
}.

Section laws.
  Context {A : Type} (P : A -> Prop) (c : A -> A -> comparison) `{!Consistent P c}.

Lemma cons_refl x : P x -> c x x = Eq.
Proof. intros Hx. pose proof (cons_antisym x x Hx Hx) as H. by destruct (c x x). Qed.

Lemma cons_total x y : P x -> P y -> c x y = Gt -> c y x = Lt.
Proof. intros Hx Hy H. by rewrite (cons_antisym x y), H. Qed.

Lemma insert_sorted x l :
  P x -> Forall P l -> StronglySorted (le c) l -> StronglySorted (le c) (insert c x l).
Proof.
  intros Hx Hl Hs. induction Hs as [|y l Hs IH Hy]; simpl; [repeat constructor|].
  inversion Hl as [|? ? Hpy Hpl]; subst. rewrite Forall_forall in Hy, Hpl.
  destruct (c x y) eqn:E.
  1,2: constructor; [constructor; [done|by apply Forall_forall]|];
    constructor; [unfold le; congruence|]; apply Forall_forall; intros z Hz;
    apply (cons_trans x y z); auto; unfold le; congruence.
  constructor; [apply IH; by apply Forall_forall|]. rewrite insert_perm. constructor.
  - unfold le. by rewrite (cons_total x y).
  - by apply Forall_forall.
Qed.

Lemma sort_sorted l : Forall P l -> StronglySorted (le c) (sort c l).
Proof.
  induction 1 as [|x l Hx Hl IH]; simpl; [constructor|].
  apply insert_sorted; [done|by rewrite sort_perm|done].
Qed.

(** The head of the sorted list is the first minimum of the list: everything
    before it is strictly larger, everything after it is no smaller. *)
Lemma sort_head l x :
  Forall P l -> head (sort c l) = Some x ->
  exists l1 l2, l = l1 ++ x :: l2 /\ Forall (fun y => c x y = Lt) l1 /\ Forall (le c x) l2.
Proof.
  intros Hl. revert x. induction Hl as [|a l Ha Hl IH]; intros x; [done|].
  simpl. destruct (sort c l) as [|h t] eqn:Es; simpl.
  - intros [= <-]. exists [], l. split; [done|]. split; [constructor|].
    apply Forall_forall. intros y Hy%(elem_of_sort c). rewrite Es in Hy. by apply elem_of_nil in Hy.
  - destruct (IH h) as (l1 & l2 & -> & H1 & H2); [done|].
    assert (P h) as Hh by (apply Forall_app in Hl as [_ Hl]; by inversion Hl).
    assert (Forall (le c h) (l1 ++ h :: l2)) as Hall.
    { apply Forall_app. split; [|constructor; [unfold le; by rewrite cons_refl|done]].
      eapply Forall_impl; [apply H1|]. intros y Hy. unfold le. by rewrite Hy. }
    destruct (c a h) eqn:E; simpl; intros [= <-].
    1,2: exists [], (l1 ++ h :: l2); split; [done|]; split; [constructor|];
      rewrite Forall_forall in *; intros y Hy; apply (cons_trans a h y); auto; unfold le; congruence.
    exists (a :: l1), l2. split; [done|]. split; [constructor; [by apply cons_total|done]|done].
Qed.

Lemma sort_head_le l x y :
  Forall P l -> head (sort c l) = Some x -> y ∈ l -> le c x y.
Proof.
  intros Hl Hh Hy. pose proof (sort_sorted l Hl) as Hs. destruct (sort c l) as [|h t] eqn:E; [done|].
  injection Hh as ->. apply (elem_of_sort c) in Hy. rewrite E in Hy. inversion Hs as [|? ? ? Hf]; subst.
  apply elem_of_cons in Hy as [->|Hy].
  - unfold le. rewrite cons_refl; [done|].
    assert (x ∈ l) as Hx by (apply (elem_of_sort c); rewrite E; left). rewrite Forall_forall in Hl. auto.
  - rewrite Forall_forall in Hf. auto.
Qed.
(** ... and that determines it. *)
Lemma sort_head_unique l1 x l2 :
  Forall P (l1 ++ x :: l2) -> Forall (fun y => c x y = Lt) l1 -> Forall (le c x) l2 ->
  head (sort c (l1 ++ x :: l2)) = Some x.
Proof.
  intros HP H1 H2. assert (head (sort c (x :: l2)) = Some x) as Hx.
  { simpl. destruct (sort c l2) as [|h t] eqn:E; [done|]. simpl.
    assert (h ∈ l2) as Hh by (apply (elem_of_sort c); rewrite E; left). forall_elim.
    specialize (H2 h Hh). unfold le in H2. by destruct (c x h). }
  induction H1 as [|y l1 Hy H1 IH]; [done|]. simpl in *. inversion HP as [|? ? Hpy HP']; subst.
  specialize (IH HP'). destruct (sort c (l1 ++ x :: l2)) as [|h t] eqn:E; [done|].
  injection IH as ->. simpl. assert (P x) by (forall_elim; apply HP'; set_solver).
  by rewrite (cons_antisym x y), Hy.
Qed.

(** Dropping other elements does not change the head of the sort. *)
Lemma sort_head_filter (f : A -> bool) l x :
  Forall P l -> head (sort c l) = Some x -> f x = true -> head (sort c (List.filter f l)) = Some x.
Proof.
  intros HP Hx Hf. destruct (sort_head l x HP Hx) as (l1 & l2 & -> & H1 & H2).
  rewrite List.filter_app. simpl. rewrite Hf. apply sort_head_unique.
  - forall_elim. apply HP. rewrite elem_of_app, elem_of_cons in *. rewrite !list_elem_of_In, !filter_In in *. tauto.
  - forall_elim. apply H1. rewrite list_elem_of_In, filter_In in *. tauto.
  - forall_elim. apply H2. rewrite list_elem_of_In, filter_In in *. tauto.
Qed.
End laws.

Lemma sort_head_none {A} (c : A -> A -> comparison) l : head (sort c l) = None <-> l = [].
Proof.
  split; [|by intros ->]. intros H. destruct (sort c l) eqn:E; [|done].
  pose proof (sort_length c l) as Hl. rewrite E in Hl. by destruct l.
Qed.

Lemma sort_head_elem {A} (c : A -> A -> comparison) l x : head (sort c l) = Some x -> x ∈ l.
Proof.
  intros H. apply (elem_of_sort c). destruct (sort c l); [done|]. injection H as ->. left.
Qed.

(** ** The comparators of the program *)

(** Lexicographic composition, what [c1 || c2] is through the sign. *)
Definition then_by {A} (c1 c2 : A -> A -> comparison) (a b : A) : comparison :=
  match c1 a b with Eq => c2 a b | o => o end.

Lemma consistent_ext {A} (P : A -> Prop) (c c' : A -> A -> comparison) :
  (forall x y, P x -> P y -> c' x y = c x y) -> Consistent P c -> Consistent P c'.
Proof.
  intros He [Ha Ht]. split.
  - intros x y Hx Hy. rewrite !He; auto.
  - intros x y z Hx Hy Hz. unfold le in *. rewrite !He by done. by apply Ht.
Qed.

#[export] Instance consistent_then {A} (P : A -> Prop) c1 c2 :
  Consistent P c1 -> Consistent P c2 -> Consistent P (then_by c1 c2).
Proof.
  intros [Ha1 Ht1] [Ha2 Ht2]. unfold then_by. split.
  - intros x y Hx Hy. rewrite Ha1, Ha2 by done. by destruct (c1 x y).
  - unfold le in *. intros x y z Hx Hy Hz Hxy Hyz.
    pose proof (Ht1 x y z Hx Hy Hz) as T1. pose proof (Ht1 y z x Hy Hz Hx) as T2.
    pose proof (Ht1 z x y Hz Hx Hy) as T3. pose proof (Ht2 x y z Hx Hy Hz) as T.
    rewrite (Ha1 x z), (Ha1 y z), (Ha1 x y) in * by done.
    destruct (c1 x y), (c1 y z), (c1 x z); simpl in *; try done; try congruence;
      try (by apply T); exfalso; first [by apply T1 | by apply T2 | by apply T3].
Qed.

(** Sorting by a numeric key, ascending or descending. *)
Definition asc {A} (k : A -> number) (a b : A) : comparison := sign (sub (k a) (k b)).
Definition desc {A} (k : A -> number) (a b : A) : comparison := sign (sub (k b) (k a)).

#[export] Instance consistent_asc {A} (k : A -> number) : Consistent (fun a => real (k a) = true) (asc k).
Proof.
  apply (consistent_ext _ (fun a b => cmp (k a) (k b))).
  - intros x y Hx Hy. by apply sub_sign.
  - split; [intros; apply cmp_antisym|]. intros x y z _ _ _. apply cmp_le_trans.
Qed.

#[export] Instance consistent_desc {A} (k : A -> number) : Consistent (fun a => real (k a) = true) (desc k).
Proof.
  apply (consistent_ext _ (fun a b => cmp (k b) (k a))).
  - intros x y Hx Hy. by apply sub_sign.
  - split; [intros; apply cmp_antisym|]. intros x y z _ _ _ Hxy Hyz. by apply (cmp_le_trans _ (k y)).
Qed.

Lemma consistent_weaken {A} (P Q : A -> Prop) c :
  (forall x, Q x -> P x) -> Consistent P c -> Consistent Q c.
Proof. intros HQ [Ha Ht]. split; [auto|]. intros x y z ???. apply Ht; auto. Qed.

(** Reading the order off a comparator. *)
Lemma asc_le {A} (k : A -> number) a b :
  real (k a) = true -> real (k b) = true -> le (asc k) a b <-> leb (k a) (k b) = true.
Proof.
  intros Ha Hb. unfold le, asc. rewrite sub_sign, leb_cmp by auto using real_not_nan.
  by destruct (cmp (k a) (k b)).
Qed.

Lemma desc_le {A} (k : A -> number) a b :
  real (k a) = true -> real (k b) = true -> le (desc k) a b <-> leb (k b) (k a) = true.
Proof. intros Ha Hb. apply (asc_le k b a Hb Ha). Qed.

Lemma asc_eq {A} (k : A -> number) a b :
  real (k a) = true -> real (k b) = true -> asc k a b = Eq <-> leb (k a) (k b) = true /\ leb (k b) (k a) = true.
Proof.
  intros Ha Hb. unfold asc. rewrite sub_sign, !leb_cmp, (cmp_antisym (k a)) by auto using real_not_nan.
  destruct (cmp (k a) (k b)); simpl; split; try tauto; intuition discriminate.
Qed.

Lemma then_by_le {A} (c1 c2 : A -> A -> comparison) a b :
  le (then_by c1 c2) a b <-> le c1 a b /\ (c1 a b = Eq -> le c2 a b).
Proof. unfold le, then_by. destruct (c1 a b); intuition congruence. Qed.

(** ** String comparators *)

(** [String.prototype.localeCompare], as a total preorder on strings.  The
    collation is the runtime's; the program only relies on these laws. *)
Class Collation := {
  localeCompare : string -> string -> comparison;
  locale_antisym s t : localeCompare t s = CompOpp (localeCompare s t);
  locale_trans s t u : localeCompare s t <> Gt -> localeCompare t u <> Gt -> localeCompare s u <> Gt;
}.

Lemma ascii_compare_trans (a b c : Ascii.ascii) :
  Ascii.compare a b = Lt -> Ascii.compare b c = Lt -> Ascii.compare a c = Lt.
Proof. unfold Ascii.compare. rewrite !N.compare_lt_iff. lia. Qed.

Lemma string_compare_trans (s t u : string) :
  String.compare s t <> Gt -> String.compare t u <> Gt -> String.compare s u <> Gt.
Proof.
  revert t u. induction s as [|a s IH]; intros [|b t] [|c u]; simpl; try done.
  destruct (Ascii.compare a b) eqn:E1, (Ascii.compare b c) eqn:E2; try done.
  - apply Ascii.compare_eq_iff in E1 as ->. rewrite E2. apply IH.
  - apply Ascii.compare_eq_iff in E1 as ->. by rewrite E2.
  - apply Ascii.compare_eq_iff in E2 as <-. by rewrite E1.
  - by rewrite (ascii_compare_trans a b c).
Qed.

(** Comparison by character code, a collation. *)
#[export] Instance codepoint : Collation := {
  localeCompare := String.compare;
  locale_antisym s t := String.compare_antisym t s;
  locale_trans := string_compare_trans;
}.

Definition by_string `{!Collation} {A} (k : A -> string) (a b : A) : comparison := localeCompare (k a) (k b).

#[export] Instance consistent_string `{!Collation} {A} (k : A -> string) (P : A -> Prop) :
  Consistent P (by_string k).
Proof.
  split; unfold by_string, le; intros.
  - apply locale_antisym.
  - by eapply locale_trans.
Qed.
End Sort.
