(* ===== verification/Types.v ===== *)
(** * The contract: packages/core/src/types.ts

    One record or inductive type per TypeScript type, with the source's field
    names.  A record lives in a Module of its name so that the fields keep the
    names the source gives them ([FrontierPoint.quality p] is [p.quality]).
    Optional fields are [option]s; a [Record<string, T>] is an association list
    in enumeration order; a [number] is a binary64 double ([Num.number]). *)

From S2P Require Import Prelude Number.

Import Num.

Inductive ProviderId := anthropic | openai | google | openrouter | mock_provider.

Inductive ProviderMode := mock | live.

#[export] Instance ProviderId_eq_dec : EqDecision ProviderId.
Proof. solve_decision. Defined.
#[export] Instance ProviderMode_eq_dec : EqDecision ProviderMode.
Proof. solve_decision. Defined.

Module ModelRef.
Record t := mk { provider : ProviderId; model : string }.
End ModelRef.

Module Usage.
Record t := mk {
  inputTokens : number;
  outputTokens : number;
  costUsd : number;
  latencyMs : number;
  usageEstimated : option unit;
}.
End Usage.

Definition ClusterId : Set := string.

(** A JSON value, for the fields the source types as [unknown]. *)
Inductive json :=
| JNull
| JBool (b : bool)
| JNum (n : number)
| JStr (s : string)
| JArr (l : list json)
| JObj (fields : list (string * json)).

Section json_ind.
  Variable P : json -> Prop.
  Hypothesis Hnull : P JNull.
  Hypothesis Hbool : forall b, P (JBool b).
  Hypothesis Hnum : forall n, P (JNum n).
  Hypothesis Hstr : forall s, P (JStr s).
  Hypothesis Harr : forall l, Forall P l -> P (JArr l).
  Hypothesis Hobj : forall fs, Forall (fun f => P f.2) fs -> P (JObj fs).

Fixpoint json_rect' (v : json) : P v :=
  match v with
  | JNull => Hnull
  | JBool b => Hbool b
  | JNum n => Hnum n
  | JStr s => Hstr s
  | JArr l =>
      Harr l ((fix go l : Forall P l :=
        match l with
        | [] => List.Forall_nil _
        | x :: l' => List.Forall_cons _ _ _ (json_rect' x) (go l')
        end) l)
  | JObj fs =>
      Hobj fs ((fix go fs : Forall (fun f => P f.2) fs :=
        match fs with
        | [] => List.Forall_nil _
        | f :: fs' => List.Forall_cons _ f _ (json_rect' f.2) (go fs')
        end) fs)
  end.
End json_ind.

Lemma json_dec (a b : json) : {a = b} + {a <> b}.
Proof.
  revert a b. fix IH 1. intros a b.
  assert (forall l l' : list json, {l = l'} + {l <> l'}) as IHl.
  { fix IHl 1. intros [|x l] [|y l']; try (by left); try (by right).
    destruct (IH x y) as [->|]; [|right; congruence].
    destruct (IHl l l') as [->|]; [left|right]; congruence. }
  assert (forall l l' : list (string * json), {l = l'} + {l <> l'}) as IHo.
  { fix IHo 1. intros [|[k x] l] [|[k' y] l']; try (by left); try (by right).
    destruct (decide (k = k')) as [->|]; [|right; congruence].
    destruct (IH x y) as [->|]; [|right; congruence].
    destruct (IHo l l') as [->|]; [left|right]; congruence. }
  destruct a as [|x|x|x|l|l], b as [|y|y|y|l'|l']; try (right; congruence); try (by left).
  - destruct (decide (x = y)) as [->|]; [by left|right; congruence].
  - destruct (decide (x = y)) as [->|]; [by left|right; congruence].
  - destruct (decide (x = y)) as [->|]; [by left|right; congruence].
  - destruct (IHl l l') as [->|]; [by left|right; congruence].
  - destruct (IHo l l') as [->|]; [by left|right; congruence].
Defined.
#[export] Instance json_eq_dec : EqDecision json := json_dec.

(** ** Chat *)

Inductive ContentPart :=
| text_part (text : string)
| image_url_part (url : string) (detail : option string)
| input_audio_part (data : string) (wav : bool).

Inductive Role := system | user | assistant | tool_role.

#[export] Instance Role_eq_dec : EqDecision Role.
Proof. solve_decision. Defined.

Inductive ResponseFormat := format_text | format_json_object | format_json_schema (json_schema : json).

Module SamplingParams.
Record t := mk {
  temperature : option number;
  top_p : option number;
  stop : option (string + list string);
  seed : option number;
  user : option string;
  response_format : option ResponseFormat;
  parallel_tool_calls : option bool;
}.
End SamplingParams.

(** providers/src/types.ts: why a provider stopped. *)
Inductive FinishReason := finish_stop | finish_length | finish_tool_calls | finish_content_filter.

Module ToolCall.
Record t := mk { id : string; name : string; arguments : string }.
End ToolCall.

Module Tool.
Record t := mk { name : string; description : option string; parameters : option json }.
End Tool.

Inductive ToolChoice :=
| choice_none
| choice_auto
| choice_required
| choice_function (name : string).

Module ChatMessage.
Record t := mk {
  role : Role;
  content : string;
  parts : option (list ContentPart);
  tool_calls : option (list ToolCall.t);
  tool_call_id : option string;
  name : option string;
}.
End ChatMessage.

(** ** Strategies *)

Module CascadeStage.
Record t := mk { model : string; escalateIf : option (option number) }.
End CascadeStage.

Module JudgeConfig.
Record t := mk { model : string; rubric : option string }.
End JudgeConfig.

Inductive FusionMethod := judge_pick | concat_rank | exec_pick | verify_pick.

Module FusionConfig.
Record t := mk {
  method : FusionMethod;
  judge : option JudgeConfig.t;
  testWriter : option JudgeConfig.t;
  testWriters : option (list JudgeConfig.t);
}.
End FusionConfig.

Inductive ReasoningEffort := low | medium | high.

#[export] Instance ReasoningEffort_eq_dec : EqDecision ReasoningEffort.
Proof. solve_decision. Defined.

Definition REASONING_EFFORT : list ReasoningEffort := [low; medium; high].

Definition REASONING_BUDGET_TOKENS (e : ReasoningEffort) : Z :=
  match e with low => 1024 | medium => 4096 | high => 16384 end.

Definition REASONING_EFFORT_PROVIDERS : list ProviderId :=
  [openai; openrouter; anthropic; google; mock_provider].

(** prompt-variant.ts, context-select.ts, tool-select.ts: what a call node may
    carry besides its model. *)
Inductive PromptVariant := terse | step_by_step | json_only.

#[export] Instance PromptVariant_eq_dec : EqDecision PromptVariant.
Proof. solve_decision. Defined.

Module ContextSelect.
Record t := mk { keepParagraphs : Z }.
End ContextSelect.

Module ToolSelect.
Record t := mk { keepTools : Z }.
End ToolSelect.

Inductive PickBy :=
| by_confidence
| by_judge (model : string).

Inductive ProgramNode : Type :=
| call (model : string) (reasoningEffort : option ReasoningEffort)
    (promptVariant : option PromptVariant) (contextSelect : option ContextSelect.t)
    (toolSelect : option ToolSelect.t)
| if_ (check : ProgramCheck) (then_ else_ : ProgramNode)
| vote (of_ : list ProgramNode)
| pick (of_ : list ProgramNode) (by_ : PickBy)
with ProgramCheck : Type :=
| agree (a b : ProgramNode)
| confidence (of_ : ProgramNode) (min_ : number)
| regex (of_ : ProgramNode) (pattern : string)
| tool_called (of_ : ProgramNode)
| json_check (of_ : ProgramNode) (requiredKeys : option (list string)).

(** Induction over programs, through the checks and the child lists. *)
Section program_ind.
  Variables (P : ProgramNode -> Prop) (Q : ProgramCheck -> Prop).
  Hypothesis Hcall : forall m re pv cs ts, P (call m re pv cs ts).
  Hypothesis Hif : forall c t e, Q c -> P t -> P e -> P (if_ c t e).
  Hypothesis Hvote : forall l, Forall P l -> P (vote l).
  Hypothesis Hpick : forall l b, Forall P l -> P (pick l b).
  Hypothesis Hagree : forall a b, P a -> P b -> Q (agree a b).
  Hypothesis Hconf : forall n m, P n -> Q (confidence n m).
  Hypothesis Hregex : forall n p, P n -> Q (regex n p).
  Hypothesis Htool : forall n, P n -> Q (tool_called n).
  Hypothesis Hjson : forall n k, P n -> Q (json_check n k).

Fixpoint program_ind (n : ProgramNode) : P n :=
  let list_ind := fix go l : Forall P l :=
    match l with
    | [] => List.Forall_nil _
    | x :: l' => List.Forall_cons _ _ _ (program_ind x) (go l')
    end in
  match n with
  | call m re pv cs ts => Hcall m re pv cs ts
  | if_ c t e => Hif c t e (check_ind c) (program_ind t) (program_ind e)
  | vote l => Hvote l (list_ind l)
  | pick l b => Hpick l b (list_ind l)
  end
with check_ind (c : ProgramCheck) : Q c :=
  match c with
  | agree a b => Hagree a b (program_ind a) (program_ind b)
  | confidence n m => Hconf n m (program_ind n)
  | regex n p => Hregex n p (program_ind n)
  | tool_called n => Htool n (program_ind n)
  | json_check n k => Hjson n k (program_ind n)
  end.
End program_ind.

Inductive ConfidenceMethod := logprob | self_report_calibrated.

Inductive StrategyConfig :=
| single (model : string)
| cascade (stages : list CascadeStage.t) (confidenceMethod : ConfidenceMethod)
| best_of_n (model : string) (n : Z) (judge : JudgeConfig.t)
| draft_verify (draftModel verifierModel : string)
| ensemble (models : list string) (fusion : FusionConfig.t)
| decompose (decomposerModel : string) (routing : list (string * string))
    (fusion : option FusionConfig.t)
| composite (startModel upgradeModel : string) (confidenceBelow : number)
| program (name : string) (body : ProgramNode).

(** ** Evidence and frontiers *)

Module Tokens.
Record t := mk { inputMean : number; outputMean : number }.
End Tokens.

Module Slice.
Record t := mk { n : number; quality : number; qualityCi95 : number }.
End Slice.

Module FrontierPointEvidence.
Record t := mk {
  cacheKeys : list string;
  runIds : list string;
  n : number;
  toolsMeasured : option bool;
  qualityCi95 : number;
  qualityCi : option (number * number);
  latencyN : option number;
  latencyP95Ci95 : option (number * number);
  latencySeed : option number;
  suiteId : option string;
  suiteVersion : option string;
  tokens : option Tokens.t;
  slices : option (list (string * Slice.t));
  rubricHash : option string;
  calibrationId : option string;
  suiteContentHash : option string;
}.
End FrontierPointEvidence.

Module StrategyAggregate.
Record t := mk {
  clusterId : ClusterId;
  strategyHash : string;
  strategyConfig : StrategyConfig;
  qualityMean : number;
  qualityCi95 : number;
  qualityCi : option (number * number);
  n : number;
  costPer1K : number;
  latencyP50 : number;
  latencyP95 : number;
  pricesVersion : string;
  providerMode : option ProviderMode;
  evidence : option FrontierPointEvidence.t;
}.
End StrategyAggregate.

Module FrontierPoint.
Record t := mk {
  clusterId : ClusterId;
  strategyHash : string;
  strategyConfig : StrategyConfig;
  quality : number;
  costPer1K : number;
  latencyP95 : number;
  providerMode : option ProviderMode;
  evidence : option FrontierPointEvidence.t;
}.

(** The spread [{ ...p, latencyP95: x }]. *)
Definition with_latencyP95 (x : number) (p : t) : t :=
  mk (clusterId p) (strategyHash p) (strategyConfig p) (quality p) (costPer1K p) x
     (providerMode p) (evidence p).
End FrontierPoint.

Inductive FrontierTrigger := manual | new_model | recompute.

Inductive Instrument := default_instrument | tools_instrument | vision | audio.

#[export] Instance Instrument_eq_dec : EqDecision Instrument.
Proof. solve_decision. Defined.

Module Frontier.
Record t := mk {
  id : string;
  clusterId : ClusterId;
  version : Z;
  parentId : option string;
  trigger : FrontierTrigger;
  points : list FrontierPoint.t;
  pricesVersion : string;
  orgId : option string;
  createdAt : string;
  instrument : option Instrument;
}.

(** The spread [{ ...f, points: ps }]. *)
Definition with_points (ps : list FrontierPoint.t) (f : t) : t :=
  mk (id f) (clusterId f) (version f) (parentId f) (trigger f) ps (pricesVersion f)
     (orgId f) (createdAt f) (instrument f).
End Frontier.

Module FrontierDiff.
Record t := mk {
  clusterId : ClusterId;
  fromVersion : Z;
  toVersion : Z;
  appeared : list FrontierPoint.t;
  vanished : list FrontierPoint.t;
  dominatedBy : list (FrontierPoint.t * FrontierPoint.t);
  narrative : list string;
}.
End FrontierDiff.

(** ** Policies *)

Inductive ShadowCandidates :=
| frontier_candidates
| hashes_candidates (hashes : list string).

Module ShadowConfig.
Record t := mk { sampleRate : number; candidates : ShadowCandidates }.
End ShadowConfig.

Inductive GuaranteeAction := rollback | alert.

Module GuaranteeConfig.
Record t := mk {
  minQuality : number;
  minSuccessRate : option number;
  windowMin : number;
  sampleRate : number;
  action : GuaranteeAction;
  judgeModel : option string;
  minSamples : option number;
  judgeMaxTokens : option number;
  retentionFloor : option number;
  verifySlaMin : option number;
  autoRestore : option bool;
}.
End GuaranteeConfig.

Inductive Policy :=
| max_quality (costCeilingPer1K : number)
    (shadow : option ShadowConfig.t) (guarantee : option GuaranteeConfig.t)
| min_cost (qualityFloor : number) (clusterFloors : option (list (string * number)))
    (shadow : option ShadowConfig.t) (guarantee : option GuaranteeConfig.t)
| latency_bound (p95Ms : number)
    (shadow : option ShadowConfig.t) (guarantee : option GuaranteeConfig.t)
| compound (qualityFloor : number) (clusterFloors : option (list (string * number))) (p95Ms : number)
    (shadow : option ShadowConfig.t) (guarantee : option GuaranteeConfig.t).

(** ** Prices *)

Module PriceEntry.
Record t := mk {
  alias : string;
  provider : ProviderId;
  model : string;
  inputPer1M : number;
  outputPer1M : number;
}.
End PriceEntry.

Module PriceTable.
Record t := mk { version : string; updatedAt : string; entries : list PriceEntry.t }.
End PriceTable.
