(* ===== verification/Fixtures.v ===== *)
(** * Concrete inputs

    Frontier points and policies at small, readable values, used to evaluate
    the definitions of the development on real inputs. *)

From S2P Require Import Prelude Number Types.

Module Fixtures.
Import Num.

(** Quality in thousandths, cost in tenths of a cent, latency in ms. *)
Definition point (hash : string) (q c l : Z) : FrontierPoint.t :=
  FrontierPoint.mk "code-gen" hash (single hash) (lit q 3) (lit c 1) (of_Z l) (Some live) None.

Definition evidence (q : Z) (tokens : option Tokens.t) : FrontierPointEvidence.t :=
  FrontierPointEvidence.mk ["k1"] ["r1"] (of_Z 40) None (lit q 3) None None None None None None
    tokens None None None None.

Definition with_evidence (e : FrontierPointEvidence.t) (p : FrontierPoint.t) : FrontierPoint.t :=
  FrontierPoint.mk (FrontierPoint.clusterId p) (FrontierPoint.strategyHash p) (FrontierPoint.strategyConfig p)
    (FrontierPoint.quality p) (FrontierPoint.costPer1K p) (FrontierPoint.latencyP95 p)
    (FrontierPoint.providerMode p) (Some e).

Definition cheap : FrontierPoint.t := point "cheap" 800 5 900.
Definition mid : FrontierPoint.t := point "mid" 900 20 1500.
Definition best : FrontierPoint.t := point "best" 950 80 2500.

Definition frontier (pts : list FrontierPoint.t) : Frontier.t :=
  Frontier.mk "f1" "code-gen" 1 None manual pts "prices-1" None "2026-01-01T00:00:00Z" None.

Definition prices : PriceTable.t :=
  PriceTable.mk "prices-1" "2026-01-01T00:00:00Z"
    [PriceEntry.mk "cheap" openai "cheap-v1" (lit 1 1) (lit 4 1);
     PriceEntry.mk "mid" anthropic "mid-v1" (of_Z 1) (of_Z 4)].

Definition compound_policy (floor p95 : Z) : Policy := compound (lit floor 3) None (of_Z p95) None None.
End Fixtures.
