(* ===== verification/Print.v ===== *)
(** * Printing numbers

    [Number.prototype.toString], [toFixed] and [Math.round], computed on exact
    values: a finite double is [units a / 2^1074]. *)

From stdpp Require Import pretty.
From S2P Require Import Prelude Number.

Local Open Scope Z_scope.

Module Print.
Import Num.

Definition denominator : Z := 2 ^ 1074.

Definition show_Z (z : Z) : string := pretty z.

(** The integer nearest to [num / den], ties up. *)
Definition round_half_up (num den : Z) : Z := (2 * num + den) / (2 * den).

(** [Math.round] on a finite number, as the integer it denotes. *)
Definition math_round (a : number) : Z := round_half_up (units a) denominator.

Fixpoint zeros (n : nat) : string :=
  match n with O => EmptyString | S n => "0" +:+ zeros n end.

Definition pad_left (width : nat) (s : string) : string := zeros (width - String.length s) +:+ s.

Definition sign_text (a : number) (body : string) : string :=
  if (units a <? 0)%Z then "-" +:+ body else body.

(** [a.toFixed(f)] for [|a| < 10^21]: the nearest multiple of [10^-f], ties to
    the larger magnitude. *)
Definition toFixed (f : nat) (a : number) : string :=
  match a with
  | S754_nan => "NaN"
  | S754_infinity s => if s then "-Infinity" else "Infinity"
  | _ =>
      let n := round_half_up (Z.abs (units a) * 10 ^ Z.of_nat f) denominator in
      let p := 10 ^ Z.of_nat f in
      sign_text a (match f with
                   | O => show_Z n
                   | _ => show_Z (n / p) +:+ "." +:+ pad_left f (show_Z (n mod p))
                   end)
  end.

(** [floor(v)] has [n] decimal digits, where [v = num / den >= 1]; for [v < 1]
    the count goes down past the leading zeros: [10^(n-1) <= v < 10^n]. *)
Fixpoint magnitude_down (fuel : nat) (num den : Z) (n : Z) : Z :=
  match fuel with
  | O => n
  | S fuel => if den <=? num then n else magnitude_down fuel (num * 10) den (n - 1)
  end.

Definition magnitude (num den : Z) : Z :=
  if den <=? num then Z.of_nat (String.length (show_Z (num / den)))
  else magnitude_down 400 (num * 10) den 0.

(** The double nearest to [p * 10^e], for a positive [p]. *)
Definition decimal (p : Z) (e : Z) : number :=
  match p with
  | Z.pos m =>
      if 0 <=? e then binary_normalize prec emax (p * 10 ^ e) 0 false
      else match 10 ^ (- e) with
           | Z.pos q => SFdiv prec emax (S754_finite false m 0) (S754_finite false q 0)
           | _ => NaN
           end
  | _ => zero
  end.

(** The [k]-digit decimal closest to [v = num / den], with [n] its magnitude. *)
Definition k_digits (num den : Z) (n k : Z) : Z :=
  if 0 <=? k - n then round_half_up (num * 10 ^ (k - n)) den
  else round_half_up num (den * 10 ^ (n - k)).

(** Fewest digits that read back as the same double. *)
Fixpoint shortest (fuel : nat) (a : number) (num den n k : Z) : Z * Z :=
  let s := k_digits num den n k in
  match fuel with
  | O => (s, k)
  | S fuel => if eqb (decimal s (n - k)) a then (s, k) else shortest fuel a num den n (k + 1)
  end.

(** [Number::toString] of a number with [10^-7 <= |a| < 10^21]. *)
Definition to_string (a : number) : string :=
  match a with
  | S754_nan => "NaN"
  | S754_infinity s => if s then "-Infinity" else "Infinity"
  | S754_zero _ => "0"
  | S754_finite _ _ _ =>
      let num := Z.abs (units a) in
      let n := magnitude num denominator in
      let '(s, k) := shortest 17 (abs a) num denominator n 1 in
      let text := show_Z s in
      sign_text a
        (if k <=? n then text +:+ zeros (Z.to_nat (n - k))
         else if 0 <? n then
           String.substring 0 (Z.to_nat n) text +:+ "." +:+ String.substring (Z.to_nat n) (Z.to_nat (k - n)) text
         else "0." +:+ zeros (Z.to_nat (- n)) +:+ text)
  end.

Example print_samples :
  map to_string [lit 85 2; of_Z 30; lit 12345 1; lit 1 1; lit 2 6; opp (lit 25 1)] =
  ["0.85"; "30"; "1234.5"; "0.1"; "0.000002"; "-2.5"] /\
  map (toFixed 2) [lit 821 3; lit 21 1; lit 1005 3; zero] = ["0.82"; "2.10"; "1.00"; "0.00"] /\
  math_round (lit 24995 1) = 2500.
Proof. vm_compute. done. Qed.
End Print.
