(* ===== verification/Program.v ===== *)
(** * Programs as data: core/src/coverage.ts (lines 131-214), hash.ts, compile.ts

    The models a program or strategy can call, the static call bound that
    memoizes on node structure, and the compiler from handwritten strategy
    shapes to programs.

    [canonicalJson] is modelled up to its text: a key is the JSON tree that
    [JSON.stringify] prints (keys sorted, absent optional fields dropped,
    non-finite numbers as [null], [-0] as [0]).  Printing is injective on such
    trees, and the program only ever compares keys for equality. *)

From S2P Require Import Prelude Number JsSort Types.

Module Program.
Import Num Sort.

(** ** Canonical JSON *)

Definition key_compare (a b : string * json) : comparison := String.compare a.1 b.1.

(** [sortKeys]. *)
Fixpoint sortKeys (value : json) : json :=
  match value with
  | JArr l => JArr (map sortKeys l)
  | JObj fs => JObj (sort key_compare (map (fun f => (f.1, sortKeys f.2)) fs))
  | v => v
  end.

(** What [JSON.stringify] prints of a number: [null] for NaN and the
    infinities, [0] for both zeros. *)
Definition printed (n : number) : json :=
  match n with
  | S754_nan | S754_infinity _ => JNull
  | S754_zero _ => JNum zero
  | _ => JNum n
  end.

Fixpoint stringify (value : json) : json :=
  match value with
  | JNum n => printed n
  | JArr l => JArr (map stringify l)
  | JObj fs => JObj (map (fun f => (f.1, stringify f.2)) fs)
  | v => v
  end.

Definition canonicalJson (value : json) : json := stringify (sortKeys value).

(** ** A program node as a JavaScript object *)

Definition field {A} (k : string) (f : A -> json) (o : option A) : list (string * json) :=
  match o with Some a => [(k, f a)] | None => [] end.

Definition effort_json (e : ReasoningEffort) : json :=
  JStr match e with low => "low" | medium => "medium" | high => "high" end.

Definition variant_json (v : PromptVariant) : json :=
  JStr match v with terse => "terse" | step_by_step => "step-by-step" | json_only => "json-only" end.

Definition by_json (b : PickBy) : json :=
  match b with
  | by_confidence => JObj [("kind", JStr "confidence")]
  | by_judge m => JObj [("kind", JStr "judge"); ("model", JStr m)]
  end.

Fixpoint node_json (n : ProgramNode) : json :=
  match n with
  | call m re pv cs ts =>
      JObj ([("op", JStr "call"); ("model", JStr m)]
            ++ field "reasoningEffort" effort_json re
            ++ field "promptVariant" variant_json pv
            ++ field "contextSelect" (fun c => JObj [("keepParagraphs", JNum (of_Z (ContextSelect.keepParagraphs c)))]) cs
            ++ field "toolSelect" (fun c => JObj [("keepTools", JNum (of_Z (ToolSelect.keepTools c)))]) ts)
  | if_ c t e => JObj [("op", JStr "if"); ("check", check_json c); ("then", node_json t); ("else", node_json e)]
  | vote l => JObj [("op", JStr "vote"); ("of", JArr (map node_json l))]
  | pick l b => JObj [("op", JStr "pick"); ("of", JArr (map node_json l)); ("by", by_json b)]
  end
with check_json (c : ProgramCheck) : json :=
  match c with
  | agree a b => JObj [("kind", JStr "agree"); ("of", JArr [node_json a; node_json b])]
  | confidence n m => JObj [("kind", JStr "confidence"); ("of", node_json n); ("min", JNum m)]
  | regex n p => JObj [("kind", JStr "regex"); ("of", node_json n); ("pattern", JStr p)]
  | tool_called n => JObj [("kind", JStr "tool-called"); ("of", node_json n)]
  | json_check n ks =>
      JObj ([("kind", JStr "json"); ("of", node_json n)]
            ++ field "requiredKeys" (fun l => JArr (map JStr l)) ks)
  end.

Definition programNodeKey (node : ProgramNode) : json := canonicalJson (node_json node).

(** ** The models of a program *)

Definition add_model (m : string) (out : list string) : list string :=
  if decide (m ∈ out) then out else out ++ [m].

Fixpoint walk_models (n : ProgramNode) (out : list string) : list string :=
  match n with
  | call m _ _ _ _ => add_model m out
  | if_ c t e => walk_models e (walk_models t (walkCheck_models c out))
  | vote l => fold_left (fun o x => walk_models x o) l out
  | pick l b =>
      let out := fold_left (fun o x => walk_models x o) l out in
      match b with by_judge m => add_model m out | by_confidence => out end
  end
with walkCheck_models (c : ProgramCheck) (out : list string) : list string :=
  match c with
  | agree a b => walk_models b (walk_models a out)
  | confidence n _ | regex n _ | tool_called n | json_check n _ => walk_models n out
  end.

Definition programModels (node : ProgramNode) : list string := walk_models node [].

Definition strategyModels (config : StrategyConfig) : list string :=
  match config with
  | single m => [m]
  | best_of_n m _ _ => [m]
  | cascade stages _ => map CascadeStage.model stages
  | draft_verify d v => [d; v]
  | ensemble models _ => models
  | decompose d routing _ => d :: map snd routing
  | composite s u _ => [s; u]
  | program _ body => programModels body
  end.

(** Every model name a program mentions, with repetitions, in walk order. *)
Fixpoint mentions (n : ProgramNode) : list string :=
  match n with
  | call m _ _ _ _ => [m]
  | if_ c t e => check_mentions c ++ mentions t ++ mentions e
  | vote l => flat_map mentions l
  | pick l b => flat_map mentions l ++ match b with by_judge m => [m] | by_confidence => [] end
  end
with check_mentions (c : ProgramCheck) : list string :=
  match c with
  | agree a b => mentions a ++ mentions b
  | confidence n _ | regex n _ | tool_called n | json_check n _ => mentions n
  end.

Definition add_all (ms out : list string) : list string := fold_left (fun o m => add_model m o) ms out.

Lemma add_all_app a b out : add_all (a ++ b) out = add_all b (add_all a out).
Proof. apply fold_left_app. Qed.

Lemma walk_list l out :
  Forall (fun n => forall o, walk_models n o = add_all (mentions n) o) l ->
  fold_left (fun o x => walk_models x o) l out = add_all (flat_map mentions l) out.
Proof.
  intros H. revert out. induction H as [|n l Hn Hl IH]; intros out; [done|].
  simpl. by rewrite add_all_app, Hn, IH.
Qed.

Lemma walk_models_spec n : forall out, walk_models n out = add_all (mentions n) out.
Proof.
  apply (program_ind (fun n => forall out, walk_models n out = add_all (mentions n) out)
           (fun c => forall out, walkCheck_models c out = add_all (check_mentions c) out)); simpl; try done.
  - intros c t e Hc Ht He out. by rewrite !add_all_app, Hc, Ht, He.
  - intros l H out. by apply walk_list.
  - intros l b H out. rewrite walk_list, add_all_app by done. by destruct b.
  - intros a b Ha Hb out. by rewrite add_all_app, Ha, Hb.
Qed.

Lemma add_model_nodup m out : NoDup out -> NoDup (add_model m out).
Proof.
  intros H. unfold add_model. case_decide as Hm; [done|]. apply NoDup_app.
  split; [done|]. split; [|apply NoDup_singleton]. intros x Hx ->%list_elem_of_singleton. done.
Qed.

Lemma elem_of_add_model x m out : x ∈ add_model m out <-> x = m \/ x ∈ out.
Proof. unfold add_model. case_decide; set_solver. Qed.

Lemma elem_of_add_all x ms out : x ∈ add_all ms out <-> x ∈ ms \/ x ∈ out.
Proof.
  revert out. induction ms as [|m ms IH]; intros out; simpl; [set_solver|].
  rewrite IH, elem_of_add_model. set_solver.
Qed.

Lemma add_all_nodup ms out : NoDup out -> NoDup (add_all ms out).
Proof. revert out. induction ms; intros; simpl; auto using add_model_nodup. Qed.

(** A model is a sublist entry in order of first mention. *)
Lemma add_all_first ms out : exists new, add_all ms out = out ++ new /\ new `sublist_of` ms.
Proof.
  revert out. induction ms as [|m ms IH]; intros out; simpl.
  - exists []. by rewrite app_nil_r.
  - destruct (IH (add_model m out)) as (new & -> & Hs). unfold add_model. case_decide.
    + exists new. split; [done|]. by constructor.
    + exists (m :: new). rewrite <- app_assoc. split; [done|]. by constructor.
Qed.

(** ** The static call bound *)

Definition MAX_PROGRAM_CALLS : nat := 8.

(** [seen] in insertion order with the node each key was first met at, and the
    keys of the judge picks. *)
Record walk_state := WalkState { seen : list (json * ProgramNode); judges : list json }.

Definition add_key (k : json) (l : list json) : list json := if decide (k ∈ l) then l else l ++ [k].

Fixpoint walk_calls (x : ProgramNode) (s : walk_state) : walk_state :=
  let key := programNodeKey x in
  if decide (key ∈ map fst (seen s)) then s
  else
    let s := WalkState (seen s ++ [(key, x)]) (judges s) in
    match x with
    | call _ _ _ _ _ => s
    | if_ c t e => walk_calls e (walk_calls t (walkCheck_calls c s))
    | vote l => fold_left (fun s y => walk_calls y s) l s
    | pick l b =>
        let s := fold_left (fun s y => walk_calls y s) l s in
        match b with
        | by_judge _ => WalkState (seen s) (add_key key (judges s))
        | by_confidence => s
        end
    end
with walkCheck_calls (c : ProgramCheck) (s : walk_state) : walk_state :=
  match c with
  | agree a b => walk_calls b (walk_calls a s)
  | confidence n _ | regex n _ | tool_called n | json_check n _ => walk_calls n s
  end.

Definition is_call (n : ProgramNode) : bool := match n with call _ _ _ _ _ => true | _ => false end.
Definition is_judge_pick (n : ProgramNode) : bool :=
  match n with pick _ (by_judge _) => true | _ => false end.

Definition programCallCount (node : ProgramNode) : nat :=
  let s := walk_calls node (WalkState [] []) in
  (length (filter (fun e => is_call e.2) (seen s)) + length (judges s))%nat.

(** The subtree of a node, itself first, checks included. *)
Fixpoint subnodes (n : ProgramNode) : list ProgramNode :=
  n :: match n with
       | call _ _ _ _ _ => []
       | if_ c t e => check_nodes c ++ subnodes t ++ subnodes e
       | vote l => flat_map subnodes l
       | pick l _ => flat_map subnodes l
       end
with check_nodes (c : ProgramCheck) : list ProgramNode :=
  match c with
  | agree a b => subnodes a ++ subnodes b
  | confidence n _ | regex n _ | tool_called n | json_check n _ => subnodes n
  end.

(** What a key says of a node: the key of every subnode, tagged with whether it
    is a call and whether it is a judge pick. *)
Definition tag (n : ProgramNode) : json * bool * bool := (programNodeKey n, is_call n, is_judge_pick n).
Definition trace (n : ProgramNode) : list (json * bool * bool) := map tag (subnodes n).
Definition check_trace (c : ProgramCheck) : list (json * bool * bool) := map tag (check_nodes c).

Definition check_key (c : ProgramCheck) : json := canonicalJson (check_json c).

(** The shape of a key, per constructor. *)
Lemma key_if c t e :
  programNodeKey (if_ c t e) =
  JObj [("check", check_key c); ("else", programNodeKey e); ("op", JStr "if"); ("then", programNodeKey t)].
Proof. reflexivity. Qed.

Lemma key_vote l : programNodeKey (vote l) = JObj [("of", JArr (map programNodeKey l)); ("op", JStr "vote")].
Proof.
  unfold programNodeKey, canonicalJson. simpl. rewrite !map_map. reflexivity.
Qed.

Lemma key_pick l b :
  programNodeKey (pick l b) =
  JObj [("by", canonicalJson (by_json b)); ("of", JArr (map programNodeKey l)); ("op", JStr "pick")].
Proof. unfold programNodeKey, canonicalJson. simpl. rewrite !map_map. reflexivity. Qed.

Definition key_op (v : json) : option json :=
  match v with JObj fs => snd <$> find (fun f => String.eqb f.1 "op") fs | _ => None end.

Lemma key_call m re pv cs ts : key_op (programNodeKey (call m re pv cs ts)) = Some (JStr "call").
Proof. destruct re, pv, cs, ts; reflexivity. Qed.

Lemma by_key_inj b b' : canonicalJson (by_json b) = canonicalJson (by_json b') -> b = b'.
Proof. destruct b, b'; simpl; intros [=]; congruence. Qed.

Definition op_of (n : ProgramNode) : string :=
  match n with call _ _ _ _ _ => "call" | if_ _ _ _ => "if" | vote _ => "vote" | pick _ _ => "pick" end.

Lemma key_op_of n : key_op (programNodeKey n) = Some (JStr (op_of n)).
Proof. destruct n; [apply key_call|by rewrite key_if|by rewrite key_vote|by rewrite key_pick]. Qed.

Lemma key_op_eq x y : programNodeKey x = programNodeKey y -> op_of x = op_of y.
Proof. intros H. pose proof (key_op_of x) as Hx. rewrite H, key_op_of in Hx. congruence. Qed.

(** The operand of a check, as keys: what equal check keys have in common. *)
Definition operands (c : ProgramCheck) : list ProgramNode :=
  match c with
  | agree a b => [a; b]
  | confidence n _ | regex n _ | tool_called n | json_check n _ => [n]
  end.

Definition find_of (v : json) : option json :=
  match v with JObj fs => snd <$> find (fun f => String.eqb f.1 "of") fs | _ => None end.

Definition find_kind (v : json) : option json :=
  match v with JObj fs => snd <$> find (fun f => String.eqb f.1 "kind") fs | _ => None end.

Lemma check_key_of c :
  find_of (check_key c) =
  match c with
  | agree a b => Some (JArr [programNodeKey a; programNodeKey b])
  | confidence n _ | regex n _ | tool_called n | json_check n _ => Some (programNodeKey n)
  end.
Proof. by destruct c as [| | | |n [l|]]. Qed.

Lemma check_key_kind c :
  find_kind (check_key c) =
  Some (JStr match c with
             | agree _ _ => "agree" | confidence _ _ => "confidence" | regex _ _ => "regex"
             | tool_called _ => "tool-called" | json_check _ _ => "json"
             end).
Proof. by destruct c as [| | | |n [l|]]. Qed.

Lemma check_key_operands c c' :
  check_key c = check_key c' -> map programNodeKey (operands c) = map programNodeKey (operands c').
Proof.
  intros H. pose proof (check_key_kind c) as K. rewrite H, check_key_kind in K.
  pose proof (check_key_of c) as O. rewrite H, check_key_of in O.
  destruct c, c'; try discriminate K; simpl; injection O; congruence.
Qed.

Lemma check_nodes_operands c : check_nodes c = flat_map subnodes (operands c).
Proof. destruct c; simpl; by rewrite ?app_nil_r. Qed.

Lemma trace_children l l' :
  Forall (fun n => forall m, programNodeKey n = programNodeKey m -> trace n = trace m) l ->
  map programNodeKey l = map programNodeKey l' ->
  map tag (flat_map subnodes l) = map tag (flat_map subnodes l').
Proof.
  intros H. revert l'. induction H as [|n l Hn Hl IH]; intros [|m l'] Hk; try done.
  simpl in *. injection Hk as Hk Hk'. rewrite !map_app. f_equal; [by apply Hn|by apply IH].
Qed.

(** Equal keys stand for equal subtrees: same keys, same calls, same judge
    picks, in the same order. *)
Lemma key_trace n : forall m, programNodeKey n = programNodeKey m -> trace n = trace m.
Proof.
  apply (program_ind (fun n => forall m, programNodeKey n = programNodeKey m -> trace n = trace m)
    (fun c => Forall (fun n => forall m, programNodeKey n = programNodeKey m -> trace n = trace m) (operands c)));
    simpl; auto.
  - intros m re pv cs ts n' Hk. pose proof (key_op_eq _ _ Hk) as Ho. destruct n'; try done.
    unfold trace, tag. simpl. by rewrite Hk.
  - intros c t e Hc Ht He n' Hk. pose proof (key_op_eq _ _ Hk) as Ho. destruct n' as [|c' t' e'| |]; try done.
    unfold trace, tag. simpl. fold tag. rewrite Hk. rewrite !key_if in Hk. injection Hk as Hc' He' Ht'.
    rewrite !map_app, !check_nodes_operands. f_equal. f_equal; [|f_equal; [by apply Ht|by apply He]].
    apply trace_children; [done|]. by apply check_key_operands.
  - intros l Hl n' Hk. pose proof (key_op_eq _ _ Hk) as Ho. destruct n' as [| |l'|]; try done.
    unfold trace, tag. simpl. fold tag. rewrite Hk. rewrite !key_vote in Hk. injection Hk as Hl'.
    f_equal. by apply trace_children.
  - intros l b Hl n' Hk. pose proof (key_op_eq _ _ Hk) as Ho. destruct n' as [| | |l' b']; try done.
    unfold trace, tag. simpl. fold tag. rewrite Hk. rewrite !key_pick in Hk. injection Hk as Hb' Hl'.
    apply by_key_inj in Hb' as ->. f_equal. by apply trace_children.
Qed.
(** *** The walk as a depth-first search over children *)

Definition children (n : ProgramNode) : list ProgramNode :=
  match n with
  | call _ _ _ _ _ => []
  | if_ c t e => operands c ++ [t; e]
  | vote l => l
  | pick l _ => l
  end.

Lemma node_ind (P : ProgramNode -> Prop) :
  (forall n, Forall P (children n) -> P n) -> forall n, P n.
Proof.
  intros H. apply (program_ind P (fun c => Forall P (operands c))); intros; try apply H; simpl; auto.
  apply Forall_app. auto.
Qed.

Lemma subnodes_children n : subnodes n = n :: flat_map subnodes (children n).
Proof.
  destruct n as [| c t e| |]; simpl; try done.
  by rewrite check_nodes_operands, flat_map_app; simpl; rewrite app_nil_r.
Qed.

Definition walk_all (l : list ProgramNode) (s : walk_state) : walk_state :=
  fold_left (fun s y => walk_calls y s) l s.

Definition finish (n : ProgramNode) (s : walk_state) : walk_state :=
  if is_judge_pick n then WalkState (seen s) (add_key (programNodeKey n) (judges s)) else s.

Definition keys (s : walk_state) : list json := map fst (seen s).

Lemma walk_calls_children n s :
  walk_calls n s =
  if decide (programNodeKey n ∈ keys s) then s
  else finish n (walk_all (children n) (WalkState (seen s ++ [(programNodeKey n, n)]) (judges s))).
Proof.
  unfold keys. destruct n as [|c t e|l|l []]; simpl; case_decide; try done.
  unfold walk_all, finish. rewrite fold_left_app. simpl. by destruct c.
Qed.

Definition size (n : ProgramNode) : nat := length (subnodes n).

Lemma size_trace n : size n = length (trace n).
Proof. unfold trace. by rewrite length_map. Qed.

Lemma elem_of_flat_map {A B} (f : A -> list B) l y : y ∈ flat_map f l <-> exists x, x ∈ l /\ y ∈ f x.
Proof. rewrite !list_elem_of_In, in_flat_map. by setoid_rewrite list_elem_of_In. Qed.

Lemma size_flat_map l n : n ∈ l -> (size n <= length (flat_map subnodes l))%nat.
Proof. unfold size. induction 1; simpl; rewrite length_app; lia. Qed.

Lemma child_size n c : c ∈ children n -> (size c < size n)%nat.
Proof. intros H%size_flat_map. unfold size at 2. rewrite subnodes_children. simpl. lia. Qed.

Lemma subnode_size n : forall x, x ∈ subnodes n -> (size x <= size n)%nat.
Proof.
  induction n as [n IH] using node_ind. intros x. rewrite subnodes_children, elem_of_cons, elem_of_flat_map.
  intros [->|(c & Hc & Hx)]; [done|]. rewrite Forall_forall in IH.
  pose proof (IH c Hc x Hx). pose proof (child_size n c Hc). lia.
Qed.

(** Every key and judge pick of [n]'s subtree has been recorded. *)
Definition closed (s : walk_state) (n : ProgramNode) : Prop :=
  forall k c j, (k, c, j) ∈ trace n -> k ∈ keys s /\ (j = true -> k ∈ judges s).

Record wf (s : walk_state) : Prop := {
  wf_keys : NoDup (keys s);
  wf_judges : NoDup (judges s);
  wf_seen k x : (k, x) ∈ seen s -> k = programNodeKey x;
}.

Definition complete_upto (K : nat) (s : walk_state) : Prop :=
  forall k x, (k, x) ∈ seen s -> (size x <= K)%nat -> closed s x.

(** [s'] extends [s] with records of nodes of [ns] only. *)
Record extends (ns : list ProgramNode) (s s' : walk_state) : Prop := {
  ext_seen e : e ∈ seen s -> e ∈ seen s';
  ext_judges k : k ∈ judges s -> k ∈ judges s';
  ext_new_seen k x : (k, x) ∈ seen s' -> (k, x) ∈ seen s \/ x ∈ ns;
  ext_new_judges k : k ∈ judges s' -> k ∈ judges s \/ exists x, x ∈ ns /\ is_judge_pick x = true /\ k = programNodeKey x;
}.

Definition walked (K : nat) (ns : list ProgramNode) (s s' : walk_state) : Prop :=
  wf s' /\ complete_upto K s' /\ extends (flat_map subnodes ns) s s' /\ Forall (closed s') ns.

Lemma ext_keys ns s s' k : extends ns s s' -> k ∈ keys s -> k ∈ keys s'.
Proof.
  intros [H _ _ _]. unfold keys. rewrite !list_elem_of_fmap. intros (e & -> & He). eauto.
Qed.

Lemma closed_mono ns s s' n : extends ns s s' -> closed s n -> closed s' n.
Proof.
  intros He Hc k c j Ht. destruct (Hc k c j Ht) as [Hk Hj].
  split; [by eapply ext_keys|]. intros. eapply ext_judges; eauto.
Qed.

Lemma extends_weaken ns ms s s' : (forall x, x ∈ ns -> x ∈ ms) -> extends ns s s' -> extends ms s s'.
Proof. intros H [H1 H2 H3 H4]. split; auto; [intros k x Hk; destruct (H3 k x Hk); auto|]. intros k Hk. destruct (H4 k Hk) as [|(x & ? & ?)]; eauto. Qed.

Lemma extends_refl ns s : extends ns s s.
Proof. split; auto. Qed.

Lemma extends_trans ns ms s1 s2 s3 : extends ns s1 s2 -> extends ms s2 s3 -> extends (ns ++ ms) s1 s3.
Proof.
  intros [A1 A2 A3 A4] [B1 B2 B3 B4]. split; auto.
  - intros k x Hk. rewrite elem_of_app. destruct (B3 k x Hk) as [H|]; [destruct (A3 k x H)|]; auto.
  - intros k Hk. setoid_rewrite elem_of_app.
    destruct (B4 k Hk) as [H|(x & ? & ?)]; [destruct (A4 k H) as [|(x & ? & ?)]|]; eauto 6.
Qed.

Lemma walk_all_ok l : forall K s,
  Forall (fun n => forall K s, wf s -> complete_upto K s -> (size n <= K)%nat -> walked K [n] s (walk_calls n s)) l ->
  wf s -> complete_upto K s -> Forall (fun n => (size n <= K)%nat) l -> walked K l s (walk_all l s).
Proof.
  induction l as [|n l IH]; intros K s Hl Hw Hc Hs; simpl.
  - split; [done|]. split; [done|]. split; [apply extends_refl|constructor].
  - inversion Hl as [|? ? Hn Hl']; inversion Hs as [|? ? Hsn Hs']; subst.
    destruct (Hn K s Hw Hc Hsn) as (Hw1 & Hc1 & He1 & Hcl1).
    destruct (IH K (walk_calls n s) Hl' Hw1 Hc1 Hs') as (Hw2 & Hc2 & He2 & Hcl2).
    split; [done|]. split; [done|]. simpl in He1. rewrite app_nil_r in He1.
    split; [by eapply extends_trans|]. constructor; [|done]. inversion Hcl1; subst. by eapply closed_mono.
Qed.
Lemma elem_of_add_key x k l : x ∈ add_key k l <-> x = k \/ x ∈ l.
Proof. unfold add_key. case_decide; set_solver. Qed.

Lemma add_key_nodup k l : NoDup l -> NoDup (add_key k l).
Proof.
  intros H. unfold add_key. case_decide as Hk; [done|]. apply NoDup_app.
  split; [done|]. split; [|apply NoDup_singleton]. intros x Hx ->%list_elem_of_singleton. done.
Qed.

Lemma keys_finish n s : keys (finish n s) = keys s.
Proof. unfold finish. by destruct (is_judge_pick n). Qed.

Lemma judges_finish n s k :
  k ∈ judges (finish n s) <-> (is_judge_pick n = true /\ k = programNodeKey n) \/ k ∈ judges s.
Proof. unfold finish. destruct (is_judge_pick n); simpl; rewrite ?elem_of_add_key; naive_solver. Qed.

Lemma seen_finish n s : seen (finish n s) = seen s.
Proof. unfold finish. by destruct (is_judge_pick n). Qed.

Lemma finish_extends n s : extends [n] s (finish n s).
Proof.
  split; rewrite ?seen_finish; auto.
  - intros k Hk. apply judges_finish. auto.
  - intros k [[Hp ->]|]%judges_finish; [right|by left]. exists n. split; [left|done].
Qed.

Lemma finish_wf n s : wf s -> wf (finish n s).
Proof.
  intros [H1 H2 H3]. split; rewrite ?keys_finish, ?seen_finish; auto.
  unfold finish. destruct (is_judge_pick n); simpl; auto using add_key_nodup.
Qed.

Definition push (n : ProgramNode) (s : walk_state) : walk_state :=
  WalkState (seen s ++ [(programNodeKey n, n)]) (judges s).

Lemma push_extends n s : extends [n] s (push n s).
Proof.
  split; simpl; auto; [intros e; rewrite elem_of_app; auto|].
  intros k x [|[= -> ->]%list_elem_of_singleton]%elem_of_app; [by left|right; left].
Qed.

Lemma push_wf n s : wf s -> programNodeKey n ∉ keys s -> wf (push n s).
Proof.
  intros [H1 H2 H3] Hn. split; unfold keys in *; simpl; auto.
  - rewrite map_app. apply NoDup_app. split; [done|]. split; [|apply NoDup_singleton].
    intros x Hx ->%list_elem_of_singleton. done.
  - intros k x [|[= -> ->]%list_elem_of_singleton]%elem_of_app; auto.
Qed.

(** The node is closed once its children are and its own records are in. *)
Lemma closed_finish n s :
  programNodeKey n ∈ keys s -> Forall (closed s) (children n) -> closed (finish n s) n.
Proof.
  intros Hk Hc k c j Ht. unfold trace in Ht. rewrite subnodes_children in Ht. simpl in Ht.
  apply elem_of_cons in Ht as [[= -> -> ->]|Ht].
  - rewrite keys_finish, judges_finish. auto.
  - rewrite list_elem_of_fmap in Ht. destruct Ht as (x & Hx & Hin).
    apply elem_of_flat_map in Hin as (d & Hd & Hxd). rewrite Forall_forall in Hc.
    eapply (closed_mono _ _ _ d (finish_extends n s)); [by apply Hc|].
    unfold trace. apply list_elem_of_fmap. eauto.
Qed.

Lemma walk_calls_ok n : forall K s,
  wf s -> complete_upto K s -> (size n <= K)%nat -> walked K [n] s (walk_calls n s).
Proof.
  induction n as [n IH] using node_ind. intros K s Hw Hc Hs. rewrite walk_calls_children.
  case_decide as Hk.
  - split; [done|]. split; [done|]. split; [apply extends_refl|]. constructor; [|constructor].
    unfold keys in Hk. apply list_elem_of_fmap in Hk as ((k & x) & Hkx & Hin). simpl in Hkx. subst k.
    pose proof (wf_seen _ Hw _ _ Hin) as Hx. pose proof (key_trace _ _ Hx) as Ht.
    unfold closed. rewrite Ht. apply (Hc _ _ Hin). by rewrite size_trace, <- Ht, <- size_trace.
  - fold (push n s). set (K' := (size n - 1)%nat).
    assert (complete_upto K' (push n s)) as Hc1.
    { intros k x [Hin|[= -> ->]%list_elem_of_singleton]%elem_of_app Hx.
      - eapply closed_mono; [apply push_extends|]. apply (Hc k); [done|]. unfold K' in Hx. lia.
      - unfold K', size in Hx. rewrite subnodes_children in Hx. simpl in Hx. lia. }
    assert (Forall (fun c => (size c <= K')%nat) (children n)) as Hcs.
    { apply Forall_forall. intros c Hin%child_size. unfold K'. lia. }
    destruct (walk_all_ok (children n) K' (push n s) IH (push_wf n s Hw Hk) Hc1 Hcs)
      as (Hw2 & Hc2 & He2 & Hcl2).
    set (s2 := walk_all (children n) (push n s)) in *.
    assert (programNodeKey n ∈ keys s2) as Hkn.
    { eapply ext_keys; [done|]. unfold keys. simpl. rewrite map_app. set_solver. }
    assert (extends (flat_map subnodes [n]) s (finish n s2)) as He.
    { simpl. rewrite app_nil_r. eapply extends_weaken;
        [|eapply extends_trans; [eapply extends_trans; [apply push_extends|apply He2]|apply finish_extends]].
      intros x. rewrite subnodes_children. set_solver. }
    pose proof (closed_finish n s2 Hkn Hcl2) as Hcl.
    split; [by apply finish_wf|]. split; [|split; [done|by constructor]].
    intros k x Hin Hx. rewrite seen_finish in Hin.
    destruct (ext_new_seen _ _ _ He2 k x Hin) as [Hin1|Hin1].
    + apply elem_of_app in Hin1 as [Hin1|[= -> ->]%list_elem_of_singleton]; [|done].
      eapply closed_mono; [apply He|]. by apply (Hc k).
    + eapply closed_mono; [apply finish_extends|]. apply (Hc2 k); [done|].
      apply elem_of_flat_map in Hin1 as (c & Hcn & Hxc). pose proof (subnode_size c x Hxc).
      rewrite Forall_forall in Hcs. specialize (Hcs c Hcn). simpl in Hcs. lia.
Qed.

Lemma length_same {A} `{!EqDecision A} (l k : list A) :
  NoDup l -> (forall x, x ∈ l <-> x ∈ k) -> length l = length (remove_dups k).
Proof.
  intros Hl H. apply Permutation_length, NoDup_Permutation; [done|apply NoDup_remove_dups|].
  intros x. by rewrite elem_of_remove_dups.
Qed.

Lemma elem_of_filter_map {A B} (p : A -> bool) (f : A -> B) l y :
  y ∈ map f (filter (fun x => p x) l) <-> exists x, x ∈ l /\ p x = true /\ f x = y.
Proof.
  rewrite list_elem_of_fmap. setoid_rewrite list_elem_of_filter.
  split; [intros (x & -> & ? & ?)|intros (x & ? & ? & <-)]; exists x; rewrite ?Is_true_true in *; auto.
Qed.
Lemma filter_fst_nodup (p : json * ProgramNode -> bool) l :
  NoDup (map fst l) -> NoDup (map fst (filter (fun e => p e) l)).
Proof. intros H. eapply sublist_NoDup; [exact H|]. apply fmap_sublist, sublist_filter. Qed.

Lemma call_count_keys n :
  programCallCount n =
  (length (remove_dups (map programNodeKey (filter (fun x => is_call x) (subnodes n))))
   + length (remove_dups (map programNodeKey (filter (fun x => is_judge_pick x) (subnodes n)))))%nat.
Proof.
  assert (wf (WalkState [] [])) as Hw0 by (split; simpl; try constructor; intros k x []%elem_of_nil).
  destruct (walk_calls_ok n (size n) (WalkState [] []) Hw0) as (Hw & _ & He & Hcl);
    [intros k x []%elem_of_nil|done|].
  inversion Hcl as [|? ? Hn _]; subst. simpl in He. rewrite app_nil_r in He.
  unfold programCallCount. set (s := walk_calls n (WalkState [] [])) in *.
  assert (forall x, x ∈ subnodes n -> (programNodeKey x, is_call x, is_judge_pick x) ∈ trace n) as Htag.
  { intros x Hx. unfold trace. apply list_elem_of_fmap. by exists x. }
  f_equal.
  - rewrite <- (length_map fst). apply length_same; [by apply filter_fst_nodup, wf_keys|].
    intros k. rewrite !elem_of_filter_map. split.
    + intros ((k' & x) & Hin & Hx & <-). simpl in *. exists x.
      destruct (ext_new_seen _ _ _ He _ _ Hin) as [[]%elem_of_nil|]. by rewrite (wf_seen _ Hw _ _ Hin).
    + intros (x & Hx & Hcx & <-). destruct (Hn _ _ _ (Htag x Hx)) as [Hk _].
      unfold keys in Hk. apply list_elem_of_fmap in Hk as ((k & y) & Hky & Hin). simpl in Hky. subst k.
      exists (programNodeKey x, y). split; [done|]. split; [|done]. simpl.
      pose proof (key_op_eq _ _ (wf_seen _ Hw _ _ Hin)) as Ho. by destruct x, y.
  - apply length_same; [apply Hw|]. intros k. rewrite elem_of_filter_map. split.
    + intros Hk. destruct (ext_new_judges _ _ _ He _ Hk) as [[]%elem_of_nil|(x & ? & ? & ->)]. eauto.
    + intros (x & Hx & Hjx & <-). destruct (Hn _ _ _ (Htag x Hx)) as [_ Hk]. auto.
Qed.

(** ** Properties *)

(** The accumulator walk lists every model mentioned by a leaf call or a judge
    pick, exactly once, in order of first mention. *)
Theorem programModels_dedup n :
  NoDup (programModels n) /\ (forall m, m ∈ programModels n <-> m ∈ mentions n) /\
  programModels n `sublist_of` mentions n.
Proof.
  unfold programModels. rewrite walk_models_spec. split; [apply add_all_nodup, NoDup_nil_2|]. split.
  - intros m. rewrite elem_of_add_all. set_solver.
  - destruct (add_all_first (mentions n) []) as (new & -> & H). done.
Qed.

(** The static bound is the number of distinct call nodes, by canonical JSON,
    plus the number of distinct judge picks: the memo never hides a call that
    only occurs below an already seen node. *)
Theorem programCallCount_distinct n :
  programCallCount n =
  (length (remove_dups (map programNodeKey (filter (fun x => is_call x) (subnodes n))))
   + length (remove_dups (map programNodeKey (filter (fun x => is_judge_pick x) (subnodes n)))))%nat.
Proof. apply call_count_keys. Qed.
End Program.
