(* ===== verification/Compile.v ===== *)
(** * Handwritten strategy shapes as programs: core/src/compile.ts

    [compileToProgram] maps a strategy config to an equivalent program body or
    refuses with the instruction the program grammar is missing; [compileGaps]
    collects the distinct refusals of a list of configs. *)

From S2P Require Import Prelude Number JsSort Types Program.

Module Compile.
Import Num Program.

Module CompileRefusal.
Record t := mk { type : string; missing : string }.
End CompileRefusal.

#[export] Instance CompileRefusal_eq_dec : EqDecision CompileRefusal.t.
Proof. solve_decision. Defined.

Inductive CompileResult :=
| compiled (body : ProgramNode) (exact : bool) (note : option string)
| refused (refusal : CompileRefusal.t).

Definition refuse (type missing : string) : CompileResult :=
  refused (CompileRefusal.mk type missing).

(** [{ op: 'call', model }]. *)
Definition plain_call (model : string) : ProgramNode := call model None None None None.

Definition fusion_name (m : FusionMethod) : string :=
  match m with
  | judge_pick => "judge-pick" | concat_rank => "concat-rank"
  | exec_pick => "exec-pick" | verify_pick => "verify-pick"
  end.

(** [stage.escalateIf?.confidenceBelow]. *)
Definition threshold (s : CascadeStage.t) : option number :=
  match CascadeStage.escalateIf s with Some o => o | None => None end.

(** One iteration of the loop that builds a cascade from its last stage
    backwards. *)
Definition wrap_stage (stage : CascadeStage.t) (node : ProgramNode) : ProgramNode :=
  let c := plain_call (CascadeStage.model stage) in
  match threshold stage with
  | None => c
  | Some tau => if_ (confidence c tau) c node
  end.

Definition cascade_body (stages : list CascadeStage.t) : option ProgramNode :=
  last_stage ← last stages;
  Some (foldr wrap_stage (plain_call (CascadeStage.model last_stage)) (take (length stages - 1) stages)).

Definition compileToProgram (config : StrategyConfig) : CompileResult :=
  match config with
  | single model => compiled (plain_call model) true None
  | program _ body => compiled body true None
  | cascade stages confidenceMethod =>
      match cascade_body stages with
      | None => refuse "cascade" "a cascade with no stages is malformed, not compilable"
      | Some node =>
          match confidenceMethod with
          | logprob =>
              compiled node false
                (Some ("diverges from runCascade only when the provider returns no logprob confidence: "
                       +:+ "the cascade probes with a self-report call, the program escalates"))
          | self_report_calibrated =>
              refuse "cascade" "probe: ask a model to rate its own answer (self-report + calibration)"
          end
      end
  | ensemble models fusion =>
      match FusionConfig.method fusion with
      | judge_pick =>
          match FusionConfig.judge fusion with
          | None => refuse "ensemble" "fusion 'judge-pick' without a judge is malformed"
          | Some judge =>
              compiled (pick (map plain_call models) (by_judge (JudgeConfig.model judge)))
                match JudgeConfig.rubric judge with None => true | Some _ => false end
                match JudgeConfig.rubric judge with
                | None => None
                | Some _ => Some "the judge rubric is dropped — `by` carries a model, not a rubric"
                end
          end
      | m => refuse "ensemble" ("fusion '" +:+ fusion_name m
               +:+ "': deterministic rankers and the code-exec sandbox have no ops")
      end
  | best_of_n _ _ _ =>
      refuse "best-of-n" ("sampling: n independent draws from ONE model (a call node carries no seed "
        +:+ "or temperature, and the structural memo collapses identical nodes)")
  | draft_verify _ _ => refuse "draft-verify" "revise: a verifier that edits the draft rather than replacing it"
  | composite _ _ _ => refuse "composite" "streaming: mid-stream upgrade on token-batch confidence"
  | decompose _ _ _ => refuse "decompose" "split/route/fuse over subtasks"
  end.

Definition compileGaps (configs : list StrategyConfig) : list CompileRefusal.t :=
  fold_left (fun out c =>
    match compileToProgram c with
    | refused r => if decide (r ∈ out) then out else out ++ [r]
    | compiled _ _ _ => out
    end) configs [].

(** ** Meaning of a compiled cascade

    A reference run: stage by stage, keep the answer when there is no
    threshold or the confidence reaches it.  [conf] is the confidence the
    provider reports for a model's answer. *)
Section run.
  Variable conf : string -> number.

Fixpoint accepted_stage (stages : list CascadeStage.t) : option string :=
  match stages with
  | [] => None
  | [s] => Some (CascadeStage.model s)
  | s :: rest =>
      match threshold s with
      | None => Some (CascadeStage.model s)
      | Some tau => if geb (conf (CascadeStage.model s)) tau then Some (CascadeStage.model s) else accepted_stage rest
      end
  end.

(** The answering model of a program of plain calls and confidence branches,
    and the models it pays for, in order. *)
Fixpoint answer (n : ProgramNode) : option string :=
  match n with
  | call m _ _ _ _ => Some m
  | if_ (confidence (call m _ _ _ _) tau) t e => if geb (conf m) tau then answer t else answer e
  | _ => None
  end.

Lemma answer_wrap s n : answer (wrap_stage s n) =
  match threshold s with
  | None => Some (CascadeStage.model s)
  | Some tau => if geb (conf (CascadeStage.model s)) tau then Some (CascadeStage.model s) else answer n
  end.
Proof. unfold wrap_stage. by destruct (threshold s). Qed.

Lemma accepted_stage_cons s t rest : accepted_stage (s :: t :: rest) =
  match threshold s with
  | None => Some (CascadeStage.model s)
  | Some tau => if geb (conf (CascadeStage.model s)) tau then Some (CascadeStage.model s) else accepted_stage (t :: rest)
  end.
Proof. reflexivity. Qed.
End run.

Lemma cascade_body_cons s t rest : cascade_body (s :: t :: rest) = wrap_stage s <$> cascade_body (t :: rest).
Proof.
  unfold cascade_body. rewrite last_cons_cons. destruct (last (t :: rest)) eqn:E; [|by apply last_None in E].
  simpl. by rewrite Nat.sub_0_r.
Qed.

Lemma cascade_answer conf stages :
  match cascade_body stages with
  | Some body => stages <> [] /\ answer conf body = accepted_stage conf stages
  | None => stages = []
  end.
Proof.
  induction stages as [|s [|t rest] IH]; [done|done|]. rewrite cascade_body_cons.
  destruct (cascade_body (t :: rest)) as [body|]; [|done]. simpl fmap. destruct IH as [_ IH].
  split; [done|]. by rewrite answer_wrap, accepted_stage_cons, IH.
Qed.

Lemma wrap_mentions s n m : m ∈ mentions (wrap_stage s n) -> m = CascadeStage.model s \/ m ∈ mentions n.
Proof. unfold wrap_stage. destruct (threshold s); simpl; set_solver. Qed.

Lemma cascade_mentions stages body m :
  cascade_body stages = Some body -> m ∈ mentions body -> m ∈ map CascadeStage.model stages.
Proof.
  revert body. induction stages as [|s [|t rest] IH]; intros body; [done| |].
  - intros [= <-]. simpl. set_solver.
  - rewrite cascade_body_cons. destruct (cascade_body (t :: rest)) as [b|]; [|done].
    intros [= <-] [->|Hm]%wrap_mentions; simpl; [set_solver|]. specialize (IH b eq_refl Hm). set_solver.
Qed.

Lemma mentions_plain_calls models : flat_map mentions (map plain_call models) = models.
Proof. induction models; simpl; congruence. Qed.

(** ** Properties *)

(** What compiles, exactly: single, program, a non-empty logprob cascade, and a
    judge-pick ensemble with a judge. *)
Theorem compile_domain config :
  (exists body exact note, compileToProgram config = compiled body exact note) <->
  match config with
  | single _ | program _ _ => True
  | cascade stages m => stages <> [] /\ m = logprob
  | ensemble _ f => FusionConfig.method f = judge_pick /\ FusionConfig.judge f <> None
  | _ => False
  end.
Proof.
  destruct config as [|stages m| | |models f| | |]; simpl.
  - split; eauto.
  - pose proof (cascade_answer (fun _ => zero) stages) as H.
    destruct (cascade_body stages), m; split; try (by intros (? & ? & ? & ?)); naive_solver.
  - by split; intros H; [destruct H as (? & ? & ? & ?)|].
  - by split; intros H; [destruct H as (? & ? & ? & ?)|].
  - destruct (FusionConfig.method f), (FusionConfig.judge f); simpl;
      split; try (by intros (? & ? & ? & ?)); naive_solver.
  - by split; intros H; [destruct H as (? & ? & ? & ?)|].
  - by split; intros H; [destruct H as (? & ? & ? & ?)|].
  - split; eauto.
Qed.

(** The compiled cascade answers with the stage the cascade itself would
    accept, whatever confidences the provider reports. *)
Theorem compile_cascade_answer conf stages m body exact note :
  compileToProgram (cascade stages m) = compiled body exact note ->
  answer conf body = accepted_stage conf stages.
Proof.
  simpl. pose proof (cascade_answer conf stages) as H.
  destruct (cascade_body stages) as [b|], m; try done. intros [= <- <- <-]. apply H.
Qed.

(** Compilation never introduces a model: what the program can call, the
    strategy names, up to the ensemble's judge. *)
Theorem compile_models config body exact note m :
  compileToProgram config = compiled body exact note -> m ∈ programModels body ->
  m ∈ strategyModels config \/
  exists models f j, config = ensemble models f /\ FusionConfig.judge f = Some j /\ m = JudgeConfig.model j.
Proof.
  destruct config as [|stages meth| | |models f| | |]; simpl; try done.
  - intros [= <- <- <-]. auto.
  - destruct (cascade_body stages) as [b|] eqn:Hb, meth; try done. intros [= <- <- <-] Hm.
    left. apply (cascade_mentions _ _ _ Hb). unfold programModels in Hm.
    rewrite walk_models_spec, elem_of_add_all in Hm. set_solver.
  - destruct (FusionConfig.method f), (FusionConfig.judge f) as [j|] eqn:Hj; try done.
    intros [= <- <- <-] Hm. unfold programModels in Hm. rewrite walk_models_spec, elem_of_add_all in Hm.
    simpl in Hm. rewrite mentions_plain_calls in Hm.
    destruct Hm as [[Hm| ->%list_elem_of_singleton]%elem_of_app|Hm]; [by left|right|by apply elem_of_nil in Hm].
    by exists models, f, j.
  - intros [= <- <- <-]. auto.
Qed.

Definition sample_stages : list CascadeStage.t :=
  [CascadeStage.mk "cheap" (Some (Some (lit 5 1))); CascadeStage.mk "strong" None].

Lemma compile_cascade_answer_witness :
  exists body exact note, compileToProgram (cascade sample_stages logprob) = compiled body exact note /\
  answer (fun m => if bool_decide (m = "cheap") then lit 4 1 else one) body = Some "strong".
Proof.
  eexists _, _, _. split; [reflexivity|].
  erewrite (compile_cascade_answer _ sample_stages logprob) by reflexivity. reflexivity.
Defined.

End Compile.
