(* ===== verification/Select.v ===== *)
(** * Policy evaluation: core/src/select.ts

    [selectPoint] filters the frontier by the policy's constraint and takes the
    head of a stable sort by the policy's objective.  Costs are request-aware
    when every point carries a token profile and the measured scalar
    otherwise. *)

From S2P Require Import Prelude Number JsSort Types Fixtures Program.

Module Select.
Import Num Sort Program.

(** ** Coordinates *)

(** [p.evidence?.tokens]. *)
Definition tokens_of (p : FrontierPoint.t) : option Tokens.t :=
  e ← FrontierPoint.evidence p; FrontierPointEvidence.tokens e.

Definition qualityUpperBound (p : FrontierPoint.t) : number :=
  let half := FrontierPointEvidence.qualityCi95 <$> FrontierPoint.evidence p in
  let by_half :=
    match half with
    | Some h => if gtb h zero then min one (add (FrontierPoint.quality p) h) else FrontierPoint.quality p
    | None => FrontierPoint.quality p
    end in
  match e ← FrontierPoint.evidence p; FrontierPointEvidence.qualityCi e with
  | Some (lo, hi) => if geb hi lo then min one hi else by_half
  | None => by_half
  end.

Definition qualityLowerBound (p : FrontierPoint.t) : number :=
  let half := FrontierPointEvidence.qualityCi95 <$> FrontierPoint.evidence p in
  let by_half :=
    match half with
    | Some h => if gtb h zero then sub (FrontierPoint.quality p) h else FrontierPoint.quality p
    | None => FrontierPoint.quality p
    end in
  match e ← FrontierPoint.evidence p; FrontierPointEvidence.qualityCi e with
  | Some (lo, hi) => if geb lo zero then lo else by_half
  | None => by_half
  end.

(** ** Cost *)

Definition MILLION : number := of_Z 1000000.
Definition THOUSAND : number := of_Z 1000.

Definition find_price (prices : PriceTable.t) (m : string) : option PriceEntry.t :=
  List.find (fun e => String.eqb (PriceEntry.alias e) m || String.eqb (PriceEntry.model e) m)
    (PriceTable.entries prices).

Definition mean (f : PriceEntry.t -> number) (entries : list PriceEntry.t) : number :=
  div (fold_left (fun a e => add a (f e)) entries zero) (of_Z (Z.of_nat (length entries))).

Definition expectedCostPer1K (point : FrontierPoint.t) (requestInputTokens : number)
    (prices : PriceTable.t) (baselineInputTokens : number) : number :=
  match tokens_of point with
  | None => FrontierPoint.costPer1K point
  | Some tokens =>
      let models := strategyModels (FrontierPoint.strategyConfig point) in
      let entries := omap (find_price prices) models in
      match entries with
      | [] => FrontierPoint.costPer1K point
      | _ =>
          let inPer1M := mean PriceEntry.inputPer1M entries in
          let outPer1M := mean PriceEntry.outputPer1M entries in
          let overhead := max zero (sub (Tokens.inputMean tokens) baselineInputTokens) in
          let expectedInput := add (max zero requestInputTokens) overhead in
          let perRequestUsd :=
            div (add (mul expectedInput inPer1M) (mul (Tokens.outputMean tokens) outPer1M)) MILLION in
          let reconstructed := mul perRequestUsd THOUSAND in
          if (length models <=? 1)%nat then reconstructed
          else
            let atSuite :=
              mul (div (add (mul (Tokens.inputMean tokens) inPer1M)
                            (mul (Tokens.outputMean tokens) outPer1M)) MILLION) THOUSAND in
            if negb (gtb atSuite zero) || negb (gtb (FrontierPoint.costPer1K point) zero) then reconstructed
            else mul reconstructed (div (FrontierPoint.costPer1K point) atSuite)
      end
  end.

(** The loop of [baselineInputTokens], from the running minimum. *)
Fixpoint min_input (points : list FrontierPoint.t) (m : number) : option number :=
  match points with
  | [] => Some m
  | p :: rest =>
      t ← tokens_of p;
      min_input rest (if ltb (Tokens.inputMean t) m then Tokens.inputMean t else m)
  end.

Definition baselineInputTokens (points : list FrontierPoint.t) : option number :=
  match points with
  | [] => None
  | _ => m ← min_input points Infinity; if is_finite m then Some m else None
  end.

Module SelectionContext.
Record t := mk {
  requestInputTokens : number;
  prices : PriceTable.t;
  maxOutputTokens : option number;
}.
End SelectionContext.

(** The request context once a baseline is known. *)
Record cost_ctx := CostCtx { ctx_input : number; ctx_prices : PriceTable.t; ctx_baseline : number }.

Definition costOf (point : FrontierPoint.t) (ctx : option cost_ctx) : number :=
  match ctx with
  | None => FrontierPoint.costPer1K point
  | Some c => expectedCostPer1K point (ctx_input c) (ctx_prices c) (ctx_baseline c)
  end.

(** ** Selection *)

Definition pickBest (pts : list FrontierPoint.t)
    (cmp : FrontierPoint.t -> FrontierPoint.t -> comparison) : option FrontierPoint.t :=
  head (sort cmp pts).

Definition underpoweredExclusions (policy : Policy) (f : Frontier.t) : nat :=
  match policy with
  | min_cost floor _ _ _ | compound floor _ _ _ _ =>
      length (List.filter (fun p => geb (FrontierPoint.quality p) floor && ltb (qualityLowerBound p) floor)
                (Frontier.points f))
  | _ => 0%nat
  end.

(** The [ctx] of [selectPoint]. *)
Definition select_ctx (pts : list FrontierPoint.t) (request : option SelectionContext.t) : option cost_ctx :=
  r ← request;
  base ← baselineInputTokens pts;
  Some (CostCtx (SelectionContext.requestInputTokens r) (SelectionContext.prices r) base).

(** The [pool] of [selectPoint]: what fits the caller's output budget. *)
Definition select_pool (pts : list FrontierPoint.t) (request : option SelectionContext.t) : list FrontierPoint.t :=
  match select_ctx pts request, (r ← request; SelectionContext.maxOutputTokens r) with
  | Some _, Some budget =>
      List.filter (fun p =>
        match Tokens.outputMean <$> tokens_of p with None => true | Some out => leb out budget end) pts
  | _, _ => pts
  end.

Definition by_quality_then_cost (cost : FrontierPoint.t -> number) (a b : FrontierPoint.t) : comparison :=
  sign (or_else (sub (FrontierPoint.quality b) (FrontierPoint.quality a)) (sub (cost a) (cost b))).
Definition by_cost_then_quality (cost : FrontierPoint.t -> number) (a b : FrontierPoint.t) : comparison :=
  sign (or_else (sub (cost a) (cost b)) (sub (FrontierPoint.quality b) (FrontierPoint.quality a))).

Definition selectPoint (policy : Policy) (f : Frontier.t) (request : option SelectionContext.t)
    : option FrontierPoint.t :=
  let pts := Frontier.points f in
  match pts with
  | [] => None
  | _ =>
      let cost p := costOf p (select_ctx pts request) in
      match select_pool pts request with
      | [] => None
      | pool =>
          match policy with
          | max_quality ceiling _ _ =>
              pickBest (List.filter (fun p => leb (cost p) ceiling) pool) (by_quality_then_cost cost)
          | min_cost floor _ _ _ =>
              pickBest (List.filter (fun p => geb (qualityLowerBound p) floor) pool) (by_cost_then_quality cost)
          | latency_bound p95Ms _ _ =>
              pickBest (List.filter (fun p => leb (FrontierPoint.latencyP95 p) p95Ms) pool)
                (by_quality_then_cost cost)
          | compound floor _ p95Ms _ _ =>
              pickBest (List.filter (fun p => geb (qualityLowerBound p) floor
                                              && leb (FrontierPoint.latencyP95 p) p95Ms) pool)
                (by_cost_then_quality cost)
          end
      end
  end.

(** The order of the latency fallback. *)
Definition by_latency (a b : FrontierPoint.t) : comparison :=
  sign (or_else (or_else (sub (FrontierPoint.latencyP95 a) (FrontierPoint.latencyP95 b))
                         (sub (FrontierPoint.costPer1K a) (FrontierPoint.costPer1K b)))
                (sub (FrontierPoint.quality b) (FrontierPoint.quality a))).

Definition fastestQualityQualifyingPoint (points : list FrontierPoint.t) (qualityFloor : number)
    : option FrontierPoint.t :=
  pickBest (List.filter (fun p => geb (qualityLowerBound p) qualityFloor) points) by_latency.

Definition highestQualityPoint (points : list FrontierPoint.t) : option FrontierPoint.t :=
  pickBest points (by_quality_then_cost FrontierPoint.costPer1K).

(** ** Specification

    A policy is a feasibility predicate and a strict preference. *)

Definition feasible (policy : Policy) (cost : FrontierPoint.t -> number) (p : FrontierPoint.t) : bool :=
  match policy with
  | max_quality ceiling _ _ => leb (cost p) ceiling
  | min_cost floor _ _ _ => geb (qualityLowerBound p) floor
  | latency_bound p95Ms _ _ => leb (FrontierPoint.latencyP95 p) p95Ms
  | compound floor _ p95Ms _ _ => geb (qualityLowerBound p) floor && leb (FrontierPoint.latencyP95 p) p95Ms
  end.

(** [p] is strictly better than [q] for the policy's objective. *)
Definition beats (policy : Policy) (cost : FrontierPoint.t -> number) (p q : FrontierPoint.t) : bool :=
  let better_quality := ltb (FrontierPoint.quality q) (FrontierPoint.quality p) in
  let same_quality := eqb (FrontierPoint.quality q) (FrontierPoint.quality p) in
  match policy with
  | max_quality _ _ _ | latency_bound _ _ _ => better_quality || (same_quality && ltb (cost p) (cost q))
  | min_cost _ _ _ _ | compound _ _ _ _ _ => ltb (cost p) (cost q) || (eqb (cost p) (cost q) && better_quality)
  end.

(** The coordinates a comparator reads are numbers other than NaN. *)
Definition comparable (cost : FrontierPoint.t -> number) (p : FrontierPoint.t) : Prop :=
  real (FrontierPoint.quality p) = true /\ real (cost p) = true.

Definition objective (policy : Policy) (cost : FrontierPoint.t -> number) :=
  match policy with
  | max_quality _ _ _ | latency_bound _ _ _ => by_quality_then_cost cost
  | min_cost _ _ _ _ | compound _ _ _ _ _ => by_cost_then_quality cost
  end.

Lemma by_quality_then_cost_eq cost a b :
  by_quality_then_cost cost a b = then_by (desc FrontierPoint.quality) (asc cost) a b.
Proof. apply or_else_sign. Qed.

Lemma by_cost_then_quality_eq cost a b :
  by_cost_then_quality cost a b = then_by (asc cost) (desc FrontierPoint.quality) a b.
Proof. apply or_else_sign. Qed.

#[export] Instance consistent_quality cost : Consistent (comparable cost) (by_quality_then_cost cost).
Proof.
  eapply consistent_ext; [intros; apply by_quality_then_cost_eq|].
  apply consistent_then; (eapply consistent_weaken; [|typeclasses eauto]); by intros ? [? ?].
Qed.

#[export] Instance consistent_cost cost : Consistent (comparable cost) (by_cost_then_quality cost).
Proof.
  eapply consistent_ext; [intros; apply by_cost_then_quality_eq|].
  apply consistent_then; (eapply consistent_weaken; [|typeclasses eauto]); by intros ? [? ?].
Qed.

#[export] Instance consistent_objective policy cost : Consistent (comparable cost) (objective policy cost).
Proof. destruct policy; typeclasses eauto. Qed.

Lemma objective_lt policy cost p q :
  comparable cost p -> comparable cost q -> objective policy cost p q = Lt <-> beats policy cost p q = true.
Proof. intros [] []. destruct policy; by apply or_else_sub_lt. Qed.

(** [selectPoint] is: keep the feasible points of the pool, take the best. *)
Lemma selectPoint_unfold policy f request :
  let cost q := costOf q (select_ctx (Frontier.points f) request) in
  selectPoint policy f request =
  pickBest (List.filter (feasible policy cost) (select_pool (Frontier.points f) request)) (objective policy cost).
Proof.
  unfold selectPoint. destruct (Frontier.points f) as [|p pts].
  - unfold select_pool. by repeat case_match.
  - destruct (select_pool (p :: pts) request), policy; reflexivity.
Qed.

Lemma elem_of_lfilter {A} (g : A -> bool) l x : x ∈ List.filter g l <-> x ∈ l /\ g x = true.
Proof. by rewrite !list_elem_of_In, filter_In. Qed.

Lemma select_pool_in pts request p : p ∈ select_pool pts request -> p ∈ pts.
Proof. unfold select_pool. case_match; [|done]. case_match; [|done]. by intros [? _]%elem_of_lfilter. Qed.

(** A point taken by [pickBest] is the first of the best ones. *)
Lemma pickBest_first policy cost l p :
  Forall (comparable cost) l -> pickBest l (objective policy cost) = Some p ->
  exists before after, l = before ++ p :: after /\
    Forall (fun q => beats policy cost p q = true) before /\
    Forall (fun q => beats policy cost q p = false) after.
Proof.
  intros Hl Hp. destruct (sort_head _ _ l p Hl Hp) as (l1 & l2 & -> & H1 & H2).
  exists l1, l2. apply Forall_app in Hl as [Hl1 Hl2]. inversion Hl2 as [|? ? Hcp Hl2']; subst.
  split; [done|]. split; apply Forall_forall; intros q Hq; forall_elim.
  - apply objective_lt; auto.
  - apply not_true_is_false. intros Hb%objective_lt; auto. apply (H2 q Hq).
    by rewrite (cons_antisym (P := comparable cost) q p), Hb by auto.
Qed.

Lemma pickBest_none cmp l : pickBest l cmp = None <-> l = [].
Proof. apply sort_head_none. Qed.

Lemma pickBest_in cmp l p : pickBest l cmp = Some p -> p ∈ l.
Proof. apply sort_head_elem. Qed.

(** The running minimum of [baselineInputTokens]. *)
Lemma min_input_spec points m b :
  min_input points m = Some b ->
  (b = m \/ exists p t, p ∈ points /\ tokens_of p = Some t /\ Tokens.inputMean t = b) /\
  (is_nan m = false -> leb b m = true) /\
  Forall (fun p => exists t, tokens_of p = Some t /\
                   (is_nan m = false -> is_nan (Tokens.inputMean t) = false -> leb b (Tokens.inputMean t) = true)) points.
Proof.
  revert m. induction points as [|p points IH]; intros m; simpl.
  - intros [= <-]. split; [by left|]. split; [apply leb_refl|constructor].
  - destruct (tokens_of p) as [t|] eqn:Et; [|done]. simpl. intros (Hb & Hm & Hall)%IH.
    destruct (ltb (Tokens.inputMean t) m) eqn:Hlt.
    + pose proof (ltb_nan _ _ Hlt) as [Ht _]. split; [|split].
      * right. destruct Hb as [->|(q & u & ? & ? & ?)]; [(exists p, t)|(exists q, u)]; set_solver.
      * intros _. apply (leb_trans _ (Tokens.inputMean t)); auto using ltb_leb.
      * constructor; [exists t; auto|]. eapply Forall_impl; [exact Hall|]. naive_solver.
    + split; [|split]; [destruct Hb as [->|(q & u & ? & ? & ?)]; [by left|right; (exists q, u); set_solver]|done|].
      constructor; [|done]. exists t. split; [done|]. intros Hm' Ht. apply (leb_trans _ m); [auto|].
      destruct (leb m (Tokens.inputMean t)) eqn:E; [done|].
      apply leb_total in E; [congruence|done..].
Qed.

Lemma min_input_missing points m p :
  p ∈ points -> tokens_of p = None -> min_input points m = None.
Proof.
  intros Hp Ht. revert m. induction Hp as [q pts|p q pts Hp IH]; intros m; simpl.
  - by rewrite Ht.
  - destruct (tokens_of q); [|done]. simpl. auto.
Qed.

Lemma baseline_missing points p :
  p ∈ points -> tokens_of p = None -> baselineInputTokens points = None.
Proof.
  intros Hp Ht. unfold baselineInputTokens. destruct points; [done|].
  by rewrite (min_input_missing _ _ p).
Qed.

Definition measured (p : FrontierPoint.t) : Prop :=
  real (FrontierPoint.latencyP95 p) && real (FrontierPoint.costPer1K p) && real (FrontierPoint.quality p) = true.

(** [a] comes strictly before [b]: faster, or as fast and cheaper, or as fast,
    as cheap and better. *)
Definition faster (a b : FrontierPoint.t) : bool :=
  ltb (FrontierPoint.latencyP95 a) (FrontierPoint.latencyP95 b)
  || (eqb (FrontierPoint.latencyP95 a) (FrontierPoint.latencyP95 b)
      && (ltb (FrontierPoint.costPer1K a) (FrontierPoint.costPer1K b)
          || (eqb (FrontierPoint.costPer1K a) (FrontierPoint.costPer1K b)
              && ltb (FrontierPoint.quality b) (FrontierPoint.quality a)))).

Lemma measured_real p : measured p ->
  real (FrontierPoint.latencyP95 p) = true /\ real (FrontierPoint.costPer1K p) = true /\
  real (FrontierPoint.quality p) = true.
Proof. unfold measured. intros [[? ?]%andb_prop ?]%andb_prop. done. Qed.

Lemma by_latency_eq a b :
  by_latency a b =
  then_by (then_by (asc FrontierPoint.latencyP95) (asc FrontierPoint.costPer1K)) (desc FrontierPoint.quality) a b.
Proof. unfold by_latency, then_by. by rewrite !or_else_sign. Qed.

#[export] Instance consistent_latency : Consistent measured by_latency.
Proof.
  eapply consistent_ext; [intros; apply by_latency_eq|].
  repeat apply consistent_then; (eapply consistent_weaken; [|typeclasses eauto]); by intros ? (? & ? & ?)%measured_real.
Qed.

Lemma by_latency_lt a b : measured a -> measured b -> by_latency a b = Lt <-> faster a b = true.
Proof.
  intros (? & ? & ?)%measured_real (? & ? & ?)%measured_real. unfold by_latency, faster.
  rewrite !or_else_sign, !sub_sign, !ltb_cmp, !eqb_cmp by auto using real_not_nan.
  rewrite (cmp_antisym (FrontierPoint.quality a)).
  by destruct (cmp (FrontierPoint.latencyP95 a) _), (cmp (FrontierPoint.costPer1K a) _), (cmp (FrontierPoint.quality a) _).
Qed.

(** ** Properties *)

(** A selected point comes from the frontier, fits the output budget's pool
    and meets the policy's constraint: the bound is hard on every branch. *)
Theorem selectPoint_feasible policy f request p :
  selectPoint policy f request = Some p ->
  p ∈ Frontier.points f /\ p ∈ select_pool (Frontier.points f) request /\
  feasible policy (fun q => costOf q (select_ctx (Frontier.points f) request)) p = true.
Proof.
  rewrite selectPoint_unfold. intros [Hp Hf]%pickBest_in%elem_of_lfilter.
  split; [by eapply select_pool_in|done].
Qed.

Lemma selectPoint_feasible_witness :
  let f := Fixtures.frontier [Fixtures.cheap; Fixtures.mid; Fixtures.best] in
  selectPoint (Fixtures.compound_policy 850 2000) f None = Some Fixtures.mid /\
  Fixtures.mid ∈ Frontier.points f.
Proof.
  split; [vm_compute; reflexivity|].
  apply (selectPoint_feasible (Fixtures.compound_policy 850 2000) _ None). vm_compute. reflexivity.
Defined.

(** C1. The selected point is the first best feasible one: it strictly beats every
    feasible point before it on the frontier and none after it beats it. *)
Theorem selectPoint_optimal policy f request p :
  let cost q := costOf q (select_ctx (Frontier.points f) request) in
  Forall (comparable cost) (Frontier.points f) ->
  selectPoint policy f request = Some p ->
  exists before after,
    List.filter (feasible policy cost) (select_pool (Frontier.points f) request) = before ++ p :: after /\
    Forall (fun q => beats policy cost p q = true) before /\
    Forall (fun q => beats policy cost q p = false) after.
Proof.
  intros cost Hc. rewrite selectPoint_unfold. apply pickBest_first. forall_elim.
  apply Hc. eapply select_pool_in. by eapply elem_of_lfilter.
Qed.

Lemma selectPoint_optimal_witness :
  exists before after,
    List.filter (feasible (min_cost (lit 800 3) None None None) FrontierPoint.costPer1K)
      [Fixtures.best; Fixtures.cheap; Fixtures.mid] = before ++ Fixtures.cheap :: after /\
    Forall (fun q => beats (min_cost (lit 800 3) None None None) FrontierPoint.costPer1K Fixtures.cheap q = true) before /\
    Forall (fun q => beats (min_cost (lit 800 3) None None None) FrontierPoint.costPer1K q Fixtures.cheap = false) after.
Proof.
  apply (selectPoint_optimal (min_cost (lit 800 3) None None None)
    (Fixtures.frontier [Fixtures.best; Fixtures.cheap; Fixtures.mid]) None).
  - repeat constructor.
  - vm_compute. reflexivity.
Defined.

(** [null] exactly when no point of the pool meets the constraint. *)
Theorem selectPoint_none policy f request :
  selectPoint policy f request = None <->
  Forall (fun q => feasible policy (fun q => costOf q (select_ctx (Frontier.points f) request)) q = false)
    (select_pool (Frontier.points f) request).
Proof.
  rewrite selectPoint_unfold, pickBest_none. split.
  - intros H. forall_elim. apply not_true_is_false. intros Hx.
    eapply not_elem_of_nil. rewrite <- H. apply elem_of_lfilter. eauto.
  - intros H. forall_elim. destruct (List.filter _ _) as [|x l] eqn:E; [done|].
    assert (x ∈ x :: l) as Hx by left. rewrite <- E in Hx. apply elem_of_lfilter in Hx as [Hx Hf].
    by rewrite (H x Hx) in Hf.
Qed.

(** One point without a token profile puts the whole frontier back on the
    measured scalar: the request changes neither the costs nor the pool. *)
Theorem selectPoint_mixed_evidence policy f r p :
  p ∈ Frontier.points f -> tokens_of p = None ->
  selectPoint policy f (Some r) = selectPoint policy f None.
Proof.
  intros Hp Ht. rewrite !selectPoint_unfold.
  assert (select_ctx (Frontier.points f) (Some r) = None) as Hctx.
  { unfold select_ctx. simpl. by rewrite (baseline_missing _ p). }
  unfold select_pool. rewrite Hctx. simpl. reflexivity.
Qed.

Lemma selectPoint_mixed_evidence_witness :
  let profiled := Fixtures.with_evidence (Fixtures.evidence 0 (Some (Tokens.mk (of_Z 120) (of_Z 300)))) Fixtures.mid in
  let r := SelectionContext.mk (of_Z 24) Fixtures.prices (Some (of_Z 64)) in
  let f := Fixtures.frontier [profiled; Fixtures.cheap] in
  selectPoint (max_quality (of_Z 100) None None) f (Some r) = selectPoint (max_quality (of_Z 100) None None) f None.
Proof.
  intros profiled r f. apply (selectPoint_mixed_evidence _ f r Fixtures.cheap); [right; left|reflexivity].
Defined.

(** The latency fallback keeps the quality floor and takes the fastest point
    above it, ties to the cheaper, then to the better one; [None] only when no
    point clears the floor. *)
Theorem fastestQualityQualifyingPoint_spec points floor :
  Forall measured points ->
  match fastestQualityQualifyingPoint points floor with
  | Some p => p ∈ points /\ geb (qualityLowerBound p) floor = true /\
      forall q, q ∈ points -> geb (qualityLowerBound q) floor = true -> faster q p = false
  | None => forall q, q ∈ points -> geb (qualityLowerBound q) floor = false
  end.
Proof.
  intros Hm. unfold fastestQualityQualifyingPoint. destruct (pickBest _ _) as [p|] eqn:E.
  - pose proof (pickBest_in _ _ _ E) as [Hp Hf]%elem_of_lfilter. split; [done|]. split; [done|].
    intros q Hq Hqf. apply not_true_is_false. intros Hb. forall_elim.
    apply (sort_head_le measured by_latency) with (y := q) in E.
    + apply E. fold (by_latency p q). rewrite (cons_antisym (P := measured) q p) by auto.
      by rewrite (proj2 (by_latency_lt q p (Hm q Hq) (Hm p Hp)) Hb).
    + apply Forall_forall. intros x [Hx _]%elem_of_lfilter. auto.
    + by apply elem_of_lfilter.
  - apply pickBest_none in E. intros q Hq. apply not_true_is_false. intros Hf.
    eapply not_elem_of_nil. rewrite <- E. by apply elem_of_lfilter.
Qed.

Lemma fastestQualityQualifyingPoint_spec_witness :
  let points := [Fixtures.best; Fixtures.mid; Fixtures.cheap] in
  Forall measured points /\
  match fastestQualityQualifyingPoint points (lit 850 3) with
  | Some p => p ∈ points /\ geb (qualityLowerBound p) (lit 850 3) = true /\
      forall q, q ∈ points -> geb (qualityLowerBound q) (lit 850 3) = true -> faster q p = false
  | None => forall q, q ∈ points -> geb (qualityLowerBound q) (lit 850 3) = false
  end.
Proof.
  intros points. assert (Forall measured points) as Hm by (repeat constructor).
  split; [exact Hm|]. apply (fastestQualityQualifyingPoint_spec points (lit 850 3) Hm).
Defined.

(** Mean-qualifying points split into those whose interval proves the floor
    and the underpowered ones the counter reports. *)
Theorem underpowered_split policy f floor :
  match policy with min_cost fl _ _ _ | compound fl _ _ _ _ => fl = floor | _ => False end ->
  is_nan floor = false -> Forall (fun p => is_nan (qualityLowerBound p) = false) (Frontier.points f) ->
  length (List.filter (fun p => geb (FrontierPoint.quality p) floor) (Frontier.points f)) =
  (length (List.filter (fun p => geb (FrontierPoint.quality p) floor && geb (qualityLowerBound p) floor) (Frontier.points f))
   + underpoweredExclusions policy f)%nat.
Proof.
  intros Hp Hn Hl. assert (underpoweredExclusions policy f =
    length (List.filter (fun p => geb (FrontierPoint.quality p) floor && ltb (qualityLowerBound p) floor)
      (Frontier.points f))) as -> by (destruct policy; naive_solver).
  induction Hl as [|p l Hp1 Hl IH]; [done|]. simpl.
  destruct (geb (FrontierPoint.quality p) floor); simpl; [|done].
  destruct (geb (qualityLowerBound p) floor) eqn:E; unfold geb in E.
  - rewrite (leb_not_ltb _ _ E). simpl. lia.
  - rewrite (leb_total _ _ Hn Hp1 E). simpl. lia.
Qed.

Lemma underpowered_split_witness :
  let wide := Fixtures.with_evidence (Fixtures.evidence 101 None) Fixtures.best in
  let f := Fixtures.frontier [wide; Fixtures.mid; Fixtures.cheap] in
  underpoweredExclusions (Fixtures.compound_policy 850 2000) f = 1%nat /\
  length (List.filter (fun p => geb (FrontierPoint.quality p) (lit 850 3)) (Frontier.points f)) =
  (length (List.filter (fun p => geb (FrontierPoint.quality p) (lit 850 3)
     && geb (qualityLowerBound p) (lit 850 3)) (Frontier.points f))
   + underpoweredExclusions (Fixtures.compound_policy 850 2000) f)%nat.
Proof.
  intros wide f. split; [vm_compute; reflexivity|].
  apply (underpowered_split (Fixtures.compound_policy 850 2000) f (lit 850 3)).
  - reflexivity.
  - vm_compute. reflexivity.
  - repeat constructor.
Defined.

(** The baseline exists only when every point carries a token profile, and it
    is then the smallest measured input size. *)
Theorem baselineInputTokens_spec points b :
  baselineInputTokens points = Some b ->
  is_finite b = true /\ (exists p t, p ∈ points /\ tokens_of p = Some t /\ Tokens.inputMean t = b) /\
  Forall (fun p => exists t, tokens_of p = Some t /\
            (is_nan (Tokens.inputMean t) = false -> leb b (Tokens.inputMean t) = true)) points.
Proof.
  unfold baselineInputTokens. destruct points as [|p l]; [done|].
  destruct (min_input (p :: l) Infinity) as [m|] eqn:E; [|done]. simpl.
  destruct (is_finite m) eqn:Hf; [|done]. intros [= <-].
  apply min_input_spec in E as (Hb & _ & Hall). split; [done|]. split.
  - destruct Hb as [->|]; done.
  - eapply Forall_impl; [exact Hall|]. naive_solver.
Qed.

Lemma baselineInputTokens_spec_witness :
  let p1 := Fixtures.with_evidence (Fixtures.evidence 0 (Some (Tokens.mk (of_Z 120) (of_Z 300)))) Fixtures.mid in
  let p2 := Fixtures.with_evidence (Fixtures.evidence 0 (Some (Tokens.mk (of_Z 90) (of_Z 100)))) Fixtures.cheap in
  baselineInputTokens [p1; p2] = Some (of_Z 90) /\ is_finite (of_Z 90) = true.
Proof.
  intros p1 p2. assert (baselineInputTokens [p1; p2] = Some (of_Z 90)) as H by (vm_compute; reflexivity).
  split; [exact H|]. apply (baselineInputTokens_spec [p1; p2] (of_Z 90) H).
Defined.

End Select.
