(* ===== verification/Latency.v ===== *)
(** * Serving-grade latency: core/src/latency.ts

    [resolveLatency] replaces a point's measured p95 by the serving rollup's
    when that rollup has enough samples, and labels every point with the source
    of its number. *)

From S2P Require Import Prelude Number Types Fixtures.

Module Latency.
Import Num.

Definition SERVING_LATENCY_MIN_SAMPLES : number := of_Z 30.

(** [1e-9]. *)
Definition SELECTION_EPSILON : number := lit 1 9.

Inductive LatencySpan := end_to_end | strategy_only.
Inductive LatencySource := serving | harness.

Module LatencyEvidence.
Record t := mk {
  source : LatencySource;
  p95Ms : number;
  n : number;
  provisional : bool;
  windowMin : option number;
  span : LatencySpan;
}.
End LatencyEvidence.

Module ServingLatencySample.
Record t := mk { strategyHash : string; p95Ms : number; n : number }.
End ServingLatencySample.

Module ResolvedLatency.
Record t := mk {
  points : list FrontierPoint.t;
  evidence : gmap string LatencyEvidence.t;
  allProvisional : bool;
}.
End ResolvedLatency.

Section resolve.
  Variables (samples : list ServingLatencySample.t) (windowMin minSamples : number).

(** [new Map(serving.map((s) => [s.strategyHash, s]))]: the last sample of a
    hash wins. *)
Definition byHash : gmap string ServingLatencySample.t :=
  fold_left (fun m s => <[ServingLatencySample.strategyHash s := s]> m) samples ∅.

(** The sample that replaces [p]'s number, if its count suffices. *)
Definition served (p : FrontierPoint.t) : option ServingLatencySample.t :=
  s ← byHash !! FrontierPoint.strategyHash p;
  if geb (ServingLatencySample.n s) minSamples then Some s else None.

(** [p.evidence?.latencyN ?? p.evidence?.n ?? 0]. *)
Definition harness_n (p : FrontierPoint.t) : number :=
  match FrontierPoint.evidence p with
  | Some e => default (FrontierPointEvidence.n e) (FrontierPointEvidence.latencyN e)
  | None => zero
  end.

Definition resolved_point (p : FrontierPoint.t) : FrontierPoint.t :=
  match served p with
  | Some s => FrontierPoint.with_latencyP95 (ServingLatencySample.p95Ms s) p
  | None => p
  end.

Definition resolved_evidence (p : FrontierPoint.t) : LatencyEvidence.t :=
  match served p with
  | Some s =>
      LatencyEvidence.mk serving (ServingLatencySample.p95Ms s) (ServingLatencySample.n s) false
        (Some windowMin) end_to_end
  | None => LatencyEvidence.mk harness (FrontierPoint.latencyP95 p) (harness_n p) true None strategy_only
  end.

Definition collect_evidence (points : list FrontierPoint.t) : gmap string LatencyEvidence.t :=
  fold_left (fun m p => <[FrontierPoint.strategyHash p := resolved_evidence p]> m) points ∅.

Definition resolveLatency (points : list FrontierPoint.t) : ResolvedLatency.t :=
  let evidence := collect_evidence points in
  ResolvedLatency.mk (map resolved_point points) evidence
    (forallb (fun e => LatencyEvidence.provisional e.2) (map_to_list evidence)).

(** ** Lemmas *)

Lemma fold_insert_lookup {A B} (key : A -> string) (val : A -> B) l (m : gmap string B) k :
  fold_left (fun m x => <[key x := val x]> m) l m !! k =
  match last (filter (fun x => key x = k) l) with Some x => Some (val x) | None => m !! k end.
Proof.
  revert m. induction l as [|x l IH]; intros m; simpl; [done|]. rewrite IH.
  destruct (decide (key x = k)) as [<-|Hne].
  - rewrite filter_cons_True by done. rewrite last_cons.
    destruct (last _); [done|]. by rewrite lookup_insert_eq.
  - rewrite filter_cons_False by done. destruct (last _); [done|]. by rewrite lookup_insert_ne.
Qed.

Lemma evidence_provisional p :
  LatencyEvidence.provisional (resolved_evidence p) = match served p with Some _ => false | None => true end.
Proof. unfold resolved_evidence. by destruct (served p). Qed.

Lemma served_hash p q : FrontierPoint.strategyHash p = FrontierPoint.strategyHash q -> served p = served q.
Proof. unfold served. by intros ->. Qed.

(** The label of a hash is that of the last point with it. *)
Lemma collect_lookup points k e :
  collect_evidence points !! k = Some e ->
  exists p, p ∈ points /\ FrontierPoint.strategyHash p = k /\ e = resolved_evidence p.
Proof.
  unfold collect_evidence. rewrite fold_insert_lookup. destruct (last _) as [p|] eqn:E; [|by rewrite lookup_empty].
  intros [= <-]. exists p. apply last_Some_elem_of in E. apply list_elem_of_filter in E. naive_solver.
Qed.

Lemma collect_some points p :
  p ∈ points -> exists q, collect_evidence points !! FrontierPoint.strategyHash p = Some (resolved_evidence q) /\
    FrontierPoint.strategyHash q = FrontierPoint.strategyHash p.
Proof.
  intros Hp. unfold collect_evidence. rewrite fold_insert_lookup.
  destruct (last _) as [q|] eqn:E.
  - exists q. split; [done|]. apply last_Some_elem_of in E. by apply list_elem_of_filter in E as [? _].
  - exfalso. apply last_None in E. eapply not_elem_of_nil. rewrite <- E. by apply list_elem_of_filter.
Qed.

(** ** Properties *)

(** Substitution touches nothing but [latencyP95]: same number of points, in
    order, every other field kept, and the new number is a serving sample of
    the point's own hash with at least [minSamples] requests. *)
Theorem resolveLatency_points points :
  Forall2 (fun p p' =>
      p' = FrontierPoint.with_latencyP95 (FrontierPoint.latencyP95 p') p /\
      (FrontierPoint.latencyP95 p' = FrontierPoint.latencyP95 p \/
       exists s, s ∈ samples /\ ServingLatencySample.strategyHash s = FrontierPoint.strategyHash p /\
         geb (ServingLatencySample.n s) minSamples = true /\
         FrontierPoint.latencyP95 p' = ServingLatencySample.p95Ms s))
    points (ResolvedLatency.points (resolveLatency points)).
Proof.
  simpl. induction points as [|p points IH]; simpl; constructor; [|done].
  unfold resolved_point, served, byHash.
  rewrite (fold_insert_lookup ServingLatencySample.strategyHash (fun s => s)).
  destruct (last _) as [s|] eqn:E; simpl; [|rewrite ?lookup_empty; simpl; split; [by destruct p|by left]].
  apply last_Some_elem_of, list_elem_of_filter in E as [Hh Hs].
  destruct (geb _ _) eqn:Hn; [|split; [by destruct p|by left]].
  split; [done|]. right. by exists s.
Qed.

(** Every point is labelled, and with unique hashes the label carries exactly
    the number the policy will be evaluated against: provisional when it is the
    benchmark's. *)
Theorem resolveLatency_evidence points p :
  NoDup (map FrontierPoint.strategyHash points) -> p ∈ points ->
  exists e, ResolvedLatency.evidence (resolveLatency points) !! FrontierPoint.strategyHash p = Some e /\
    LatencyEvidence.p95Ms e = FrontierPoint.latencyP95 (resolved_point p) /\
    (LatencyEvidence.provisional e = true <-> served p = None) /\
    (LatencyEvidence.source e = serving <-> LatencyEvidence.provisional e = false).
Proof.
  intros Hd Hp. destruct (collect_some points p Hp) as (q & Hq & _). simpl. exists (resolved_evidence q).
  split; [done|]. apply collect_lookup in Hq as (r & Hr & Hrk & ->).
  rewrite (NoDup_key_inj _ _ r p Hd Hr Hp Hrk).
  unfold resolved_evidence, resolved_point. by destruct (served p).
Qed.

(** [allProvisional] says exactly that no point resolved to serving-grade
    evidence, and the points are then the measured ones, unchanged. *)
Theorem resolveLatency_allProvisional points :
  ResolvedLatency.allProvisional (resolveLatency points) = true <->
  Forall (fun p => served p = None) points.
Proof.
  simpl. rewrite forallb_forall. split.
  - intros H. forall_elim. destruct (collect_some points _ ltac:(eassumption)) as (q & Hq & Hh).
    apply elem_of_map_to_list, list_elem_of_In in Hq. specialize (H _ Hq). simpl in H.
    rewrite evidence_provisional, (served_hash _ _ Hh) in H. by destruct (served _).
  - intros H [k e] Hk. apply list_elem_of_In, elem_of_map_to_list, collect_lookup in Hk as (p & Hp & _ & ->).
    simpl. rewrite evidence_provisional. forall_elim. by rewrite (H p Hp).
Qed.
End resolve.

Lemma resolveLatency_evidence_witness :
  let samples := [ServingLatencySample.mk "mid" (of_Z 2100) (of_Z 45)] in
  let points := [Fixtures.cheap; Fixtures.mid] in
  LatencyEvidence.p95Ms <$> ResolvedLatency.evidence (resolveLatency samples (of_Z 60) SERVING_LATENCY_MIN_SAMPLES points)
    !! "mid" = Some (of_Z 2100) /\
  exists e, ResolvedLatency.evidence (resolveLatency samples (of_Z 60) SERVING_LATENCY_MIN_SAMPLES points) !! "mid" = Some e /\
    LatencyEvidence.p95Ms e = of_Z 2100.
Proof.
  intros samples points. split; [vm_compute; reflexivity|].
  destruct (resolveLatency_evidence samples (of_Z 60) SERVING_LATENCY_MIN_SAMPLES points Fixtures.mid)
    as (e & He & Hp & _).
  - apply (bool_decide_unpack _). vm_compute. exact I.
  - right. left.
  - exists e. split; [exact He|]. rewrite Hp. vm_compute. reflexivity.
Defined.
End Latency.
