(* ===== verification/Premium.v ===== *)
(** * The latency cost premium: core/src/premium.ts

    What a compound policy's latency bound costs: the cheapest point meeting
    both constraints against the cheapest meeting only the quality floor, and
    the relaxations that would remove the difference. *)

From S2P Require Import Prelude Number JsSort Types Fixtures Program Select Latency.

Module Premium.
Import Num Sort Select Latency.

Inductive PremiumBinding := latency | quality | none.

Module LatencyPremium.
Record t := mk {
  binding : PremiumBinding;
  selected : option FrontierPoint.t;
  unbounded : option FrontierPoint.t;
  deltaCostPer1K : number;
  savingsPct : number;
  relaxLatencyToMs : option number;
  relaxQualityToFloor : option number;
}.
End LatencyPremium.

Definition EMPTY : LatencyPremium.t := LatencyPremium.mk none None None zero zero None None.

Definition cheapest (pts : list FrontierPoint.t) : option FrontierPoint.t :=
  head (sort (by_cost_then_quality FrontierPoint.costPer1K) pts).

(** [Math.max(...xs)]: folds from [-Infinity]. *)
Definition max_all (l : list number) : number := fold_left max l (S754_infinity true).

Definition bestQualityUnderBound (points : list FrontierPoint.t) (p95Ms : number) : option number :=
  match List.filter (fun p => leb (FrontierPoint.latencyP95 p) p95Ms) points with
  | [] => None
  | underBound => Some (max_all (map qualityLowerBound underBound))
  end.

Definition latencyPremium (policy : Policy) (points : list FrontierPoint.t) : LatencyPremium.t :=
  match policy, points with
  | compound floor _ p95Ms _ _, _ :: _ =>
      let qualifying := List.filter (fun p => geb (qualityLowerBound p) floor) points in
      match qualifying with
      | [] => LatencyPremium.mk quality None None zero zero None None
      | _ =>
          let unbounded := cheapest qualifying in
          match cheapest (List.filter (fun p => leb (FrontierPoint.latencyP95 p) p95Ms) qualifying) with
          | None =>
              LatencyPremium.mk latency None unbounded zero zero
                ((fun u => add (FrontierPoint.latencyP95 u) SELECTION_EPSILON) <$> unbounded)
                (bestQualityUnderBound points p95Ms)
          | Some s =>
              match unbounded with
              | None => LatencyPremium.mk none (Some s) None zero zero None None
              | Some u =>
                  if String.eqb (FrontierPoint.strategyHash s) (FrontierPoint.strategyHash u)
                  then LatencyPremium.mk none (Some s) (Some u) zero zero None None
                  else
                    let delta := sub (FrontierPoint.costPer1K s) (FrontierPoint.costPer1K u) in
                    if leb delta SELECTION_EPSILON
                    then LatencyPremium.mk none (Some s) (Some u) zero zero None None
                    else
                      LatencyPremium.mk latency (Some s) (Some u) delta
                        (if gtb (FrontierPoint.costPer1K s) zero then div delta (FrontierPoint.costPer1K s) else zero)
                        (Some (add (FrontierPoint.latencyP95 u) SELECTION_EPSILON))
                        (bestQualityUnderBound points p95Ms)
              end
          end
      end
  | _, _ => EMPTY
  end.

(** ** Lemmas *)

Lemma filter_filter {A} (f g : A -> bool) l :
  List.filter f (List.filter g l) = List.filter (fun x => g x && f x) l.
Proof.
  induction l as [|x l IH]; simpl; [done|]. destruct (g x); simpl; [|done].
  destruct (f x); by rewrite IH.
Qed.

Lemma cheapest_none pts : cheapest pts = None <-> pts = [].
Proof. apply sort_head_none. Qed.

Lemma cheapest_in pts p : cheapest pts = Some p -> p ∈ pts.
Proof. apply sort_head_elem. Qed.

Lemma cheapest_filter f pts p :
  Forall (comparable FrontierPoint.costPer1K) pts -> cheapest pts = Some p -> f p = true ->
  cheapest (List.filter f pts) = Some p.
Proof.
  intros. by apply (sort_head_filter (comparable FrontierPoint.costPer1K) (by_cost_then_quality FrontierPoint.costPer1K)).
Qed.

(** [selectPoint] on a compound policy without a request context. *)
Lemma selectPoint_compound floor cf p95 sh g f :
  selectPoint (compound floor cf p95 sh g) f None =
  cheapest (List.filter (fun p => leb (FrontierPoint.latencyP95 p) p95)
    (List.filter (fun p => geb (qualityLowerBound p) floor) (Frontier.points f))).
Proof. rewrite selectPoint_unfold, filter_filter. reflexivity. Qed.

Definition qualifying (floor : number) (points : list FrontierPoint.t) : list FrontierPoint.t :=
  List.filter (fun p => geb (qualityLowerBound p) floor) points.

Lemma selected_cheapest floor cf p95 sh g points :
  LatencyPremium.selected (latencyPremium (compound floor cf p95 sh g) points) =
  cheapest (List.filter (fun p => leb (FrontierPoint.latencyP95 p) p95) (qualifying floor points)).
Proof.
  unfold latencyPremium, qualifying. destruct points as [|p0 points]; [done|].
  destruct (List.filter (fun p => geb (qualityLowerBound p) floor) (p0 :: points)); [done|].
  destruct (cheapest (List.filter _ _)); [|done]. destruct (cheapest _); [|done].
  by repeat case_match.
Qed.

Lemma unbounded_cheapest floor cf p95 sh g points :
  LatencyPremium.unbounded (latencyPremium (compound floor cf p95 sh g) points) = cheapest (qualifying floor points).
Proof.
  unfold latencyPremium, qualifying. destruct points as [|p0 points]; [done|].
  destruct (List.filter (fun p => geb (qualityLowerBound p) floor) (p0 :: points)) as [|q l] eqn:E; [done|].
  destruct (cheapest (List.filter _ _)) as [s|]; [|done].
  destruct (cheapest (q :: l)) as [u|] eqn:Eu; [|by rewrite cheapest_none in Eu].
  by repeat case_match.
Qed.

(** Whatever the branch, a relaxation target is the unbounded point's p95 plus
    the epsilon. *)
Lemma relax_target floor cf p95 sh g points r :
  LatencyPremium.relaxLatencyToMs (latencyPremium (compound floor cf p95 sh g) points) = Some r ->
  exists u, cheapest (qualifying floor points) = Some u /\ r = add (FrontierPoint.latencyP95 u) SELECTION_EPSILON.
Proof.
  unfold latencyPremium, qualifying. destruct points as [|p0 points]; [done|].
  destruct (List.filter (fun p => geb (qualityLowerBound p) floor) (p0 :: points)) as [|q l]; [done|].
  destruct (cheapest (List.filter _ _)) as [s|].
  - destruct (cheapest (q :: l)) as [u|]; [|done]. repeat case_match; try done; intros [= <-]; eauto.
  - destruct (cheapest (q :: l)) as [u|]; [|done]. intros [= <-]. eauto.
Qed.

Lemma relax_quality floor cf p95 sh g points q :
  LatencyPremium.relaxQualityToFloor (latencyPremium (compound floor cf p95 sh g) points) = Some q ->
  bestQualityUnderBound points p95 = Some q.
Proof. unfold latencyPremium. repeat case_match; done. Qed.

Lemma max_nan a b : is_nan (max a b) = is_nan a || is_nan b.
Proof.
  unfold max. destruct (is_nan a) eqn:Ha, (is_nan b) eqn:Hb; try done. simpl.
  destruct (ltb a b); destruct a, b; done.
Qed.

(** The maximum of real numbers is one of them, up to the sign of zero. *)
Lemma max_all_attained l m :
  Forall (fun x => is_nan x = false) l -> is_nan m = false ->
  is_nan (fold_left max l m) = false /\
  (leb (fold_left max l m) m = true \/ exists x, x ∈ l /\ leb (fold_left max l m) x = true).
Proof.
  intros Hl. revert m. induction Hl as [|x l Hx Hl IH]; intros m Hm; simpl; [auto using leb_refl|].
  destruct (IH (max m x)) as [Hn Hle]; [by rewrite max_nan, Hm, Hx|]. split; [done|].
  destruct Hle as [Hle|(y & Hy & Hle)]; [|right; exists y; split; [by right|done]].
  assert (leb (max m x) m = true \/ leb (max m x) x = true) as [H|H].
  { unfold max. rewrite Hm, Hx. simpl. destruct (ltb m x) eqn:E.
    - destruct m, x; simpl; auto using leb_refl.
    - destruct m, x; simpl; auto using leb_refl. }
  - left. by eapply leb_trans.
  - right. exists x. split; [left|by eapply leb_trans].
Qed.

Lemma epsilon_fin : fin SELECTION_EPSILON = true.
Proof. vm_compute. reflexivity. Qed.

Lemma epsilon_pos : (0 <= units SELECTION_EPSILON)%Z.
Proof. vm_compute. discriminate. Qed.

Lemma qualifying_comparable floor points :
  Forall (comparable FrontierPoint.costPer1K) points ->
  Forall (comparable FrontierPoint.costPer1K) (qualifying floor points).
Proof. intros H. forall_elim. apply H. by eapply elem_of_lfilter. Qed.

Lemma leb_neg_infinity x : is_nan x = false -> leb (S754_infinity true) x = true.
Proof. by destruct x as [[]|[]| |[] m e]. Qed.

(** What a latency binding says about the branch that produced it. *)
Lemma binding_latency_branch floor cf p95 sh g points :
  LatencyPremium.binding (latencyPremium (compound floor cf p95 sh g) points) = latency ->
  exists u, cheapest (qualifying floor points) = Some u /\
    forall s, cheapest (List.filter (fun p => leb (FrontierPoint.latencyP95 p) p95) (qualifying floor points)) = Some s ->
      FrontierPoint.strategyHash s <> FrontierPoint.strategyHash u /\
      leb (sub (FrontierPoint.costPer1K s) (FrontierPoint.costPer1K u)) SELECTION_EPSILON = false.
Proof.
  unfold latencyPremium, qualifying. destruct points as [|p0 points]; [done|].
  destruct (List.filter (fun p => geb (qualityLowerBound p) floor) (p0 :: points)) as [|q l]; [done|].
  destruct (cheapest (q :: l)) as [u|] eqn:Eu; [|by rewrite cheapest_none in Eu].
  destruct (cheapest (List.filter _ _)) as [s|]; [|intros _; by exists u].
  destruct (String.eqb_spec (FrontierPoint.strategyHash s) (FrontierPoint.strategyHash u)); [done|].
  destruct (leb _ _) eqn:E; [done|]. intros _. exists u. split; [done|]. by intros ? [= <-].
Qed.

Lemma not_positive_small z : sign z <> Gt -> is_nan z = false -> leb z SELECTION_EPSILON = true.
Proof. by destruct z as [[]|[]| |[] m e]. Qed.

(** ** Properties *)

(** The premium's [selected] is [selectPoint]'s own choice for the same
    compound policy: the two implementations agree on every input. *)
Theorem premium_selected_agrees floor cf p95 sh g f :
  LatencyPremium.selected (latencyPremium (compound floor cf p95 sh g) (Frontier.points f)) =
  selectPoint (compound floor cf p95 sh g) f None.
Proof. rewrite selected_cheapest, selectPoint_compound. reflexivity. Qed.

(** The relaxation target is sound and sufficient: evaluated at the returned
    p95, the policy selects the unbounded point itself. *)
Theorem premium_relax_latency floor cf p95 sh g f r :
  Forall (comparable FrontierPoint.costPer1K) (Frontier.points f) ->
  Forall (fun p => fin (FrontierPoint.latencyP95 p) = true) (Frontier.points f) ->
  LatencyPremium.relaxLatencyToMs (latencyPremium (compound floor cf p95 sh g) (Frontier.points f)) = Some r ->
  LatencyPremium.unbounded (latencyPremium (compound floor cf p95 sh g) (Frontier.points f)) <> None /\
  selectPoint (compound floor cf r sh g) f None =
  LatencyPremium.unbounded (latencyPremium (compound floor cf p95 sh g) (Frontier.points f)).
Proof.
  intros Hc Hl (u & Hu & ->)%relax_target. rewrite unbounded_cheapest, selectPoint_compound, Hu.
  split; [done|]. apply cheapest_filter; [by apply qualifying_comparable|done|].
  apply add_margin; [|apply epsilon_fin|apply epsilon_pos]. forall_elim. apply Hl.
  apply cheapest_in in Hu. by eapply elem_of_lfilter.
Qed.

Lemma premium_relax_latency_witness :
  let f := Fixtures.frontier [Fixtures.point "slow-cheap" 900 10 4000; Fixtures.mid; Fixtures.best] in
  LatencyPremium.binding (latencyPremium (Fixtures.compound_policy 850 2000) (Frontier.points f)) = latency /\
  exists r, selectPoint (compound (lit 850 3) None r None None) f None = Some (Fixtures.point "slow-cheap" 900 10 4000).
Proof.
  intros f. split; [vm_compute; reflexivity|]. exists (add (of_Z 4000) SELECTION_EPSILON).
  etransitivity.
  - apply (premium_relax_latency (lit 850 3) None (of_Z 2000) None None f).
    + repeat constructor.
    + repeat constructor.
    + vm_compute. reflexivity.
  - vm_compute. reflexivity.
Defined.

(** A latency binding is never blamed wrongly: the cheapest qualifying point
    violates the bound, and when a bounded choice exists it costs strictly more
    than that point. *)
Theorem premium_binding_latency floor cf p95 sh g points :
  let r := latencyPremium (compound floor cf p95 sh g) points in
  Forall (fun p => real (FrontierPoint.quality p) = true /\ fin (FrontierPoint.costPer1K p) = true) points ->
  LatencyPremium.binding r = latency ->
  exists u, LatencyPremium.unbounded r = Some u /\ u ∈ points /\
    geb (qualityLowerBound u) floor = true /\ leb (FrontierPoint.latencyP95 u) p95 = false /\
    forall s, LatencyPremium.selected r = Some s ->
      ltb (FrontierPoint.costPer1K u) (FrontierPoint.costPer1K s) = true.
Proof.
  intros r Hf Hb. destruct (binding_latency_branch _ _ _ _ _ _ Hb) as (u & Eu & Hs).
  assert (Forall (comparable FrontierPoint.costPer1K) points) as Hc.
  { eapply Forall_impl; [exact Hf|]. intros p [? ?]. split; auto using fin_real. }
  pose proof (qualifying_comparable floor points Hc) as Hq.
  exists u. split; [unfold r; by rewrite unbounded_cheapest|].
  pose proof (cheapest_in _ _ Eu) as [Hup Huf]%elem_of_lfilter. split; [done|]. split; [done|]. split.
  - apply not_true_is_false. intros Hle.
    pose proof (cheapest_filter (fun p => leb (FrontierPoint.latencyP95 p) p95) _ _ Hq Eu Hle) as Es.
    by destruct (Hs u Es).
  - intros s. unfold r. rewrite selected_cheapest. intros Es. destruct (Hs s Es) as [_ Hd].
    assert (s ∈ points) as Hsp.
    { apply cheapest_in, elem_of_lfilter in Es as [Es _]. by apply elem_of_lfilter in Es as [? _]. }
    forall_elim. destruct (Hf s Hsp) as [_ Fs], (Hf u Hup) as [_ Fu].
    apply sub_lt; [by apply fin_real..|]. rewrite sub_sign by auto using fin_real. rewrite cmp_antisym.
    rewrite <- sub_sign by auto using fin_real. destruct (sign (sub _ _)) eqn:E; [| |done];
      rewrite not_positive_small in Hd; try done; try congruence;
      eapply real_not_nan, sub_real; done.
Qed.

Lemma premium_binding_latency_witness :
  let points := [Fixtures.point "slow-cheap" 900 10 4000; Fixtures.mid; Fixtures.best] in
  exists u, LatencyPremium.unbounded (latencyPremium (Fixtures.compound_policy 850 2000) points) = Some u /\
    leb (FrontierPoint.latencyP95 u) (of_Z 2000) = false.
Proof.
  intros points.
  destruct (premium_binding_latency (lit 850 3) None (of_Z 2000) None None points) as (u & Hu & _ & _ & Hl & _).
  - repeat constructor.
  - vm_compute. reflexivity.
  - exists u. split; [exact Hu|exact Hl].
Defined.

(** The other direction: at the returned floor the latency bound is feasible. *)
Theorem premium_relax_quality floor cf p95 sh g f q :
  Forall (fun p => is_nan (qualityLowerBound p) = false) (Frontier.points f) ->
  LatencyPremium.relaxQualityToFloor (latencyPremium (compound floor cf p95 sh g) (Frontier.points f)) = Some q ->
  selectPoint (compound q cf p95 sh g) f None <> None.
Proof.
  intros Hn Hq%relax_quality. unfold bestQualityUnderBound in Hq.
  destruct (List.filter _ _) as [|p0 l] eqn:E; [done|]. injection Hq as <-.
  set (m := max_all _).
  assert (exists p, p ∈ p0 :: l /\ leb m (qualityLowerBound p) = true) as (p & Hp & Hm).
  { destruct (max_all_attained (map qualityLowerBound (p0 :: l)) (S754_infinity true)) as [_ [Hle|(x & Hx & Hle)]].
    - rewrite <- E. apply Forall_forall. intros x Hx. apply list_elem_of_fmap in Hx as (p & -> & Hp).
      forall_elim. apply Hn. by eapply elem_of_lfilter.
    - done.
    - exists p0. split; [left|]. eapply leb_trans; [exact Hle|]. apply leb_neg_infinity. forall_elim. apply Hn.
      assert (p0 ∈ p0 :: l) as H0 by left. rewrite <- E in H0. by eapply elem_of_lfilter.
    - apply list_elem_of_fmap in Hx as (p & -> & Hp). eauto. }
  rewrite selectPoint_compound, cheapest_none, filter_filter. intros Hnil.
  rewrite <- E in Hp. apply elem_of_lfilter in Hp as [Hp Hl].
  eapply not_elem_of_nil. rewrite <- Hnil. apply elem_of_lfilter. split; [exact Hp|].
  apply andb_true_intro. split; [exact Hm|exact Hl].
Qed.

Lemma premium_relax_quality_witness :
  let f := Fixtures.frontier [Fixtures.cheap; Fixtures.mid; Fixtures.best] in
  LatencyPremium.relaxQualityToFloor (latencyPremium (Fixtures.compound_policy 930 1600) (Frontier.points f)) = Some (lit 900 3) /\
  selectPoint (compound (lit 900 3) None (of_Z 1600) None None) f None <> None.
Proof.
  intros f. assert (LatencyPremium.relaxQualityToFloor
    (latencyPremium (Fixtures.compound_policy 930 1600) (Frontier.points f)) = Some (lit 900 3)) as H
    by (vm_compute; reflexivity).
  split; [exact H|]. apply (premium_relax_quality (lit 930 3) None (of_Z 1600) None None f).
  - repeat constructor.
  - exact H.
Defined.
End Premium.
