(* ===== verification/Dominance.v ===== *)
(** * Pareto dominance: pareto/src/dominance.ts

    Quality and its lower bound are maximized, cost and latency minimized, all
    comparisons up to [DOMINANCE_EPSILON].  [computeFrontier] orders and
    deduplicates the candidates and keeps the non-dominated ones. *)

From S2P Require Import Prelude Number JsSort Types Fixtures Program Select Latency.

Module Dominance.
Import Num Sort Select Latency.

Definition DOMINANCE_EPSILON : number := SELECTION_EPSILON.

Definition noWorse (q p : FrontierPoint.t) : bool :=
  let eps := DOMINANCE_EPSILON in
  geb (FrontierPoint.quality q) (sub (FrontierPoint.quality p) eps)
  && leb (FrontierPoint.costPer1K q) (add (FrontierPoint.costPer1K p) eps)
  && leb (FrontierPoint.latencyP95 q) (add (FrontierPoint.latencyP95 p) eps)
  && geb (qualityLowerBound q) (sub (qualityLowerBound p) eps).

Definition strictlyBetter (q p : FrontierPoint.t) : bool :=
  let eps := DOMINANCE_EPSILON in
  gtb (FrontierPoint.quality q) (add (FrontierPoint.quality p) eps)
  || ltb (FrontierPoint.costPer1K q) (sub (FrontierPoint.costPer1K p) eps)
  || ltb (FrontierPoint.latencyP95 q) (sub (FrontierPoint.latencyP95 p) eps)
  || gtb (qualityLowerBound q) (add (qualityLowerBound p) eps).

(** The body of the loop: [q] ends it. *)
Definition dominates (q p : FrontierPoint.t) : bool :=
  if String.eqb (FrontierPoint.strategyHash q) (FrontierPoint.strategyHash p) then false
  else noWorse q p && strictlyBetter q p.

Definition isDominated (p : FrontierPoint.t) (others : list FrontierPoint.t) : option FrontierPoint.t :=
  List.find (fun q => dominates q p) others.

Definition aggregateToPoint (agg : StrategyAggregate.t) : FrontierPoint.t :=
  FrontierPoint.mk (StrategyAggregate.clusterId agg) (StrategyAggregate.strategyHash agg)
    (StrategyAggregate.strategyConfig agg) (StrategyAggregate.qualityMean agg)
    (StrategyAggregate.costPer1K agg) (StrategyAggregate.latencyP95 agg)
    (StrategyAggregate.providerMode agg) (StrategyAggregate.evidence agg).

Definition sameCoordinates (a b : FrontierPoint.t) : bool :=
  let eps := DOMINANCE_EPSILON in
  leb (abs (sub (FrontierPoint.quality a) (FrontierPoint.quality b))) eps
  && leb (abs (sub (FrontierPoint.costPer1K a) (FrontierPoint.costPer1K b))) eps
  && leb (abs (sub (FrontierPoint.latencyP95 a) (FrontierPoint.latencyP95 b))) eps.

(** The dedupe loop, from the points kept so far. *)
Definition dedupe_step (deduped : list FrontierPoint.t) (p : FrontierPoint.t) : list FrontierPoint.t :=
  if existsb (fun k => String.eqb (FrontierPoint.strategyHash k) (FrontierPoint.strategyHash p)) deduped
  then deduped
  else if existsb (fun k => sameCoordinates k p) deduped then deduped
  else deduped ++ [p].

Definition dedupe (candidates : list FrontierPoint.t) : list FrontierPoint.t :=
  fold_left dedupe_step candidates [].

Definition non_dominated (l : list FrontierPoint.t) : list FrontierPoint.t :=
  List.filter (fun p => match isDominated p l with None => true | Some _ => false end) l.

Section frontier.
  Context `{!Collation}.

Definition byCostThenHash (a b : FrontierPoint.t) : comparison :=
  then_by (asc FrontierPoint.costPer1K) (by_string FrontierPoint.strategyHash) a b.

(** The final order: cost ascending, quality descending, hash ascending. *)
Definition frontier_order (a b : FrontierPoint.t) : comparison :=
  then_by (then_by (asc FrontierPoint.costPer1K) (desc FrontierPoint.quality))
    (by_string FrontierPoint.strategyHash) a b.

Definition computeFrontier (aggs : list StrategyAggregate.t) : list FrontierPoint.t :=
  let candidates := sort byCostThenHash (map aggregateToPoint aggs) in
  sort frontier_order (non_dominated (dedupe candidates)).
End frontier.

(** ** Deduplication *)

Definition hash := FrontierPoint.strategyHash.

Lemma dedupe_snoc l p : dedupe (l ++ [p]) = dedupe_step (dedupe l) p.
Proof. unfold dedupe. by rewrite fold_left_app. Qed.

Lemma dedupe_step_in k d p : k ∈ dedupe_step d p -> k ∈ d \/ k = p.
Proof. unfold dedupe_step. repeat case_match; set_solver. Qed.

Lemma dedupe_in l k : k ∈ dedupe l -> k ∈ l.
Proof.
  induction l as [|p l IH] using rev_ind; [done|]. rewrite dedupe_snoc, elem_of_app.
  intros [?| ->]%dedupe_step_in; [auto|right; left].
Qed.

Lemma existsb_false {A} (f : A -> bool) l : existsb f l = false <-> forall x, x ∈ l -> f x = false.
Proof.
  induction l as [|x l IH]; simpl; [split; [by intros _ ? ?%elem_of_nil|done]|].
  rewrite orb_false_iff, IH. setoid_rewrite elem_of_cons. naive_solver.
Qed.

Lemma existsb_true {A} (f : A -> bool) l : existsb f l = true <-> exists x, x ∈ l /\ f x = true.
Proof. rewrite existsb_exists. by setoid_rewrite list_elem_of_In. Qed.

Lemma dedupe_hashes l : NoDup (map hash (dedupe l)).
Proof.
  induction l as [|p l IH] using rev_ind; [constructor|]. rewrite dedupe_snoc. unfold dedupe_step.
  destruct (existsb _ _) eqn:E; [done|]. destruct (existsb (fun k => sameCoordinates k p) _); [done|].
  rewrite map_app. apply NoDup_app. split; [done|]. split; [|apply NoDup_singleton].
  intros h Hh ->%list_elem_of_singleton. apply list_elem_of_fmap in Hh as (k & Hk & Hin).
  pose proof (proj1 (existsb_false _ _) E k Hin) as Hf. simpl in Hf.
  apply String.eqb_neq in Hf. by apply Hf.
Qed.

(** Two kept points, the later one against the earlier one, differ on some
    axis. *)
Lemma dedupe_distinct l l1 p l2 :
  dedupe l = l1 ++ p :: l2 -> Forall (fun k => sameCoordinates k p = false) l1.
Proof.
  revert l1 p l2. induction l as [|c l IH] using rev_ind; intros l1 p l2.
  - by destruct l1.
  - rewrite dedupe_snoc. unfold dedupe_step. destruct (existsb _ _); [apply IH|].
    destruct (existsb (fun k => sameCoordinates k c) (dedupe l)) eqn:E; [apply IH|].
    intros H. destruct l2 as [|q l2 _] using rev_ind.
    + apply app_inj_tail in H as [<- <-]. apply Forall_forall. by apply existsb_false.
    + rewrite app_comm_cons, app_assoc in H. apply app_inj_tail in H as [H _]. by eapply IH.
Qed.

Lemma dedupe_step_mono k d p : k ∈ d -> k ∈ dedupe_step d p.
Proof. unfold dedupe_step. repeat case_match; set_solver. Qed.

(** Every candidate is represented: by itself, by a point with its hash, or by
    one with its coordinates. *)
Lemma dedupe_complete l c : c ∈ l ->
  c ∈ dedupe l \/ exists k, k ∈ dedupe l /\ (hash k = hash c \/ sameCoordinates k c = true).
Proof.
  induction l as [|p l IH] using rev_ind; [by intros ?%elem_of_nil|].
  rewrite dedupe_snoc. intros [Hc|Hc]%elem_of_app.
  - destruct (IH Hc) as [|(k & Hk & ?)]; [left|right; exists k]; auto using dedupe_step_mono.
  - apply list_elem_of_singleton in Hc as ->. unfold dedupe_step. destruct (existsb _ _) eqn:E.
    + right. apply existsb_true in E as (k & Hk & He%String.eqb_eq). eauto.
    + destruct (existsb (fun k => sameCoordinates k p) _) eqn:E'; [|left; set_solver].
      right. apply existsb_true in E' as (k & Hk & ?). eauto.
Qed.

(** ** Domination *)

Lemma isDominated_none p l : isDominated p l = None <-> Forall (fun q => dominates q p = false) l.
Proof.
  unfold isDominated. rewrite Forall_forall. split.
  - intros H x Hx. apply (find_none _ _ H x). by apply list_elem_of_In.
  - intros H. destruct (List.find _ l) eqn:E; [|done]. apply find_some in E as [Hin Hd].
    rewrite H in Hd; [done|by apply list_elem_of_In].
Qed.

Lemma elem_of_non_dominated p l : p ∈ non_dominated l <-> p ∈ l /\ Forall (fun q => dominates q p = false) l.
Proof.
  unfold non_dominated. rewrite elem_of_lfilter, <- isDominated_none. destruct (isDominated p l); naive_solver.
Qed.

Section members.
  Context `{!Collation}.

Lemma elem_of_frontier p aggs :
  let d := dedupe (sort byCostThenHash (map aggregateToPoint aggs)) in
  p ∈ computeFrontier aggs <-> p ∈ d /\ Forall (fun q => dominates q p = false) d.
Proof. simpl. unfold computeFrontier. by rewrite elem_of_sort, elem_of_non_dominated. Qed.

Lemma deduped_from_aggs p aggs :
  p ∈ dedupe (sort byCostThenHash (map aggregateToPoint aggs)) -> exists a, a ∈ aggs /\ p = aggregateToPoint a.
Proof. intros (a & -> & Ha)%dedupe_in%elem_of_sort%list_elem_of_fmap. eauto. Qed.

(** A frontier has one point per strategy. *)
Lemma frontier_hashes aggs : NoDup (map hash (computeFrontier aggs)).
Proof.
  unfold computeFrontier. rewrite (sort_perm frontier_order).
  eapply sublist_NoDup; [apply (dedupe_hashes (sort byCostThenHash (map aggregateToPoint aggs)))|].
  apply fmap_sublist. unfold non_dominated. generalize (dedupe (sort byCostThenHash (map aggregateToPoint aggs))) at 1.
  intros l. induction (dedupe _) as [|x d IH]; simpl; [done|]. case_match; by constructor.
Qed.
End members.

(** ** Exact dominance

    On coordinates that are either equal or further apart than the epsilon,
    the epsilon tests are the exact comparisons, and dominance is a strict
    partial order. *)

Definition geq (q p : FrontierPoint.t) : bool :=
  leb (FrontierPoint.quality p) (FrontierPoint.quality q)
  && leb (FrontierPoint.costPer1K q) (FrontierPoint.costPer1K p)
  && leb (FrontierPoint.latencyP95 q) (FrontierPoint.latencyP95 p)
  && leb (qualityLowerBound p) (qualityLowerBound q).

Definition better (q p : FrontierPoint.t) : bool :=
  ltb (FrontierPoint.quality p) (FrontierPoint.quality q)
  || ltb (FrontierPoint.costPer1K q) (FrontierPoint.costPer1K p)
  || ltb (FrontierPoint.latencyP95 q) (FrontierPoint.latencyP95 p)
  || ltb (qualityLowerBound p) (qualityLowerBound q).

Definition pareto (q p : FrontierPoint.t) : bool := geq q p && better q p.

Definition separated (l : list FrontierPoint.t) : Prop :=
  forall p q, p ∈ l -> q ∈ l -> noWorse q p = geq q p /\ strictlyBetter q p = better q p.

Lemma geq_trans a b c : geq a b = true -> geq b c = true -> geq a c = true.
Proof.
  unfold geq. intros Hab Hbc. bool_prop. repeat (apply andb_true_intro; split); eauto using leb_trans.
Qed.

Lemma pareto_trans a b c : pareto a b = true -> pareto b c = true -> pareto a c = true.
Proof.
  unfold pareto. intros [Hab Sab]%andb_prop [Hbc _]%andb_prop. rewrite (geq_trans a b c) by done. simpl.
  unfold better, geq in *. bool_prop. rewrite !orb_true_iff in *.
  destruct Sab as [[[Hs|Hs]|Hs]|Hs]; [do 3 left|do 2 left; right|left; right|right];
    eauto using leb_ltb_trans, ltb_leb_trans.
Qed.

Lemma pareto_irrefl a : pareto a a = false.
Proof. unfold pareto, better. by rewrite !ltb_irrefl, andb_false_r. Qed.

Lemma length_filter_le {A} (f g : A -> bool) l :
  (forall x, f x = true -> g x = true) -> (length (List.filter f l) <= length (List.filter g l))%nat.
Proof.
  intros H. induction l as [|x l IH]; simpl; [lia|]. specialize (H x).
  destruct (f x), (g x); simpl; try lia; by specialize (H eq_refl).
Qed.

Lemma length_filter_lt {A} (f g : A -> bool) l y :
  (forall x, f x = true -> g x = true) -> y ∈ l -> f y = false -> g y = true ->
  (length (List.filter f l) < length (List.filter g l))%nat.
Proof.
  intros H Hy Hf Hg. induction Hy as [y l|y x l Hy IH]; simpl.
  - rewrite Hf, Hg. simpl. pose proof (length_filter_le f g l H). lia.
  - specialize (IH Hf Hg). pose proof (H x). destruct (f x), (g x); simpl; try lia; naive_solver.
Qed.

(** In a finite set ordered by a strict partial order, whatever has something
    above it has a maximal element above it. *)
Lemma maximal_above {A} (R : A -> A -> bool) (l : list A) :
  (forall a b c, R a b = true -> R b c = true -> R a c = true) -> (forall a, R a a = false) ->
  forall x y, y ∈ l -> R y x = true -> exists z, z ∈ l /\ R z x = true /\ Forall (fun w => R w z = false) l.
Proof.
  intros Ht Hi x. remember (length (List.filter (fun w => R w x) l)) as n eqn:Hn. revert x Hn.
  induction n as [n IH] using lt_wf_ind. intros x -> y Hy Hyx.
  destruct (existsb (fun w => R w y) l) eqn:E.
  - apply existsb_true in E as (w & Hw & Hwy).
    destruct (IH (length (List.filter (fun w => R w y) l))) with (x := y) (y := w) as (z & Hz & Hzy & Hmax); eauto.
    apply (length_filter_lt (fun w => R w y) (fun w => R w x) l y); eauto.
  - exists y. split; [done|]. split; [done|]. apply Forall_forall. by apply existsb_false.
Qed.

(** On separated, duplicate-free points [dominates] is exact dominance. *)
Lemma dominates_pareto l p q :
  separated l -> NoDup (map hash l) -> p ∈ l -> q ∈ l -> dominates q p = pareto q p.
Proof.
  intros Hs Hd Hp Hq. unfold dominates, pareto. destruct (Hs p q Hp Hq) as [-> ->].
  destruct (String.eqb_spec (FrontierPoint.strategyHash q) (FrontierPoint.strategyHash p)) as [E|]; [|done].
  rewrite (NoDup_key_inj hash l q p Hd Hq Hp E). symmetry. apply pareto_irrefl.
Qed.

#[export] Instance consistent_frontier_order `{!Collation} : Consistent (comparable FrontierPoint.costPer1K) frontier_order.
Proof.
  apply consistent_then; [|typeclasses eauto].
  apply consistent_then; (eapply consistent_weaken; [|typeclasses eauto]); by intros ? [? ?].
Qed.

Lemma elem_of_sorted_before {A} (R : A -> A -> Prop) l1 x l2 y :
  StronglySorted R (l1 ++ x :: l2) -> y ∈ l2 -> R x y.
Proof.
  induction l1 as [|a l1 IH]; simpl; inversion_clear 1 as [|? ? Hs Hf]; [|auto].
  intros Hy. forall_elim. auto.
Qed.

(** ** Properties *)

(** [isDominated] returns the first point that dominates, and [null] exactly
    when none does. *)
Theorem isDominated_first p others :
  match isDominated p others with
  | Some q => exists l1 l2, others = l1 ++ q :: l2 /\ dominates q p = true /\
                Forall (fun k => dominates k p = false) l1
  | None => Forall (fun k => dominates k p = false) others
  end.
Proof.
  destruct (isDominated p others) as [q|] eqn:E; [|by apply isDominated_none].
  unfold isDominated in E. induction others as [|k others IH]; [done|]. simpl in E.
  destruct (dominates k p) eqn:Hk.
  - injection E as ->. by exists [], others.
  - destruct (IH E) as (l1 & l2 & -> & Hq & Hl). exists (k :: l1), l2. by repeat constructor.
Qed.

Section properties.
  Context `{!Collation}.

(** C2. A frontier holds points of the input only, one per strategy, none
    dominated by another, in the documented order. *)
Theorem computeFrontier_sound aggs :
  Forall (comparable FrontierPoint.costPer1K) (map aggregateToPoint aggs) ->
  let front := computeFrontier aggs in
  Forall (fun p => exists a, a ∈ aggs /\ p = aggregateToPoint a) front /\
  NoDup (map hash front) /\
  (forall p q, p ∈ front -> q ∈ front -> dominates q p = false) /\
  StronglySorted (le frontier_order) front.
Proof.
  intros Hc front. split; [|split; [|split]].
  - apply Forall_forall. intros p [Hp _]%elem_of_frontier. by eapply deduped_from_aggs.
  - apply frontier_hashes.
  - intros p q [_ Hp]%elem_of_frontier [Hq _]%elem_of_frontier. forall_elim. auto.
  - apply (sort_sorted (comparable FrontierPoint.costPer1K)); [typeclasses eauto|].
    apply Forall_forall. intros p [Hp _]%elem_of_non_dominated. apply deduped_from_aggs in Hp as (a & Ha & ->).
    forall_elim. apply Hc. by apply list_elem_of_fmap_2.
Qed.

(** C3. Completeness when no two coordinates are within epsilon without being
    equal: every candidate is on the frontier, or is a duplicate of a kept
    candidate, or is dominated by a frontier point; and the frontier of a
    non-empty input is not empty. *)
Theorem computeFrontier_complete aggs :
  separated (map aggregateToPoint aggs) ->
  let front := computeFrontier aggs in
  (forall p, p ∈ dedupe (sort byCostThenHash (map aggregateToPoint aggs)) ->
     p ∈ front \/ exists q, q ∈ front /\ dominates q p = true) /\
  (aggs <> [] -> front <> []).
Proof.
  intros Hs front. set (d := dedupe (sort byCostThenHash (map aggregateToPoint aggs))).
  assert (separated d) as Hsd.
  { intros p q Hp Hq. apply Hs; [apply dedupe_in, elem_of_sort in Hp|apply dedupe_in, elem_of_sort in Hq]; done. }
  pose proof (dedupe_hashes (sort byCostThenHash (map aggregateToPoint aggs))) as Hnd. fold d in Hnd.
  assert (forall p, p ∈ d -> p ∈ front \/ exists q, q ∈ front /\ dominates q p = true) as Hall.
  { intros p Hp. destruct (existsb (fun q => pareto q p) d) eqn:E.
    - right. apply existsb_true in E as (y & Hy & Hyp).
      destruct (maximal_above pareto d pareto_trans pareto_irrefl p y Hy Hyp) as (z & Hz & Hzp & Hmax).
      exists z. rewrite (dominates_pareto d) by done. split; [|done]. apply elem_of_frontier.
      split; [done|]. apply Forall_forall. intros w Hw. rewrite (dominates_pareto d) by done. forall_elim. auto.
    - left. apply elem_of_frontier. split; [done|]. apply Forall_forall. intros w Hw.
      rewrite (dominates_pareto d) by done. by apply (proj1 (existsb_false _ _) E). }
  split; [done|]. intros Hne. destruct aggs as [|a aggs]; [done|].
  destruct (dedupe_complete (sort byCostThenHash (map aggregateToPoint (a :: aggs))) (aggregateToPoint a)) as [Hd|(k & Hd & _)].
  - apply elem_of_sort. left.
  - destruct (Hall _ Hd) as [Hin|(q & Hin & _)]; intros E; rewrite E in Hin; by apply elem_of_nil in Hin.
  - destruct (Hall _ Hd) as [Hin|(q & Hin & _)]; intros E; rewrite E in Hin; by apply elem_of_nil in Hin.
Qed.
End properties.

(** Aggregates at concrete coordinates: quality, cost and latency in units of
    [10^-10]. *)
Definition agg (h : string) (q c l : Z) (e : option FrontierPointEvidence.t) : StrategyAggregate.t :=
  StrategyAggregate.mk "code-gen" h (single h) (lit q 10) zero None (of_Z 40) (lit c 10) zero (lit l 10)
    "prices-1" (Some live) e.

Definition plain_aggs : list StrategyAggregate.t :=
  [agg "a" 8000000000 10000000000 9000000000000 None;
   agg "b" 9000000000 20000000000 9000000000000 None;
   agg "c" 8500000000 30000000000 9500000000000 None].

Lemma computeFrontier_sound_witness :
  map hash (computeFrontier plain_aggs) = ["a"; "b"] /\ NoDup (map hash (computeFrontier plain_aggs)).
Proof.
  split; [vm_compute; reflexivity|]. apply (computeFrontier_sound plain_aggs). repeat constructor.
Defined.

Lemma computeFrontier_complete_witness : computeFrontier plain_aggs <> [].
Proof.
  apply (computeFrontier_complete plain_aggs); [|discriminate].
  intros p q Hp Hq. apply list_elem_of_In in Hp, Hq. simpl in Hp, Hq.
  destruct Hp as [<-|[<-|[<-|[]]]], Hq as [<-|[<-|[<-|[]]]]; split; vm_compute; reflexivity.
Defined.

Definition cyclic_aggs : list StrategyAggregate.t :=
  [agg "a" 5000000000 10000000000 10000000000000 None;
   agg "b" 5000000012 10000000006 10000000000006 None;
   agg "c" 5000000006 9999999994 10000000000012 None].

(** Three strategies whose coordinates differ by fractions of the epsilon band
    dominate each other in a cycle: the frontier of a non-empty input is
    empty. *)
Theorem computeFrontier_cycle_empty :
  computeFrontier cyclic_aggs = [] /\ length cyclic_aggs = 3%nat.
Proof. split; vm_compute; reflexivity. Qed.

(** Rule 2 compares three axes, dominance four: of two strategies with equal
    coordinates the frontier keeps the smaller hash even when the dropped one
    dominates it by its proven lower bound. *)
Definition narrow : FrontierPointEvidence.t := Fixtures.evidence 40 None.
Definition wide : FrontierPointEvidence.t := Fixtures.evidence 140 None.

Theorem computeFrontier_drops_provable :
  let aggs := [agg "luna" 9000000000 10000000000 9000000000000 (Some wide);
               agg "sonnet" 9000000000 10000000000 9000000000000 (Some narrow)] in
  exists kept dropped, computeFrontier aggs = [kept] /\ hash dropped = "sonnet" /\
    dropped ∈ map aggregateToPoint aggs /\ dominates dropped kept = true /\ hash kept = "luna".
Proof.
  intros aggs. exists (aggregateToPoint (agg "luna" 9000000000 10000000000 9000000000000 (Some wide))),
    (aggregateToPoint (agg "sonnet" 9000000000 10000000000 9000000000000 (Some narrow))).
  split; [vm_compute; reflexivity|]. split; [done|]. split; [right; left|]. split; [vm_compute; reflexivity|done].
Qed.
End Dominance.
