(* ===== verification/Diff.v ===== *)
(** * Frontier diffs: pareto/src/diff.ts

    Movement between two frontier versions: what appeared and vanished by
    strategy hash, what is now dominated and by what, and the sentences a
    buyer reads. *)

From S2P Require Import Prelude Number Print JsSort Types Fixtures Program Select Latency Dominance.

Module Diff.
Import Num Print Dominance.

Definition join (sep : string) (l : list string) : string := String.concat sep l.

Definition describeStrategy (cfg : StrategyConfig) : string :=
  match cfg with
  | single model => "single(" +:+ model +:+ ")"
  | cascade stages _ => "cascade(" +:+ join "→" (map CascadeStage.model stages) +:+ ")"
  | best_of_n model n judge =>
      "best-of-n(" +:+ model +:+ "×" +:+ show_Z n +:+ ", judge " +:+ JudgeConfig.model judge +:+ ")"
  | draft_verify d v => "draft-verify(" +:+ d +:+ "→" +:+ v +:+ ")"
  | ensemble models fusion =>
      match FusionConfig.method fusion with
      | exec_pick =>
          let w := match FusionConfig.testWriter fusion with
                   | Some t => ", tests by " +:+ JudgeConfig.model t | None => "" end in
          "exec-pick(" +:+ join " | " models +:+ w +:+ ")"
      | _ =>
          let judge := match FusionConfig.judge fusion with
                       | Some j => ", judge " +:+ JudgeConfig.model j | None => "" end in
          "ensemble(" +:+ join "+" models +:+ judge +:+ ")"
      end
  | decompose d _ _ => "decompose(" +:+ d +:+ ")"
  | composite s u below => "composite(" +:+ s +:+ "→" +:+ u +:+ "@<" +:+ to_string below +:+ ")"
  | program name _ => "program(" +:+ name +:+ ")"
  end.

Definition formatPoint (p : FrontierPoint.t) : string :=
  "quality " +:+ toFixed 2 (FrontierPoint.quality p) +:+ " at $" +:+ toFixed 2 (FrontierPoint.costPer1K p)
  +:+ "/1K, p95 " +:+ show_Z (math_round (FrontierPoint.latencyP95 p)) +:+ "ms".

Definition advantagesOf (dominator point : FrontierPoint.t) : string :=
  let eps := DOMINANCE_EPSILON in
  let parts :=
    (if ltb (FrontierPoint.costPer1K dominator) (sub (FrontierPoint.costPer1K point) eps) then ["cheaper"] else [])
    ++ (if gtb (FrontierPoint.quality dominator) (add (FrontierPoint.quality point) eps) then ["higher quality"] else [])
    ++ (if ltb (FrontierPoint.latencyP95 dominator) (sub (FrontierPoint.latencyP95 point) eps)
        then ["lower p95 latency"] else []) in
  match parts with
  | [] => "at least as good on every axis"
  | _ => join " and " parts
  end.

Definition has_hash (l : list FrontierPoint.t) (h : string) : bool :=
  existsb (fun p => String.eqb (FrontierPoint.strategyHash p) h) l.

(** [dominatorByHash.get(h)]: the last pair of a hash wins. *)
Definition dominator_of (pairs : list (FrontierPoint.t * FrontierPoint.t)) (h : string) : option FrontierPoint.t :=
  snd <$> List.find (fun pr => String.eqb (FrontierPoint.strategyHash pr.1) h) (rev pairs).

Definition appeared_sentence (p : FrontierPoint.t) : string :=
  "Strategy " +:+ describeStrategy (FrontierPoint.strategyConfig p) +:+ " is new on the frontier: "
  +:+ formatPoint p +:+ ".".

Definition vanished_sentence (pairs : list (FrontierPoint.t * FrontierPoint.t)) (p : FrontierPoint.t) : string :=
  match dominator_of pairs (FrontierPoint.strategyHash p) with
  | Some d =>
      describeStrategy (FrontierPoint.strategyConfig p) +:+ " fell off the frontier — dominated by "
      +:+ describeStrategy (FrontierPoint.strategyConfig d) +:+ ", which is " +:+ advantagesOf d p +:+ " ("
      +:+ formatPoint d +:+ ")."
  | None =>
      describeStrategy (FrontierPoint.strategyConfig p) +:+ " fell off the frontier "
      +:+ "(no longer among the non-dominated strategies)."
  end.

Definition diffFrontiers (from to : Frontier.t) : FrontierDiff.t :=
  let appeared :=
    List.filter (fun p => negb (has_hash (Frontier.points from) (FrontierPoint.strategyHash p))) (Frontier.points to) in
  let vanished :=
    List.filter (fun p => negb (has_hash (Frontier.points to) (FrontierPoint.strategyHash p))) (Frontier.points from) in
  let dominatedBy :=
    omap (fun p => (fun d => (p, d)) <$> isDominated p (Frontier.points to)) (Frontier.points from) in
  let narrative := map appeared_sentence appeared ++ map (vanished_sentence dominatedBy) vanished in
  FrontierDiff.mk (Frontier.clusterId to) (Frontier.version from) (Frontier.version to) appeared vanished dominatedBy
    (match narrative with
     | [] => ["No change: the frontier is identical between v" +:+ show_Z (Frontier.version from) +:+ " and v"
              +:+ show_Z (Frontier.version to) +:+ "."]
     | _ => narrative
     end).

(** ** Lemmas *)

Lemma has_hash_spec l h : has_hash l h = true <-> h ∈ map hash l.
Proof.
  unfold has_hash. rewrite existsb_true, list_elem_of_fmap. setoid_rewrite String.eqb_eq. unfold hash. naive_solver.
Qed.

Lemma not_has_hash l h : negb (has_hash l h) = true <-> h ∉ map hash l.
Proof. rewrite <- has_hash_spec, negb_true_iff. by destruct (has_hash l h). Qed.

Lemma elem_of_dominatedBy p d from to :
  (p, d) ∈ FrontierDiff.dominatedBy (diffFrontiers from to) <->
  p ∈ Frontier.points from /\ isDominated p (Frontier.points to) = Some d.
Proof.
  simpl. rewrite list_elem_of_omap. split.
  - intros (x & Hx & H). destruct (isDominated x _) eqn:E; simplify_eq/=. auto.
  - intros [Hp Hd]. exists p. by rewrite Hd.
Qed.

(** ** Properties *)

(** Appeared and vanished are the two set differences by strategy hash, and the
    dominated list pairs each point of the old frontier with its first
    dominator on the new one. *)
Theorem diffFrontiers_sets from to p :
  let d := diffFrontiers from to in
  (p ∈ FrontierDiff.appeared d <-> p ∈ Frontier.points to /\ hash p ∉ map hash (Frontier.points from)) /\
  (p ∈ FrontierDiff.vanished d <-> p ∈ Frontier.points from /\ hash p ∉ map hash (Frontier.points to)) /\
  (forall q, (p, q) ∈ FrontierDiff.dominatedBy d <->
     p ∈ Frontier.points from /\ isDominated p (Frontier.points to) = Some q).
Proof.
  intros d. split; [|split].
  - simpl. by rewrite Select.elem_of_lfilter, not_has_hash.
  - simpl. by rewrite Select.elem_of_lfilter, not_has_hash.
  - intros q. apply elem_of_dominatedBy.
Qed.

(** One sentence per movement, and the no-change sentence exactly when no
    strategy moved. *)
Theorem diffFrontiers_narrative from to :
  let d := diffFrontiers from to in
  let moved := (length (FrontierDiff.appeared d) + length (FrontierDiff.vanished d))%nat in
  length (FrontierDiff.narrative d) = Nat.max 1 moved /\
  (moved = 0%nat <-> forall h, h ∈ map hash (Frontier.points from) <-> h ∈ map hash (Frontier.points to)).
Proof.
  intros d moved. split.
  - unfold moved, d, diffFrontiers. cbn [FrontierDiff.narrative FrontierDiff.appeared FrontierDiff.vanished].
    set (a := List.filter _ (Frontier.points to)). set (v := List.filter _ (Frontier.points from)).
    rewrite <- (length_map appeared_sentence a), <- (length_map (vanished_sentence
      (omap (fun p => (fun d => (p, d)) <$> isDominated p (Frontier.points to)) (Frontier.points from))) v), <- length_app.
    destruct (_ ++ _); simpl; lia.
  - assert (forall l l', length (List.filter (fun p => negb (has_hash l (FrontierPoint.strategyHash p))) l') = 0%nat <->
      forall h, h ∈ map hash l' -> h ∈ map hash l) as Hempty.
    { intros l l'. rewrite length_zero_iff_nil. split.
      - intros Hnil h (p & -> & Hp)%list_elem_of_fmap.
        destruct (decide (hash p ∈ map hash l)) as [|Hn]; [done|exfalso].
        eapply not_elem_of_nil. rewrite <- Hnil. apply Select.elem_of_lfilter. split; [done|]. by apply not_has_hash.
      - intros H. destruct (List.filter _ _) as [|p r] eqn:E; [done|exfalso].
        assert (p ∈ p :: r) as Hp by left. rewrite <- E in Hp. apply Select.elem_of_lfilter in Hp as [Hp Hn].
        apply not_has_hash in Hn. apply Hn, H. by apply list_elem_of_fmap_2. }
    unfold moved. rewrite Nat.eq_add_0. unfold d, diffFrontiers.
    cbn [FrontierDiff.appeared FrontierDiff.vanished]. rewrite !Hempty. naive_solver.
Qed.
End Diff.
