(* ===== verification/Serving.v ===== *)
(** * The serving decision: pareto/src/serving.ts, strategies/src/capabilities.ts

    The chain every request's route goes through: load the frontier, guard its
    provenance, apply the cluster's own floor, bind serving-grade latency,
    exclude degenerate strategies, resolve the operating point.

    Database reads are parameters: [ServingDb] holds what each query answers,
    a rollup query may fail.  The two per-process caches are explicit state
    and the clock is an argument; warnings are returned in order.  [sha256] of
    a config is the parameter [strategyHash]. *)

From S2P Require Import Prelude Number Print JsSort Types Fixtures Program Select Latency Premium.

Module Serving.
Import Num Sort Program Select Latency Premium.

(** ** Capabilities of a strategy shape *)

Module StrategyCapabilities.
Record t := mk { canServeTools : bool; canStream : bool }.
End StrategyCapabilities.

Fixpoint programCarriesTools (node : ProgramNode) : bool :=
  match node with
  | call _ _ _ _ _ => true
  | if_ (tool_called _) t e => programCarriesTools t && programCarriesTools e
  | if_ _ _ _ | vote _ | pick _ _ => false
  end.

Definition strategyCapabilities (config : StrategyConfig) : StrategyCapabilities.t :=
  match config with
  | single _ => StrategyCapabilities.mk true true
  | cascade _ _ => StrategyCapabilities.mk true false
  | composite _ _ _ => StrategyCapabilities.mk false true
  | program _ body => StrategyCapabilities.mk (programCarriesTools body) false
  | _ => StrategyCapabilities.mk false false
  end.

Definition is_single (config : StrategyConfig) : bool :=
  match config with single _ => true | _ => false end.

Definition strategy_type (config : StrategyConfig) : string :=
  match config with
  | single _ => "single" | cascade _ _ => "cascade" | best_of_n _ _ _ => "best-of-n"
  | draft_verify _ _ => "draft-verify" | ensemble _ _ => "ensemble" | decompose _ _ _ => "decompose"
  | composite _ _ _ => "composite" | program _ _ => "program"
  end.

(** ** Defaults and the signup floor *)

Definition DEFAULT_FLOOR : number := lit 95 2.
Definition DEFAULT_ORG_POLICY : Policy := min_cost DEFAULT_FLOOR None None None.
Definition SIGNUP_FLOOR_MIN : number := lit 75 2.

Module SignupFloor.
Record t := mk {
  floor_ : number;
  ceiling : number;
  limiting : option (string * number);
  excluded : list (string * number);
  clusters : nat;
}.
End SignupFloor.

(** [Math.floor(highest * 100) / 100]. *)
Definition mint (highest : number) : number := div (floor (mul highest (of_Z 100))) (of_Z 100).

(** The best lower bound of a frontier, from [-1]. *)
Definition highest_provable (points : list FrontierPoint.t) : number :=
  fold_left (fun h p => max h (qualityLowerBound p)) points (of_Z (-1)).

(** One iteration of the loop over the served clusters. *)
Definition signup_step (acc : SignupFloor.t) (entry : string * option Frontier.t) : SignupFloor.t :=
  match entry.2 with
  | Some f =>
      match Frontier.points f with
      | [] => acc
      | points =>
          let highest := highest_provable points in
          let minted := mint highest in
          let clusters := S (SignupFloor.clusters acc) in
          if ltb minted SIGNUP_FLOOR_MIN then
            SignupFloor.mk (SignupFloor.floor_ acc) (SignupFloor.ceiling acc) (SignupFloor.limiting acc)
              (SignupFloor.excluded acc ++ [(entry.1, highest)]) clusters
          else if ltb minted (SignupFloor.floor_ acc) then
            SignupFloor.mk minted (SignupFloor.ceiling acc) (Some (entry.1, highest))
              (SignupFloor.excluded acc) clusters
          else
            SignupFloor.mk (SignupFloor.floor_ acc) (SignupFloor.ceiling acc) (SignupFloor.limiting acc)
              (SignupFloor.excluded acc) clusters
      end
  | None => acc
  end.

(** The served clusters with the frontier loaded for each. *)
Definition signupQualityFloor (served : list (string * option Frontier.t)) : SignupFloor.t :=
  fold_left signup_step served (SignupFloor.mk DEFAULT_FLOOR DEFAULT_FLOOR None [] 0).

Definition signupPolicyFor (served : list (string * option Frontier.t)) : Policy :=
  min_cost (SignupFloor.floor_ (signupQualityFloor served)) None None None.

Definition isUnchosenSignupPolicy (name : string) (config : Policy) (signupFloor : number) : bool :=
  match config with
  | min_cost qualityFloor clusterFloors _ _ =>
      if negb (String.eqb name "default") then false
      else if match clusterFloors with Some (_ :: _) => true | _ => false end then false
      else eqb qualityFloor signupFloor || eqb qualityFloor DEFAULT_FLOOR
  | _ => false
  end.

(** ** Fallback strategies *)

Definition DEFAULT_STRATEGY : StrategyConfig := single "mock-mid".

Definition is_mock_entry (e : PriceEntry.t) : bool :=
  match PriceEntry.provider e with mock_provider => true | _ => false end.

Section fallback.
  Context `{!Collation}.

Definition by_price (a b : PriceEntry.t) : comparison :=
  then_by (asc PriceEntry.inputPer1M) (by_string PriceEntry.alias) a b.

Definition liveDefaultStrategy (prices : PriceTable.t) : option StrategyConfig :=
  let live := List.filter (fun e => negb (is_mock_entry e)) (PriceTable.entries prices) in
  let byPrice := sort by_price live in
  let mid := List.find (fun e => gtb (PriceEntry.inputPer1M e) (lit 5 1) && leb (PriceEntry.inputPer1M e) (of_Z 3)) byPrice in
  match mid, head byPrice with
  | Some e, _ | None, Some e => Some (single (PriceEntry.alias e))
  | None, None => None
  end.

Definition fallbackStrategyFor (mode : ProviderMode) (prices : PriceTable.t) : option StrategyConfig :=
  match mode with live => liveDefaultStrategy prices | mock => Some DEFAULT_STRATEGY end.
End fallback.

(** ** Per-cluster floors *)

Definition cluster_floor (floors : option (list (string * number))) (clusterId : string) : option number :=
  l ← floors; snd <$> List.find (fun f => String.eqb f.1 clusterId) l.

Definition policyForCluster (policy : Policy) (clusterId : string) : Policy :=
  match policy with
  | min_cost floor cf sh g =>
      match cluster_floor cf clusterId with
      | Some own => if eqb own floor then policy else min_cost own cf sh g
      | None => policy
      end
  | compound floor cf p95 sh g =>
      match cluster_floor cf clusterId with
      | Some own => if eqb own floor then policy else compound own cf p95 sh g
      | None => policy
      end
  | _ => policy
  end.

(** ** The operating point *)

Inductive FallbackReason := no_frontier | no_point_resolvable | policy_infeasible | reasoning_budget.

Module LatencyViolation.
Record t := mk {
  boundMs : number;
  qualityFloor : number;
  servedP95Ms : number;
  servedStrategyHash : string;
  relaxLatencyToMs : option number;
  relaxQualityToFloor : option number;
}.
End LatencyViolation.

Module ToolConstraint.
Record t := mk { wouldHaveServedType : string; wouldHaveServedHash : string }.
End ToolConstraint.

Module OperatingPoint.
Record t := mk {
  fallbackReason : option FallbackReason;
  config : option StrategyConfig;
  fallback : bool;
  frontierVersion : Z;
  frontier : option Frontier.t;
  latencyViolation : option LatencyViolation.t;
  toolConstraint : option ToolConstraint.t;
}.

(** The spread [{ ...op, toolConstraint: c }]. *)
Definition with_toolConstraint (c : ToolConstraint.t) (op : t) : t :=
  mk (fallbackReason op) (config op) (fallback op) (frontierVersion op) (frontier op) (latencyViolation op) (Some c).
End OperatingPoint.

Definition infeasibleFallbackPoint (points : list FrontierPoint.t) (best : FrontierPoint.t) : FrontierPoint.t :=
  let bar := qualityLowerBound best in
  let tied := List.filter (fun p => geb (qualityUpperBound p) bar) points in
  default best (head (sort (by_cost_then_quality FrontierPoint.costPer1K) tied)).

(** [resolveOperatingPoint] without [toolCapableOnly]. *)
Definition resolve_plain (policy : Policy) (frontier : option Frontier.t) (fallbackStrategy : option StrategyConfig)
    (request : option SelectionContext.t) : OperatingPoint.t :=
  match frontier with
  | None => OperatingPoint.mk (Some no_frontier) fallbackStrategy true 0 frontier None None
  | Some f =>
      match Frontier.points f with
      | [] => OperatingPoint.mk (Some no_frontier) fallbackStrategy true 0 frontier None None
      | points =>
          match selectPoint policy f request with
          | Some selected =>
              OperatingPoint.mk None (Some (FrontierPoint.strategyConfig selected)) false (Frontier.version f) frontier None None
          | None =>
              let generic :=
                match highestQualityPoint points with
                | None => OperatingPoint.mk (Some no_point_resolvable) fallbackStrategy true (Frontier.version f) frontier None None
                | Some best =>
                    OperatingPoint.mk (Some policy_infeasible)
                      (Some (FrontierPoint.strategyConfig (infeasibleFallbackPoint points best)))
                      true (Frontier.version f) frontier None None
                end in
              match policy with
              | compound floor _ p95Ms _ _ =>
                  match fastestQualityQualifyingPoint points floor with
                  | Some fastest =>
                      let premium := latencyPremium policy points in
                      OperatingPoint.mk None (Some (FrontierPoint.strategyConfig fastest)) true (Frontier.version f) frontier
                        (Some (LatencyViolation.mk p95Ms floor (FrontierPoint.latencyP95 fastest)
                                 (FrontierPoint.strategyHash fastest)
                                 (LatencyPremium.relaxLatencyToMs premium) (LatencyPremium.relaxQualityToFloor premium)))
                        None
                  | None => generic
                  end
              | _ => generic
              end
          end
      end
  end.

Section resolve.
  Variable strategyHash : StrategyConfig -> string.

Definition tools_measured (p : FrontierPoint.t) : bool :=
  match e ← FrontierPoint.evidence p; FrontierPointEvidence.toolsMeasured e with Some b => b | None => false end.

(** The points a tool-carrying request may be served by. *)
Definition tool_capable (p : FrontierPoint.t) : bool :=
  StrategyCapabilities.canServeTools (strategyCapabilities (FrontierPoint.strategyConfig p))
  && (is_single (FrontierPoint.strategyConfig p) || tools_measured p).

Definition narrow_to_tools (frontier : option Frontier.t) : option Frontier.t :=
  f ← frontier;
  match List.filter tool_capable (Frontier.points f) with
  | [] => None
  | singles => Some (Frontier.with_points singles f)
  end.

Definition resolveOperatingPoint (policy : Policy) (frontier : option Frontier.t)
    (fallbackStrategy : option StrategyConfig) (toolCapableOnly : bool) (request : option SelectionContext.t)
    : OperatingPoint.t :=
  let unrestricted := resolve_plain policy frontier fallbackStrategy request in
  if toolCapableOnly then
    match OperatingPoint.config unrestricted with
    | None => unrestricted
    | Some config =>
        if is_single config then unrestricted
        else
          let unrestrictedPoint :=
            f ← frontier;
            List.find (fun p => String.eqb (FrontierPoint.strategyHash p) (strategyHash config)) (Frontier.points f) in
          if StrategyCapabilities.canServeTools (strategyCapabilities config)
             && match unrestrictedPoint with Some p => tools_measured p | None => false end
          then unrestricted
          else
            OperatingPoint.with_toolConstraint
              (ToolConstraint.mk (strategy_type config) (strategyHash config))
              (resolve_plain policy (narrow_to_tools frontier) fallbackStrategy request)
    end
  else unrestricted.
End resolve.

(** ** Provenance *)

Inductive Provenance := prov_live | prov_mock | prov_blocked.

Definition is_live (p : FrontierPoint.t) : bool :=
  match FrontierPoint.providerMode p with Some live => true | _ => false end.

Definition tainted (f : Frontier.t) : bool := existsb (fun p => negb (is_live p)) (Frontier.points f).

Definition provenance_warning (f : Frontier.t) : string :=
  "provenance guard: refusing to serve cluster '" +:+ Frontier.clusterId f +:+ "' from frontier v"
  +:+ Print.show_Z (Frontier.version f) +:+ " — provider_mode mock/unknown under live providers "
  +:+ "(falling back to the no-frontier default)".

Definition mode_provenance (m : ProviderMode) : Provenance :=
  match m with live => prov_live | mock => prov_mock end.

(** The guarded frontier, its provenance, and the warnings. *)
Definition guardFrontierProvenance (frontier : option Frontier.t) (serverMode : ProviderMode)
    : option Frontier.t * Provenance * list string :=
  match frontier with
  | None => (frontier, mode_provenance serverMode, [])
  | Some f =>
      match Frontier.points f with
      | [] => (frontier, mode_provenance serverMode, [])
      | _ =>
          if negb (tainted f) then (frontier, prov_live, [])
          else match serverMode with
               | live => (None, prov_blocked, [provenance_warning f])
               | mock => (frontier, prov_mock, [])
               end
      end
  end.

(** ** Rollups, caches and bindings *)

Definition SERVING_LATENCY_WINDOW_MIN : number := of_Z 60.
Definition SERVING_LATENCY_CACHE_TTL_MS : Z := 60000.
Definition DEGENERACY_MIN_EMPTY : number := of_Z 4.
Definition DEGENERACY_MIN_RATIO : number := lit 5 1.
Definition DEGENERACY_WINDOW_MIN : number := of_Z (7 * 24 * 60).

Module DegenerateRow.
Record t := mk { strategyHash : string; empty : number; total : number }.
End DegenerateRow.

(** What the queries answer: a frontier, or rollup rows, or an error text. *)
Record ServingDb := {
  db_frontier : string -> string -> option Frontier.t;
  db_latency : string -> string -> Z -> string + list ServingLatencySample.t;
  db_degenerate : string -> string -> Z -> string + list DegenerateRow.t;
  db_degenerate_platform : string -> Z -> string + list DegenerateRow.t;
}.

Record caches := Caches {
  latencyCache : gmap string (Z * list ServingLatencySample.t);
  degeneracyCache : gmap string (Z * list DegenerateRow.t);
}.

Definition clearServingLatencyCache (c : caches) : caches := Caches ∅ ∅.

Definition cache_key (orgId clusterId : string) : string := orgId +:+ "::" +:+ clusterId.

Definition fresh {A} (hit : option (Z * A)) (now : Z) : option A :=
  '(at_, rows) ← hit; if (now - at_ <? SERVING_LATENCY_CACHE_TTL_MS)%Z then Some rows else None.

Module DegeneracyBinding.
Record t := mk { frontier : option Frontier.t; excluded : list string }.
End DegeneracyBinding.

Module LatencyBinding.
Record t := mk {
  frontier : option Frontier.t;
  evidence : gmap string LatencyEvidence.t;
  source : LatencySource;
  premium : LatencyPremium.t;
}.
End LatencyBinding.

Module ServingDecisionArgs.
Record t := mk {
  orgId : string;
  clusterId : string;
  policy : Policy;
  providerMode : ProviderMode;
  prices : PriceTable.t;
  now : Z;
}.
End ServingDecisionArgs.

Module ServingDecision.
Record t := mk {
  loaded : option Frontier.t;
  provenance : Provenance;
  clusterPolicy : Policy;
  binding : LatencyBinding.t;
  degeneracy : DegeneracyBinding.t;
  op : OperatingPoint.t;
}.
End ServingDecision.

Section bindings.
  Variable db : ServingDb.

Definition cachedRollup (orgId clusterId : string) (now : Z) (c : caches)
    : (string + list ServingLatencySample.t) * caches :=
  let key := cache_key orgId clusterId in
  match fresh (latencyCache c !! key) now with
  | Some rows => (inr rows, c)
  | None =>
      match db_latency db orgId clusterId now with
      | inl err => (inl err, c)
      | inr rows => (inr rows, Caches (<[key := (now, rows)]> (latencyCache c)) (degeneracyCache c))
      end
  end.

Definition degenerate_row (r : DegenerateRow.t) : bool :=
  geb (DegenerateRow.empty r) DEGENERACY_MIN_EMPTY
  && geb (div (DegenerateRow.empty r) (DegenerateRow.total r)) DEGENERACY_MIN_RATIO.

Definition degenerate_hashes (rows : list DegenerateRow.t) : list string :=
  map DegenerateRow.strategyHash (List.filter degenerate_row rows).

Definition in_hashes (hs : list string) (p : FrontierPoint.t) : bool :=
  existsb (String.eqb (FrontierPoint.strategyHash p)) hs.

(** The rows of one rollup: the org's own, then the platform's on the
    strategies the org has no reading of. *)
Definition merge_rows (own platform : list DegenerateRow.t) : list DegenerateRow.t :=
  own ++ List.filter (fun r =>
    negb (existsb (fun o => String.eqb (DegenerateRow.strategyHash o) (DegenerateRow.strategyHash r)) own)) platform.

Definition degenerateRollup (orgId clusterId : string) (now : Z) (c : caches)
    : (string + list DegenerateRow.t) * caches :=
  let key := cache_key orgId clusterId in
  match fresh (degeneracyCache c !! key) now with
  | Some rows => (inr rows, c)
  | None =>
      match db_degenerate db orgId clusterId now with
      | inl err => (inl err, c)
      | inr own =>
          match db_degenerate_platform db clusterId now with
          | inl err => (inl err, c)
          | inr platform =>
              let rows := merge_rows own platform in
              (inr rows, Caches (latencyCache c) (<[key := (now, rows)]> (degeneracyCache c)))
          end
      end
  end.

(** The exclusion itself, once the rows are known. *)
Definition exclude_degenerate (f : Frontier.t) (rows : list DegenerateRow.t) (failing_open : string)
    : DegeneracyBinding.t * list string :=
  match degenerate_hashes rows with
  | [] => (DegeneracyBinding.mk (Some f) [], [])
  | hs =>
      match List.filter (fun p => negb (in_hashes hs p)) (Frontier.points f) with
      | [] => (DegeneracyBinding.mk (Some f) [], [failing_open])
      | kept =>
          (DegeneracyBinding.mk (Some (Frontier.with_points kept f))
             (map FrontierPoint.strategyHash (List.filter (in_hashes hs) (Frontier.points f))), [])
      end
  end.

Definition bindServingDegeneracy (frontier : option Frontier.t) (orgId clusterId : string) (now : Z) (c : caches)
    : DegeneracyBinding.t * list string * caches :=
  match frontier with
  | None => (DegeneracyBinding.mk frontier [], [], c)
  | Some f =>
      match Frontier.points f with
      | [] => (DegeneracyBinding.mk frontier [], [], c)
      | _ =>
          match degenerateRollup orgId clusterId now c with
          | (inl err, c) =>
              (DegeneracyBinding.mk frontier [],
               ["serving-degeneracy rollup failed for org=" +:+ orgId +:+ " cluster=" +:+ clusterId +:+ ": " +:+ err], c)
          | (inr rows, c) =>
              (exclude_degenerate f rows
                 ("serving-degeneracy would exclude EVERY point for org=" +:+ orgId +:+ " cluster=" +:+ clusterId
                  +:+ " — failing open"), c)
          end
      end
  end.

Definition policyHasLatencyDimension (policy : Policy) : bool :=
  match policy with compound _ _ _ _ _ | latency_bound _ _ _ => true | _ => false end.

Definition inert (frontier : option Frontier.t) : LatencyBinding.t :=
  LatencyBinding.mk frontier ∅ harness (latencyPremium (min_cost zero None None None) []).

Definition bindServingLatency (policy : Policy) (frontier : option Frontier.t) (orgId clusterId : string)
    (now : Z) (c : caches) : LatencyBinding.t * list string * caches :=
  if negb (policyHasLatencyDimension policy) then (inert frontier, [], c)
  else match frontier with
  | None => (inert frontier, [], c)
  | Some f =>
      match Frontier.points f with
      | [] => (inert frontier, [], c)
      | points =>
          let '(rows, warnings, c) :=
            match cachedRollup orgId clusterId now c with
            | (inr rows, c) => (rows, [], c)
            | (inl err, c) =>
                ([], ["serving-latency rollup failed for org=" +:+ orgId +:+ " cluster=" +:+ clusterId
                      +:+ " — binding against PROVISIONAL harness latency: " +:+ err], c)
            end in
          let resolved := resolveLatency rows SERVING_LATENCY_WINDOW_MIN SERVING_LATENCY_MIN_SAMPLES points in
          (LatencyBinding.mk (Some (Frontier.with_points (ResolvedLatency.points resolved) f))
             (ResolvedLatency.evidence resolved)
             (if ResolvedLatency.allProvisional resolved then harness else serving)
             (latencyPremium policy (ResolvedLatency.points resolved)), warnings, c)
      end
  end.

(** ** The composed decision *)

Definition servingDecisionFor `{!Collation} (a : ServingDecisionArgs.t) (c : caches)
    : ServingDecision.t * list string * caches :=
  let orgId := ServingDecisionArgs.orgId a in
  let clusterId := ServingDecisionArgs.clusterId a in
  let loaded := db_frontier db clusterId orgId in
  let '(guarded, provenance, w1) := guardFrontierProvenance loaded (ServingDecisionArgs.providerMode a) in
  let clusterPolicy := policyForCluster (ServingDecisionArgs.policy a) clusterId in
  let '(binding, w2, c) := bindServingLatency clusterPolicy guarded orgId clusterId (ServingDecisionArgs.now a) c in
  let '(degeneracy, w3, c) :=
    bindServingDegeneracy (LatencyBinding.frontier binding) orgId clusterId (ServingDecisionArgs.now a) c in
  let op := resolve_plain clusterPolicy (DegeneracyBinding.frontier degeneracy)
              (fallbackStrategyFor (ServingDecisionArgs.providerMode a) (ServingDecisionArgs.prices a)) None in
  (ServingDecision.mk loaded provenance clusterPolicy binding degeneracy op, w1 ++ w2 ++ w3, c).
End bindings.

(** ** Lemmas: the operating point *)

(** Where the served config comes from. *)
Lemma resolve_plain_config policy frontier fb request c :
  OperatingPoint.config (resolve_plain policy frontier fb request) = Some c ->
  (exists f p, frontier = Some f /\ p ∈ Frontier.points f /\ c = FrontierPoint.strategyConfig p) \/
  (fb = Some c /\ OperatingPoint.fallback (resolve_plain policy frontier fb request) = true).
Proof.
  unfold resolve_plain. destruct frontier as [f|]; [|by auto].
  destruct (Frontier.points f) as [|p0 l] eqn:Hp; [by auto|].
  destruct (selectPoint policy f request) as [s|] eqn:Hs.
  { intros [= <-]. left. exists f, s. split; [done|]. split; [|done].
    rewrite selectPoint_unfold in Hs. apply pickBest_in, elem_of_lfilter in Hs as [Hs _].
    by eapply select_pool_in. }
  assert (forall best, highestQualityPoint (p0 :: l) = Some best ->
    infeasibleFallbackPoint (p0 :: l) best ∈ p0 :: l) as Hbest.
  { intros best Hb. unfold infeasibleFallbackPoint. destruct (head _) as [h|] eqn:Hh; simpl.
    - apply sort_head_elem, elem_of_lfilter in Hh as [? _]. done.
    - by eapply pickBest_in. }
  destruct policy as [| | |floor cf p95 sh g]; try (destruct (highestQualityPoint (p0 :: l)) as [best|] eqn:Hb;
    [intros [= <-]; left; exists f; eexists; rewrite Hp; eauto|by auto]).
  destruct (fastestQualityQualifyingPoint (p0 :: l) floor) as [q|] eqn:Hq.
  - intros [= <-]. left. exists f, q. rewrite Hp. split; [done|]. split; [|done].
    unfold fastestQualityQualifyingPoint in Hq. by apply pickBest_in, elem_of_lfilter in Hq as [? _].
  - destruct (highestQualityPoint (p0 :: l)) as [best|] eqn:Hb; [|by auto].
    intros [= <-]. left. exists f. eexists. rewrite Hp. eauto.
Qed.

(** [fallback = 0] means [selectPoint] answered. *)
Lemma resolve_plain_selected policy frontier fb request :
  OperatingPoint.fallback (resolve_plain policy frontier fb request) = false ->
  exists f p, frontier = Some f /\ selectPoint policy f request = Some p /\
    OperatingPoint.config (resolve_plain policy frontier fb request) = Some (FrontierPoint.strategyConfig p).
Proof.
  unfold resolve_plain. destruct frontier as [f|]; [|done].
  destruct (Frontier.points f) eqn:Hp; [done|].
  destruct (selectPoint policy f request) as [s|] eqn:Hs; [intros _; by exists f, s|].
  destruct policy; repeat case_match; done.
Qed.

Lemma narrow_to_tools_some frontier g :
  narrow_to_tools frontier = Some g ->
  exists f, frontier = Some f /\ Frontier.points g = List.filter tool_capable (Frontier.points f).
Proof.
  unfold narrow_to_tools. destruct frontier as [f|]; [|done]. simpl.
  destruct (List.filter tool_capable (Frontier.points f)) eqn:E; [done|]. intros [= <-]. exists f. by rewrite E.
Qed.

(** With no request context, feasibility does not depend on the frontier. *)
Lemma selectPoint_scalar policy f p :
  selectPoint policy f None = Some p ->
  p ∈ Frontier.points f /\ feasible policy FrontierPoint.costPer1K p = true.
Proof. rewrite selectPoint_unfold. intros [Hp Hf]%pickBest_in%elem_of_lfilter. done. Qed.

(** The latency-violation branch. *)
Lemma resolve_violation policy frontier fb request v :
  OperatingPoint.latencyViolation (resolve_plain policy frontier fb request) = Some v ->
  exists f fl cf p95 sh g q, frontier = Some f /\ policy = compound fl cf p95 sh g /\
    selectPoint policy f request = None /\
    fastestQualityQualifyingPoint (Frontier.points f) fl = Some q /\
    LatencyViolation.boundMs v = p95 /\ LatencyViolation.qualityFloor v = fl /\
    LatencyViolation.servedP95Ms v = FrontierPoint.latencyP95 q /\
    LatencyViolation.servedStrategyHash v = FrontierPoint.strategyHash q.
Proof.
  unfold resolve_plain. destruct frontier as [f|]; [|done].
  destruct (Frontier.points f) as [|p0 l] eqn:Hp; [done|].
  destruct (selectPoint policy f request) as [s|] eqn:Hs; [done|].
  destruct policy as [| | |floor cf p95 sh g]; try (by destruct (highestQualityPoint _)).
  destruct (fastestQualityQualifyingPoint (p0 :: l) floor) as [q|] eqn:Hq; [|by destruct (highestQualityPoint _)].
  intros [= <-]. exists f, floor, cf, p95, sh, g, q. by rewrite Hp.
Qed.

(** ** Lemmas: provenance and bindings *)

Lemma guard_live frontier g :
  (guardFrontierProvenance frontier live).1.1 = Some g ->
  frontier = Some g /\ Forall (fun p => is_live p = true) (Frontier.points g).
Proof.
  unfold guardFrontierProvenance. destruct frontier as [f|]; [|done].
  destruct (Frontier.points f) as [|p l] eqn:Hp; [intros [= <-]; rewrite Hp; by split|].
  destruct (tainted f) eqn:Ht; [done|]. intros [= <-]. split; [done|].
  unfold tainted in Ht. apply Forall_forall. intros q Hq. rewrite Hp in *.
  apply negb_false_iff. destruct (negb (is_live q)) eqn:E; [|done].
  rewrite <- Ht. symmetry. apply existsb_exists. exists q. split; [by apply list_elem_of_In|done].
Qed.

Lemma bind_latency_points db policy frontier orgId clusterId now c f :
  LatencyBinding.frontier (bindServingLatency db policy frontier orgId clusterId now c).1.1 = Some f ->
  exists g, frontier = Some g /\
    Forall (fun p => exists q, q ∈ Frontier.points g /\
      FrontierPoint.strategyConfig p = FrontierPoint.strategyConfig q /\ is_live p = is_live q) (Frontier.points f).
Proof.
  unfold bindServingLatency.
  assert (forall g, Forall (fun p => exists q, q ∈ Frontier.points g /\
    FrontierPoint.strategyConfig p = FrontierPoint.strategyConfig q /\ is_live p = is_live q) (Frontier.points g)) as Hrefl.
  { intros g. apply Forall_forall. eauto. }
  destruct (policyHasLatencyDimension policy); simpl; [|intros ->; eauto].
  destruct frontier as [g|]; [|done]. destruct (Frontier.points g) as [|p0 l] eqn:Hp; [intros [= <-]; eauto|].
  destruct (cachedRollup db orgId clusterId now c) as [[err|rows] c']; simpl; intros [= <-]; exists g;
    (split; [done|]); apply Forall_forall; intros p Hin; rewrite Hp; cbn [Frontier.points Frontier.with_points] in Hin;
    change (resolved_point ?r ?m p0 :: map (resolved_point ?r ?m) l)
      with (map (resolved_point r m) (p0 :: l)) in Hin;
    apply list_elem_of_fmap in Hin as (q & -> & Hq); exists q; (split; [done|]);
    unfold resolved_point, is_live; by destruct (served _ _ q).
Qed.

Lemma exclude_points f rows w g :
  DegeneracyBinding.frontier (exclude_degenerate f rows w).1 = Some g ->
  (Frontier.points f <> [] -> Frontier.points g <> []) /\
  Forall (fun p => p ∈ Frontier.points f) (Frontier.points g).
Proof.
  assert (Forall (fun p => p ∈ Frontier.points f) (Frontier.points f)) as Hrefl by (by apply Forall_forall).
  unfold exclude_degenerate. destruct (degenerate_hashes rows); [by intros [= <-]|].
  destruct (List.filter _ _) as [|p k] eqn:E; [by intros [= <-]|]. intros [= <-]. split; [done|].
  rewrite <- E. apply Forall_forall. intros q Hq. by apply elem_of_lfilter in Hq as [? _].
Qed.

Lemma bind_degeneracy_points db frontier orgId clusterId now c g :
  DegeneracyBinding.frontier (bindServingDegeneracy db frontier orgId clusterId now c).1.1 = Some g ->
  exists f, frontier = Some f /\ (Frontier.points f <> [] -> Frontier.points g <> []) /\
    Forall (fun p => p ∈ Frontier.points f) (Frontier.points g).
Proof.
  unfold bindServingDegeneracy. destruct frontier as [f|]; [|done].
  assert (Forall (fun p => p ∈ Frontier.points f) (Frontier.points f)) as Hrefl by (by apply Forall_forall).
  destruct (Frontier.points f) as [|p0 l] eqn:Hp.
  { intros [= <-]. exists f. rewrite Hp. done. }
  destruct (degenerateRollup db orgId clusterId now c) as [[err|rows] c']; simpl.
  - intros [= <-]. exists f. rewrite Hp. done.
  - intros He%exclude_points. exists f. rewrite Hp in *. tauto.
Qed.

Lemma live_default_entry `{!Collation} prices c :
  liveDefaultStrategy prices = Some c ->
  exists e, e ∈ PriceTable.entries prices /\ is_mock_entry e = false /\ c = single (PriceEntry.alias e).
Proof.
  unfold liveDefaultStrategy. set (byPrice := sort _ _).
  assert (forall e, e ∈ byPrice -> e ∈ PriceTable.entries prices /\ is_mock_entry e = false) as Hin.
  { intros e [? ?%negb_true_iff]%elem_of_sort%elem_of_lfilter. done. }
  destruct (List.find _ byPrice) as [e|] eqn:Hm.
  - intros [= <-]. apply find_some in Hm as [He%list_elem_of_In _]. exists e. split_and!; [by apply Hin..|done].
  - destruct (head byPrice) as [e|] eqn:Hh; [|done]. intros [= <-]. exists e.
    assert (e ∈ byPrice) as He by (destruct byPrice; [done|]; injection Hh as ->; left).
    split_and!; [by apply Hin..|done].
Qed.

(** The invariant of the signup loop. *)
Definition signup_ok (s : SignupFloor.t) : Prop :=
  leb SIGNUP_FLOOR_MIN (SignupFloor.floor_ s) = true /\ leb (SignupFloor.floor_ s) (SignupFloor.ceiling s) = true /\
  Forall (fun e => ltb (mint e.2) SIGNUP_FLOOR_MIN = true) (SignupFloor.excluded s) /\
  match SignupFloor.limiting s with
  | Some (_, h) => SignupFloor.floor_ s = mint h
  | None => SignupFloor.floor_ s = SignupFloor.ceiling s
  end.

Lemma signup_step_floor acc e :
  signup_ok acc -> signup_ok (signup_step acc e) /\
  leb (SignupFloor.floor_ (signup_step acc e)) (SignupFloor.floor_ acc) = true /\
  SignupFloor.ceiling (signup_step acc e) = SignupFloor.ceiling acc.
Proof.
  intros (Hmin & Hmax & Hex & Hlim). pose proof (leb_nan _ _ Hmin) as [_ Hn].
  assert (leb (SignupFloor.floor_ acc) (SignupFloor.floor_ acc) = true) as Hrefl by (by apply leb_refl).
  unfold signup_step. destruct e as [cl [f|]]; simpl; [|by split].
  destruct (Frontier.points f) as [|p l]; [by split|].
  destruct (ltb (mint _) SIGNUP_FLOOR_MIN) eqn:E1.
  - split; [|done]. split; [done|]. split; [done|]. split; [|done]. simpl. apply Forall_app. by repeat constructor.
  - destruct (ltb (mint _) (SignupFloor.floor_ acc)) eqn:E2; [|by split].
    pose proof (ltb_nan _ _ E2) as [Hm _]. split; [|split; [by apply ltb_leb|done]].
    split; [|split; [|split; [done|reflexivity]]]; simpl.
    + by apply not_ltb_leb in E1.
    + eapply leb_trans; [by apply ltb_leb|done].
Qed.

Lemma signup_fold_floor served : forall acc,
  signup_ok acc ->
  let s := fold_left signup_step served acc in
  signup_ok s /\ leb (SignupFloor.floor_ s) (SignupFloor.floor_ acc) = true /\
  SignupFloor.ceiling s = SignupFloor.ceiling acc.
Proof.
  induction served as [|e served IH]; intros acc Hacc; simpl.
  - split; [done|]. split; [|done]. apply leb_refl. destruct Hacc as [H _]. by apply leb_nan in H as [_ ?].
  - destruct (signup_step_floor acc e Hacc) as (H1 & H2 & H3). destruct (IH _ H1) as (H4 & H5 & H6).
    split; [done|]. split; [by eapply leb_trans|congruence].
Qed.

Lemma signup_start : signup_ok (SignupFloor.mk DEFAULT_FLOOR DEFAULT_FLOOR None [] 0).
Proof. split_and!; try done. Qed.

(** Every loaded cluster is either excluded or at or above the final floor. *)
Lemma signup_fold_covers served : forall acc cl f,
  signup_ok acc -> (cl, Some f) ∈ served -> Frontier.points f <> [] ->
  is_nan (mint (highest_provable (Frontier.points f))) = false ->
  let s := fold_left signup_step served acc in
  (cl, highest_provable (Frontier.points f)) ∈ SignupFloor.excluded s \/
  leb (SignupFloor.floor_ s) (mint (highest_provable (Frontier.points f))) = true.
Proof.
  induction served as [|e served IH]; intros acc cl f Hacc Hin Hne Hn; [by apply elem_of_nil in Hin|].
  simpl. destruct (signup_step_floor acc e Hacc) as (Hok & _ & _).
  apply elem_of_cons in Hin as [<-|Hin]; [|by apply IH].
  assert (forall s x, x ∈ SignupFloor.excluded s -> x ∈ SignupFloor.excluded (fold_left signup_step served s)) as Hmono.
  { clear. induction served as [|e served IH]; intros s x Hx; simpl; [done|]. apply IH. unfold signup_step.
    repeat case_match; simpl; rewrite ?elem_of_app; auto. }
  assert ((cl, highest_provable (Frontier.points f)) ∈ SignupFloor.excluded (signup_step acc (cl, Some f)) \/
    leb (SignupFloor.floor_ (signup_step acc (cl, Some f))) (mint (highest_provable (Frontier.points f))) = true) as [H|H].
  { unfold signup_step. cbn [fst snd]. destruct (Frontier.points f) as [|p l]; [destruct (Hne eq_refl)|].
    destruct (ltb (mint _) SIGNUP_FLOOR_MIN); simpl; [left; apply elem_of_app; right; left|right].
    destruct (ltb (mint _) (SignupFloor.floor_ acc)) eqn:E; simpl; [by apply leb_refl|].
    apply not_ltb_leb in E; [done..|]. destruct Hacc as [H _]. by apply leb_nan in H as [_ ?]. }
  - left. auto.
  - right. destruct (signup_fold_floor served _ Hok) as (_ & Hle & _). by eapply leb_trans.
Qed.

(** ** Properties *)

(** The signup floor stays between the minimum and the default, names the
    cluster that set it, excludes exactly clusters below the minimum, and every
    other measured cluster's minted bound reaches it. *)
Theorem signupQualityFloor_bounds served :
  let s := signupQualityFloor served in
  leb SIGNUP_FLOOR_MIN (SignupFloor.floor_ s) = true /\ leb (SignupFloor.floor_ s) DEFAULT_FLOOR = true /\
  Forall (fun e => ltb (mint e.2) SIGNUP_FLOOR_MIN = true) (SignupFloor.excluded s) /\
  match SignupFloor.limiting s with
  | Some (_, h) => SignupFloor.floor_ s = mint h
  | None => SignupFloor.floor_ s = DEFAULT_FLOOR
  end /\
  forall cl f, (cl, Some f) ∈ served -> Frontier.points f <> [] ->
    is_nan (mint (highest_provable (Frontier.points f))) = false ->
    (cl, highest_provable (Frontier.points f)) ∈ SignupFloor.excluded s \/
    leb (SignupFloor.floor_ s) (mint (highest_provable (Frontier.points f))) = true.
Proof.
  intros s. destruct (signup_fold_floor served _ signup_start) as ((H1 & _ & H3 & H4) & H5 & H6).
  rewrite H6 in H4. split; [exact H1|]. split; [exact H5|]. split; [exact H3|]. split; [exact H4|].
  intros cl f Hin Hne Hn. exact (signup_fold_covers served _ cl f signup_start Hin Hne Hn).
Qed.

(** The 2dp floor is not always a floor: a cluster proving
    [0.95 - 0.15 = 0.7999999999999999] mints [0.8], above what it proves, and
    the policy minted for it has no feasible point on that very cluster. *)
Theorem signup_mint_rounds_up :
  let p := Fixtures.with_evidence (Fixtures.evidence 150 None) Fixtures.best in
  let f := Fixtures.frontier [p] in
  ltb (qualityLowerBound p) (mint (highest_provable [p])) = true /\
  SignupFloor.excluded (signupQualityFloor [("code-gen", Some f)]) = [] /\
  selectPoint (signupPolicyFor [("code-gen", Some f)]) f None = None.
Proof. vm_compute. done. Qed.

(** C4. [fallback = 0] is a promise: the served config is that of a frontier point
    that meets the policy's bound on the measured numbers, whether or not tools
    narrowed the choice. *)
Theorem resolveOperatingPoint_bound_holds sh policy frontier fb tools :
  OperatingPoint.fallback (resolveOperatingPoint sh policy frontier fb tools None) = false ->
  exists f p, frontier = Some f /\ p ∈ Frontier.points f /\
    feasible policy FrontierPoint.costPer1K p = true /\
    OperatingPoint.config (resolveOperatingPoint sh policy frontier fb tools None) = Some (FrontierPoint.strategyConfig p).
Proof.
  assert (OperatingPoint.fallback (resolve_plain policy frontier fb None) = false ->
    exists f p, frontier = Some f /\ p ∈ Frontier.points f /\ feasible policy FrontierPoint.costPer1K p = true /\
      OperatingPoint.config (resolve_plain policy frontier fb None) = Some (FrontierPoint.strategyConfig p)) as Hplain.
  { intros (f & p & -> & [Hp Hf]%selectPoint_scalar & Hc)%resolve_plain_selected. by exists f, p. }
  unfold resolveOperatingPoint. destruct tools; [|done].
  destruct (OperatingPoint.config (resolve_plain policy frontier fb None)) as [c|] eqn:Hc; [|rewrite Hc; done].
  destruct (is_single c); [rewrite Hc; done|].
  destruct (_ && _); [rewrite Hc; done|]. simpl.
  intros (g & p & Hg & [Hp Hf]%selectPoint_scalar & ->)%resolve_plain_selected.
  apply narrow_to_tools_some in Hg as (f & -> & Hpts). rewrite Hpts in Hp. apply elem_of_lfilter in Hp as [Hp _].
  by exists f, p.
Qed.

Lemma resolveOperatingPoint_bound_holds_witness :
  let casc := FrontierPoint.mk "code-gen" "casc" (cascade [CascadeStage.mk "cheap" None] logprob)
                (lit 960 3) (lit 1 1) (of_Z 900) (Some live) None in
  let f := Fixtures.frontier [casc; Fixtures.cheap; Fixtures.mid] in
  exists f' p, Some f = Some f' /\ p ∈ Frontier.points f' /\
    feasible (Fixtures.compound_policy 850 2000) FrontierPoint.costPer1K p = true /\
    OperatingPoint.config (resolveOperatingPoint strategy_type (Fixtures.compound_policy 850 2000) (Some f) None true None)
    = Some (FrontierPoint.strategyConfig p).
Proof.
  intros casc f. apply (resolveOperatingPoint_bound_holds strategy_type (Fixtures.compound_policy 850 2000) (Some f) None true).
  vm_compute. reflexivity.
Defined.

(** Tool-carrying requests are only ever served by shapes that can carry
    tools, on the fallback branches too. *)
Theorem resolveOperatingPoint_tools sh policy frontier fb request c :
  (forall d, fb = Some d -> StrategyCapabilities.canServeTools (strategyCapabilities d) = true) ->
  OperatingPoint.config (resolveOperatingPoint sh policy frontier fb true request) = Some c ->
  StrategyCapabilities.canServeTools (strategyCapabilities c) = true.
Proof.
  intros Hfb. unfold resolveOperatingPoint.
  destruct (OperatingPoint.config (resolve_plain policy frontier fb request)) as [d|] eqn:Hd; [|by rewrite Hd].
  destruct (is_single d) eqn:Hs; [rewrite Hd; intros [= <-]; by destruct d|].
  destruct (_ && _) eqn:Hcap; [rewrite Hd; intros [= <-]; by apply andb_prop in Hcap as [? _]|].
  simpl. intros [(g & p & Hg & Hp & ->)|[Hfb' _]]%resolve_plain_config; [|by apply Hfb].
  apply narrow_to_tools_some in Hg as (f & -> & Hpts). rewrite Hpts in Hp.
  apply elem_of_lfilter in Hp as [_ [? _]%andb_prop]. done.
Qed.

Lemma resolveOperatingPoint_tools_witness :
  let ens := FrontierPoint.mk "code-gen" "ens" (draft_verify "cheap" "mid") (lit 960 3) (lit 1 1) (of_Z 900) (Some live) None in
  StrategyCapabilities.canServeTools (strategyCapabilities (single "mid")) = true.
Proof.
  intros ens. apply (resolveOperatingPoint_tools strategy_type (Fixtures.compound_policy 850 2000)
    (Some (Fixtures.frontier [ens; Fixtures.mid])) None None).
  - intros d [=].
  - vm_compute. reflexivity.
Defined.

(** A reported latency violation is real: without a request context the served
    point keeps the quality floor and its p95 does not meet the bound. *)
Theorem latencyViolation_exceeds policy frontier fb v :
  OperatingPoint.latencyViolation (resolve_plain policy frontier fb None) = Some v ->
  leb (LatencyViolation.servedP95Ms v) (LatencyViolation.boundMs v) = false /\
  exists f q, frontier = Some f /\ q ∈ Frontier.points f /\
    FrontierPoint.strategyHash q = LatencyViolation.servedStrategyHash v /\
    FrontierPoint.latencyP95 q = LatencyViolation.servedP95Ms v /\
    geb (qualityLowerBound q) (LatencyViolation.qualityFloor v) = true.
Proof.
  intros (f & fl & cf & p95 & sh & g & q & -> & -> & Hs & Hq & -> & -> & -> & ->)%resolve_violation.
  apply pickBest_in, elem_of_lfilter in Hq as [Hq Hf]. split.
  - rewrite selectPoint_unfold in Hs. apply pickBest_none in Hs. apply not_true_is_false. intros Hle.
    eapply not_elem_of_nil. rewrite <- Hs. apply elem_of_lfilter. split; [exact Hq|]. simpl. by rewrite Hf, Hle.
  - exists f, q. done.
Qed.

Lemma latencyViolation_exceeds_witness :
  exists v, OperatingPoint.latencyViolation
    (resolve_plain (Fixtures.compound_policy 850 1000) (Some (Fixtures.frontier [Fixtures.mid; Fixtures.best])) None None) = Some v /\
    leb (LatencyViolation.servedP95Ms v) (LatencyViolation.boundMs v) = false.
Proof.
  destruct (OperatingPoint.latencyViolation
    (resolve_plain (Fixtures.compound_policy 850 1000) (Some (Fixtures.frontier [Fixtures.mid; Fixtures.best])) None None))
    as [v|] eqn:E; [|vm_compute in E; discriminate E].
  exists v. split; [reflexivity|]. exact (proj1 (latencyViolation_exceeds _ _ _ v E)).
Defined.

(** With an output budget the same report can be false: the budget empties the
    pool, the fallback ignores it, and a violation is reported for a p95 that
    meets the bound. *)
Theorem latencyViolation_budget_false :
  let p := Fixtures.with_evidence (Fixtures.evidence 0 (Some (Tokens.mk (of_Z 120) (of_Z 300)))) Fixtures.mid in
  let r := SelectionContext.mk (of_Z 24) Fixtures.prices (Some (of_Z 64)) in
  exists v, OperatingPoint.latencyViolation
    (resolve_plain (Fixtures.compound_policy 850 2000) (Some (Fixtures.frontier [p])) None (Some r)) = Some v /\
    ltb (LatencyViolation.servedP95Ms v) (LatencyViolation.boundMs v) = true.
Proof. intros p r. eexists. split; [vm_compute; reflexivity|vm_compute; reflexivity]. Qed.

(** Under a cost ceiling and a request context, narrowing to tool-capable
    points re-anchors the baseline: a point over the ceiling on the full
    frontier is served as feasible ([fallback = 0]) on the narrowed one. *)
Theorem tools_narrowing_reprices :
  let tokens i := Some (Tokens.mk (of_Z i) (of_Z 100)) in
  let casc := Fixtures.with_evidence (Fixtures.evidence 0 (tokens 10%Z))
    (FrontierPoint.mk "code-gen" "casc" (cascade [CascadeStage.mk "cheap" None] logprob)
       (lit 960 3) (lit 1 1) (of_Z 900) (Some live) None) in
  let mid := Fixtures.with_evidence (Fixtures.evidence 0 (tokens 1010%Z)) Fixtures.mid in
  let f := Fixtures.frontier [casc; mid] in
  let r := SelectionContext.mk (of_Z 20) Fixtures.prices None in
  let ceiling := max_quality (of_Z 1) None None in
  let op := resolveOperatingPoint strategy_type ceiling (Some f) None true (Some r) in
  OperatingPoint.fallback op = false /\
  OperatingPoint.config op = Some (FrontierPoint.strategyConfig mid) /\
  feasible ceiling (fun q => costOf q (select_ctx (Frontier.points f) (Some r))) mid = false /\
  feasible ceiling FrontierPoint.costPer1K mid = false.
Proof. vm_compute. done. Qed.

(** C5. A live server never serves simulated evidence or a mock model: whatever it
    serves is the strategy of a live-provenance point of the loaded frontier,
    or the model of a non-mock price entry. *)
Theorem servingDecision_live_never_mock `{!Collation} db a c cfg :
  ServingDecisionArgs.providerMode a = live ->
  OperatingPoint.config (ServingDecision.op (servingDecisionFor db a c).1.1) = Some cfg ->
  (exists f p, db_frontier db (ServingDecisionArgs.clusterId a) (ServingDecisionArgs.orgId a) = Some f /\
     p ∈ Frontier.points f /\ is_live p = true /\ cfg = FrontierPoint.strategyConfig p) \/
  (exists e, e ∈ PriceTable.entries (ServingDecisionArgs.prices a) /\ is_mock_entry e = false /\
     cfg = single (PriceEntry.alias e)).
Proof.
  intros Hm. unfold servingDecisionFor. rewrite Hm.
  destruct (guardFrontierProvenance _ live) as [[guarded prov] w1] eqn:Hg.
  destruct (bindServingLatency db _ guarded _ _ _ c) as [[binding w2] c2] eqn:Hl.
  destruct (bindServingDegeneracy db _ _ _ _ c2) as [[deg w3] c3] eqn:Hd. cbn [fst ServingDecision.op].
  intros [(f & p & Hf & Hp & ->)|[Hfb _]]%resolve_plain_config; [left|right; by apply live_default_entry].
  pose proof (f_equal (fun x => DegeneracyBinding.frontier x.1.1) Hd) as Hd'. cbn in Hd'. rewrite Hf in Hd'.
  apply bind_degeneracy_points in Hd' as (f2 & Hf2 & _ & Hin2).
  pose proof (f_equal (fun x => LatencyBinding.frontier x.1.1) Hl) as Hl'. cbn in Hl'. rewrite Hf2 in Hl'.
  apply bind_latency_points in Hl' as (f1 & -> & Hin1).
  pose proof (f_equal (fun x => x.1.1) Hg) as Hg'. cbn [fst] in Hg'. apply guard_live in Hg' as [Hload Hlive].
  forall_elim. destruct (Hin1 p (Hin2 p Hp)) as (q & Hq & -> & _). exists f1, q. auto.
Qed.

Definition sample_db : ServingDb := {|
  db_frontier := fun _ _ => Some (Fixtures.frontier [Fixtures.cheap; Fixtures.mid]);
  db_latency := fun _ _ _ => inl "timeout";
  db_degenerate := fun _ _ _ => inr [DegenerateRow.mk "cheap" (of_Z 6) (of_Z 8)];
  db_degenerate_platform := fun _ _ => inr [];
|}.

Definition sample_args : ServingDecisionArgs.t :=
  ServingDecisionArgs.mk "org" "code-gen" (min_cost (lit 7 1) None None None) live Fixtures.prices 1000.

Lemma servingDecision_live_never_mock_witness :
  OperatingPoint.config (ServingDecision.op (servingDecisionFor sample_db sample_args (Caches ∅ ∅)).1.1) = Some (single "mid") /\
  ((exists f p, db_frontier sample_db "code-gen" "org" = Some f /\ p ∈ Frontier.points f /\ is_live p = true /\
     single "mid" = FrontierPoint.strategyConfig p) \/
   (exists e, e ∈ PriceTable.entries Fixtures.prices /\ is_mock_entry e = false /\
     single "mid" = single (PriceEntry.alias e))).
Proof.
  assert (OperatingPoint.config (ServingDecision.op (servingDecisionFor sample_db sample_args (Caches ∅ ∅)).1.1)
    = Some (single "mid")) as H by (vm_compute; reflexivity).
  split; [exact H|]. apply (servingDecision_live_never_mock sample_db sample_args (Caches ∅ ∅)); [reflexivity|exact H].
Defined.

(** The infeasible fallback is the cheapest point the evidence cannot rank
    below the best: its upper bound reaches the best point's lower bound and no
    tied point is cheaper. *)
Theorem infeasibleFallbackPoint_spec points best :
  Forall (comparable FrontierPoint.costPer1K) points ->
  best ∈ points -> geb (qualityUpperBound best) (qualityLowerBound best) = true ->
  let s := infeasibleFallbackPoint points best in
  s ∈ points /\ geb (qualityUpperBound s) (qualityLowerBound best) = true /\
  forall q, q ∈ points -> geb (qualityUpperBound q) (qualityLowerBound best) = true ->
    leb (FrontierPoint.costPer1K s) (FrontierPoint.costPer1K q) = true.
Proof.
  intros Hc Hb Hbb. unfold infeasibleFallbackPoint.
  set (tied := List.filter _ points). destruct (head (sort _ tied)) as [s|] eqn:E; simpl.
  - pose proof (sort_head_elem _ _ _ E) as [Hs Hu]%elem_of_lfilter. split; [done|]. split; [done|].
    intros q Hq Hqu. assert (Forall (comparable FrontierPoint.costPer1K) tied) as Ht.
    { forall_elim. apply Hc. by eapply elem_of_lfilter. }
    pose proof (sort_head_le (comparable FrontierPoint.costPer1K) _ tied s q Ht E) as Hle.
    forall_elim. destruct (Hc s Hs) as [_ Hcs], (Hc q Hq) as [_ Hcq]. apply (asc_le FrontierPoint.costPer1K); [done..|].
    specialize (Hle ltac:(by apply elem_of_lfilter)). unfold le in Hle. rewrite by_cost_then_quality_eq in Hle.
    by apply then_by_le in Hle as [? _].
  - apply sort_head_none in E. exfalso. eapply not_elem_of_nil. rewrite <- E. by apply elem_of_lfilter.
Qed.

Lemma infeasibleFallbackPoint_spec_witness :
  let wide := Fixtures.with_evidence (Fixtures.evidence 60 None) Fixtures.best in
  let points := [wide; Fixtures.mid; Fixtures.cheap] in
  infeasibleFallbackPoint points wide = Fixtures.mid /\ infeasibleFallbackPoint points wide ∈ points.
Proof.
  intros wide points. split; [vm_compute; reflexivity|]. apply (infeasibleFallbackPoint_spec points wide).
  - repeat constructor.
  - left.
  - vm_compute. reflexivity.
Defined.

(** Degeneracy exclusion only removes flagged strategies, never the last point,
    and changes nothing when nothing is flagged or everything is. *)
Theorem exclude_degenerate_spec f rows w :
  let hs := degenerate_hashes rows in
  let '(b, warnings) := exclude_degenerate f rows w in
  exists g, DegeneracyBinding.frontier b = Some g /\
    (Frontier.points f <> [] -> Frontier.points g <> []) /\
    ((g = f /\ DegeneracyBinding.excluded b = [] /\
      (hs = [] \/ Forall (fun p => in_hashes hs p = true) (Frontier.points f))) \/
     (Frontier.points g = List.filter (fun p => negb (in_hashes hs p)) (Frontier.points f) /\
      DegeneracyBinding.excluded b = map FrontierPoint.strategyHash (List.filter (in_hashes hs) (Frontier.points f)) /\
      Forall (fun p => FrontierPoint.strategyHash p ∉ hs) (Frontier.points g))).
Proof.
  intros hs. unfold exclude_degenerate. fold hs. destruct hs as [|h l] eqn:Hh.
  { exists f. split; [done|]. split; [done|]. left. auto. }
  rewrite <- Hh. destruct (List.filter (fun p => negb (in_hashes hs p)) (Frontier.points f)) as [|p k] eqn:E.
  - exists f. split; [done|]. split; [done|]. left. split; [done|]. split; [done|]. right.
    apply Forall_forall. intros p Hp. destruct (in_hashes hs p) eqn:Ei; [done|exfalso].
    eapply not_elem_of_nil. rewrite <- E. apply elem_of_lfilter. by rewrite Ei.
  - eexists. split; [done|]. split; [done|]. right. split; [done|]. split; [done|].
    cbn [Frontier.points Frontier.with_points]. rewrite <- E. apply Forall_forall.
    intros q [_ Hq%negb_true_iff]%elem_of_lfilter Hin. apply not_true_iff_false in Hq. apply Hq.
    apply existsb_exists. exists (FrontierPoint.strategyHash q). split; [by apply list_elem_of_In|apply String.eqb_refl].
Qed.

(** The rollup cache: a successful rollup is served again, whatever the
    database would answer, until its entry is a TTL old, and a failed query
    leaves the cache as it was. *)
Theorem cachedRollup_ttl db orgId clusterId now c :
  let '(r, c') := cachedRollup db orgId clusterId now c in
  match r with
  | inl err => c' = c /\ db_latency db orgId clusterId now = inl err
  | inr rows => exists at_, (now - at_ < SERVING_LATENCY_CACHE_TTL_MS)%Z /\
      forall later db', (later - at_ < SERVING_LATENCY_CACHE_TTL_MS)%Z ->
        cachedRollup db' orgId clusterId later c' = (inr rows, c')
  end.
Proof.
  assert (forall c rows at_ later db', latencyCache c !! cache_key orgId clusterId = Some (at_, rows) ->
    (later - at_ < SERVING_LATENCY_CACHE_TTL_MS)%Z ->
    cachedRollup db' orgId clusterId later c = (inr rows, c)) as Hhit.
  { intros c0 rows at_ later db' Hc Hl. unfold cachedRollup, fresh. rewrite Hc. simpl.
    by destruct (Z.ltb_spec (later - at_) SERVING_LATENCY_CACHE_TTL_MS); [|lia]. }
  unfold cachedRollup at 1. destruct (fresh (latencyCache c !! cache_key orgId clusterId) now) as [rows|] eqn:Ef.
  - unfold fresh in Ef. destruct (latencyCache c !! cache_key orgId clusterId) as [[at_ rs]|] eqn:Ec; [|done]. simpl in Ef.
    destruct (Z.ltb_spec (now - at_) SERVING_LATENCY_CACHE_TTL_MS); [|done]. injection Ef as ->. eauto.
  - destruct (db_latency db orgId clusterId now) as [err|rows] eqn:Eq; [done|]. exists now.
    split; [unfold SERVING_LATENCY_CACHE_TTL_MS; lia|]. intros later db'. apply Hhit. apply lookup_insert_eq.
Qed.

(** A cluster listed with its own floor is served under that floor: the policy
    as it applies to the cluster admits exactly the points whose lower bound
    reaches it (and, for a compound policy, still meet the latency bound). *)
Theorem policyForCluster_feasible policy clusterId own cost p :
  match policy with
  | min_cost _ cf _ _ | compound _ cf _ _ _ => cluster_floor cf clusterId = Some own
  | _ => False
  end ->
  is_nan own = false ->
  feasible (policyForCluster policy clusterId) cost p =
  geb (qualityLowerBound p) own
  && match policy with compound _ _ p95Ms _ _ => leb (FrontierPoint.latencyP95 p) p95Ms | _ => true end.
Proof.
  assert (forall fl x, eqb own fl = true -> geb x fl = geb x own) as Hsame.
  { intros fl x He. assert (leb own fl = true /\ leb fl own = true) as [H1 H2].
    { unfold eqb, leb, SFeqb, SFleb in *. destruct (SFcompare own fl) as [[]|] eqn:E; try done.
      assert (is_nan own = false /\ is_nan fl = false) as [? ?] by (by destruct own, fl).
      split; [done|]. rewrite SFcompare_cmp in * by done. rewrite (cmp_antisym own fl). by injection E as ->. }
    unfold geb. fold (leb fl x) (leb own x).
    destruct (leb fl x) eqn:Ef, (leb own x) eqn:Eo; try done.
    - by rewrite (leb_trans own fl x) in Eo.
    - by rewrite (leb_trans fl own x) in Ef. }
  intros Hp Hn. destruct policy as [|fl cf sh g| |fl cf p95 sh g]; try done; simpl; rewrite Hp;
    destruct (eqb own fl) eqn:He; simpl; rewrite ?andb_true_r, ?(Hsame fl) by done; done.
Qed.

Lemma policyForCluster_feasible_witness :
  feasible (policyForCluster (min_cost (lit 95 2) (Some [("code-gen", lit 8 1)]) None None) "code-gen")
    FrontierPoint.costPer1K Fixtures.cheap = true /\
  feasible (policyForCluster (min_cost (lit 95 2) (Some [("code-gen", lit 8 1)]) None None) "code-gen")
    FrontierPoint.costPer1K Fixtures.cheap = geb (qualityLowerBound Fixtures.cheap) (lit 8 1) && true.
Proof.
  split; [vm_compute; reflexivity|].
  apply (policyForCluster_feasible (min_cost (lit 95 2) (Some [("code-gen", lit 8 1)]) None None)); reflexivity.
Defined.
End Serving.
