(* ===== verification/Queue.v ===== *)
(** * The in-process queue: queue/src/memory.ts, queue/src/index.ts

    [MemoryQueue] as a state machine.  JavaScript runs to the next [await], so
    one event is one such block: a call of a public method (with the part of
    [pump] that runs before its first [await]), the settlement of the handler
    the pump is waiting for, or a woken [close] looking at its loop condition
    again.  Jobs are shared objects: [jobs] holds references (ids) in queue
    order, [records] is the store they point into.

    At the boundary between events the [pumping] flag is set exactly while a
    handler is in flight, so the state keeps the job in flight. *)

From stdpp Require Import pretty.
From S2P Require Import Prelude Number Types.

Module Queue.

Inductive JobState := queued | active | completed | failed | delayed | unknown.

#[export] Instance JobState_eq_dec : EqDecision JobState.
Proof. solve_decision. Defined.

Module Job.
Record t := mk {
  id : string;
  name : string;
  payload : json;
  state : JobState;
  progress : Z;
  result : option json;
  error : option string;
  attempts : nat;
}.

Definition with_state (s : JobState) (j : t) : t :=
  mk (id j) (name j) (payload j) s (progress j) (result j) (error j) (attempts j).
End Job.

Module JobStatus.
Record t := mk {
  id : string;
  name : string;
  state : JobState;
  progress : Z;
  payload : json;
  result : option json;
  error : option string;
  attempts : option nat;
}.
End JobStatus.

Module JobDelivery.
Record t := mk { jobId : string; attempt : nat }.
End JobDelivery.

(** [drainWaiters] holds the parked [close] calls; [woken] those whose promise
    has resolved and that have not run yet; [returned] those that finished. *)
Record queue := MkQueue {
  jobs : list string;
  handlers : gset string;
  counter : nat;
  maxAttempts : nat;
  inflight : option string;
  closed : bool;
  drainWaiters : list nat;
  woken : list nat;
  returned : list nat;
  records : gmap string Job.t;
}.

Definition pumping (q : queue) : bool := match inflight q with Some _ => true | None => false end.

Definition new_queue (attempts : option nat) : queue :=
  MkQueue [] ∅ 0 (default 1 attempts)%nat None false [] [] [] ∅.

Definition createMemoryQueue : queue := new_queue None.

Definition set_jobs (js : list string) (rs : gmap string Job.t) (q : queue) : queue :=
  MkQueue js (handlers q) (counter q) (maxAttempts q) (inflight q) (closed q) (drainWaiters q) (woken q) (returned q) rs.

(** The [finally] of [pump]: the flag is cleared, and an empty queue wakes
    every parked [close]. *)
Definition stop_pump (q : queue) : queue :=
  match jobs q with
  | [] => MkQueue [] (handlers q) (counter q) (maxAttempts q) None (closed q) [] (woken q ++ drainWaiters q) (returned q) (records q)
  | js => MkQueue js (handlers q) (counter q) (maxAttempts q) None (closed q) (drainWaiters q) (woken q) (returned q) (records q)
  end.

(** The body of the [while] of [pump] up to its [await], or its exit. *)
Definition pump_loop (q : queue) : queue * list JobDelivery.t :=
  match jobs q with
  | [] => (stop_pump q, [])
  | h :: rest =>
      match records q !! h with
      | None => (stop_pump q, [])
      | Some job =>
          if decide (Job.name job ∈ handlers q) then
            let job' := Job.mk (Job.id job) (Job.name job) (Job.payload job) active (Job.progress job)
                          (Job.result job) (Job.error job) (S (Job.attempts job)) in
            (MkQueue rest (handlers q) (counter q) (maxAttempts q) (Some h) (closed q) (drainWaiters q)
               (woken q) (returned q) (<[h := job']> (records q)),
             [JobDelivery.mk h (S (Job.attempts job))])
          else (stop_pump q, [])
      end
  end.

(** [void this.pump()]. *)
Definition pump (q : queue) : queue * list JobDelivery.t :=
  if pumping q then (q, []) else pump_loop q.

Definition job_id (n : nat) : string := "mem-" +:+ pretty n.

Definition enqueue (name : string) (payload : json) (q : queue) : string + (queue * list JobDelivery.t) :=
  if closed q then inl "memory queue is closed"
  else
    let n := S (counter q) in
    let id := job_id n in
    let job := Job.mk id name payload queued 0 None None 0 in
    inr (pump (MkQueue (jobs q ++ [id]) (handlers q) n (maxAttempts q) (inflight q) (closed q) (drainWaiters q)
                 (woken q) (returned q) (<[id := job]> (records q)))).

Definition registerHandler (name : string) (q : queue) : queue * list JobDelivery.t :=
  pump (MkQueue (jobs q) ({[name]} ∪ handlers q) (counter q) (maxAttempts q) (inflight q) (closed q)
          (drainWaiters q) (woken q) (returned q) (records q)).

(** The pump resumes when its handler resolves with a value or throws. *)
Definition settle (outcome : string + json) (q : queue) : option (queue * list JobDelivery.t) :=
  h ← inflight q;
  job ← records q !! h;
  Some match outcome with
  | inr result =>
      let job' := Job.mk (Job.id job) (Job.name job) (Job.payload job) completed 100 (Some result)
                    (Job.error job) (Job.attempts job) in
      pump_loop (set_jobs (jobs q) (<[h := job']> (records q)) q)
  | inl error =>
      let retry := (Job.attempts job <? maxAttempts q)%nat in
      let job' := Job.mk (Job.id job) (Job.name job) (Job.payload job) (if retry then queued else failed)
                    (Job.progress job) (Job.result job) (Some error) (Job.attempts job) in
      pump_loop (set_jobs (if retry then jobs q ++ [h] else jobs q) (<[h := job']> (records q)) q)
  end.

Definition has_handler (q : queue) (id : string) : bool :=
  match records q !! id with Some job => bool_decide (Job.name job ∈ handlers q) | None => false end.

Definition drainableJobs (q : queue) : nat := length (List.filter (has_handler q) (jobs q)).

(** One evaluation of [close]'s loop condition, by the call [k]. *)
Definition close_check (k : nat) (q : queue) : queue :=
  if (0 <? drainableJobs q)%nat || pumping q then
    MkQueue (jobs q) (handlers q) (counter q) (maxAttempts q) (inflight q) (closed q) (drainWaiters q ++ [k])
      (woken q) (returned q) (records q)
  else
    MkQueue (jobs q) (handlers q) (counter q) (maxAttempts q) (inflight q) true (drainWaiters q)
      (woken q) (returned q ++ [k]) (records q).

Definition close (k : nat) (q : queue) : queue := close_check k q.

Definition wake (q : queue) : option queue :=
  match woken q with
  | [] => None
  | k :: rest =>
      Some (close_check k (MkQueue (jobs q) (handlers q) (counter q) (maxAttempts q) (inflight q) (closed q)
                             (drainWaiters q) rest (returned q) (records q)))
  end.

Definition consumerHealth (q : queue) : nat * nat :=
  (length (List.filter (fun id => match records q !! id with
                                  | Some j => bool_decide (Job.state j = queued) | None => false end) (jobs q)),
   if decide (handlers q = ∅) then 0%nat else 1%nat).

Definition depth (q : queue) : nat := length (jobs q).

Definition getJob (id : string) (q : queue) : option JobStatus.t :=
  job ← records q !! id;
  Some (JobStatus.mk (Job.id job) (Job.name job) (Job.state job)
          (if decide (Job.state job = completed) then 100%Z else Job.progress job)
          (Job.payload job) (Job.result job) (Job.error job) (Some (Job.attempts job))).

(** ** Driver selection *)

Inductive QueueKind := memory | bullmq.

Definition is_blank (c : Ascii.ascii) : bool :=
  let n := Ascii.nat_of_ascii c in ((9 <=? n) && (n <=? 13))%nat || (n =? 32)%nat.

(** [s.trim() !== '']. *)
Fixpoint non_blank (s : string) : bool :=
  match s with EmptyString => false | String c s => negb (is_blank c) || non_blank s end.

Definition resolveQueueKind (QUEUE_DRIVER REDIS_URL : option string) : QueueKind :=
  if decide (QUEUE_DRIVER = Some "bullmq") then bullmq
  else if decide (QUEUE_DRIVER = Some "memory") then memory
  else match REDIS_URL with Some url => if non_blank url then bullmq else memory | None => memory end.

Definition createQueue_kind (kind : option QueueKind) (QUEUE_DRIVER REDIS_URL : option string) : QueueKind :=
  default (resolveQueueKind QUEUE_DRIVER REDIS_URL) kind.

(** ** The transition system *)

Inductive event :=
| Enqueue (name : string) (payload : json)
| Register (name : string)
| Settle (outcome : string + json)
| Close (k : nat)
| Wake.

Definition step (q : queue) (e : event) : option (queue * list JobDelivery.t) :=
  match e with
  | Enqueue name payload => match enqueue name payload q with inl _ => None | inr r => Some r end
  | Register name => Some (registerHandler name q)
  | Settle o => settle o q
  | Close k => Some (close k q, [])
  | Wake => q' ← wake q; Some (q', [])
  end.

Fixpoint run (q : queue) (es : list event) : option (queue * list JobDelivery.t) :=
  match es with
  | [] => Some (q, [])
  | e :: es =>
      '(q1, d1) ← step q e;
      '(q2, d2) ← run q1 es;
      Some (q2, d1 ++ d2)
  end.

Inductive reachable (attempts : option nat) : queue -> Prop :=
| reach_init : reachable attempts (new_queue attempts)
| reach_step q e q' ds : reachable attempts q -> step q e = Some (q', ds) -> reachable attempts q'.

(** Read the resulting state off [Some r = Some (q', ds)]. *)
Ltac result_state H :=
  injection H as H; apply (f_equal fst) in H; cbn [fst] in H; rewrite <- H.

(** ** Invariant *)

(** The number of executions a job may have: [maxAttempts], but the first run
    always happens. *)
Definition budget (q : queue) : nat := Nat.max 1 (maxAttempts q).

Definition record_ok (q : queue) (fl : option string) (id : string) (j : Job.t) : Prop :=
  Job.id j = id /\ (exists n, 1 <= n <= counter q /\ id = job_id n)%nat /\
  match Job.state j with
  | queued => id ∈ jobs q /\ (Job.attempts j < budget q)%nat
  | active => fl = Some id /\ (1 <= Job.attempts j <= budget q)%nat
  | completed => (1 <= Job.attempts j <= budget q)%nat /\ is_Some (Job.result j)
  | failed => (1 <= Job.attempts j <= budget q)%nat /\ (maxAttempts q <= Job.attempts j)%nat /\ is_Some (Job.error j)
  | delayed | unknown => False
  end.

(** The data invariant, with [fl] the job in flight. *)
Record core (fl : option string) (q : queue) : Prop := {
  core_nodup : NoDup (jobs q);
  core_jobs id : id ∈ jobs q -> exists j, records q !! id = Some j /\ Job.state j = queued;
  core_inflight h : fl = Some h -> exists j, records q !! h = Some j /\ Job.state j = active;
  core_records id j : records q !! id = Some j -> record_ok q fl id j;
}.

Record inv (q : queue) : Prop := {
  inv_core : core (inflight q) q;
  (* an idle pump stands before a job nobody handles *)
  inv_stable h rest : inflight q = None -> jobs q = h :: rest -> has_handler q h = false;
  (* nobody is parked on a drained queue *)
  inv_waiters : drainWaiters q <> [] -> jobs q <> [] \/ inflight q <> None;
}.

Lemma core_ext fl q q' :
  jobs q' = jobs q -> records q' = records q -> counter q' = counter q -> maxAttempts q' = maxAttempts q ->
  core fl q -> core fl q'.
Proof.
  intros Hj Hr Hc Hm [H1 H2 H3 H4]. split; rewrite ?Hj, ?Hr; auto.
  intros id j Hl. specialize (H4 id j Hl). unfold record_ok, budget in *. by rewrite Hj, Hc, Hm.
Qed.

Lemma has_handler_spec q id :
  has_handler q id = true <-> exists j, records q !! id = Some j /\ Job.name j ∈ handlers q.
Proof.
  unfold has_handler. destruct (records q !! id) as [j|]; [rewrite bool_decide_eq_true|]; naive_solver.
Qed.

Lemma stop_pump_fields q :
  jobs (stop_pump q) = jobs q /\ records (stop_pump q) = records q /\ counter (stop_pump q) = counter q /\
  maxAttempts (stop_pump q) = maxAttempts q /\ inflight (stop_pump q) = None /\ handlers (stop_pump q) = handlers q /\
  closed (stop_pump q) = closed q /\ returned (stop_pump q) = returned q.
Proof. unfold stop_pump. by destruct (jobs q) eqn:?. Qed.

Lemma stop_pump_inv q :
  core None q -> (forall h rest, jobs q = h :: rest -> has_handler q h = false) -> inv (stop_pump q).
Proof.
  intros Hc Hh. destruct (stop_pump_fields q) as (Hj & Hr & Hn & Hm & Hi & Ha & _). split.
  - rewrite Hi. by apply (core_ext None q).
  - intros h rest _ Hjs. rewrite Hj in Hjs. specialize (Hh h rest Hjs). unfold has_handler in *. by rewrite Hr, Ha.
  - unfold stop_pump. destruct (jobs q) eqn:E; simpl; [done|]. by left.
Qed.

(** From a consistent idle state the pump ends in an invariant one: either a
    job starts, or the head has no handler. *)
Lemma pump_loop_inv q : core None q -> inv (pump_loop q).1.
Proof.
  intros Hc. unfold pump_loop. destruct (jobs q) as [|h rest] eqn:Hj.
  { apply stop_pump_inv; [done|]. by rewrite Hj. }
  destruct (core_jobs _ _ Hc h) as (job & Hrec & Hst); [rewrite Hj; left|]. rewrite Hrec.
  case_decide as Hn; simpl.
  - pose proof (core_nodup _ _ Hc) as Hd. rewrite Hj in Hd. apply NoDup_cons in Hd as [Hh Hd].
    destruct (core_records _ _ Hc h job Hrec) as (Hid & Hcnt & Hok). rewrite Hst in Hok. destruct Hok as [_ Hat].
    split; [|done|by right].
    split; simpl; [done| | |].
    + intros id Hin. destruct (core_jobs _ _ Hc id) as (j & Hl & ?); [rewrite Hj; by right|].
      exists j. by rewrite lookup_insert_ne by (intros ->; done).
    + intros ? [= <-]. eexists. by rewrite lookup_insert_eq.
    + intros id j. rewrite lookup_insert_Some. intros [[<- <-]|[Hne Hl]].
      * split; [done|]. split; [done|]. simpl. split; [done|]. unfold budget in *. simpl. lia.
      * destruct (core_records _ _ Hc id j Hl) as (? & ? & Hok). split; [done|]. split; [done|].
        unfold budget in *. simpl. destruct (Job.state j); try done; [|by destruct Hok].
        destruct Hok as [Hin ?]. split; [|done]. rewrite Hj in Hin. by apply elem_of_cons in Hin as [->|].
  - apply stop_pump_inv; [done|]. intros h' rest' E. rewrite Hj in E. injection E as <- <-.
    unfold has_handler. rewrite Hrec. by apply bool_decide_eq_false.
Qed.

Lemma pump_inv q :
  (inflight q = None -> core None q) -> (inflight q <> None -> inv q) -> inv (pump q).1.
Proof.
  intros H1 H2. unfold pump, pumping. destruct (inflight q) eqn:E; [by apply H2|]. by apply pump_loop_inv, H1.
Qed.

#[export] Instance job_id_inj : Inj (=) (=) job_id.
Proof. intros n m H. unfold job_id in H. by simplify_eq. Qed.

Lemma core_insert_new fl q name payload :
  core fl q ->
  let id := job_id (S (counter q)) in
  core fl (MkQueue (jobs q ++ [id]) (handlers q) (S (counter q)) (maxAttempts q) (inflight q) (closed q)
             (drainWaiters q) (woken q) (returned q)
             (<[id := Job.mk id name payload queued 0 None None 0]> (records q))).
Proof.
  intros Hc id.
  assert (forall id' j, records q !! id' = Some j -> id' <> id) as Hfresh.
  { intros id' j Hl ->. destruct (core_records _ _ Hc _ _ Hl) as (_ & (n & Hn & E) & _).
    apply (inj job_id) in E. lia. }
  split; simpl.
  - apply NoDup_app. split; [apply Hc|]. split; [|apply NoDup_singleton].
    intros x Hx ->%list_elem_of_singleton. destruct (core_jobs _ _ Hc _ Hx) as (j & Hl & _). by eapply Hfresh.
  - intros id' [Hin| ->%list_elem_of_singleton]%elem_of_app; [|rewrite lookup_insert_eq; eauto].
    destruct (core_jobs _ _ Hc _ Hin) as (j & Hl & ?). exists j. rewrite lookup_insert_ne; [done|]. intros <-. by eapply Hfresh.
  - intros h Hf. destruct (core_inflight _ _ Hc _ Hf) as (j & Hl & ?). exists j. rewrite lookup_insert_ne; [done|]. intros <-. by eapply Hfresh.
  - intros id' j. rewrite lookup_insert_Some. intros [[<- <-]|[Hne Hl]].
    + split; [done|]. split; [exists (S (counter q)); simpl; split; [lia|done]|]. simpl.
      split; [set_solver|unfold budget; simpl; lia].
    + destruct (core_records _ _ Hc _ _ Hl) as (? & (n & Hn & ?) & Hok). split; [done|].
      split; [exists n; simpl; split; [lia|done]|]. unfold budget in *. simpl.
      destruct (Job.state j); try done. destruct Hok. split; [set_solver|done].
Qed.
(** The job in flight settles into state [s]; a retry goes to the tail. *)
Lemma core_settle q h job job' js :
  core (Some h) q -> records q !! h = Some job ->
  js = (if decide (Job.state job' = queued) then jobs q ++ [h] else jobs q) ->
  record_ok (set_jobs js (<[h := job']> (records q)) q) None h job' ->
  core None (set_jobs js (<[h := job']> (records q)) q).
Proof.
  intros Hc Hrec Hjs Hok. destruct (core_inflight _ _ Hc h eq_refl) as (j0 & Hl0 & Hact).
  assert (j0 = job) as -> by congruence.
  assert (h ∉ jobs q) as Hnin.
  { intros Hin. destruct (core_jobs _ _ Hc h Hin) as (j & ? & ?). congruence. }
  split; simpl.
  - subst js. case_decide; [|apply Hc]. apply NoDup_app. split; [apply Hc|]. split; [|apply NoDup_singleton].
    by intros x Hx ->%list_elem_of_singleton.
  - intros id Hin. destruct (decide (id = h)) as [->|Hne].
    + exists job'. rewrite lookup_insert_eq. split; [done|]. subst js. by case_decide.
    + assert (id ∈ jobs q) as Hin' by (subst js; case_decide; set_solver).
      destruct (core_jobs _ _ Hc id Hin') as (j & ? & ?). exists j. by rewrite lookup_insert_ne by done.
  - done.
  - intros id j. rewrite lookup_insert_Some. intros [[<- <-]|[Hne Hl]]; [done|].
    destruct (core_records _ _ Hc id j Hl) as (? & ? & Hst). split; [done|]. split; [done|].
    unfold budget in *. simpl. destruct (Job.state j); try done.
    + destruct Hst as [? ?]. split; [|done]. subst js. case_decide; set_solver.
    + destruct Hst as [[= ->] ?]. done.
Qed.

(** A settlement is: write the settled job back, requeue a retry, pump. *)
Lemma settle_core o q q' ds :
  inv q -> settle o q = Some (q', ds) ->
  exists h job job' js, inflight q = Some h /\ records q !! h = Some job /\ (h ∉ jobs q) /\
    js = (if decide (Job.state job' = queued) then jobs q ++ [h] else jobs q) /\
    Job.attempts job' = Job.attempts job /\ Job.name job' = Job.name job /\
    core None (set_jobs js (<[h := job']> (records q)) q) /\
    (q', ds) = pump_loop (set_jobs js (<[h := job']> (records q)) q).
Proof.
  intros [Hc _ _] Hs. unfold settle in Hs. destruct (inflight q) as [h|] eqn:Hf; [|done]. simpl in Hs.
  destruct (records q !! h) as [job|] eqn:Hrec; [|done]. simpl in Hs.
  destruct (core_inflight _ _ Hc h eq_refl) as (j0 & ? & Hact). assert (j0 = job) as -> by congruence.
  destruct (core_records _ _ Hc h job Hrec) as (Hid & Hn & Hok). rewrite Hact in Hok. destruct Hok as [_ Hat].
  assert (h ∉ jobs q) as Hnin.
  { intros Hin. destruct (core_jobs _ _ Hc h Hin) as (j & ? & ?). congruence. }
  assert (forall job' js, pump_loop (set_jobs js (<[h := job']> (records q)) q) = (q', ds) ->
    js = (if decide (Job.state job' = queued) then jobs q ++ [h] else jobs q) ->
    Job.attempts job' = Job.attempts job -> Job.name job' = Job.name job ->
    record_ok (set_jobs js (<[h := job']> (records q)) q) None h job' ->
    exists h0 job0 job' js, Some h = Some h0 /\ records q !! h0 = Some job0 /\ (h0 ∉ jobs q) /\
      js = (if decide (Job.state job' = queued) then jobs q ++ [h0] else jobs q) /\
      Job.attempts job' = Job.attempts job0 /\ Job.name job' = Job.name job0 /\
      core None (set_jobs js (<[h0 := job']> (records q)) q) /\
      (q', ds) = pump_loop (set_jobs js (<[h0 := job']> (records q)) q)) as Hgoal.
  { intros job' js Hp Hjs Ha Hname Hrok. exists h, job, job', js. repeat (split; [done|]). split; [|done].
    by eapply core_settle. }
  destruct o as [err|res]; injection Hs as Hs.
  - destruct (Nat.ltb_spec (Job.attempts job) (maxAttempts q)) as [Hlt|Hge];
      refine (Hgoal _ _ Hs _ _ _ _); try done; (split; [done|]); (split; [done|]); unfold budget in *; simpl.
    split; [set_solver|lia].
  - refine (Hgoal _ _ Hs _ _ _ _); done.
Qed.

Lemma settle_inv o q q' ds : inv q -> settle o q = Some (q', ds) -> inv q'.
Proof.
  intros Hi (h & job & job' & js & _ & _ & _ & _ & _ & _ & Hc & Hq)%settle_core; [|done].
  apply (f_equal fst) in Hq. simpl in Hq. rewrite Hq. by apply pump_loop_inv.
Qed.

Lemma close_check_inv k q : inv q -> inv (close_check k q).
Proof.
  intros [Hc Hs Hw]. unfold close_check. destruct (_ || _) eqn:E; (split; [by apply (core_ext _ q)|done|]); simpl; [|done].
  intros _. apply orb_prop in E as [E|E].
  - left. intros Hn. apply Nat.ltb_lt in E. unfold drainableJobs in E. rewrite Hn in E. simpl in E. lia.
  - right. unfold pumping in E. by destruct (inflight q).
Qed.

Lemma step_inv q e q' ds : inv q -> step q e = Some (q', ds) -> inv q'.
Proof.
  intros Hi. destruct e as [name payload|name|o|k|]; simpl.
  - unfold enqueue. destruct (closed q); [done|]. intros Hs. result_state Hs.
    pose proof (core_insert_new _ _ name payload (inv_core _ Hi)) as Hc. apply pump_inv; simpl.
    + intros Hn. rewrite Hn in Hc. by eapply core_ext, Hc.
    + intros Hn. split; [by eapply core_ext, Hc|by intros ? ? ?|intros _; by right].
  - intros Hs. result_state Hs.
    apply pump_inv; simpl.
    + intros Hn. apply (core_ext None q); try done. pose proof (inv_core _ Hi) as Hc. by rewrite Hn in Hc.
    + intros Hn. split; [apply (core_ext _ q); try done; apply Hi|by intros ? ? ?|intros _; by right].
  - by apply settle_inv.
  - intros [= <- <-]. by apply close_check_inv.
  - unfold wake. destruct (woken q) as [|k rest]; [done|]. intros [= <- <-]. apply close_check_inv.
    destruct Hi as [Hc Hs Hw]. split; [by apply (core_ext _ q)|done|done].
Qed.

Lemma init_inv attempts : inv (new_queue attempts).
Proof.
  split; [|done|done]. split; simpl; [apply NoDup_nil_2| |done|].
  - intros id []%elem_of_nil.
  - intros id j. by rewrite lookup_empty.
Qed.

Lemma reachable_inv attempts q : reachable attempts q -> inv q.
Proof. induction 1; [apply init_inv|by eapply step_inv]. Qed.

Lemma step_maxAttempts q e q' ds : step q e = Some (q', ds) -> maxAttempts q' = maxAttempts q.
Proof.
  assert (forall q, maxAttempts (stop_pump q) = maxAttempts q) as Hst by (intros x; apply stop_pump_fields).
  assert (forall q, maxAttempts (pump_loop q).1 = maxAttempts q) as Hpl.
  { intros x. unfold pump_loop. repeat case_match; simpl; auto. }
  assert (forall q, maxAttempts (pump q).1 = maxAttempts q) as Hp by (intros x; unfold pump; by case_match).
  destruct e as [name payload|name|o|k|]; simpl.
  - unfold enqueue. destruct (closed q); [done|]. intros Hs. result_state Hs. by rewrite Hp.
  - intros Hs. result_state Hs. unfold registerHandler; by rewrite Hp.
  - unfold settle. destruct (inflight q) as [h|]; [|done]. simpl. destruct (records q !! h); [|done]. simpl.
    intros Hs. result_state Hs. destruct o; by rewrite Hpl.
  - intros [= <- <-]. unfold close, close_check. by case_match.
  - unfold wake. destruct (woken q); [done|]. intros [= <- <-]. unfold close_check. by case_match.
Qed.

(** ** Draining *)

(** Executions still allowed for the queued jobs. *)
Definition remaining (q : queue) (id : string) : nat :=
  match records q !! id with Some j => (budget q - Job.attempts j)%nat | None => 0%nat end.

Definition pending (q : queue) : nat := sum_list_with (remaining q) (jobs q).

(** The work ahead of the pump: queued executions, retries of the one in
    flight included. *)
Definition work (q : queue) : nat :=
  (pending q + match inflight q with Some h => S (remaining q h) | None => 0 end)%nat.

Lemma remaining_insert_ne q q' id h j :
  records q' = <[h := j]> (records q) -> maxAttempts q' = maxAttempts q -> id <> h -> remaining q' id = remaining q id.
Proof. intros Hr Hm Hne. unfold remaining, budget. by rewrite Hr, Hm, lookup_insert_ne by done. Qed.

Lemma pending_insert_ne q q' h j l :
  records q' = <[h := j]> (records q) -> maxAttempts q' = maxAttempts q -> h ∉ l ->
  sum_list_with (remaining q') l = sum_list_with (remaining q) l.
Proof.
  intros Hr Hm. induction l as [|id l IH]; intros Hn; simpl; [done|]. apply not_elem_of_cons in Hn as [Hne Hn].
  rewrite IH by done. by rewrite (remaining_insert_ne q q' id h j).
Qed.

Lemma pump_loop_work q : core None q -> (work (pump_loop q).1 <= pending q)%nat.
Proof.
  intros Hc. unfold pump_loop. destruct (stop_pump_fields q) as (Hj & Hr & Hn & Hm & Hi & _).
  assert (work (stop_pump q) = pending q) as Hstop.
  { unfold work. rewrite Hi, Nat.add_0_r. unfold pending. rewrite Hj. clear Hj. induction (jobs q) as [|id l IH]; simpl; [done|].
    rewrite IH. unfold remaining, budget. by rewrite Hr, Hm. }
  destruct (jobs q) as [|h rest] eqn:Ej; [simpl; lia|].
  destruct (core_jobs _ _ Hc h) as (job & Hrec & Hst); [rewrite Ej; left|]. rewrite Hrec.
  case_decide; simpl; [|lia].
  pose proof (core_nodup _ _ Hc) as Hd. rewrite Ej in Hd. apply NoDup_cons in Hd as [Hh _].
  destruct (core_records _ _ Hc h job Hrec) as (_ & _ & Hok). rewrite Hst in Hok. destruct Hok as [_ Hat].
  unfold work. simpl. unfold pending. simpl. rewrite Ej. simpl.
  rewrite (pending_insert_ne q _ h (Job.mk (Job.id job) (Job.name job) (Job.payload job) active (Job.progress job)
    (Job.result job) (Job.error job) (S (Job.attempts job))) rest) by done.
  unfold remaining at 2. simpl. rewrite lookup_insert_eq. simpl.
  unfold remaining at 2. rewrite Hrec. unfold budget in *. simpl. lia.
Qed.

(** Every settlement leaves strictly less work. *)
Lemma settle_work o q q' ds : inv q -> settle o q = Some (q', ds) -> (work q' < work q)%nat.
Proof.
  intros Hi (h & job & job' & js & Hf & Hrec & Hnin & Hjs & Ha & _ & Hc & Hq)%settle_core; [|done].
  apply (f_equal fst) in Hq. simpl in Hq. rewrite Hq. pose proof (pump_loop_work _ Hc) as Hle.
  unfold work at 2. rewrite Hf. unfold remaining at 1. rewrite Hrec.
  assert (pending (set_jobs js (<[h := job']> (records q)) q) <= pending q + (budget q - Job.attempts job))%nat; [|lia].
  unfold pending. cbn [jobs set_jobs]. subst js. case_decide.
  - rewrite sum_list_with_app, (pending_insert_ne q _ h job' (jobs q)) by done. simpl. unfold remaining at 2. simpl. rewrite lookup_insert_eq.
    unfold budget. simpl. rewrite Ha. lia.
  - rewrite (pending_insert_ne q _ h job' (jobs q)) by done. lia.
Qed.
Lemma pump_loop_fields q :
  handlers (pump_loop q).1 = handlers q /\ closed (pump_loop q).1 = closed q /\ returned (pump_loop q).1 = returned q /\
  (forall k, k ∈ woken q -> k ∈ woken (pump_loop q).1) /\
  (forall k, k ∈ drainWaiters q -> k ∈ drainWaiters (pump_loop q).1 \/ k ∈ woken (pump_loop q).1) /\
  (forall id j, records (pump_loop q).1 !! id = Some j -> exists j0, records q !! id = Some j0 /\ Job.name j = Job.name j0).
Proof.
  unfold pump_loop, stop_pump.
  destruct (jobs q) as [|h rest] eqn:Ej; [simpl; split_and!; eauto; set_solver|].
  destruct (records q !! h) as [job|] eqn:Er; [|simpl; split_and!; eauto].
  case_decide; simpl; [|split_and!; eauto]. split_and!; eauto.
  intros id j. rewrite lookup_insert_Some. intros [[<- <-]|[_ ?]]; eauto.
Qed.

Definition all_handled (q : queue) : Prop :=
  forall id j, records q !! id = Some j -> Job.name j ∈ handlers q.

Lemma settle_keeps o q q' ds :
  inv q -> settle o q = Some (q', ds) ->
  (all_handled q -> all_handled q') /\ closed q' = closed q /\
  (forall k, k ∈ woken q -> k ∈ woken q') /\
  (forall k, k ∈ drainWaiters q -> k ∈ drainWaiters q' \/ k ∈ woken q').
Proof.
  intros Hi (h & job & job' & js & Hf & Hrec & Hnin & Hjs & Ha & Hname & Hc & Hq)%settle_core; [|done].
  apply (f_equal fst) in Hq. cbn [fst] in Hq. rewrite Hq.
  destruct (pump_loop_fields (set_jobs js (<[h := job']> (records q)) q)) as (Hh & Hcl & _ & Hw & Hd & Hr).
  split_and!; try done. intros Hall id j Hl. destruct (Hr id j Hl) as (j0 & Hl0 & ->). rewrite Hh. simpl in *.
  apply lookup_insert_Some in Hl0 as [[<- <-]|[_ Hl0]]; [rewrite Hname|]; eauto.
Qed.

Lemma settle_defined o q : inv q -> inflight q <> None -> is_Some (settle o q).
Proof.
  intros [Hc _ _] Hf. unfold settle. destruct (inflight q) as [h|] eqn:E; [|done].
  destruct (core_inflight _ _ Hc h eq_refl) as (j & Hl & _). simpl. rewrite Hl. simpl. eauto.
Qed.

Lemma idle_drained q : inv q -> all_handled q -> inflight q = None -> jobs q = [] /\ drainWaiters q = [].
Proof.
  intros [Hc Hs Hw] Hall Hf. assert (jobs q = []) as Hj.
  { destruct (jobs q) as [|h rest] eqn:E; [done|]. specialize (Hs h rest Hf eq_refl).
    destruct (core_jobs _ _ Hc h) as (j & Hl & _); [rewrite E; left|].
    assert (has_handler q h = true) by (apply has_handler_spec; eauto). congruence. }
  split; [done|]. destruct (drainWaiters q); [done|]. destruct Hw; [done..|congruence].
Qed.

(** ** First-in first-out *)

(** Without retries the queue holds increasing ids, all above [b] (the last one
    delivered). *)
Record fifo (b : nat) (q : queue) : Prop := {
  fifo_inv : inv q;
  fifo_single : (maxAttempts q <= 1)%nat;
  fifo_bound : (b <= counter q)%nat;
  fifo_jobs : exists ns, jobs q = map job_id ns /\ StronglySorted lt ns /\ Forall (fun n => b < n <= counter q)%nat ns;
}.

Lemma pump_loop_fifo b q q' ds ns :
  pump_loop q = (q', ds) -> jobs q = map job_id ns -> StronglySorted lt ns ->
  Forall (fun n => b < n <= counter q)%nat ns -> (b <= counter q)%nat -> (maxAttempts q <= 1)%nat -> inv q' ->
  exists b' new, fifo b' q' /\ (b <= b')%nat /\ map JobDelivery.jobId ds = map job_id new /\
    StronglySorted lt new /\ Forall (fun n => b < n <= b')%nat new.
Proof.
  intros Hp Hj Hs Hf Hb Hm Hi.
  assert (q' = stop_pump q /\ ds = [] -> exists b' new, fifo b' q' /\ (b <= b')%nat /\
    map JobDelivery.jobId ds = map job_id new /\ StronglySorted lt new /\ Forall (fun n => b < n <= b')%nat new) as Hstop.
  { intros [-> ->]. exists b, []. destruct (stop_pump_fields q) as (H1 & H2 & H3 & H4 & _).
    split_and!; try done; [|constructor]. split; rewrite ?H1, ?H3, ?H4; eauto. }
  unfold pump_loop in Hp. destruct ns as [|n ns]; simpl in Hj; rewrite Hj in Hp; [apply Hstop; by simplify_eq|].
  destruct (records q !! job_id n) as [job|]; [|apply Hstop; by simplify_eq].
  case_decide; [|apply Hstop; by simplify_eq].
  injection Hp as <- <-. inversion Hs as [|? ? Hs' Hlt]; inversion Hf as [|? ? Hn Hf']; subst.
  exists n, [n]. split_and!; try done; [|lia|repeat constructor|repeat constructor; lia].
  split; simpl; [done|done|lia|]. exists ns. split_and!; try done. forall_elim. specialize (Hf' _ ltac:(eassumption)).
  specialize (Hlt _ ltac:(eassumption)). lia.
Qed.

Lemma pump_fifo b q ns :
  jobs q = map job_id ns -> StronglySorted lt ns ->
  Forall (fun n => b < n <= counter q)%nat ns -> (b <= counter q)%nat -> (maxAttempts q <= 1)%nat -> inv (pump q).1 ->
  exists b' new, fifo b' (pump q).1 /\ (b <= b')%nat /\ map JobDelivery.jobId (pump q).2 = map job_id new /\
    StronglySorted lt new /\ Forall (fun n => b < n <= b')%nat new.
Proof.
  intros Hj Hs Hf Hb Hm Hi. unfold pump in *. destruct (pumping q).
  - exists b, []. split_and!; try done; [|constructor]. split; eauto.
  - destruct (pump_loop q) as [q' ds] eqn:E. by eapply pump_loop_fifo.
Qed.

Lemma close_check_fifo b k q : fifo b q -> fifo b (close_check k q).
Proof.
  intros [H1 H2 H3 H4]. pose proof (close_check_inv k q H1). split; [done|..]; unfold close_check; by case_match.
Qed.

Lemma step_fifo b q e q' ds :
  fifo b q -> step q e = Some (q', ds) ->
  exists b' new, fifo b' q' /\ (b <= b')%nat /\ map JobDelivery.jobId ds = map job_id new /\
    StronglySorted lt new /\ Forall (fun n => b < n <= b')%nat new.
Proof.
  intros Hfi Hstep. pose proof Hfi as [Hi Hm Hb (ns & Hj & Hs & Hf)].
  pose proof (step_inv _ _ _ _ Hi Hstep) as Hi'.
  assert (forall q' ds, fifo b q' -> ds = [] -> exists b' new, fifo b' q' /\ (b <= b')%nat /\
    map JobDelivery.jobId ds = map job_id new /\ StronglySorted lt new /\ Forall (fun n => b < n <= b')%nat new) as Hnone.
  { intros ? ? Hq ->. exists b, []. split_and!; try done; constructor. }
  destruct e as [name payload|name|o|k|]; simpl in Hstep.
  - unfold enqueue in Hstep. destruct (closed q) eqn:Ec; [done|]. injection Hstep as Hstep.
    match type of Hstep with pump ?x = _ => pose proof (pump_fifo b x (ns ++ [S (counter q)])) as Hp end.
    rewrite Hstep in Hp. simpl in Hp. apply Hp; try done; [|..|lia].
    + by rewrite map_app, Hj.
    + apply sorted_app; [done|repeat constructor|]. intros x y Hx ->%list_elem_of_singleton.
      forall_elim. specialize (Hf x Hx). simpl in Hf. lia.
    + apply Forall_app. split; [eapply Forall_impl; [exact Hf|]; simpl; lia|]. apply Forall_singleton. lia.
  - injection Hstep as Hstep. unfold registerHandler in Hstep.
    match type of Hstep with pump ?x = _ => pose proof (pump_fifo b x ns) as Hp end.
    rewrite Hstep in Hp. by apply Hp.
  - apply settle_core in Hstep as (h & job & job' & js & Hfl & Hrec & _ & Hjs & Ha & _ & Hc & Hq); [|done].
    assert (Job.state job' <> queued) as Hnq.
    { intros E. destruct (core_records _ _ Hc h job') as (_ & _ & Hok); [apply lookup_insert_eq|].
      rewrite E in Hok. destruct Hok as [_ Hlt]. unfold budget in Hlt. simpl in Hlt. rewrite Ha in Hlt.
      pose proof (inv_core _ Hi) as Hc0. rewrite Hfl in Hc0.
      destruct (core_inflight _ _ Hc0 h eq_refl) as (j0 & Hl0 & Hact).
      destruct (core_records _ _ Hc0 h j0 Hl0) as (_ & _ & Hok0). rewrite Hact in Hok0.
      assert (j0 = job) as -> by congruence. lia. }
    rewrite decide_False in Hjs by done. subst js. symmetry in Hq.
    by apply (pump_loop_fifo b _ q' ds ns Hq).
  - injection Hstep as <- <-. apply Hnone; [|done]. by apply close_check_fifo.
  - unfold wake in Hstep. destruct (woken q) as [|k rest]; [done|]. injection Hstep as <- <-.
    apply Hnone; [|done]. apply close_check_fifo. split; simpl; eauto.
    destruct Hi as [Hc0 Hst Hw]. split; [by apply (core_ext _ q)|done|done].
Qed.

Lemma run_fifo es : forall b q q' ds,
  fifo b q -> run q es = Some (q', ds) ->
  exists new, map JobDelivery.jobId ds = map job_id new /\ StronglySorted lt new /\ Forall (fun n => b < n)%nat new.
Proof.
  induction es as [|e es IH]; intros b q q' ds Hfi; simpl.
  - intros [= <- <-]. exists []. split_and!; constructor.
  - destruct (step q e) as [[q1 d1]|] eqn:E; [|done]. simpl.
    destruct (run q1 es) as [[q2 d2]|] eqn:E2; [|done]. intros [= <- <-].
    destruct (step_fifo _ _ _ _ _ Hfi E) as (b' & new & Hfi' & Hb & Hd & Hs & Hf).
    destruct (IH _ _ _ _ Hfi' E2) as (new2 & Hd2 & Hs2 & Hf2).
    exists (new ++ new2). rewrite !map_app, Hd, Hd2. split; [done|]. split.
    + apply sorted_app; [done..|]. intros x y Hx Hy. forall_elim.
      specialize (Hf x Hx). specialize (Hf2 y Hy). simpl in *. lia.
    + apply Forall_app. split; [eapply Forall_impl; [exact Hf|]|eapply Forall_impl; [exact Hf2|]]; simpl; lia.
Qed.

(** ** A parked close that nothing wakes *)

(** Idle pump, head without a handler, a deliverable job behind it, [k]
    parked. *)
Definition stuck (k : nat) (q : queue) : Prop :=
  inflight q = None /\ woken q = [] /\ closed q = false /\ k ∈ drainWaiters q /\ (k ∉ returned q) /\
  (exists h rest, jobs q = h :: rest /\ has_handler q h = false) /\ (0 < drainableJobs q)%nat.

Lemma stuck_step k q e q' ds :
  inv q -> (forall name, e <> Register name) -> stuck k q -> step q e = Some (q', ds) -> stuck k q'.
Proof.
  intros Hi He (Hf & Hw & Hcl & Hk & Hr & (h & rest & Hj & Hh) & Hd) Hstep.
  destruct e as [name payload|name|o|k'|]; simpl in Hstep.
  - unfold enqueue in Hstep. rewrite Hcl in Hstep. injection Hstep as Hstep. apply (f_equal fst) in Hstep.
    cbn [fst] in Hstep. set (id := job_id (S (counter q))) in *.
    set (job := Job.mk id name payload queued 0 None None 0) in *.
    assert (records q !! id = None) as Hfresh.
    { destruct (records q !! id) as [j|] eqn:E; [|done].
      destruct (core_records _ _ (inv_core _ Hi) _ _ E) as (_ & (n & Hn & Hid) & _). apply (inj job_id) in Hid. lia. }
    assert (forall x j, records q !! x = Some j -> <[id:=job]> (records q) !! x = Some j) as Hkeep.
    { intros x j Hx. rewrite lookup_insert_ne; [done|]. congruence. }
    destruct (core_jobs _ _ (inv_core _ Hi) h) as (jh & Hjh & _); [rewrite Hj; left|].
    unfold pump, pumping in Hstep. simpl in Hstep. rewrite Hf in Hstep. unfold pump_loop in Hstep. simpl in Hstep.
    rewrite Hj in Hstep. simpl in Hstep. rewrite (Hkeep h jh Hjh) in Hstep.
    unfold has_handler in Hh. rewrite Hjh in Hh. apply bool_decide_eq_false in Hh.
    rewrite decide_False in Hstep by done. cbn [fst] in Hstep. unfold stop_pump in Hstep. simpl in Hstep. subst q'.
    split_and!; simpl; try done.
    + exists h, (rest ++ [id]). split; [done|]. unfold has_handler. simpl. rewrite (Hkeep h jh Hjh). by apply bool_decide_eq_false.
    + eapply Nat.lt_le_trans; [exact Hd|]. unfold drainableJobs. cbn [jobs]. rewrite Hj, app_comm_cons.
      apply filter_length_app. intros x Hx. rewrite <- Hj in Hx.
      destruct (core_jobs _ _ (inv_core _ Hi) x Hx) as (jx & Hjx & _). unfold has_handler. simpl. by rewrite (Hkeep x jx Hjx), Hjx.
  - by destruct (He name).
  - unfold settle in Hstep. by rewrite Hf in Hstep.
  - injection Hstep as <- <-. unfold close, close_check. rewrite (proj2 (Nat.ltb_lt _ _) Hd). simpl.
    split_and!; simpl; try done; [set_solver|eauto].
  - unfold wake in Hstep. by rewrite Hw in Hstep.
Qed.

Lemma stuck_run k es : forall q q' ds,
  inv q -> Forall (fun e => forall name, e <> Register name) es -> stuck k q -> run q es = Some (q', ds) -> stuck k q'.
Proof.
  induction es as [|e es IH]; intros q q' ds Hi Hes Hs; simpl; [by intros [= <- <-]|].
  inversion Hes as [|? ? He Hes']; subst. destruct (step q e) as [[q1 d1]|] eqn:E; [|done]. simpl.
  destruct (run q1 es) as [[q2 d2]|] eqn:E2; [|done]. intros [= <- <-].
  eapply (IH q1); [by eapply step_inv|exact Hes'|by eapply stuck_step|exact E2].
Qed.

Lemma settles_woken os k l : forall q q' ds,
  inv q -> run q (map (fun i : nat => Settle (os i)) l) = Some (q', ds) -> k ∈ woken q -> k ∈ woken q'.
Proof.
  induction l as [|i l IH]; intros q q' ds Hi; [by intros [= <- <-]|].
  cbn [map run step]. destruct (settle _ q) as [[q2 d2]|] eqn:E; [|done]. simpl.
  destruct (run q2 _) as [[q3 d3]|] eqn:E2; [|done]. intros [= <- <-] Hk.
  destruct (settle_keeps _ _ _ _ Hi E) as (_ & _ & Hk2 & _).
  apply (IH q2 q3 d3); [by eapply settle_inv|exact E2|auto].
Qed.

Lemma run_reachable attempts es : forall q q' ds,
  reachable attempts q -> run q es = Some (q', ds) -> reachable attempts q'.
Proof.
  induction es as [|e es IH]; intros q q' ds Hr; simpl; [by intros [= <- <-]|].
  destruct (step q e) as [[q1 d1]|] eqn:E; [|done]. simpl.
  destruct (run q1 es) as [[q2 d2]|] eqn:E2; [|done]. intros [= <- <-].
  eapply (IH q1); [by eapply reach_step|exact E2].
Qed.

(** ** Properties *)


Definition sample_run : list event :=
  [Enqueue "eval" (JStr "a"); Register "eval"; Enqueue "eval" (JStr "b"); Settle (inl "boom"); Settle (inr JNull); Settle (inr JNull)].


(** The pump is work-conserving: when it is idle, either the queue is empty or
    its head has no handler. *)
Theorem idle_head_undeliverable attempts q h rest :
  reachable attempts q -> pumping q = false -> jobs q = h :: rest -> has_handler q h = false.
Proof.
  intros Hi%reachable_inv Hp. apply (inv_stable _ Hi). unfold pumping in Hp. by destruct (inflight q).
Qed.

Lemma idle_head_undeliverable_witness :
  match run createMemoryQueue [Enqueue "eval" JNull] with
  | Some (q, _) => jobs q = [job_id 1] /\ has_handler q (job_id 1) = false
  | None => False
  end.
Proof.
  destruct (run createMemoryQueue [Enqueue "eval" JNull]) as [[q ds]|] eqn:E; [|vm_compute in E; discriminate E].
  split; [vm_compute in E; injection E as <- <-; reflexivity|].
  apply (idle_head_undeliverable None q (job_id 1) []).
  - exact (run_reachable _ _ _ _ _ (reach_init _) E).
  - vm_compute in E. injection E as <- <-. reflexivity.
  - vm_compute in E. injection E as <- <-. reflexivity.
Defined.

(** Draining terminates: with a handler for every job, whatever each handler
    does (return or throw), the pump is idle on an empty queue after at most
    [work q] settlements; a [close] parked before is woken, and then closes. *)
Theorem drain_terminates attempts q (outcomes : nat -> string + json) :
  reachable attempts q -> all_handled q ->
  exists n q' ds, (n <= work q)%nat /\
    run q (map (fun i => Settle (outcomes i)) (seq 0 n)) = Some (q', ds) /\
    jobs q' = [] /\ inflight q' = None /\
    (forall k, k ∈ drainWaiters q -> k ∈ woken q') /\
    (forall q'', wake q' = Some q'' -> closed q'' = true).
Proof.
  intros Hi%reachable_inv. remember (work q) as w eqn:Hw. revert q outcomes Hi Hw.
  induction w as [w IH] using lt_wf_ind. intros q outcomes Hi -> Hall.
  destruct (inflight q) as [h|] eqn:Hf.
  - destruct (settle_defined (outcomes 0%nat) q Hi) as ((q1 & d1) & Hs); [by rewrite Hf|].
    pose proof (settle_work _ _ _ _ Hi Hs) as Hlt. destruct (settle_keeps _ _ _ _ Hi Hs) as (Hk1 & _ & Hk2 & Hk3).
    destruct (IH (work q1) Hlt q1 (fun i => outcomes (S i)) (settle_inv _ _ _ _ Hi Hs) eq_refl (Hk1 Hall))
      as (n & q' & ds & Hn & Hrun & Hj & Hf' & Hwk & Hcl).
    exists (S n), q', (d1 ++ ds). split; [lia|].
    split; [cbn [seq map run step]; rewrite Hs; simpl; rewrite <- seq_shift, map_map, Hrun; done|].
    split; [done|]. split; [done|]. split; [|done]. intros k Hk.
    destruct (Hk3 k Hk) as [|Hwo]; [by apply Hwk|].
    eapply settles_woken; [by eapply settle_inv|exact Hrun|exact Hwo].
  - destruct (idle_drained q Hi Hall Hf) as [Hj Hd]. exists 0%nat, q, []. split; [lia|]. split_and!; try done.
    + intros k. rewrite Hd. by intros ?%elem_of_nil.
    + unfold wake. destruct (woken q) as [|k rest]; [done|]. intros q'' [= <-].
      unfold close_check, drainableJobs, pumping. simpl. by rewrite Hj, Hf.
Qed.

Lemma drain_terminates_witness :
  match run createMemoryQueue [Register "eval"; Enqueue "eval" JNull; Close 7] with
  | Some (q, _) => 7%nat ∈ drainWaiters q /\
      exists n q' ds, (n <= work q)%nat /\
        run q (map (fun i => Settle (inl "boom")) (seq 0 n)) = Some (q', ds) /\ jobs q' = []
  | None => False
  end.
Proof.
  destruct (run createMemoryQueue [Register "eval"; Enqueue "eval" JNull; Close 7]) as [[q ds]|] eqn:E;
    [|vm_compute in E; discriminate E].
  split; [vm_compute in E; injection E as <- <-; left|].
  destruct (drain_terminates None q (fun _ => inl "boom")) as (n & q' & ds' & H1 & H2 & H3 & _).
  - exact (run_reachable _ _ _ _ _ (reach_init _) E).
  - vm_compute in E. injection E as <- <-. intros id j Hl.
    change (records _) with ({[job_id 1 := Job.mk (job_id 1) "eval" JNull active 0 None None 1]} : gmap string Job.t) in Hl.
    apply lookup_singleton_Some in Hl as [_ <-]. vm_compute. reflexivity.
  - exists n, q', ds'. split; [exact H1|]. split; [exact H2|exact H3].
Defined.

(** First in, first out: with the default single attempt, handlers are started
    in enqueue order and each job once, across every interleaving of calls and
    settlements. *)
Theorem deliveries_fifo es q ds :
  run createMemoryQueue es = Some (q, ds) ->
  exists ns, map JobDelivery.jobId ds = map job_id ns /\ StronglySorted lt ns.
Proof.
  intros Hr. destruct (run_fifo es 0 createMemoryQueue q ds) as (ns & Hd & Hs & _); [|done|by exists ns].
  split; [apply init_inv|simpl; lia|simpl; lia|]. exists []. split_and!; constructor.
Qed.

Lemma deliveries_fifo_witness :
  exists ns, [job_id 1; job_id 2] = map job_id ns /\ StronglySorted lt ns.
Proof.
  destruct (run createMemoryQueue (take 5 sample_run)) as [[q ds]|] eqn:E; [|vm_compute in E; discriminate E].
  replace [job_id 1; job_id 2] with (map JobDelivery.jobId ds)
    by (vm_compute in E; injection E as <- <-; reflexivity).
  exact (deliveries_fifo _ q ds E).
Defined.

(** [close] does not only wait for what can drain: with an undeliverable head
    and a deliverable job behind it the call parks on an idle pump, and as long
    as no handler is registered nothing ever resumes it: no later enqueue,
    close or settlement wakes it, and the queue never closes. *)
Theorem close_hangs :
  exists es q ds, run createMemoryQueue es = Some (q, ds) /\ pumping q = false /\ 7%nat ∈ drainWaiters q /\
    forall es' q' ds', Forall (fun e => forall name, e <> Register name) es' -> run q es' = Some (q', ds') ->
      7%nat ∈ drainWaiters q' /\ closed q' = false /\ (7%nat ∉ returned q').
Proof.
  exists [Enqueue "orphan" JNull; Register "eval"; Enqueue "eval" JNull; Close 7].
  destruct (run createMemoryQueue _) as [[q ds]|] eqn:E; [|vm_compute in E; discriminate E].
  exists q, ds. split; [done|]. pose proof (reachable_inv _ _ (run_reachable _ _ _ _ _ (reach_init _) E)) as Hi.
  assert (stuck 7 q) as Hs.
  { vm_compute in E. injection E as <- <-. split; [done|]. split; [done|]. split; [done|]. split; [left|].
    split; [by intros ?%elem_of_nil|]. split; [|vm_compute; lia]. eexists _, _. split; [reflexivity|]. vm_compute. done. }
  split; [unfold pumping; by rewrite (proj1 Hs)|]. split; [apply Hs|].
  intros es' q' ds' Hes Hr. destruct (stuck_run 7 es' q q' ds' Hi Hes Hs Hr) as (_ & _ & ? & ? & ? & _). done.
Qed.

(** Driver precedence: an explicit kind, then a recognised [QUEUE_DRIVER], then
    a non-blank [REDIS_URL], then memory. *)
Theorem resolveQueueKind_precedence QUEUE_DRIVER REDIS_URL kind :
  createQueue_kind (Some kind) QUEUE_DRIVER REDIS_URL = kind /\
  (resolveQueueKind QUEUE_DRIVER REDIS_URL = bullmq <->
   QUEUE_DRIVER = Some "bullmq" \/
   (QUEUE_DRIVER <> Some "memory" /\ exists url, REDIS_URL = Some url /\ non_blank url = true)).
Proof.
  split; [done|]. unfold resolveQueueKind. case_decide as E1; [split; [by left|done]|].
  case_decide as E2; [split; [done|]; intros [?|[? _]]; congruence|].
  destruct REDIS_URL as [url|]; [destruct (non_blank url) eqn:Hu|].
  - split; [|done]. intros _. right. eauto.
  - split; [done|]. intros [?|(_ & u & [= ->] & ?)]; congruence.
  - split; [done|]. intros [?|(_ & u & ? & ?)]; congruence.
Qed.
End Queue.
