(* ===== verification/Resilience.v ===== *)
(** * Provider resilience: providers/src/errors.ts, providers/src/resilience.ts

    The error taxonomy, the circuit breaker, the retry ladder of [resilient],
    the hedged attempt and the failover chain.

    The breaker registry is a module-level [Map] that every request of the
    process shares, and a request holds its turn only between two [await]s, so
    [step] is the program: one event is one block that runs to the next
    [await] (the start of a request up to its first provider call, or the
    settlement of the attempt it is waiting for), and requests interleave
    freely.  [complete] is the run of one request on its own; [ladder_run]
    shows that it is the same code.

    Clock readings, timers and provider outcomes are inputs of the events.
    Counts and times are whole numbers; the backoff delay keeps its doubles. *)

From S2P Require Import Prelude Number Types Print.

Module Resilience.
Import Num.

(** ** errors.ts *)

Inductive ProviderErrorKind := rate_limit | timeout | server_5xx | client_4xx | network | unknown.

#[export] Instance ProviderErrorKind_eq_dec : EqDecision ProviderErrorKind.
Proof. solve_decision. Defined.

Definition RETRYABLE_KINDS : list ProviderErrorKind := [rate_limit; timeout; server_5xx; network].

Definition isRetryableKind (kind : ProviderErrorKind) : bool := bool_decide (kind ∈ RETRYABLE_KINDS).

Definition kindFromHttpStatus (status : Z) : ProviderErrorKind :=
  if (status =? 429)%Z then rate_limit
  else if (500 <=? status)%Z && (status <=? 599)%Z then server_5xx
  else if (400 <=? status)%Z && (status <=? 499)%Z then client_4xx
  else unknown.

Definition NETWORK_ERROR_CODES : list string :=
  ["ENOTFOUND"; "EAI_AGAIN"; "ECONNRESET"; "ECONNREFUSED"; "ECONNABORTED"; "ETIMEDOUT"; "EPIPE";
   "EHOSTUNREACH"; "ENETUNREACH"; "EPROTO"; "ERR_TLS_CERT_ALTNAME_INVALID"; "UND_ERR_CONNECT_TIMEOUT";
   "UND_ERR_HEADERS_TIMEOUT"; "UND_ERR_BODY_TIMEOUT"; "UND_ERR_SOCKET"].

(** [C] is the type of the [cause]: any thrown value. *)
Module ProviderError.
Record t {C : Type} := mk {
  name : string;
  provider : ProviderId;
  message : string;
  status : option Z;
  kind : ProviderErrorKind;
  retryable : bool;
  model : option string;
  breakerOpen : option bool;
  cause : option C;
}.
Arguments t : clear implicits.
End ProviderError.

(** What JavaScript code can throw, as far as the source looks at it: an
    instance of [ProviderError], another object (its [name] and [code] when
    they are strings, its message, whether it is a [TypeError]), or a
    primitive. *)
Inductive thrown :=
| PError (e : ProviderError.t thrown)
| Other (name code : option string) (message : string) (typeError : bool)
| Primitive (nullish : bool).

Definition classifyError (err : thrown) : ProviderErrorKind :=
  match err with
  | PError e => ProviderError.kind e
  | Other name code _ typeError =>
      if bool_decide (name = Some "AbortError") || bool_decide (name = Some "TimeoutError") then timeout
      else if match code with Some c => bool_decide (c ∈ NETWORK_ERROR_CODES) | None => false end then network
      else if typeError then network
      else unknown
  | Primitive _ => unknown
  end.

Module ProviderErrorOptions.
Record t := mk {
  status : option Z;
  cause : option thrown;
  kind : option ProviderErrorKind;
  model : option string;
  breakerOpen : option bool;
}.

Definition with_kind (k : ProviderErrorKind) (o : t) : t :=
  mk (status o) (cause o) (Some k) (model o) (breakerOpen o).
End ProviderErrorOptions.

Definition no_options : ProviderErrorOptions.t := ProviderErrorOptions.mk None None None None None.

(** The constructor, with [new.target.name] as its first argument. *)
Definition new_ProviderError (name : string) (provider : ProviderId) (message : string)
    (opts : ProviderErrorOptions.t) : ProviderError.t thrown :=
  let kind :=
    match ProviderErrorOptions.kind opts with
    | Some k => k
    | None => match ProviderErrorOptions.status opts with Some s => kindFromHttpStatus s | None => unknown end
    end in
  ProviderError.mk thrown name provider message (ProviderErrorOptions.status opts) kind (isRetryableKind kind)
    (ProviderErrorOptions.model opts) (ProviderErrorOptions.breakerOpen opts) (ProviderErrorOptions.cause opts).

Definition default_kind (k : ProviderErrorKind) (opts : ProviderErrorOptions.t) : ProviderErrorOptions.t :=
  ProviderErrorOptions.with_kind (default k (ProviderErrorOptions.kind opts)) opts.

Definition ProviderAuthError provider message opts : thrown :=
  PError (new_ProviderError "ProviderAuthError" provider message (default_kind client_4xx opts)).

Definition ProviderEffortRefusalError provider message opts : thrown :=
  PError (new_ProviderError "ProviderEffortRefusalError" provider message (default_kind client_4xx opts)).

Definition ProviderRateLimitError provider message opts : thrown :=
  PError (new_ProviderError "ProviderRateLimitError" provider message (default_kind rate_limit opts)).

Definition provider_string (p : ProviderId) : string :=
  match p with
  | anthropic => "anthropic" | openai => "openai" | google => "google"
  | openrouter => "openrouter" | mock_provider => "mock"
  end.

Definition kind_string (k : ProviderErrorKind) : string :=
  match k with
  | rate_limit => "rate_limit" | timeout => "timeout" | server_5xx => "server_5xx"
  | client_4xx => "client_4xx" | network => "network" | unknown => "unknown"
  end.

Definition ProviderTimeoutError (provider : ProviderId) (timeoutMs : Z) opts : thrown :=
  PError (new_ProviderError "ProviderTimeoutError" provider
    ("provider '" +:+ provider_string provider +:+ "': request timed out after " +:+ Print.show_Z timeoutMs +:+ "ms")
    (default_kind timeout opts)).

(** ** Policies *)

Module BreakerPolicy.
Record t := mk { failureThreshold : Z; cooldownMs : Z; halfOpenProbes : Z }.
End BreakerPolicy.

Inductive Jitter := full | none.

Module Backoff.
Record t := mk { baseMs : number; maxMs : number; jitter : Jitter }.
End Backoff.

Module PartialBackoff.
Record t := mk { baseMs : option number; maxMs : option number; jitter : option Jitter }.
End PartialBackoff.

(** [Partial<ResiliencePolicy>]. *)
Module ResiliencePolicy.
Record t := mk {
  retries : option Z;
  backoff : option PartialBackoff.t;
  timeoutMs : option Z;
  breaker : option BreakerPolicy.t;
  hedgeAfterMs : option Z;
}.
End ResiliencePolicy.

Module ResolvedPolicy.
Record t := mk {
  retries : Z;
  backoff : Backoff.t;
  timeoutMs : Z;
  breaker : option BreakerPolicy.t;
  hedgeAfterMs : option Z;
}.
End ResolvedPolicy.

Definition DEFAULT_BREAKER : BreakerPolicy.t := BreakerPolicy.mk 5 30000 2.

Definition countsTowardBreaker (kind : ProviderErrorKind) : bool :=
  match kind with rate_limit | timeout | server_5xx | network => true | client_4xx | unknown => false end.

Definition DEFAULT_RETRIES : Z := 3.
Definition DEFAULT_BACKOFF_BASE_MS : number := of_Z 250.
Definition DEFAULT_BACKOFF_MAX_MS : number := of_Z 8000.
Definition DEFAULT_TIMEOUT_MS : Z := 60000.

Definition resolvePolicy (policy : option ResiliencePolicy.t) : ResolvedPolicy.t :=
  let backoff := policy ≫= ResiliencePolicy.backoff in
  ResolvedPolicy.mk
    (default DEFAULT_RETRIES (policy ≫= ResiliencePolicy.retries))
    (Backoff.mk (default DEFAULT_BACKOFF_BASE_MS (backoff ≫= PartialBackoff.baseMs))
                (default DEFAULT_BACKOFF_MAX_MS (backoff ≫= PartialBackoff.maxMs))
                (default full (backoff ≫= PartialBackoff.jitter)))
    (default DEFAULT_TIMEOUT_MS (policy ≫= ResiliencePolicy.timeoutMs))
    (policy ≫= ResiliencePolicy.breaker)
    (policy ≫= ResiliencePolicy.hedgeAfterMs).

(** [2 ** (attempt - 1)] for a whole [attempt >= 1]: exact up to [2^1023]. *)
Definition resilienceBackoffMs (attempt : Z) (backoff : Backoff.t) (rand : number) : number :=
  let cap := min (Backoff.maxMs backoff) (mul (Backoff.baseMs backoff) (of_Z (2 ^ (attempt - 1)))) in
  match Backoff.jitter backoff with
  | none => cap
  | full => floor (mul rand (add cap one))
  end.

(** factory.ts: the breaker policy of a deployment.  [Number(raw)] of each
    variable is the argument; an unset variable gives [NaN]. *)
Definition env_int (n : number) (fallback : Z) : Z :=
  if is_finite n && gtb n zero then (units n / 2 ^ 1074)%Z else fallback.

Definition breakerPolicyFromEnv (breaker : option string) (threshold cooldown probes : number) : option BreakerPolicy.t :=
  if bool_decide (breaker = Some "off") || bool_decide (breaker = Some "0") then None
  else Some (BreakerPolicy.mk (env_int threshold (BreakerPolicy.failureThreshold DEFAULT_BREAKER))
                              (env_int cooldown (BreakerPolicy.cooldownMs DEFAULT_BREAKER))
                              (env_int probes (BreakerPolicy.halfOpenProbes DEFAULT_BREAKER))).

(** ** The circuit breaker *)

Inductive BreakerState := closed | open | half_open.

#[export] Instance BreakerState_eq_dec : EqDecision BreakerState.
Proof. solve_decision. Defined.

Module BreakerRecord.
Record t := mk {
  state : BreakerState;
  consecutiveFailures : Z;
  halfOpenSuccesses : Z;
  probesInFlight : Z;
  openedAt : Z;
  policy : BreakerPolicy.t;
}.
End BreakerRecord.
Import BreakerRecord.

Abbreviation registry := (gmap string BreakerRecord.t).

Definition breakerStates (bs : registry) : gmap string BreakerState := state <$> bs.

Definition resetBreakers (bs : registry) : registry := ∅.

Definition new_record (policy : BreakerPolicy.t) : BreakerRecord.t := mk closed 0 0 0 0 policy.

(** The record, and the registry that now holds it. *)
Definition breakerRecord (bs : registry) (key : string) (policy : BreakerPolicy.t) : BreakerRecord.t * registry :=
  match bs !! key with
  | Some rec => (rec, bs)
  | None => (new_record policy, <[key := new_record policy]> bs)
  end.

Definition breakerOpenError (provider : ProviderId) (model : string) : thrown :=
  PError (new_ProviderError "ProviderError" provider
    ("provider '" +:+ provider_string provider +:+ "': circuit breaker open for '" +:+ provider_string provider +:+
     ":" +:+ model +:+ "' — failing fast")
    (ProviderErrorOptions.mk None None (Some unknown) (Some model) (Some true))).

(** The record after the gate, and whether the call may proceed. *)
Definition breakerBeforeCall (now : Z) (rec : BreakerRecord.t) : BreakerRecord.t * bool :=
  let cooled :=
    match state rec with
    | open =>
        if (BreakerPolicy.cooldownMs (policy rec) <=? now - openedAt rec)%Z
        then Some (mk half_open (consecutiveFailures rec) 0 0 (openedAt rec) (policy rec))
        else None
    | _ => Some rec
    end in
  match cooled with
  | None => (rec, false)
  | Some rec =>
      match state rec with
      | half_open =>
          if (BreakerPolicy.halfOpenProbes (policy rec) <=? probesInFlight rec)%Z then (rec, false)
          else (mk half_open (consecutiveFailures rec) (halfOpenSuccesses rec) (probesInFlight rec + 1)
                   (openedAt rec) (policy rec), true)
      | _ => (rec, true)
      end
  end.

Definition breakerOnSuccess (rec : BreakerRecord.t) : BreakerRecord.t :=
  match state rec with
  | half_open =>
      let probes := Z.max 0 (probesInFlight rec - 1) in
      let successes := (halfOpenSuccesses rec + 1)%Z in
      if (BreakerPolicy.halfOpenProbes (policy rec) <=? successes)%Z
      then mk closed 0 0 probes (openedAt rec) (policy rec)
      else mk half_open (consecutiveFailures rec) successes probes (openedAt rec) (policy rec)
  | s => mk s 0 (halfOpenSuccesses rec) (probesInFlight rec) (openedAt rec) (policy rec)
  end.

Definition breakerOnFailure (now : Z) (rec : BreakerRecord.t) : BreakerRecord.t :=
  match state rec with
  | half_open =>
      mk open (consecutiveFailures rec) 0 (Z.max 0 (probesInFlight rec - 1)) now (policy rec)
  | s =>
      let failures := (consecutiveFailures rec + 1)%Z in
      if (BreakerPolicy.failureThreshold (policy rec) <=? failures)%Z
      then mk open failures (halfOpenSuccesses rec) (probesInFlight rec) now (policy rec)
      else mk s failures (halfOpenSuccesses rec) (probesInFlight rec) (openedAt rec) (policy rec)
  end.

(** [rec], when the policy has a breaker: the gate and the settlements of one
    request on the shared registry. *)
Definition gate (breaker : option BreakerPolicy.t) (key : string) (now : Z) (bs : registry) : registry * bool :=
  match breaker with
  | None => (bs, true)
  | Some policy =>
      let '(rec, bs) := breakerRecord bs key policy in
      let '(rec', ok) := breakerBeforeCall now rec in (<[key := rec']> bs, ok)
  end.

Definition settle (breaker : option BreakerPolicy.t) (f : BreakerRecord.t -> BreakerRecord.t) (key : string)
    (bs : registry) : registry :=
  match breaker with None => bs | Some _ => alter f key bs end.

(** ** [asProviderError] *)

Definition as_error (err : thrown) (provider : ProviderId) (model : string) : ProviderError.t thrown :=
  match err with
  | PError e => e
  | _ =>
      let kind := classifyError err in
      new_ProviderError "ProviderError" provider
        ("provider '" +:+ provider_string provider +:+ "': call failed (" +:+ kind_string kind +:+ ")")
        (ProviderErrorOptions.mk None (Some err) (Some kind) (Some model) None)
  end.

Definition asProviderError (err : thrown) (provider : ProviderId) (model : string) : thrown :=
  PError (as_error err provider model).

(** ** The wrapped provider *)

(** What an attempt of a request leads to: another attempt, or the end. *)
Inductive verdict {R : Type} := Retry | Return (res : R) | Throw (err : thrown).
Arguments verdict : clear implicits.

(** One round of the loop of [complete] and [embed] after the attempt has
    settled. *)
Definition after_attempt {R} (pol : ResolvedPolicy.t) (provider : ProviderId) (model key : string) (now : Z)
    (attempt : Z) (outcome : R + thrown) (bs : registry) : registry * verdict R :=
  let settle f := settle (ResolvedPolicy.breaker pol) f key bs in
  match outcome with
  | inl res => (settle breakerOnSuccess, Return res)
  | inr err =>
      let pErr := as_error err provider model in
      if negb (ProviderError.retryable pErr) || (ResolvedPolicy.retries pol <=? attempt)%Z
      then (if countsTowardBreaker (ProviderError.kind pErr)
            then settle (breakerOnFailure now) else settle breakerOnSuccess, Throw (PError pErr))
      else (bs, Retry)
  end.

(** The statement after the loop: reached only when [retries] is negative, so
    that the loop never ran. *)
Definition exhausted (what : string) (provider : ProviderId) : thrown :=
  PError (new_ProviderError "ProviderError" provider
    ("provider '" +:+ provider_string provider +:+ "': exhausted " +:+ what) no_options).

(** The three entry points of the wrapped provider. *)
Inductive op := complete_op | stream_op | embed_op.

#[export] Instance op_eq_dec : EqDecision op.
Proof. solve_decision. Defined.

Definition key_of (o : op) (provider : ProviderId) (model : string) : string :=
  provider_string provider +:+ ":" +:+ match o with embed_op => "embed" | _ => model end.

Definition model_of (o : op) (model : string) : string := match o with embed_op => "embed" | _ => model end.

Definition after_stream {R} (pol : ResolvedPolicy.t) (key : string) (now : Z) (outcome : R + thrown)
    (bs : registry) : registry * verdict R :=
  match outcome with
  | inl res => (settle (ResolvedPolicy.breaker pol) breakerOnSuccess key bs, Return res)
  | inr err => (settle (ResolvedPolicy.breaker pol) (breakerOnFailure now) key bs, Throw err)
  end.

Module Request.
Record t := mk { kind : op; provider : ProviderId; model : string; attempt : Z }.
End Request.

Definition req_key (r : Request.t) : string := key_of (Request.kind r) (Request.provider r) (Request.model r).

(** The process: the registry and the requests waiting for an attempt. *)
Record host := Host { breakers : registry; inflight : gmap nat Request.t }.

Inductive event {R : Type} :=
| Start (i : nat) (o : op) (provider : ProviderId) (model : string) (now : Z)
| Settled (i : nat) (outcome : R + thrown) (now : Z).
Arguments event : clear implicits.

(** Everything up to the first provider call. *)
Definition start (pol : ResolvedPolicy.t) (i : nat) (o : op) (provider : ProviderId) (model : string) (now : Z)
    (h : host) : host * option thrown :=
  let key := key_of o provider model in
  let '(bs, ok) := gate (ResolvedPolicy.breaker pol) key now (breakers h) in
  if negb ok then (Host bs (inflight h), Some (breakerOpenError provider (model_of o model)))
  else if bool_decide (o <> stream_op) && (ResolvedPolicy.retries pol <? 0)%Z
  then (Host (settle (ResolvedPolicy.breaker pol) (breakerOnFailure now) key bs) (inflight h),
        Some (exhausted (match o with embed_op => "embed retries" | _ => "retries" end) provider))
  else (Host bs (<[i := Request.mk o provider model 0]> (inflight h)), None).

(** Everything from the settlement of the attempt to the next [await]. *)
Definition settled {R} (pol : ResolvedPolicy.t) (i : nat) (r : Request.t) (outcome : R + thrown) (now : Z)
    (h : host) : host * verdict R :=
  let '(bs, v) :=
    match Request.kind r with
    | stream_op => after_stream pol (req_key r) now outcome (breakers h)
    | o => after_attempt pol (Request.provider r) (model_of o (Request.model r)) (req_key r) now (Request.attempt r)
             outcome (breakers h)
    end in
  (Host bs (match v with
            | Retry => <[i := Request.mk (Request.kind r) (Request.provider r) (Request.model r) (Request.attempt r + 1)]>
                         (inflight h)
            | _ => delete i (inflight h)
            end), v).

(** A request number is used once; an event that names no request in flight
    (or a number in use) cannot occur. *)
Definition step {R} (pol : ResolvedPolicy.t) (e : event R) (h : host) : option host :=
  match e with
  | Start i o provider model now =>
      match inflight h !! i with Some _ => None | None => Some (start pol i o provider model now h).1 end
  | Settled i outcome now =>
      match inflight h !! i with Some r => Some (settled pol i r outcome now h).1 | None => None end
  end.

Inductive reachable {R} (pol : ResolvedPolicy.t) : host -> Prop :=
| reach_init : reachable pol (Host ∅ ∅)
| reach_step h (e : event R) h' : reachable pol h -> step pol e h = Some h' -> reachable pol h'.

(** One request on its own: [outcome k] is what attempt [k] settles with and
    [clock k] the time it does.  The result comes with the number of provider
    calls made. *)
Fixpoint ladder {R} (pol : ResolvedPolicy.t) (provider : ProviderId) (model key : string)
    (outcome : nat -> R + thrown) (clock : nat -> Z) (fuel k : nat) (bs : registry) : registry * (R + thrown) * nat :=
  match fuel with
  | O => (settle (ResolvedPolicy.breaker pol) (breakerOnFailure (clock k)) key bs, inr (exhausted "retries" provider), k)
  | S fuel =>
      match after_attempt pol provider model key (clock k) (Z.of_nat k) (outcome k) bs with
      | (bs, Return res) => (bs, inl res, S k)
      | (bs, Throw err) => (bs, inr err, S k)
      | (bs, Retry) => ladder pol provider model key outcome clock fuel (S k) bs
      end
  end.

Definition complete {R} (pol : ResolvedPolicy.t) (provider : ProviderId) (model : string) (now : Z)
    (outcome : nat -> R + thrown) (clock : nat -> Z) (bs : registry) : registry * (R + thrown) * nat :=
  let key := key_of complete_op provider model in
  let '(bs, ok) := gate (ResolvedPolicy.breaker pol) key now bs in
  if ok then ladder pol provider model key outcome clock (Z.to_nat (ResolvedPolicy.retries pol + 1)) 0 bs
  else (bs, inr (breakerOpenError provider model), 0).

(** ** One attempt: the deadline and the hedge *)


Module CompleteUsage.
Record t := mk {
  inputTokens : number;
  outputTokens : number;
  providerCostUsd : option number;
  cachedInputTokens : option number;
  reasoningTokens : option number;
  usageEstimated : option unit;
}.
End CompleteUsage.

Module CompleteResponse.
Record t := mk {
  text : string;
  finishReason : option FinishReason;
  usage : CompleteUsage.t;
  latencyMs : number;
  logprobConfidence : option number;
  modelVersion : string;
  hedged : option bool;
  toolCalls : option (list ToolCall.t);
}.

(** [{ ...res, hedged: true }]. *)
Definition set_hedged (r : t) : t :=
  mk (text r) (finishReason r) (usage r) (latencyMs r) (logprobConfidence r) (modelVersion r) (Some true) (toolCalls r).
End CompleteResponse.

Definition abortError : thrown := Other (Some "AbortError") None "The operation was aborted" false.

(** What can happen to a call under a deadline; the first event settles it. *)
Inductive call_event {R : Type} := Deadline | Aborted | Resolved (res : R) | Rejected (err : thrown).
Arguments call_event : clear implicits.

Definition callWithTimeout (p : ProviderId) (model : string) (timeoutMs : Z)
    (es : list (call_event CompleteResponse.t)) : option (CompleteResponse.t + thrown) :=
  match es with
  | [] => None
  | Deadline :: _ =>
      Some (inr (PError (new_ProviderError "ProviderError" p
        ("provider '" +:+ provider_string p +:+ "': request timed out after " +:+ Print.show_Z timeoutMs +:+ "ms")
        (ProviderErrorOptions.mk None None (Some timeout) (Some model) None))))
  | Aborted :: _ => Some (inr abortError)
  | Resolved res :: _ => Some (inl res)
  | Rejected err :: _ => Some (inr err)
  end.

(** [embed] takes no signal: there is nothing to abort. *)
Definition embedWithTimeout (p : ProviderId) (timeoutMs : Z) (es : list (call_event (list (list number)))) :
    option (list (list number) + thrown) :=
  match es with
  | [] | Aborted :: _ => None
  | Deadline :: _ => Some (inr (ProviderTimeoutError p timeoutMs no_options))
  | Resolved res :: _ => Some (inl res)
  | Rejected err :: _ => Some (inr err)
  end.

(** The variables of the hedged [attemptCall]: [hedgeTimer] says that the
    timer is armed, [outstanding] counts the calls that have not settled, and
    [result] is what the promise settled with. *)
Module Race.
Record t := mk {
  settled : bool;
  started : nat;
  failures : nat;
  firstErr : option thrown;
  hedgeTimer : bool;
  outstanding : nat;
  result : option (CompleteResponse.t + thrown);
}.

Definition init : t := mk false 1 0 None true 1 None.
End Race.

Inductive race_event := CallOk (res : CompleteResponse.t) | CallErr (err : thrown) | HedgeFires.

Definition nullish (e : option thrown) : bool :=
  match e with None | Some (Primitive true) => true | _ => false end.

(** [None]: the event cannot occur (no call outstanding, or no timer). *)
Definition race_step (r : Race.t) (e : race_event) : option Race.t :=
  match e with
  | CallOk res =>
      match Race.outstanding r with
      | O => None
      | S n =>
          if Race.settled r
          then Some (Race.mk true (Race.started r) (Race.failures r) (Race.firstErr r) (Race.hedgeTimer r) n (Race.result r))
          else Some (Race.mk true (Race.started r) (Race.failures r) (Race.firstErr r) false n
                       (Some (inl (if (1 <? Race.started r)%nat then CompleteResponse.set_hedged res else res))))
      end
  | CallErr err =>
      match Race.outstanding r with
      | O => None
      | S n =>
          let firstErr := if nullish (Race.firstErr r) then Some err else Race.firstErr r in
          let failures := S (Race.failures r) in
          if negb (Race.settled r) && negb (Race.hedgeTimer r) && (Race.started r <=? failures)%nat
          then Some (Race.mk true (Race.started r) failures firstErr false n (inr <$> firstErr))
          else Some (Race.mk (Race.settled r) (Race.started r) failures firstErr (Race.hedgeTimer r) n (Race.result r))
      end
  | HedgeFires =>
      if Race.hedgeTimer r
      then if Race.settled r
           then Some (Race.mk true (Race.started r) (Race.failures r) (Race.firstErr r) false (Race.outstanding r) (Race.result r))
           else Some (Race.mk false (S (Race.started r)) (Race.failures r) (Race.firstErr r) false (S (Race.outstanding r))
                        (Race.result r))
      else None
  end.

Definition attemptCall (es : list race_event) : option Race.t :=
  foldl (fun r e => r ≫= fun r => race_step r e) (Some Race.init) es.

(** ** [failoverChain] *)

Module Leg.
Record t {R : Type} := mk { id : ProviderId; now : Z; outcome : nat -> R + thrown; clock : nat -> Z }.
Arguments t : clear implicits.
End Leg.

(** The loop over the wrapped providers; [lastErr] is what the previous one
    threw. *)
Fixpoint chain_loop {R} (pol : ResolvedPolicy.t) (model : string) (legs : list (Leg.t R)) (lastErr : thrown)
    (bs : registry) : registry * (R + thrown) :=
  match legs with
  | [] => (bs, inr lastErr)
  | leg :: rest =>
      match complete pol (Leg.id leg) model (Leg.now leg) (Leg.outcome leg) (Leg.clock leg) bs with
      | (bs, inl res, _) => (bs, inl res)
      | (bs, inr err, _) =>
          let pErr := as_error err (Leg.id leg) model in
          if ProviderError.retryable pErr || bool_decide (ProviderError.breakerOpen pErr = Some true)
          then chain_loop pol model rest err bs
          else (bs, inr (PError pErr))
      end
  end.

(** [None]: the constructor throws on an empty list. *)
Definition failoverChain {R} (pol : ResolvedPolicy.t) (model : string) (legs : list (Leg.t R)) (bs : registry) :
    option (registry * (R + thrown)) :=
  match legs with [] => None | _ => Some (chain_loop pol model legs (Primitive true) bs) end.

(** Requests of one model, one after the other; what each returned and how
    many provider calls it made. *)
Fixpoint requests {R} (pol : ResolvedPolicy.t) (p : ProviderId) (model : string) (legs : list (Leg.t R)) (bs : registry) :
    registry * list ((R + thrown) * nat) :=
  match legs with
  | [] => (bs, [])
  | leg :: rest =>
      let '(bs, res, calls) := complete pol p model (Leg.now leg) (Leg.outcome leg) (Leg.clock leg) bs in
      let '(bs, out) := requests pol p model rest bs in (bs, (res, calls) :: out)
  end.

(** The chain passes a provider over: its error is retryable, or its breaker
    refused the call. *)
Definition skippable (e : ProviderError.t thrown) : bool :=
  ProviderError.retryable e || bool_decide (ProviderError.breakerOpen e = Some true).

(** Every one of [legs], tried in order from [bs], failed and was passed over,
    which left [bs']. *)
Fixpoint passes {R} (pol : ResolvedPolicy.t) (model : string) (legs : list (Leg.t R)) (bs bs' : registry) : Prop :=
  match legs with
  | [] => bs = bs'
  | leg :: rest =>
      exists bs1 e calls,
        complete pol (Leg.id leg) model (Leg.now leg) (Leg.outcome leg) (Leg.clock leg) bs = (bs1, inr (PError e), calls) /\
        skippable e = true /\ passes pol model rest bs1 bs'
  end.

(** A run of events. *)
Definition run {R} (pol : ResolvedPolicy.t) (es : list (event R)) (h : host) : option host :=
  foldl (fun h e => h ≫= step pol e) (Some h) es.

(** ** The breaker invariant *)

Definition waiting (key : string) (m : gmap nat Request.t) : nat :=
  size (filter (fun ir : nat * Request.t => req_key ir.2 = key) m).

#[local] Open Scope Z_scope.

(** What holds of every record of the registry, [n] being the number of
    requests in flight on its key. *)
Record rec_ok (bp : BreakerPolicy.t) (n : nat) (rec : BreakerRecord.t) : Prop := {
  ok_policy : policy rec = bp;
  ok_failures : 0 <= consecutiveFailures rec;
  ok_successes : 0 <= halfOpenSuccesses rec;
  ok_probes : 0 <= probesInFlight rec;
  ok_closed : state rec = closed -> consecutiveFailures rec < BreakerPolicy.failureThreshold bp;
  ok_half_open : state rec = half_open ->
    probesInFlight rec <= BreakerPolicy.halfOpenProbes bp /\
    probesInFlight rec <= Z.of_nat n /\
    halfOpenSuccesses rec < BreakerPolicy.halfOpenProbes bp;
}.

Definition host_ok (bp : BreakerPolicy.t) (h : host) : Prop :=
  forall key rec, breakers h !! key = Some rec -> rec_ok bp (waiting key (inflight h)) rec.

Lemma waiting_insert key i r m :
  m !! i = None -> waiting key (<[i := r]> m) = if decide (req_key r = key) then S (waiting key m) else waiting key m.
Proof.
  intros Hi. unfold waiting. destruct (decide (req_key r = key)) as [Hk|Hk].
  - rewrite map_filter_insert_True by done. apply map_size_insert_None. apply map_lookup_filter_None. by left.
  - by rewrite map_filter_insert_not' by (simpl; naive_solver congruence).
Qed.

Lemma waiting_delete key i r m :
  m !! i = Some r -> waiting key m = if decide (req_key r = key) then S (waiting key (delete i m)) else waiting key (delete i m).
Proof.
  intros Hi. rewrite <- (insert_delete_id m i r Hi) at 1. rewrite waiting_insert; [done|apply lookup_delete_eq].
Qed.

Lemma waiting_update key i r r' m :
  m !! i = Some r -> req_key r' = req_key r -> waiting key (<[i := r']> m) = waiting key m.
Proof.
  intros Hi Hk. rewrite (waiting_delete key i r m Hi), <- insert_delete_eq, waiting_insert, Hk; [done|apply lookup_delete_eq].
Qed.

Section breaker.
  Context (bp : BreakerPolicy.t).
  Hypothesis threshold_pos : 1 <= BreakerPolicy.failureThreshold bp.
  Hypothesis probes_pos : 1 <= BreakerPolicy.halfOpenProbes bp.

Local Ltac brk :=
  repeat match goal with
  | H : context [(?a <=? ?b)%Z] |- _ => destruct (Z.leb_spec a b); simplify_eq/=
  | |- context [(?a <=? ?b)%Z] => destruct (Z.leb_spec a b); simplify_eq/=
  end.

(** The record, its state and the comparisons of [f], each invariant read at
    the state. *)
Local Ltac rec_cases f :=
  let Hc := fresh in let Hh := fresh in
  intros [? ? ? ? Hc Hh]; match goal with r : BreakerRecord.t |- _ => destruct r as [[] ? ? ? ? ?] end;
  simpl in *; subst; unfold f; simpl; try specialize (Hc eq_refl); try specialize (Hh eq_refl);
  brk; split; simpl; intros; (done || lia).

Lemma new_record_ok n : rec_ok bp n (new_record bp).
Proof. split; simpl; (done || lia || congruence). Qed.

Lemma before_ok n now rec :
  rec_ok bp n rec ->
  let '(rec', ok) := breakerBeforeCall now rec in rec_ok bp (if ok then S n else n) rec'.
Proof.
  rec_cases breakerBeforeCall.
Qed.

Lemma success_ok n rec : rec_ok bp (S n) rec -> rec_ok bp n (breakerOnSuccess rec).
Proof.
  rec_cases breakerOnSuccess.
Qed.

Lemma failure_ok n now rec : rec_ok bp (S n) rec -> rec_ok bp n (breakerOnFailure now rec).
Proof.
  rec_cases breakerOnFailure.
Qed.

(** ** The registry under the gate and the settlements *)

Definition reg_ok (cnt : string -> nat) (bs : registry) : Prop :=
  forall key rec, bs !! key = Some rec -> rec_ok bp (cnt key) rec.

Definition upd (cnt : string -> nat) (key : string) (n : nat) : string -> nat :=
  fun k => if decide (key = k) then n else cnt k.

Lemma reg_ok_ext cnt cnt' bs : (forall k, cnt k = cnt' k) -> reg_ok cnt bs -> reg_ok cnt' bs.
Proof. intros E H k rec. rewrite <- E. apply H. Qed.

Lemma reg_ok_insert cnt key n rec bs :
  reg_ok cnt bs -> rec_ok bp n rec -> reg_ok (upd cnt key n) (<[key := rec]> bs).
Proof.
  intros H Hr k r. unfold upd. destruct (decide (key = k)) as [<-|Hk].
  - rewrite lookup_insert_eq. by intros [= <-].
  - rewrite lookup_insert_ne by done. apply H.
Qed.

Lemma gate_reg cnt key now bs :
  reg_ok cnt bs ->
  let '(bs', ok) := gate (Some bp) key now bs in
  reg_ok (upd cnt key (if ok then S (cnt key) else cnt key)) bs'.
Proof.
  intros H. unfold gate. destruct (breakerRecord bs key bp) as [rec bs'] eqn:E.
  assert (rec_ok bp (cnt key) rec /\ reg_ok cnt bs') as [Hr Hb].
  { unfold breakerRecord in E. destruct (bs !! key) as [r|] eqn:L; simplify_eq; [auto|].
    split; [apply new_record_ok|]. eapply reg_ok_ext, (reg_ok_insert cnt key (cnt key)), new_record_ok; [|done].
    intros k. unfold upd. by destruct (decide (key = k)) as [<-|?]. }
  pose proof (before_ok _ now rec Hr) as Hbef. destruct (breakerBeforeCall now rec) as [rec' ok].
  by apply reg_ok_insert.
Qed.

Lemma settle_reg f cnt key n bs :
  (forall n rec, rec_ok bp (S n) rec -> rec_ok bp n (f rec)) -> cnt key = S n ->
  reg_ok cnt bs -> reg_ok (upd cnt key n) (settle (Some bp) f key bs).
Proof.
  intros Hf Hn H k rec. unfold settle, upd. destruct (decide (key = k)) as [<-|Hk].
  - rewrite lookup_alter_eq. destruct (bs !! key) as [r|] eqn:L; [|done]. intros [= <-].
    apply Hf. rewrite <- Hn. by apply H.
  - rewrite lookup_alter_ne by done. apply H.
Qed.

Lemma after_attempt_reg {R} pol p model key now attempt (outcome : R + thrown) cnt n bs :
  ResolvedPolicy.breaker pol = Some bp -> cnt key = S n -> reg_ok cnt bs ->
  let '(bs', v) := after_attempt pol p model key now attempt outcome bs in
  reg_ok (match v with Retry => cnt | _ => upd cnt key n end) bs'.
Proof.
  intros Hb Hn H. unfold after_attempt. rewrite Hb.
  assert (reg_ok (upd cnt key n) (settle (Some bp) breakerOnSuccess key bs)) by (apply settle_reg; auto using success_ok).
  assert (reg_ok (upd cnt key n) (settle (Some bp) (breakerOnFailure now) key bs))
    by (apply settle_reg; auto using failure_ok).
  case_all; done.
Qed.

Lemma after_stream_reg {R} pol key now (outcome : R + thrown) cnt n bs :
  ResolvedPolicy.breaker pol = Some bp -> cnt key = S n -> reg_ok cnt bs ->
  let '(bs', v) := after_stream pol key now outcome bs in
  reg_ok (match v with Retry => cnt | _ => upd cnt key n end) bs'.
Proof.
  intros Hb Hn H. unfold after_stream. rewrite Hb.
  destruct outcome; apply settle_reg; auto using success_ok, failure_ok.
Qed.

Section host.
  Context (pol : ResolvedPolicy.t).
  Hypothesis Hpol : ResolvedPolicy.breaker pol = Some bp.

Lemma start_ok i o p model now h :
  inflight h !! i = None -> host_ok bp h -> host_ok bp (start pol i o p model now h).1.
Proof.
  intros Hi H. unfold start. rewrite Hpol. set (key := key_of o p model).
  pose proof (gate_reg (fun k => waiting k (inflight h)) key now (breakers h) H) as G.
  destruct (gate (Some bp) key now (breakers h)) as [bs []]; simpl.
  - destruct (_ && _); simpl.
    + change (reg_ok (fun k => waiting k (inflight h)) (settle (Some bp) (breakerOnFailure now) key bs)).
      refine (reg_ok_ext _ _ _ _ (settle_reg _ _ _ (waiting key (inflight h)) _ (fun n => failure_ok n now) _ G)).
      * intros k'. unfold upd. by destruct (decide (key = k')) as [<-|?].
      * unfold upd. by rewrite decide_True.
    + eapply (reg_ok_ext _ (fun k => waiting k (<[i := _]> (inflight h)))); [|exact G].
      intros k. rewrite waiting_insert by done. unfold upd, req_key; simpl.
      fold key. by destruct (decide (key = k)) as [<-|?].
  - eapply (reg_ok_ext _ (fun k => waiting k (inflight h))); [|exact G]. intros k. unfold upd. by destruct (decide (key = k)) as [<-|?].
Qed.

Lemma settled_ok {R} i r (outcome : R + thrown) now h :
  inflight h !! i = Some r -> host_ok bp h -> host_ok bp (settled pol i r outcome now h).1.
Proof.
  intros Hi H. unfold settled. set (n := waiting (req_key r) (delete i (inflight h))).
  assert (waiting (req_key r) (inflight h) = S n) as Hn by (rewrite (waiting_delete _ i r) by done; by rewrite decide_True).
  assert (forall bs (v : verdict R),
    reg_ok (match v with Retry => fun k => waiting k (inflight h) | _ => upd (fun k => waiting k (inflight h)) (req_key r) n end) bs ->
    host_ok bp (Host bs (match v with
      | Retry => <[i := Request.mk (Request.kind r) (Request.provider r) (Request.model r) (Request.attempt r + 1)]> (inflight h)
      | _ => delete i (inflight h) end))) as Hend.
  { intros bs v. apply reg_ok_ext. intros k. simpl. destruct v.
    - by erewrite waiting_update.
    - unfold upd. rewrite (waiting_delete k i r) by done. by destruct (decide (req_key r = k)) as [<-|?].
    - unfold upd. rewrite (waiting_delete k i r) by done. by destruct (decide (req_key r = k)) as [<-|?]. }
  pose proof (after_stream_reg pol (req_key r) now outcome _ n (breakers h) Hpol Hn H) as S1.
  pose proof (fun m => after_attempt_reg pol (Request.provider r) m (req_key r) now (Request.attempt r) outcome _ n
    (breakers h) Hpol Hn H) as S2.
  destruct (Request.kind r); cbn [model_of].
  - specialize (S2 (Request.model r)). destruct (after_attempt _ _ _ _ _ _ _ _) as [bs v]. exact (Hend bs v S2).
  - destruct (after_stream _ _ _ _ _) as [bs v]. exact (Hend bs v S1).
  - specialize (S2 "embed"). destruct (after_attempt _ _ _ _ _ _ _ _) as [bs v]. exact (Hend bs v S2).
Qed.

Lemma reachable_host_ok {R} h : reachable (R := R) pol h -> host_ok bp h.
Proof.
  induction 1 as [|h [i o p model now|i outcome now] h' _ IH E]; simpl in *.
  - intros key rec. simpl. by rewrite lookup_empty.
  - destruct (inflight h !! i) eqn:Hi; simplify_eq. by apply start_ok.
  - destruct (inflight h !! i) as [r|] eqn:Hi; simplify_eq. by apply settled_ok.
Qed.

End host.
End breaker.


(** The gate of a request on a key whose breaker is [rec]: refused, with
    nothing changed and no provider call, while the breaker cools down;
    admitted as the first probe once it has; admitted in the half-open state
    exactly while a probe is free; admitted untouched when closed. *)
Theorem breaker_gate pol bp i o p model now h rec :
  let key := key_of o p model in
  ResolvedPolicy.breaker pol = Some bp -> 0 <= ResolvedPolicy.retries pol -> 1 <= BreakerPolicy.halfOpenProbes (policy rec) ->
  breakers h !! key = Some rec ->
  let admitted rec' :=
    (Host (<[key := rec']> (breakers h)) (<[i := Request.mk o p model 0]> (inflight h)), None) in
  let refused := (h, Some (breakerOpenError p (model_of o model))) in
  start pol i o p model now h =
  match state rec with
  | closed => admitted rec
  | open => if now - openedAt rec <? BreakerPolicy.cooldownMs (policy rec) then refused
            else admitted (mk half_open (consecutiveFailures rec) 0 1 (openedAt rec) (policy rec))
  | half_open => if probesInFlight rec <? BreakerPolicy.halfOpenProbes (policy rec)
                 then admitted (mk half_open (consecutiveFailures rec) (halfOpenSuccesses rec) (probesInFlight rec + 1)
                                  (openedAt rec) (policy rec))
                 else refused
  end.
Proof.
  intros key Hb Hr Hp L admitted refused. unfold start, gate. fold key. rewrite Hb. unfold breakerRecord. rewrite L.
  replace (ResolvedPolicy.retries pol <? 0) with false by lia. rewrite andb_false_r.
  assert (<[key := rec]> (breakers h) = breakers h) as E by (by apply insert_id). unfold breakerBeforeCall.
  destruct rec as [[] f hs pr oa pl]; simpl in *.
  - done.
  - rewrite Z.leb_antisym. destruct (_ <? _); simpl; [by rewrite E; destruct h|].
    replace (BreakerPolicy.halfOpenProbes pl <=? 0) with false by lia. done.
  - rewrite Z.leb_antisym. destruct (_ <? _); simpl; [done|]. by rewrite E; destruct h.
Qed.

(** ** The retry ladder *)

Lemma counts_retryable kind : countsTowardBreaker kind = isRetryableKind kind.
Proof. by destruct kind. Qed.

(** What the loop does from attempt [k] on. *)
Lemma ladder_spec {R} pol p model key (outcome : nat -> R + thrown) clock n fuel k bs :
  ResolvedPolicy.retries pol = Z.of_nat n -> (k + fuel = S n)%nat -> (0 < fuel)%nat ->
  exists m, (k <= m <= n)%nat /\
    (forall j, (k <= j < m)%nat ->
       exists err, outcome j = inr err /\ ProviderError.retryable (as_error err p model) = true) /\
    match outcome m with
    | inl res => ladder pol p model key outcome clock fuel k bs =
        (settle (ResolvedPolicy.breaker pol) breakerOnSuccess key bs, inl res, S m)
    | inr err => let e := as_error err p model in
        (ProviderError.retryable e = false \/ m = n) /\
        ladder pol p model key outcome clock fuel k bs =
        (settle (ResolvedPolicy.breaker pol)
           (if countsTowardBreaker (ProviderError.kind e) then breakerOnFailure (clock m) else breakerOnSuccess) key bs,
         inr (PError e), S m)
    end.
Proof.
  intros Hn. revert k. induction fuel as [|fuel IH]; intros k Hk Hf; [lia|]. simpl. unfold after_attempt. rewrite Hn.
  destruct (outcome k) as [res|err] eqn:Eo.
  { exists k. rewrite Eo. split; [lia|]. split; [lia|done]. }
  set (e := as_error err p model).
  destruct (negb (ProviderError.retryable e) || (Z.of_nat n <=? Z.of_nat k)) eqn:Et.
  - exists k. rewrite Eo. fold e. split; [lia|]. split; [lia|]. split.
    + apply orb_true_iff in Et as [Et%negb_true_iff|Et%Z.leb_le]; [by left|right; lia].
    + by destruct (countsTowardBreaker _).
  - bool_prop. destruct (IH (S k)) as (m & Hm & Hj & HO); [lia..|]. exists m. split; [lia|]. split; [|done].
    intros j ?. destruct (decide (j = k)) as [->|?]; [by exists err|]. apply Hj. lia.
Qed.

(** C16. A request that passes the gate: attempts run until the first one that
    succeeds, fails for good or is the last of [retries + 1]; every earlier
    one failed with a retryable error; the breaker is settled exactly once, by
    the final attempt; and the final attempt's outcome, normalized, is the
    outcome of the request. *)
Theorem complete_ladder {R} pol p model now (outcome : nat -> R + thrown) clock bs bs1 n :
  let key := key_of complete_op p model in
  ResolvedPolicy.retries pol = Z.of_nat n ->
  gate (ResolvedPolicy.breaker pol) key now bs = (bs1, true) ->
  exists m, (m <= n)%nat /\
    (forall j, (j < m)%nat ->
       exists err, outcome j = inr err /\ ProviderError.retryable (as_error err p model) = true) /\
    match outcome m with
    | inl res => complete pol p model now outcome clock bs =
        (settle (ResolvedPolicy.breaker pol) breakerOnSuccess key bs1, inl res, S m)
    | inr err => let e := as_error err p model in
        (ProviderError.retryable e = false \/ m = n) /\
        complete pol p model now outcome clock bs =
        (settle (ResolvedPolicy.breaker pol)
           (if countsTowardBreaker (ProviderError.kind e) then breakerOnFailure (clock m) else breakerOnSuccess) key bs1,
         inr (PError e), S m)
    end.
Proof.
  intros key Hn Hg. unfold complete. fold key. rewrite Hg.
  destruct (ladder_spec pol p model key outcome clock n (Z.to_nat (ResolvedPolicy.retries pol + 1)) 0 bs1 Hn)
    as (m & Hm & Hj & HO); [lia..|].
  exists m. split; [lia|]. split; [intros j ?; apply Hj; lia|done].
Qed.

(** ** Requests one after the other *)

Definition unavailable {R} (p : ProviderId) (model : string) (leg : Leg.t R) : Prop :=
  forall k, exists err, Leg.outcome leg k = inr err /\
    ProviderError.retryable (as_error err p model) = true /\
    countsTowardBreaker (ProviderError.kind (as_error err p model)) = true.

Definition answers {R} (leg : Leg.t R) : Prop := exists res, Leg.outcome leg 0 = inl res.

Lemma complete_unavailable {R} pol p model (leg : Leg.t R) n bs bs1 :
  let key := key_of complete_op p model in
  ResolvedPolicy.retries pol = Z.of_nat n -> unavailable p model leg ->
  gate (ResolvedPolicy.breaker pol) key (Leg.now leg) bs = (bs1, true) ->
  exists err, complete pol p model (Leg.now leg) (Leg.outcome leg) (Leg.clock leg) bs =
    (settle (ResolvedPolicy.breaker pol) (breakerOnFailure (Leg.clock leg n)) key bs1, inr err, S n).
Proof.
  intros key Hn Hu Hg. unfold complete. fold key. rewrite Hg.
  destruct (ladder_spec pol p model key (Leg.outcome leg) (Leg.clock leg) n (Z.to_nat (ResolvedPolicy.retries pol + 1)) 0 bs1 Hn)
    as (m & Hm & Hj & HO); [lia..|].
  destruct (Hu m) as (err & E & Hr & Hc). rewrite E in HO. simpl in HO. rewrite Hr, Hc in HO.
  destruct HO as ([?| ->] & ->); [done|]. eauto.
Qed.

Lemma complete_answers {R} pol p model (leg : Leg.t R) n bs bs1 :
  let key := key_of complete_op p model in
  ResolvedPolicy.retries pol = Z.of_nat n -> answers leg ->
  gate (ResolvedPolicy.breaker pol) key (Leg.now leg) bs = (bs1, true) ->
  exists res, complete pol p model (Leg.now leg) (Leg.outcome leg) (Leg.clock leg) bs =
    (settle (ResolvedPolicy.breaker pol) breakerOnSuccess key bs1, inl res, 1%nat).
Proof.
  intros key Hn [res E] Hg. unfold complete. fold key. rewrite Hg.
  destruct (Z.to_nat (ResolvedPolicy.retries pol + 1)) eqn:Ef; [lia|]. simpl. unfold after_attempt. rewrite E. eauto.
Qed.

Lemma gate_record bp key now bs rec rec' :
  bs !! key = Some rec -> breakerBeforeCall now rec = (rec', true) ->
  gate (Some bp) key now bs = (<[key := rec']> bs, true).
Proof. intros L E. unfold gate, breakerRecord. by rewrite L, E. Qed.

Lemma gate_fresh bp key now bs :
  bs !! key = None -> gate (Some bp) key now bs = gate (Some bp) key now (<[key := new_record bp]> bs).
Proof. intros L. unfold gate, breakerRecord. rewrite L, lookup_insert_eq. by destruct (breakerBeforeCall now _). Qed.

Section sequence.
  Context {R : Type} (pol : ResolvedPolicy.t) (bp : BreakerPolicy.t) (p : ProviderId) (model : string) (n : nat).
  Hypothesis Hpol : ResolvedPolicy.breaker pol = Some bp.
  Hypothesis Hretries : ResolvedPolicy.retries pol = Z.of_nat n.

Let key := key_of complete_op p model.

Lemma failing_requests (legs : list (Leg.t R)) bs c hs pr oa :
  Forall (unavailable p model) legs -> bs !! key = Some (mk closed c hs pr oa bp) ->
  c < BreakerPolicy.failureThreshold bp -> c + Z.of_nat (length legs) <= BreakerPolicy.failureThreshold bp ->
  exists rec, (requests pol p model legs bs).1 !! key = Some rec /\
    consecutiveFailures rec = c + Z.of_nat (length legs) /\
    state rec = (if c + Z.of_nat (length legs) <? BreakerPolicy.failureThreshold bp then closed else open) /\
    Forall (fun out => out.2 = S n) (requests pol p model legs bs).2.
Proof.
  intros HL. revert bs c oa. induction HL as [|leg legs Hleg HL IH]; intros bs c oa Hbs Hc Hlen; simpl in *.
  - exists (mk closed c hs pr oa bp). simpl. split; [done|]. split; [lia|].
    by rewrite Z.add_0_r, (proj2 (Z.ltb_lt _ _) Hc).
  - destruct (complete_unavailable pol p model leg n bs bs Hretries Hleg) as [err ->].
    { rewrite Hpol. fold key. rewrite (gate_record bp key _ bs _ _ Hbs eq_refl). by rewrite insert_id. }
    rewrite Hpol. fold key. unfold settle. set (bs' := alter _ key bs).
    assert (bs' !! key = Some (breakerOnFailure (Leg.clock leg n) (mk closed c hs pr oa bp))) as Hbs'
      by (unfold bs'; by rewrite lookup_alter_eq, Hbs). unfold breakerOnFailure in Hbs'; simpl in Hbs'.
    destruct (Z.leb_spec (BreakerPolicy.failureThreshold bp) (c + 1)) as [Ht|Ht].
    + destruct legs; simpl in *; [|lia]. eexists. split; [done|]. simpl. split; [lia|].
      split; [|by repeat constructor]. rewrite (proj2 (Z.ltb_ge _ _)); [done|lia].
    + destruct (IH bs' (c + 1) oa Hbs' Ht) as (rec & L & Hcf & Hst & Hcalls); [lia|].
      destruct (requests pol p model legs bs') as [bs2 out]; simpl in *. exists rec.
      replace (c + Z.of_nat (S (length legs))) with (c + 1 + Z.of_nat (length legs)) by lia.
      by repeat (split; [done|]); constructor.
Qed.

Lemma probing_requests (legs : list (Leg.t R)) bs f hs oa :
  Forall answers legs -> bs !! key = Some (mk half_open f hs 0 oa bp) -> legs <> [] ->
  0 <= hs -> hs + Z.of_nat (length legs) = BreakerPolicy.halfOpenProbes bp ->
  exists oa', (requests pol p model legs bs).1 !! key = Some (mk closed 0 0 0 oa' bp).
Proof.
  intros HL. revert bs hs. induction HL as [|leg legs Hleg HL IH]; intros bs hs Hbs Hne H0 Hlen; [done|]. simpl in *.
  destruct (complete_answers pol p model leg n bs (<[key := mk half_open f hs 1 oa bp]> bs) Hretries Hleg) as [res ->].
  { rewrite Hpol. fold key. apply (gate_record bp key _ bs _ _ Hbs). unfold breakerBeforeCall; simpl.
    rewrite (proj2 (Z.leb_gt _ _)); [done|lia]. }
  rewrite Hpol. fold key. unfold settle. set (bs' := alter _ key _).
  assert (bs' !! key = Some (breakerOnSuccess (mk half_open f hs 1 oa bp))) as Hbs'
    by (unfold bs'; by rewrite lookup_alter_eq, lookup_insert_eq). unfold breakerOnSuccess in Hbs'; simpl in Hbs'.
  destruct (Z.leb_spec (BreakerPolicy.halfOpenProbes bp) (hs + 1)) as [Ht|Ht].
  - destruct legs; simpl in *; [|lia]. eauto.
  - destruct (IH bs' (hs + 1) Hbs') as [oa' L]; [intros ->; simpl in *; lia|lia..|].
    destruct (requests pol p model legs bs') as [bs2 out]; simpl in *. eauto.
Qed.

End sequence.

(** The breaker counts requests, not attempts: of a model never called before,
    [k] failing requests in a row leave the count at [k] and the breaker
    closed while [k] is below the threshold, open when it reaches it, and
    every one of them made its [retries + 1] provider calls. *)
Theorem breaker_counts_requests {R} pol bp p model n (legs : list (Leg.t R)) bs :
  ResolvedPolicy.breaker pol = Some bp -> ResolvedPolicy.retries pol = Z.of_nat n ->
  bs !! key_of complete_op p model = None -> Forall (unavailable p model) legs -> legs <> [] ->
  Z.of_nat (length legs) <= BreakerPolicy.failureThreshold bp ->
  exists rec, (requests pol p model legs bs).1 !! key_of complete_op p model = Some rec /\
    consecutiveFailures rec = Z.of_nat (length legs) /\
    state rec = (if Z.of_nat (length legs) <? BreakerPolicy.failureThreshold bp then closed else open) /\
    Forall (fun out => out.2 = S n) (requests pol p model legs bs).2.
Proof.
  intros Hb Hn L HL Hne Hlen. set (key := key_of complete_op p model) in *.
  destruct (failing_requests pol bp p model n Hb Hn legs (<[key := new_record bp]> bs) 0 0 0 0) as (rec & H);
    [done|apply lookup_insert_eq|destruct legs; simpl in *; [done|lia]|lia|].
  exists rec. destruct legs as [|leg legs]; [done|].
  enough (requests pol p model (leg :: legs) bs = requests pol p model (leg :: legs) (<[key := new_record bp]> bs)) as -> by done.
  simpl. unfold complete. fold key. rewrite Hb. by rewrite (gate_fresh bp key _ bs L).
Qed.

(** A breaker that has cooled down closes again after [halfOpenProbes]
    requests that answer, each of them admitted. *)
Theorem breaker_recovers {R} pol bp p model n (legs : list (Leg.t R)) bs rec :
  let key := key_of complete_op p model in
  ResolvedPolicy.breaker pol = Some bp -> ResolvedPolicy.retries pol = Z.of_nat n ->
  bs !! key = Some rec -> state rec = open -> policy rec = bp ->
  Forall answers legs -> legs <> [] -> Z.of_nat (length legs) = BreakerPolicy.halfOpenProbes bp ->
  (forall leg, head legs = Some leg -> BreakerPolicy.cooldownMs bp <= Leg.now leg - openedAt rec) ->
  exists oa, (requests pol p model legs bs).1 !! key = Some (mk closed 0 0 0 oa bp).
Proof.
  intros key Hb Hn L Hst Hp HL Hne Hlen Hcool. destruct rec as [s f hs pr oa pl]; simpl in *. subst s pl.
  destruct (probing_requests pol bp p model n Hb Hn legs (<[key := mk half_open f 0 0 oa bp]> bs) f 0 oa) as [oa' H];
    [done|apply lookup_insert_eq|done|lia..|].
  exists oa'. rewrite <- H. destruct legs as [|leg legs]; [done|]. specialize (Hcool leg eq_refl). simpl. unfold complete. fold key.
  rewrite Hb. unfold gate, breakerRecord. rewrite L, lookup_insert_eq. unfold breakerBeforeCall; simpl.
  replace (BreakerPolicy.cooldownMs bp <=? Leg.now leg - oa) with true by lia. simpl.
  replace (BreakerPolicy.halfOpenProbes bp <=? 0) with false by (simpl in *; lia). by rewrite insert_insert_eq.
Qed.

(** ** Isolation *)

Definition event_key {R} (h : host) (e : event R) : option string :=
  match e with
  | Start _ o p model _ => Some (key_of o p model)
  | Settled i _ _ => req_key <$> inflight h !! i
  end.

Lemma gate_ne b key key' now bs : key <> key' -> (gate b key now bs).1 !! key' = bs !! key'.
Proof.
  intros H. unfold gate, breakerRecord. case_all; by rewrite ?lookup_insert_ne.
Qed.

Lemma settle_ne b f key key' bs : key <> key' -> settle b f key bs !! key' = bs !! key'.
Proof. intros H. unfold settle. case_all; by rewrite ?lookup_alter_ne. Qed.

(** An event of one (provider, model) pair, or of the embedder, leaves the
    breaker of every other one as it was. *)
Theorem breaker_isolation {R} pol (e : event R) h h' key key' :
  step pol e h = Some h' -> event_key h e = Some key -> key <> key' ->
  breakers h' !! key' = breakers h !! key'.
Proof.
  intros Hs Hk Hne. destruct e as [i o p model now|i outcome now]; simpl in *.
  - destruct (inflight h !! i); simplify_eq. unfold start.
    pose proof (gate_ne (ResolvedPolicy.breaker pol) _ key' now (breakers h) Hne) as G.
    destruct (gate _ _ _ _) as [bs []]; simpl in *; [|done]. destruct (_ && _); simpl; [by rewrite settle_ne|done].
  - destruct (inflight h !! i) as [r|]; simplify_eq/=. unfold settled, after_attempt, after_stream.
    case_all; by rewrite ?settle_ne.
Qed.

(** ** The failover chain *)

Lemma ladder_throws {R} pol p model key (outcome : nat -> R + thrown) clock fuel k bs bs' err calls :
  ladder pol p model key outcome clock fuel k bs = (bs', inr err, calls) -> exists e, err = PError e.
Proof.
  revert k bs. induction fuel as [|fuel IH]; intros k bs; simpl; [intros; simplify_eq; by eexists|].
  destruct (after_attempt _ _ _ _ _ _ _ _) as [bs1 v] eqn:E. unfold after_attempt in E.
  destruct v; [apply IH|done|]. intros; simplify_eq. case_all; eauto.
Qed.

Lemma complete_throws {R} pol p model now (outcome : nat -> R + thrown) clock bs bs' err calls :
  complete pol p model now outcome clock bs = (bs', inr err, calls) -> exists e, err = PError e.
Proof.
  unfold complete. destruct (gate _ _ _ _) as [bs1 []]; [apply ladder_throws|]. intros; simplify_eq. by eexists.
Qed.

Lemma chain_loop_spec {R} pol model (legs : list (Leg.t R)) lastErr bs :
  legs <> [] ->
  exists pre leg post bs1, legs = pre ++ leg :: post /\ passes pol model pre bs bs1 /\
    let '(bs2, res, _) := complete pol (Leg.id leg) model (Leg.now leg) (Leg.outcome leg) (Leg.clock leg) bs1 in
    chain_loop pol model legs lastErr bs = (bs2, res) /\
    match res with
    | inl _ => True
    | inr err => exists e, err = PError e /\ (skippable e = false \/ post = [])
    end.
Proof.
  revert lastErr bs. induction legs as [|leg legs IH]; intros lastErr bs Hne; [done|]. simpl.
  destruct (complete pol (Leg.id leg) model (Leg.now leg) (Leg.outcome leg) (Leg.clock leg) bs) as [[bs1 [res|err]] calls] eqn:E.
  - exists [], leg, legs, bs. simpl. rewrite E. done.
  - destruct (complete_throws _ _ _ _ _ _ _ _ _ _ E) as [e ->]. cbn [as_error]. change (_ || _) with (skippable e).
    destruct (skippable e) eqn:Es.
    + destruct legs as [|leg' legs].
      * exists [], leg, [], bs. simpl. rewrite E. split; [done|]. split; [done|]. split; [done|]. exists e. auto.
      * destruct (IH (PError e) bs1 ltac:(done)) as (pre & l & post & bs2 & -> & Hp & HO).
        exists (leg :: pre), l, post, bs2. split; [done|]. split; [|done]. simpl. eauto 8.
    + exists [], leg, legs, bs. simpl. rewrite E. split; [done|]. split; [done|]. split; [done|]. exists e. auto.
Qed.

(** The failover chain tries its providers in order on the shared registry and
    stops at the first that answers or fails for good: every provider before
    it failed with a retryable error or a breaker's refusal, its outcome is
    the chain's, and only the last provider's error is thrown while it would
    have been passed over. *)
Theorem failover_spec {R} pol model (legs : list (Leg.t R)) bs bs' res :
  failoverChain pol model legs bs = Some (bs', res) ->
  exists pre leg post bs1 calls, legs = pre ++ leg :: post /\ passes pol model pre bs bs1 /\
    complete pol (Leg.id leg) model (Leg.now leg) (Leg.outcome leg) (Leg.clock leg) bs1 = (bs', res, calls) /\
    match res with
    | inl _ => True
    | inr err => exists e, err = PError e /\ (skippable e = false \/ post = [])
    end.
Proof.
  unfold failoverChain. destruct legs as [|leg0 legs]; [done|]. intros Hc%(inj Some).
  destruct (chain_loop_spec pol model (leg0 :: legs) (Primitive true) bs ltac:(done))
    as (pre & leg & post & bs1 & E & Hp & HO).
  destruct (complete pol (Leg.id leg) model _ _ _ bs1) as [[bs2 r] calls] eqn:Ec. destruct HO as [HO Hm].
  rewrite HO in Hc. simplify_eq. by exists pre, leg, post, bs1, calls.
Qed.

(** ** The hedged attempt *)

Definition is_hedge (e : race_event) : bool := match e with HedgeFires => true | _ => false end.
Definition is_ok (e : race_event) : bool := match e with CallOk _ => true | _ => false end.

(** What the promise has settled with after [es], and when. *)
Definition race_result (es : list race_event) (r : Race.t) : Prop :=
  match Race.result r with
  | None =>
      existsb is_ok es = false /\ (0 < Race.outstanding r \/ Race.hedgeTimer r = true)%nat
  | Some (inl x) =>
      exists pre res post, es = pre ++ CallOk res :: post /\ existsb is_ok pre = false /\
        x = if existsb is_hedge pre then CompleteResponse.set_hedged res else res
  | Some (inr err) =>
      existsb is_ok es = false /\ existsb is_hedge es = true /\ CallErr err ∈ es /\
      Race.failures r = Race.started r /\ Race.outstanding r = 0%nat
  end.

Record race_ok (es : list race_event) (r : Race.t) : Prop := {
  race_settled : Race.settled r = bool_decide (is_Some (Race.result r));
  race_started : Race.started r = if existsb is_hedge es then 2%nat else 1%nat;
  race_timer : Race.result r = None -> Race.hedgeTimer r = negb (existsb is_hedge es);
  race_cleared : is_Some (Race.result r) -> Race.hedgeTimer r = false;
  race_calls : Race.result r = None -> (Race.failures r + Race.outstanding r = Race.started r)%nat;
  race_first : match Race.firstErr r with Some e => CallErr e ∈ es | None => Race.failures r = 0%nat end;
  race_out : race_result es r;
}.

Lemma race_ok_init : race_ok [] Race.init.
Proof. split; try done; simpl; [by intros [? ?]|]. split; [done|left; simpl; lia]. Qed.

Lemma existsb_snoc {A} (f : A -> bool) l x : existsb f (l ++ [x]) = existsb f l || f x.
Proof. by rewrite existsb_app; simpl; rewrite orb_false_r. Qed.

Lemma first_mono es x fe fl :
  match fe with Some e => CallErr e ∈ es | None => fl = 0%nat end ->
  match fe with Some e => CallErr e ∈ es ++ [x] | None => fl = 0%nat end.
Proof. destruct fe; [|done]. intros. apply elem_of_app. by left. Qed.

Lemma first_err es err fe fl :
  match fe with Some e => CallErr e ∈ es | None => fl = 0%nat end ->
  exists e, (if nullish fe then Some err else fe) = Some e /\ CallErr e ∈ es ++ [CallErr err].
Proof.
  intros H. destruct (nullish fe) eqn:En; [|destruct fe as [e|]; [|done]]; eexists; (split; [done|]); apply elem_of_app;
    [right; by apply list_elem_of_singleton|by left].
Qed.

Lemma won_mono es e x :
  (exists pre res post, es = pre ++ CallOk res :: post /\ existsb is_ok pre = false /\
     x = if existsb is_hedge pre then CompleteResponse.set_hedged res else res) ->
  exists pre res post, es ++ [e] = pre ++ CallOk res :: post /\ existsb is_ok pre = false /\
     x = if existsb is_hedge pre then CompleteResponse.set_hedged res else res.
Proof. intros (pre & res & post & -> & H). exists pre, res, (post ++ [e]). split; [by rewrite <- app_assoc|done]. Qed.

Lemma race_ok_step es r e r' : race_ok es r -> race_step r e = Some r' -> race_ok (es ++ [e]) r'.
Proof.
  intros [Hs Hst Ht Hcl Hc Hf Ho] E.
  pose proof (first_mono es e _ _ Hf) as Hf'. pose proof (fun err => first_err es err _ _ Hf) as He.
  destruct r as [sd st fl fe tm os rs]; unfold race_step, race_result in *; simpl in *.
  destruct rs as [[x|er]|]; simpl in *; subst sd.
  - (* the promise has resolved *)
    rewrite Hcl in * by eauto. pose proof (won_mono es e x Ho).
    destruct e as [res|err|]; simpl in E; [| |done]; (destruct os; [done|]); simplify_eq/=;
      split; unfold race_result; simpl; rewrite ?existsb_snoc, ?orb_false_r; try done.
    destruct (He err) as (e & -> & ?). done.
  - (* it has rejected: nothing is left to happen *)
    destruct Ho as (_ & _ & _ & _ & ->). rewrite Hcl in E by eauto. by destruct e.
  - specialize (Ht eq_refl). specialize (Hc eq_refl). destruct Ho as [Hno _].
    destruct e as [res|err|]; simpl in E.
    + destruct os as [|n]; [done|]. simplify_eq/=.
      split; unfold race_result; simpl; rewrite ?existsb_snoc, ?orb_false_r; try done.
      exists es, res, []. split; [done|]. split; [done|]. by destruct (existsb is_hedge es).
    + destruct os as [|n]; [done|]. destruct (He err) as (e & Ee & Hine). rewrite Ee in E.
      destruct (existsb is_hedge es) eqn:Eh; simpl in *; subst tm; simpl in E.
      * destruct (_ <=? _)%nat eqn:El; simplify_eq/=;
          split; unfold race_result; simpl; rewrite ?existsb_snoc, ?orb_false_r, ?Eh, ?Ee; try done; simpl in *.
        -- split; [done|]. split; [done|]. split; [done|]. destruct fl; [done|lia].
        -- lia.
        -- split; [done|]. left. destruct fl; [lia|done].
      * simplify_eq/=; split; unfold race_result; simpl; rewrite ?existsb_snoc, ?orb_false_r, ?Eh, ?Ee; try done; simpl in *.
        -- lia.
        -- split; [done|]. by right.
    + destruct tm; [|done]. simplify_eq/=. destruct (existsb is_hedge es) eqn:Eh; [done|].
      split; unfold race_result; simpl; rewrite ?existsb_snoc, ?orb_true_r, ?orb_false_r, ?Eh; try done; simpl in *.
      * lia.
      * split; [done|]. left. lia.
Qed.

Lemma attemptCall_ok es r : attemptCall es = Some r -> race_ok es r.
Proof.
  revert r. induction es as [|e es IH] using rev_ind; intros r; unfold attemptCall.
  - intros [= <-]. apply race_ok_init.
  - rewrite foldl_snoc. fold (attemptCall es). destruct (attemptCall es) as [r0|]; [|done]. simpl.
    apply race_ok_step, IH. done.
Qed.

(** The hedged attempt, after any sequence of call settlements and the hedge
    timer: it is still open only while a call is outstanding or the timer is
    armed (so it settles once both are done); it resolves with the first
    success, marked [hedged] exactly when the duplicate had been started; and
    it rejects only when the duplicate was started and every call failed, with
    an error one of them threw. *)
Theorem attemptCall_spec es r : attemptCall es = Some r -> race_result es r.
Proof. intros H. by destruct (attemptCall_ok es r H). Qed.

(** ** One request of the process *)

Lemma run_cons {R} pol (e : event R) es h h' : step pol e h = Some h' -> run pol (e :: es) h = run pol es h'.
Proof. intros E. unfold run. simpl. by rewrite E. Qed.

Lemma ladder_run {R} pol p model (outcome : nat -> R + thrown) clock n i fuel k h bs' res calls :
  ResolvedPolicy.retries pol = Z.of_nat n -> (k + fuel = S n)%nat -> (0 < fuel)%nat ->
  inflight h !! i = Some (Request.mk complete_op p model (Z.of_nat k)) ->
  ladder pol p model (key_of complete_op p model) outcome clock fuel k (breakers h) = (bs', res, calls) ->
  (k <= calls)%nat /\
  run pol (map (fun j => Settled i (outcome j) (clock j)) (seq k (calls - k))) h = Some (Host bs' (delete i (inflight h))).
Proof.
  intros Hn. revert k h. induction fuel as [|fuel IH]; intros k h Hk Hf Hi; [lia|]. simpl.
  destruct (after_attempt pol p model (key_of complete_op p model) (clock k) (Z.of_nat k) (outcome k) (breakers h)) as [bs v] eqn:E.
  assert (step pol (Settled i (outcome k) (clock k)) h = Some (Host bs (match v with
    | Retry => <[i := Request.mk complete_op p model (Z.of_nat (S k))]> (inflight h)
    | _ => delete i (inflight h) end))) as Hstep.
  { simpl. rewrite Hi. unfold settled, req_key. simpl. rewrite E. simpl. by replace (Z.of_nat k + 1) with (Z.of_nat (S k)) by lia. }
  destruct v as [|res'|err].
  - assert (k <> n) as Hkn.
    { intros ->. unfold after_attempt in E. destruct (outcome n); [done|]. rewrite Hn, Z.leb_refl, orb_true_r in E. done. }
    intros HL. destruct (IH (S k) (Host bs (<[i := Request.mk complete_op p model (Z.of_nat (S k))]> (inflight h))))
      as [Hle Hrun]; [lia..|apply lookup_insert_eq|done|].
    split; [lia|]. replace (calls - k)%nat with (S (calls - S k)) by lia. cbn [seq map].
    rewrite (run_cons _ _ _ _ _ Hstep), Hrun. simpl. by rewrite delete_insert_eq.
  - intros; simplify_eq. split; [lia|]. replace (S k - k)%nat with 1%nat by lia. cbn [seq map]. by rewrite (run_cons _ _ _ _ _ Hstep).
  - intros; simplify_eq. split; [lia|]. replace (S k - k)%nat with 1%nat by lia. cbn [seq map]. by rewrite (run_cons _ _ _ _ _ Hstep).
Qed.

(** A request run on its own is a run of the process: its start, then one
    settlement per provider call, leaves the registry [complete] computes and
    no trace of the request. *)
Theorem complete_refines {R} pol p model now (outcome : nat -> R + thrown) clock i h bs' res calls :
  0 <= ResolvedPolicy.retries pol -> inflight h !! i = None ->
  complete pol p model now outcome clock (breakers h) = (bs', res, calls) ->
  run pol (Start i complete_op p model now :: map (fun k => Settled i (outcome k) (clock k)) (seq 0 calls)) h =
  Some (Host bs' (inflight h)).
Proof.
  intros Hr Hi Hc. unfold complete in Hc. set (key := key_of complete_op p model) in *.
  destruct (gate (ResolvedPolicy.breaker pol) key now (breakers h)) as [bs []] eqn:Eg.
  - assert (step pol (Start i complete_op p model now : event R) h =
      Some (Host bs (<[i := Request.mk complete_op p model 0]> (inflight h)))) as Hs.
    { simpl. rewrite Hi. unfold start. fold key. rewrite Eg. by rewrite (proj2 (Z.ltb_ge _ _) Hr). }
    rewrite (run_cons _ _ _ _ _ Hs).
    destruct (ladder_run pol p model outcome clock (Z.to_nat (ResolvedPolicy.retries pol)) i
      (Z.to_nat (ResolvedPolicy.retries pol + 1)) 0 (Host bs (<[i := Request.mk complete_op p model 0]> (inflight h)))
      bs' res calls) as [_ Hrun]; [lia..|apply lookup_insert_eq|done|].
    rewrite Nat.sub_0_r in Hrun. rewrite Hrun. simpl. by rewrite delete_insert_id.
  - simplify_eq. unfold run. simpl. rewrite Hi. unfold start. fold key. by rewrite Eg.
Qed.

(** ** Where the code and its comments part *)

Definition auth_error : thrown := ProviderAuthError openai "401" no_options.
Definition timeout_error : thrown := ProviderTimeoutError openai 60000 no_options.
Definition default_policy : ResolvedPolicy.t :=
  resolvePolicy (Some (ResiliencePolicy.mk None None None (Some DEFAULT_BREAKER) None)).

(** A request of [o] on model [m] that starts at [now] and whose attempts all
    fail with [err] at once ([tries] of them). *)
Definition failing (o : op) (i : nat) (err : thrown) (now : Z) (tries : nat) : list (event unit) :=
  Start i o openai "m" now :: replicate tries (Settled i (inr err) now).

Definition state_of (h : option host) (key : string) : option BreakerState := h ≫= fun h => state <$> breakers h !! key.

(** Streaming counts every failure: five requests with a rejected API key,
    which [countsTowardBreaker] excludes, open the breaker of the model, and
    the next request of any other caller is refused. *)
Theorem stream_auth_opens :
  let h := run default_policy (concat (map (fun i => failing stream_op i auth_error (Z.of_nat i) 1) (seq 0 5))) (Host ∅ ∅) in
  countsTowardBreaker (classifyError auth_error) = false /\
  state_of h "openai:m" = Some open /\
  (start default_policy 5 complete_op openai "m" 6 <$> h) ≫= snd = Some (breakerOpenError openai "m").
Proof. by vm_compute. Qed.

(** A rejected API key moves the breaker: after five unavailable requests have
    opened it and the cooldown has passed, two requests that fail with 401
    close it, without one answer from the provider. *)
Theorem auth_failures_close :
  let opened := concat (map (fun i => failing complete_op i timeout_error 0 4) (seq 0 5)) in
  let probes := concat (map (fun i => failing complete_op i auth_error 30000 1) (seq 5 2)) in
  state_of (run default_policy opened (Host ∅ ∅)) "openai:m" = Some open /\
  state_of (run default_policy (opened ++ probes) (Host ∅ ∅)) "openai:m" = Some closed.
Proof. by vm_compute. Qed.

(** A setting between 0 and 1 passes the guard of [breakerPolicyFromEnv] and is
    floored to 0: with no half-open probe the gate refuses every call of a
    breaker that has opened, at any time. *)
Theorem fractional_probes_stuck :
  exists bp, breakerPolicyFromEnv None NaN NaN (lit 5 1) = Some bp /\
  forall now rec, policy rec = bp -> state rec <> closed -> 0 <= probesInFlight rec -> (breakerBeforeCall now rec).2 = false.
Proof.
  eexists. split; [vm_compute; reflexivity|]. intros now [s f hs pr oa pl] Hp Hs Hpr; simpl in *. subst pl.
  unfold breakerBeforeCall; simpl. destruct s; [done| |].
  - by destruct (_ <=? _).
  - by destruct pr.
Qed.

(** ** Witnesses *)

Lemma run_host_reachable {R} pol (es : list (event R)) h h' :
  reachable (R := R) pol h -> run pol es h = Some h' -> reachable (R := R) pol h'.
Proof.
  intros Hh. revert h'. induction es as [|e es IH] using rev_ind; intros h'; unfold run.
  - by intros [= <-].
  - rewrite foldl_snoc. fold (run pol es h). destruct (run pol es h) as [h1|]; [|done]. simpl.
    intros E. eapply reach_step; [by apply IH|exact E].
Qed.

(** Five failing requests, the cooldown, and two probes in flight. *)
Definition saturated_events : list (event unit) :=
  concat (map (fun i => failing complete_op i timeout_error 0 4) (seq 0 5)) ++
  concat (map (fun i => failing complete_op i timeout_error 30000 0) (seq 5 2)).
Definition saturated : host := default (Host ∅ ∅) (run default_policy saturated_events (Host ∅ ∅)).
Definition saturated_record : BreakerRecord.t := default (new_record DEFAULT_BREAKER) (breakers saturated !! "openai:m").
Definition dead_leg : Leg.t unit := Leg.mk unit openai 0 (fun _ => inr timeout_error) (fun _ => 0).
Definition live_leg : Leg.t unit := Leg.mk unit google 30000 (fun _ => inl tt) (fun _ => 30000).


Lemma breaker_gate_witness :
  (start default_policy 7 complete_op openai "m" 30000 saturated).2 = Some (breakerOpenError openai "m").
Proof.
  rewrite (breaker_gate default_policy DEFAULT_BREAKER 7 complete_op openai "m" 30000 saturated saturated_record);
    [vm_compute; (reflexivity || discriminate)..].
Defined.

Lemma complete_ladder_witness :
  let outcome k := match k with O => inr timeout_error | S _ => inl tt end in
  exists m, (m <= 3)%nat /\ exists res, outcome m = inl res /\
    (complete default_policy openai "m" 0 outcome (fun _ => 0) ∅).1.2 = inl res.
Proof.
  intros outcome.
  destruct (complete_ladder default_policy openai "m" 0 outcome (fun _ => 0) ∅
    (<["openai:m" := new_record DEFAULT_BREAKER]> (<["openai:m" := new_record DEFAULT_BREAKER]> ∅)) 3)
    as (m & Hm & Hj & HO); [vm_compute; reflexivity..|].
  exists m. split; [exact Hm|]. destruct (outcome m) as [res|err] eqn:E.
  - exists res. split; [reflexivity|]. by rewrite HO.
  - destruct m; [|done]. simpl in E. simplify_eq. destruct HO as [[HO|HO] _]; done.
Defined.

Lemma breaker_counts_requests_witness :
  exists rec, (requests default_policy openai "m" (replicate 5 dead_leg) ∅).1 !! "openai:m" = Some rec /\ state rec = open.
Proof.
  destruct (breaker_counts_requests default_policy DEFAULT_BREAKER openai "m" 3 (replicate 5 dead_leg) ∅)
    as (rec & L & _ & Hs & _); [vm_compute; reflexivity..| |done|vm_compute; discriminate|].
  - apply Forall_replicate. intros k. exists timeout_error. done.
  - exists rec. split; [exact L|]. by rewrite Hs.
Defined.

Lemma breaker_recovers_witness :
  let bs := (requests default_policy openai "m" (replicate 5 dead_leg) ∅).1 in
  exists oa, (requests default_policy openai "m" [live_leg; live_leg] bs).1 !! "openai:m" = Some (mk closed 0 0 0 oa DEFAULT_BREAKER).
Proof.
  intros bs.
  apply (breaker_recovers default_policy DEFAULT_BREAKER openai "m" 3 [live_leg; live_leg] bs (mk open 5 0 0 0 DEFAULT_BREAKER));
    try (vm_compute; reflexivity).
  - repeat constructor; exists tt; done.
  - done.
  - intros leg [= <-]. vm_compute. discriminate.
Defined.

Lemma breaker_isolation_witness :
  exists h, step default_policy (Start 9 embed_op openai "m" 0 : event unit) saturated = Some h /\
  breakers h !! "openai:m" = Some saturated_record.
Proof.
  destruct (step default_policy (Start 9 embed_op openai "m" 0 : event unit) saturated) as [h|] eqn:E;
    [|vm_compute in E; discriminate E].
  exists h. split; [reflexivity|].
  rewrite (breaker_isolation default_policy _ saturated h "openai:embed" "openai:m" E);
    [vm_compute; reflexivity|reflexivity|discriminate].
Defined.

Lemma failover_spec_witness :
  exists pre leg post, [dead_leg; live_leg] = pre ++ leg :: post /\ Leg.id leg = google.
Proof.
  destruct (failover_spec default_policy "m" [dead_leg; live_leg] ∅
    (chain_loop default_policy "m" [dead_leg; live_leg] (Primitive true) ∅).1 (inl tt))
    as (pre & leg & post & bs1 & calls & E & Hp & Hc & _); [vm_compute; reflexivity|].
  exists pre, leg, post. split; [exact E|].
  destruct pre as [|? [|? pre]].
  - injection E as <- <-. simpl in Hp. rewrite <- Hp in Hc. apply (f_equal (fun x => x.1.2)) in Hc.
    vm_compute in Hc. discriminate Hc.
  - by injection E as <- <- <-.
  - injection E as _ _ E. by destruct pre.
Defined.

Definition answer : CompleteResponse.t :=
  CompleteResponse.mk "ok" None (CompleteUsage.mk zero zero None None None None) zero None "v1" None None.

Lemma attemptCall_spec_witness :
  exists r, attemptCall [CallErr timeout_error; HedgeFires; CallOk answer] = Some r /\
    race_result [CallErr timeout_error; HedgeFires; CallOk answer] r.
Proof. eexists. split; [reflexivity|]. apply attemptCall_spec. reflexivity. Defined.

Lemma complete_refines_witness :
  run default_policy (Start 0 complete_op openai "m" 0 :: map (fun k => Settled 0 (Leg.outcome dead_leg k) 0) (seq 0 4)) (Host ∅ ∅) =
  Some (Host (complete default_policy openai "m" 0 (Leg.outcome dead_leg) (fun _ => 0) ∅).1.1 ∅).
Proof.
  eapply (complete_refines default_policy openai "m" 0 (Leg.outcome dead_leg) (fun _ => 0) 0 (Host ∅ ∅));
    [vm_compute; discriminate|reflexivity|]. vm_compute. reflexivity.
Defined.

End Resilience.
