(* ===== verification/Store.v ===== *)
(** * The frontier store: pareto/src/persistence.ts, db/src/repos/frontiers.ts, db/src/repos/frontier-pins.ts

    The three tables a frontier lives in, the queries of the repositories over
    them, and [saveFrontier] as a protocol: a saver reads the latest version of
    its scope, then inserts the next one, and other savers run in between.  The
    unique index (org, cluster, instrument, version) turns a lost race into an
    error the saver retries on.

    A scope is (org or platform, cluster, instrument).  Random identifiers,
    clock readings and database failures other than the unique index are
    inputs of the events. *)

From S2P Require Import Prelude Number Types Fixtures.

Module Store.
Import Num.

(** ** Tables (db/src/schema.ts) *)

Module FrontierRow.
Record t := mk {
  id : string;
  clusterId : string;
  version : Z;
  parentId : option string;
  trigger : FrontierTrigger;
  points : list FrontierPoint.t;
  orgId : option string;
  pricesVersion : string;
  createdAt : string;
  instrument : Instrument;
}.
End FrontierRow.

(** [providerMode] is [None] for ['unknown']. *)
Module FrontierPointRow.
Record t := mk {
  frontierId : string;
  clusterId : string;
  strategyHash : string;
  strategyConfig : StrategyConfig;
  quality : number;
  costPer1K : number;
  latencyP95 : number;
  orgId : option string;
  evidence : option FrontierPointEvidence.t;
  providerMode : option ProviderMode;
}.
End FrontierPointRow.

Module FrontierPinRow.
Record t := mk {
  orgId : string;
  clusterId : string;
  instrument : Instrument;
  frontierId : string;
  frontierVersion : Z;
  pinnedBy : string;
}.
End FrontierPinRow.

Record PotionDb := Db {
  frontiers : list FrontierRow.t;
  frontierPoints : list FrontierPointRow.t;
  frontierPins : list FrontierPinRow.t;
}.

Definition empty_db : PotionDb := Db [] [] [].

(** ** frontiers.ts *)

Definition to_row (f : Frontier.t) : FrontierRow.t :=
  FrontierRow.mk (Frontier.id f) (Frontier.clusterId f) (Frontier.version f) (Frontier.parentId f) (Frontier.trigger f)
    (Frontier.points f) (Frontier.orgId f) (Frontier.pricesVersion f) (Frontier.createdAt f)
    (default default_instrument (Frontier.instrument f)).

Definition point_row (f : Frontier.t) (p : FrontierPoint.t) : FrontierPointRow.t :=
  FrontierPointRow.mk (Frontier.id f) (FrontierPoint.clusterId p) (FrontierPoint.strategyHash p)
    (FrontierPoint.strategyConfig p) (FrontierPoint.quality p) (FrontierPoint.costPer1K p) (FrontierPoint.latencyP95 p)
    (Frontier.orgId f) (FrontierPoint.evidence p) (FrontierPoint.providerMode p).

(** The primary key and the unique index [frontiers_org_cluster_instrument_version]
    (NULLS NOT DISTINCT). *)
Definition conflicts (r s : FrontierRow.t) : bool :=
  bool_decide (FrontierRow.id r = FrontierRow.id s) ||
  bool_decide (FrontierRow.orgId r = FrontierRow.orgId s /\ FrontierRow.clusterId r = FrontierRow.clusterId s /\
               FrontierRow.instrument r = FrontierRow.instrument s /\ FrontierRow.version r = FrontierRow.version s).

(** One transaction; [None] is the unique violation, which leaves both tables
    as they were. *)
Definition insertFrontier (d : PotionDb) (f : Frontier.t) : option PotionDb :=
  if existsb (conflicts (to_row f)) (frontiers d) then None
  else Some (Db (frontiers d ++ [to_row f]) (frontierPoints d ++ map (point_row f) (Frontier.points f)) (frontierPins d)).

Definition toFrontier (r : FrontierRow.t) : Frontier.t :=
  Frontier.mk (FrontierRow.id r) (FrontierRow.clusterId r) (FrontierRow.version r) (FrontierRow.parentId r)
    (FrontierRow.trigger r) (FrontierRow.points r) (FrontierRow.pricesVersion r) (FrontierRow.orgId r)
    (FrontierRow.createdAt r) (Some (FrontierRow.instrument r)).

Definition getFrontierById (d : PotionDb) (id : string) : option Frontier.t :=
  toFrontier <$> find (fun r => bool_decide (FrontierRow.id r = id)) (frontiers d).

(** [ORDER BY ... LIMIT 1]: the first row no other row precedes. *)
Fixpoint top {A} (before : A -> A -> bool) (l : list A) : option A :=
  match l with
  | [] => None
  | x :: l => Some (match top before l with None => x | Some y => if before y x then y else x end)
  end.

Definition newer (r s : FrontierRow.t) : bool := (FrontierRow.version s <? FrontierRow.version r)%Z.

Definition in_scope (clusterId : string) (orgScope : option string) (instrument : Instrument) (r : FrontierRow.t) : bool :=
  bool_decide (FrontierRow.clusterId r = clusterId) && bool_decide (FrontierRow.orgId r = orgScope) &&
  bool_decide (FrontierRow.instrument r = instrument).

Definition latest_row (d : PotionDb) (clusterId : string) (orgScope : option string) (instrument : Instrument) : option FrontierRow.t :=
  top newer (List.filter (in_scope clusterId orgScope instrument) (frontiers d)).

Definition getLatestFrontier (d : PotionDb) (clusterId : string) (orgScope : option string) (instrument : Instrument) : option Frontier.t :=
  toFrontier <$> latest_row d clusterId orgScope instrument.

(** ** frontier-pins.ts *)

Definition is_pin (orgId clusterId : string) (instrument : Instrument) (p : FrontierPinRow.t) : bool :=
  bool_decide (FrontierPinRow.orgId p = orgId) && bool_decide (FrontierPinRow.clusterId p = clusterId) &&
  bool_decide (FrontierPinRow.instrument p = instrument).

Definition getFrontierPin (d : PotionDb) (orgId clusterId : string) (instrument : Instrument) : option FrontierPinRow.t :=
  find (is_pin orgId clusterId instrument) (frontierPins d).

Definition listFrontierPins (d : PotionDb) (orgId : string) : list FrontierPinRow.t :=
  List.filter (fun p => bool_decide (FrontierPinRow.orgId p = orgId)) (frontierPins d).

(** Insert, or update the row with the same primary key. *)
Definition setFrontierPin (d : PotionDb) (pin : FrontierPinRow.t) : PotionDb :=
  let same := is_pin (FrontierPinRow.orgId pin) (FrontierPinRow.clusterId pin) (FrontierPinRow.instrument pin) in
  Db (frontiers d) (frontierPoints d)
     (if existsb same (frontierPins d) then map (fun p => if same p then pin else p) (frontierPins d)
      else frontierPins d ++ [pin]).

Definition releaseFrontierPin (d : PotionDb) (orgId clusterId : string) (instrument : Instrument) : PotionDb * bool :=
  (Db (frontiers d) (frontierPoints d) (List.filter (fun p => negb (is_pin orgId clusterId instrument p)) (frontierPins d)),
   existsb (is_pin orgId clusterId instrument) (frontierPins d)).

(** ** The serving read *)

Module ServingOpts.
Record t := mk { ignorePins : option bool; overrideFrontierId : option string }.
End ServingOpts.

Definition no_opts : ServingOpts.t := ServingOpts.mk None None.

Definition visible (clusterId orgId : string) (instrument : Instrument) (r : FrontierRow.t) : bool :=
  bool_decide (FrontierRow.clusterId r = clusterId) &&
  (bool_decide (FrontierRow.orgId r = Some orgId) || bool_decide (FrontierRow.orgId r = None)) &&
  bool_decide (FrontierRow.instrument r = instrument).

(** [ORDER BY org_id IS NOT NULL DESC, version DESC]. *)
Definition org_then_newer (r s : FrontierRow.t) : bool :=
  match FrontierRow.orgId r, FrontierRow.orgId s with
  | Some _, None => true
  | None, Some _ => false
  | _, _ => newer r s
  end.

Definition org_preferred (d : PotionDb) (clusterId orgId : string) (instrument : Instrument) : option Frontier.t :=
  match top org_then_newer (List.filter (visible clusterId orgId instrument) (frontiers d)) with
  | None => None
  | Some row =>
      match FrontierRow.orgId row, FrontierRow.points row with
      | Some _, [] => getLatestFrontier d clusterId None default_instrument
      | _, _ => Some (toFrontier row)
      end
  end.

Definition getServingFrontier (d : PotionDb) (clusterId : string) (orgId : option string) (instrument : Instrument)
    (opts : ServingOpts.t) : option Frontier.t :=
  match orgId with
  | None => getLatestFrontier d clusterId None instrument
  | Some orgId =>
      match ServingOpts.overrideFrontierId opts ≫= getFrontierById d with
      | Some override => Some override
      | None =>
          let pinned :=
            if bool_decide (ServingOpts.ignorePins opts = Some true) then None
            else getFrontierPin d orgId clusterId instrument ≫= fun pin => getFrontierById d (FrontierPinRow.frontierId pin) in
          match pinned with
          | Some f => Some f
          | None => org_preferred d clusterId orgId instrument
          end
      end
  end.

(** ** persistence.ts *)

Module FrontierProvenanceContext.
Record t := mk {
  suiteId : option string;
  suiteVersion : option string;
  rubricHash : option string;
  calibrationId : option string;
  suiteContentHash : option string;
}.
End FrontierProvenanceContext.

Module SaveFrontierOpts.
Record t := mk {
  orgId : option string;
  provenance : option FrontierProvenanceContext.t;
  instrument : option Instrument;
}.
End SaveFrontierOpts.

Definition SAVE_RETRIES : nat := 3.

(** [if (ev.x === undefined && ctx.x !== undefined) ev.x = ctx.x]. *)
Definition fill (own ctx : option string) : option string := match own with Some _ => own | None => ctx end.

Definition stamp_evidence (c : FrontierProvenanceContext.t) (ev : FrontierPointEvidence.t) : FrontierPointEvidence.t :=
  FrontierPointEvidence.mk
    (FrontierPointEvidence.cacheKeys ev) (FrontierPointEvidence.runIds ev) (FrontierPointEvidence.n ev)
    (FrontierPointEvidence.toolsMeasured ev) (FrontierPointEvidence.qualityCi95 ev) (FrontierPointEvidence.qualityCi ev)
    (FrontierPointEvidence.latencyN ev) (FrontierPointEvidence.latencyP95Ci95 ev) (FrontierPointEvidence.latencySeed ev)
    (fill (FrontierPointEvidence.suiteId ev) (FrontierProvenanceContext.suiteId c))
    (fill (FrontierPointEvidence.suiteVersion ev) (FrontierProvenanceContext.suiteVersion c))
    (FrontierPointEvidence.tokens ev) (FrontierPointEvidence.slices ev)
    (fill (FrontierPointEvidence.rubricHash ev) (FrontierProvenanceContext.rubricHash c))
    (fill (FrontierPointEvidence.calibrationId ev) (FrontierProvenanceContext.calibrationId c))
    (fill (FrontierPointEvidence.suiteContentHash ev) (FrontierProvenanceContext.suiteContentHash c)).

Definition stamp_point (c : FrontierProvenanceContext.t) (p : FrontierPoint.t) : FrontierPoint.t :=
  match FrontierPoint.evidence p with
  | None => p
  | Some ev =>
      FrontierPoint.mk (FrontierPoint.clusterId p) (FrontierPoint.strategyHash p) (FrontierPoint.strategyConfig p)
        (FrontierPoint.quality p) (FrontierPoint.costPer1K p) (FrontierPoint.latencyP95 p) (FrontierPoint.providerMode p)
        (Some (stamp_evidence c ev))
  end.

Definition stamped (opts : SaveFrontierOpts.t) (points : list FrontierPoint.t) : list FrontierPoint.t :=
  match SaveFrontierOpts.provenance opts with None => points | Some c => map (stamp_point c) points end.

(** The arguments of a call of [saveFrontier]. *)
Module SaveArgs.
Record t := mk {
  clusterId : string;
  points : list FrontierPoint.t;
  trigger : FrontierTrigger;
  pricesVersion : string;
  opts : SaveFrontierOpts.t;
}.
End SaveArgs.

Definition save_org (a : SaveArgs.t) : option string := SaveFrontierOpts.orgId (SaveArgs.opts a).
Definition save_instrument (a : SaveArgs.t) : Instrument := default default_instrument (SaveFrontierOpts.instrument (SaveArgs.opts a)).

Definition read_latest (d : PotionDb) (a : SaveArgs.t) : option Frontier.t :=
  getLatestFrontier d (SaveArgs.clusterId a) (save_org a) (save_instrument a).

(** The frontier a saver builds from what it read. *)
Definition next_frontier (a : SaveArgs.t) (prev : option Frontier.t) (uuid createdAt : string) : Frontier.t :=
  Frontier.mk ("fr-" +:+ uuid) (SaveArgs.clusterId a) (default 0%Z (Frontier.version <$> prev) + 1)%Z (Frontier.id <$> prev)
    (SaveArgs.trigger a) (stamped (SaveArgs.opts a) (SaveArgs.points a)) (SaveArgs.pricesVersion a) (save_org a)
    createdAt (Some (save_instrument a)).

(** A saver in its loop: the attempt it is on, and what it has read since it
    began it ([None] while the read is pending). *)
Module Saver.
Record t := mk { args : SaveArgs.t; attempt : nat; prev : option (option Frontier.t) }.
End Saver.

Record world := World { store : PotionDb; savers : gmap nat Saver.t }.

(** [Inserts]: the insert reaches the database; [Faults]: it fails for another
    reason.  The repositories' other writers are events too. *)
Inductive event :=
| Begin (i : nat) (a : SaveArgs.t)
| Reads (i : nat)
| Inserts (i : nat) (uuid createdAt : string)
| Faults (i : nat)
| Pins (pin : FrontierPinRow.t)
| Releases (orgId clusterId : string) (instrument : Instrument).

(** How a call of [saveFrontier] ends. *)
Inductive outcome := Saved (f : Frontier.t) | UniqueViolation | OtherError.

Definition insert_step (w : world) (i : nat) (s : Saver.t) (prev : option Frontier.t) (uuid createdAt : string) :
    world * option outcome :=
  let f := next_frontier (Saver.args s) prev uuid createdAt in
  match insertFrontier (store w) f with
  | Some d => (World d (delete i (savers w)), Some (Saved f))
  | None =>
      if (S (Saver.attempt s) <? SAVE_RETRIES)%nat
      then (World (store w) (<[i := Saver.mk (Saver.args s) (S (Saver.attempt s)) None]> (savers w)), None)
      else (World (store w) (delete i (savers w)), Some UniqueViolation)
  end.

Definition step (w : world) (e : event) : option (world * option outcome) :=
  match e with
  | Begin i a =>
      match savers w !! i with
      | Some _ => None
      | None => Some (World (store w) (<[i := Saver.mk a 0 None]> (savers w)), None)
      end
  | Reads i =>
      match savers w !! i with
      | Some (Saver.mk a n None) => Some (World (store w) (<[i := Saver.mk a n (Some (read_latest (store w) a))]> (savers w)), None)
      | _ => None
      end
  | Inserts i uuid createdAt =>
      match savers w !! i with
      | Some (Saver.mk a n (Some prev)) => Some (insert_step w i (Saver.mk a n (Some prev)) prev uuid createdAt)
      | _ => None
      end
  | Faults i =>
      match savers w !! i with
      | Some _ => Some (World (store w) (delete i (savers w)), Some OtherError)
      | None => None
      end
  | Pins pin => Some (World (setFrontierPin (store w) pin) (savers w), None)
  | Releases orgId clusterId instrument =>
      Some (World (releaseFrontierPin (store w) orgId clusterId instrument).1 (savers w), None)
  end.

Inductive reachable : world -> Prop :=
| reach_init : reachable (World empty_db ∅)
| reach_step w e w' o : reachable w -> step w e = Some (w', o) -> reachable w'.

(** A call of [saveFrontier] that nothing interrupts; [fresh k] is the random
    identifier and the clock reading of attempt [k].  [None]: the last
    violation is thrown. *)
Fixpoint save_loop (d : PotionDb) (a : SaveArgs.t) (fresh : nat -> string * string) (fuel attempt : nat) :
    option (PotionDb * Frontier.t) :=
  match fuel with
  | O => None
  | S fuel =>
      let f := next_frontier a (read_latest d a) (fresh attempt).1 (fresh attempt).2 in
      match insertFrontier d f with
      | Some d' => Some (d', f)
      | None => save_loop d a fresh fuel (S attempt)
      end
  end.

Definition saveFrontier (d : PotionDb) (a : SaveArgs.t) (fresh : nat -> string * string) : option (PotionDb * Frontier.t) :=
  save_loop d a fresh SAVE_RETRIES 0.

Definition loadCurrentFrontier (d : PotionDb) (clusterId : string) (orgId : option string) (instrument : Instrument)
    (overrideFrontierId : option string) : option Frontier.t :=
  getServingFrontier d clusterId orgId instrument (ServingOpts.mk None overrideFrontierId).

Definition loadFrontier (d : PotionDb) (id : string) : option Frontier.t := getFrontierById d id.

(** ** Queries *)

(** [top] returns a row that no row precedes, for any order whose
    incomparability is transitive. *)
Lemma top_spec {A} (before : A -> A -> bool) l x :
  (forall a b, before a b = true -> before b a = false) ->
  (forall a b c, before a b = false -> before b c = false -> before a c = false) ->
  top before l = Some x -> x ∈ l /\ forall y, y ∈ l -> before y x = false.
Proof.
  intros Has Htr. revert x. induction l as [|a l IH]; intros x; simpl; [done|].
  assert (forall z, before z z = false) as Hir by (intros z; destruct (before z z) eqn:E; [by rewrite <- (Has _ _ E)|done]).
  destruct (top before l) as [b|] eqn:Et.
  - destruct (IH b eq_refl) as [Hb Hall]. destruct (before b a) eqn:E; intros [= <-].
    + split; [by right|]. intros y [->|Hy]%elem_of_cons; auto.
    + split; [by left|]. intros y [->|Hy]%elem_of_cons; eauto.
  - destruct l; [|done]. intros [= <-]. split; [by left|]. by intros y ->%list_elem_of_singleton.
Qed.

Lemma top_none {A} (before : A -> A -> bool) l : top before l = None -> l = [].
Proof. by destruct l. Qed.

Lemma newer_spec l x : top newer l = Some x ->
  x ∈ l /\ forall y, y ∈ l -> (FrontierRow.version y <= FrontierRow.version x)%Z.
Proof.
  intros H. apply top_spec in H as [Hx Hall].
  - split; [done|]. intros y Hy. specialize (Hall y Hy). unfold newer in Hall. lia.
  - unfold newer. lia.
  - unfold newer. lia.
Qed.

Definition same_scope (r s : FrontierRow.t) : Prop :=
  FrontierRow.orgId r = FrontierRow.orgId s /\ FrontierRow.clusterId r = FrontierRow.clusterId s /\
  FrontierRow.instrument r = FrontierRow.instrument s.

Lemma in_scope_spec c o i r : in_scope c o i r = true <->
  FrontierRow.clusterId r = c /\ FrontierRow.orgId r = o /\ FrontierRow.instrument r = i.
Proof. unfold in_scope. rewrite !andb_true_iff, !bool_decide_eq_true. naive_solver. Qed.

(** The latest row of a scope: one of its rows, none newer. *)
Lemma latest_row_spec d c o i r : latest_row d c o i = Some r ->
  r ∈ frontiers d /\ in_scope c o i r = true /\
  forall s, s ∈ frontiers d -> in_scope c o i s = true -> (FrontierRow.version s <= FrontierRow.version r)%Z.
Proof.
  unfold latest_row. intros [Hr Hall]%newer_spec. apply elem_filter in Hr as [Hr Hi]. split; [done|]. split; [done|].
  intros s Hs Hsi. apply Hall, elem_filter. done.
Qed.

Lemma latest_row_none d c o i s : latest_row d c o i = None -> s ∈ frontiers d -> in_scope c o i s = false.
Proof.
  intros H%top_none Hs. destruct (in_scope c o i s) eqn:E; [|done].
  assert (s ∈ List.filter (in_scope c o i) (frontiers d)) as Hin by (by apply elem_filter). rewrite H in Hin. by apply not_elem_of_nil in Hin.
Qed.

(** ** Version chains *)

(** Every row of a table of frontiers: versions start at 1 without a parent, a
    later version's parent is the row of the version before in the same scope,
    and (scope, version) and the identifier determine the row. *)
Record chains (rows : list FrontierRow.t) : Prop := {
  chain_pos r : r ∈ rows -> (1 <= FrontierRow.version r)%Z;
  chain_root r : r ∈ rows -> FrontierRow.version r = 1%Z -> FrontierRow.parentId r = None;
  chain_parent r : r ∈ rows -> (1 < FrontierRow.version r)%Z ->
    exists s, s ∈ rows /\ same_scope s r /\ FrontierRow.version s = (FrontierRow.version r - 1)%Z /\
      FrontierRow.parentId r = Some (FrontierRow.id s);
  chain_unique r s : r ∈ rows -> s ∈ rows -> same_scope r s -> FrontierRow.version r = FrontierRow.version s -> r = s;
  chain_ids r s : r ∈ rows -> s ∈ rows -> FrontierRow.id r = FrontierRow.id s -> r = s;
}.

Lemma no_conflict rows r s : existsb (conflicts r) rows = false -> s ∈ rows ->
  FrontierRow.id r <> FrontierRow.id s /\ ~ (same_scope r s /\ FrontierRow.version r = FrontierRow.version s).
Proof.
  intros H Hs. assert (conflicts r s = false) as E.
  { destruct (conflicts r s) eqn:E; [|done]. rewrite <- H. symmetry. apply existsb_exists. exists s. by rewrite <- list_elem_of_In. }
  unfold conflicts in E. bool_prop. rewrite bool_decide_eq_false in *. unfold same_scope. naive_solver.
Qed.

(** Adding a row whose parent is there (or a first row) keeps the chains. *)
Lemma chains_insert rows r :
  chains rows -> existsb (conflicts r) rows = false ->
  (FrontierRow.version r = 1%Z /\ FrontierRow.parentId r = None \/
   exists s, s ∈ rows /\ same_scope s r /\ FrontierRow.version s = (FrontierRow.version r - 1)%Z /\
     FrontierRow.parentId r = Some (FrontierRow.id s)) ->
  chains (rows ++ [r]).
Proof.
  intros [Hp Hr Hpa Hu Hi] Hc Hnew.
  assert (forall s, s ∈ rows ++ [r] <-> s ∈ rows \/ s = r) as Hin by (intros s; rewrite elem_of_app, list_elem_of_singleton; done).
  pose proof (no_conflict rows r) as Hnc.
  split.
  - intros s [Hs| ->]%Hin; [auto|]. destruct Hnew as [[-> _]|(s & Hs & _ & E & _)]; [done|]. pose proof (Hp s Hs). lia.
  - intros s [Hs| ->]%Hin Hv; [auto|]. destruct Hnew as [[_ ?]|(s & Hs & _ & E & _)]; [done|]. pose proof (Hp s Hs). lia.
  - intros s [Hs| ->]%Hin Hv.
    + destruct (Hpa s Hs Hv) as (q & Hq & H). exists q. split; [apply Hin; by left|done].
    + destruct Hnew as [[? _]|(q & Hq & H)]; [lia|]. exists q. split; [apply Hin; by left|done].
  - intros s q [Hs| ->]%Hin [Hq| ->]%Hin Hss Hv; auto.
    + destruct (Hnc s Hc Hs) as [_ []]. unfold same_scope in *. naive_solver.
    + destruct (Hnc q Hc Hq) as [_ []]. done.
  - intros s q [Hs| ->]%Hin [Hq| ->]%Hin Hid; auto.
    + by destruct (Hnc s Hc Hs).
    + by destruct (Hnc q Hc Hq).
Qed.

(** Below every version of a scope, all versions down to 1. *)
Lemma chains_contiguous rows r v : chains rows -> r ∈ rows -> (1 <= v <= FrontierRow.version r)%Z ->
  exists s, s ∈ rows /\ same_scope s r /\ FrontierRow.version s = v.
Proof.
  intros H Hr Hv. remember (Z.to_nat (FrontierRow.version r - v)) as n eqn:En. revert r Hr Hv En.
  induction n as [|n IH]; intros r Hr Hv En.
  - exists r. split; [done|]. split; [done|lia].
  - destruct (chain_parent _ H r Hr ltac:(lia)) as (s & Hs & Hss & Hsv & _).
    destruct (IH s Hs ltac:(lia) ltac:(lia)) as (q & Hq & Hqs & Hqv). exists q. split; [done|]. split; [|done].
    unfold same_scope in *. naive_solver congruence.
Qed.

(** ** The invariant of the store *)

Definition args_scope (a : SaveArgs.t) (r : FrontierRow.t) : bool :=
  in_scope (SaveArgs.clusterId a) (save_org a) (save_instrument a) r.

(** The rows of [frontier_points] that belong to a frontier. *)
Definition mirrored (d : PotionDb) (id : string) : list FrontierPointRow.t :=
  List.filter (fun p => bool_decide (FrontierPointRow.frontierId p = id)) (frontierPoints d).

Record db_ok (d : PotionDb) : Prop := {
  db_chains : chains (frontiers d);
  db_mirror r : r ∈ frontiers d -> mirrored d (FrontierRow.id r) = map (point_row (toFrontier r)) (FrontierRow.points r);
  db_owned p : p ∈ frontierPoints d -> exists r, r ∈ frontiers d /\ FrontierRow.id r = FrontierPointRow.frontierId p;
}.

Definition prev_ok (d : PotionDb) (a : SaveArgs.t) (prev : option Frontier.t) : Prop :=
  match prev with None => True | Some f => exists r, r ∈ frontiers d /\ toFrontier r = f /\ args_scope a r = true end.

Record world_ok (w : world) : Prop := {
  world_db : db_ok (store w);
  world_savers i s : savers w !! i = Some s ->
    (Saver.attempt s < SAVE_RETRIES)%nat /\ forall prev, Saver.prev s = Some prev -> prev_ok (store w) (Saver.args s) prev;
}.

Lemma toFrontier_to_row f : is_Some (Frontier.instrument f) -> toFrontier (to_row f) = f.
Proof. destruct f; simpl. by intros [i ->]. Qed.

Lemma read_latest_ok d a : prev_ok d a (read_latest d a).
Proof.
  unfold read_latest, getLatestFrontier, prev_ok. destruct (latest_row _ _ _ _) as [r|] eqn:E; simpl; [|done].
  apply latest_row_spec in E as (Hr & Hi & _). eauto.
Qed.

(** A frontier built from what was read of its scope: the insert keeps the
    store's invariant. *)
Lemma insert_ok d a prev uuid t d' :
  db_ok d -> prev_ok d a prev -> insertFrontier d (next_frontier a prev uuid t) = Some d' -> db_ok d'.
Proof.
  intros [Hc Hm Ho] Hp. set (f := next_frontier a prev uuid t). unfold insertFrontier.
  destruct (existsb _ _) eqn:E; [done|]. intros [= <-].
  assert (toFrontier (to_row f) = f) as Hf by (by apply toFrontier_to_row; eexists).
  assert (forall p, p ∈ map (point_row f) (Frontier.points f) -> FrontierPointRow.frontierId p = Frontier.id f) as Hnew.
  { intros p (q & -> & _)%list_elem_of_fmap. done. }
  split; simpl.
  - apply chains_insert; [done|done|]. destruct prev as [g|]; [right|by left].
    destruct Hp as (r & Hr & <- & (Hcl & Ho' & Hi)%in_scope_spec). exists r. split; [done|]. split; [|split; [simpl; lia|done]].
    unfold same_scope. simpl. by rewrite Hcl, Ho', Hi.
  - intros r [Hr| ->%list_elem_of_singleton]%elem_of_app; unfold mirrored; simpl; rewrite List.filter_app.
    + rewrite (filter_none _ (map _ _)), app_nil_r; [by apply Hm|]. intros p Hp'. rewrite (Hnew p Hp').
      apply bool_decide_eq_false. intros Eid. by destruct (no_conflict _ _ _ E Hr).
    + rewrite filter_none, filter_all, Hf; [done| |].
      * intros p Hp'. rewrite (Hnew p Hp'). by apply bool_decide_eq_true.
      * intros p (r & Hr & <-)%Ho. apply bool_decide_eq_false. intros Eid. by destruct (no_conflict _ _ _ E Hr).
  - intros p [(r & Hr & Eid)%Ho|Hp']%elem_of_app.
    + exists r. split; [apply elem_of_app; by left|done].
    + exists (to_row f). split; [apply elem_of_app; right; by apply list_elem_of_singleton|by rewrite (Hnew p Hp')].
Qed.

Lemma prev_ok_insert d a prev f d' : prev_ok d a prev -> insertFrontier d f = Some d' -> prev_ok d' a prev.
Proof.
  unfold insertFrontier. destruct (existsb _ _); [done|]. intros H [= <-]. destruct prev as [g|]; [|done].
  destruct H as (r & Hr & H). exists r. simpl. split; [apply elem_of_app; by left|done].
Qed.

Lemma insert_step_ok w i s prev uuid t :
  world_ok w -> savers w !! i = Some s -> Saver.prev s = Some prev -> world_ok (insert_step w i s prev uuid t).1.
Proof.
  intros [Hd Hs] Hi Hp. destruct (Hs i s Hi) as [_ Hprev]. specialize (Hprev prev Hp). unfold insert_step.
  destruct (insertFrontier _ _) as [d|] eqn:E.
  - split; simpl; [by eapply insert_ok|]. intros j q Hj. apply lookup_delete_Some in Hj as [_ Hj].
    destruct (Hs j q Hj) as [? Hq]. split; [done|]. intros pv Hpv. eapply prev_ok_insert; eauto.
  - destruct (Nat.ltb_spec (S (Saver.attempt s)) SAVE_RETRIES); split; simpl; try done.
    + intros j q [[<- <-]|[_ Hj]]%lookup_insert_Some; simpl; [done|by apply (Hs j)].
    + intros j q [_ Hj]%lookup_delete_Some. by apply (Hs j).
Qed.

Lemma step_ok w e w' o : world_ok w -> step w e = Some (w', o) -> world_ok w'.
Proof.
  intros Hw E. destruct e as [i a|i|i uuid t|i|pin|og cl ins]; simpl in E.
  - destruct (savers w !! i) eqn:Hi; simplify_eq. destruct Hw as [Hd Hs]. split; [done|]. simpl.
    intros j q [[<- <-]|[_ Hj]]%lookup_insert_Some; simpl; [unfold SAVE_RETRIES; split; [lia|done]|by apply (Hs j)].
  - destruct (savers w !! i) as [[a n [p|]]|] eqn:Hi; simplify_eq. destruct Hw as [Hd Hs]. split; [done|]. simpl.
    intros j q [[<- <-]|[_ Hj]]%lookup_insert_Some; simpl; [|by apply (Hs j)]. destruct (Hs i _ Hi) as [? _].
    split; [done|]. intros prev [= <-]. apply read_latest_ok.
  - destruct (savers w !! i) as [[a n [p|]]|] eqn:Hi; try done. apply (f_equal (fmap fst)) in E. simpl in E. injection E as <-.
    by apply insert_step_ok.
  - destruct (savers w !! i) eqn:Hi; simplify_eq. destruct Hw as [Hd Hs]. split; [done|]. simpl.
    intros j q [_ Hj]%lookup_delete_Some. by apply (Hs j).
  - simplify_eq. destruct Hw as [[Hc Hm Ho] Hs]. by split.
  - simplify_eq. destruct Hw as [[Hc Hm Ho] Hs]. by split.
Qed.

Lemma reachable_world_ok w : reachable w -> world_ok w.
Proof.
  induction 1 as [|w e w' o _ IH E]; [|by eapply step_ok].
  split; simpl; [|by intros ? ?; rewrite lookup_empty]. split; simpl; try (by intros ? ?%not_elem_of_nil).
  split; by intros ? ?%not_elem_of_nil || intros ? ? ?%not_elem_of_nil.
Qed.

(** C24. Whatever savers interleave, every scope is one chain of versions 1, 2, ...
    without a gap or a duplicate, each version's parent is the row before it,
    and [frontier_points] holds exactly the points of every frontier. *)
Theorem frontier_chains w :
  reachable w ->
  chains (frontiers (store w)) /\
  (forall r v, r ∈ frontiers (store w) -> (1 <= v <= FrontierRow.version r)%Z ->
     exists s, s ∈ frontiers (store w) /\ same_scope s r /\ FrontierRow.version s = v) /\
  (forall r, r ∈ frontiers (store w) ->
     mirrored (store w) (FrontierRow.id r) = map (point_row (toFrontier r)) (FrontierRow.points r)).
Proof.
  intros [[Hc Hm _] _]%reachable_world_ok. split; [done|]. split; [|done]. intros r v. by apply chains_contiguous.
Qed.

(** ** What a saver gets *)

Lemma find_id rows r : chains rows -> r ∈ rows ->
  find (fun s => bool_decide (FrontierRow.id s = FrontierRow.id r)) rows = Some r.
Proof.
  intros Hc Hr. destruct (find _ rows) as [s|] eqn:E.
  - apply find_some in E as [Hs Eid%bool_decide_eq_true]. f_equal. apply (chain_ids _ Hc); [by apply list_elem_of_In|done|done].
  - exfalso. apply list_elem_of_In in Hr. by apply (find_none _ _ E), bool_decide_eq_false in Hr.
Qed.

(** The frontier that has just been inserted is the newest of its scope. *)
Lemma inserted_latest d a prev uuid t d' :
  let f := next_frontier a prev uuid t in
  db_ok d -> prev_ok d a prev -> insertFrontier d f = Some d' ->
  read_latest d' a = Some f /\ getFrontierById d' (Frontier.id f) = Some f.
Proof.
  intros f Hd Hp E. pose proof (insert_ok d a prev uuid t d' Hd Hp E) as [Hc _ _].
  assert (toFrontier (to_row f) = f) as Hf by (by apply toFrontier_to_row; eexists).
  assert (to_row f ∈ frontiers d' /\ existsb (conflicts (to_row f)) (frontiers d) = false /\
    forall s, s ∈ frontiers d' -> s ∈ frontiers d \/ s = to_row f) as (Hin & Hnc & Hsub).
  { unfold insertFrontier in E. destruct (existsb _ _); [done|]. injection E as <-. simpl.
    split; [apply elem_of_app; right; by apply list_elem_of_singleton|]. split; [done|].
    intros s [?| ->%list_elem_of_singleton]%elem_of_app; auto. }
  assert (args_scope a (to_row f) = true) as Hsc by (apply in_scope_spec; done).
  split.
  - unfold read_latest, getLatestFrontier. destruct (latest_row _ _ _ _) as [r|] eqn:L; simpl.
    + apply latest_row_spec in L as (Hr & Hrs & Hmax). f_equal. rewrite <- Hf. f_equal.
      specialize (Hmax _ Hin Hsc). destruct (Hsub r Hr) as [Hr'| ->]; [|done]. exfalso.
      assert (same_scope (to_row f) r) as Hss.
      { apply in_scope_spec in Hrs as (? & ? & ?), Hsc as (? & ? & ?). unfold same_scope. naive_solver congruence. }
      destruct Hd as [Hcd _ _].
      destruct (chains_contiguous (frontiers d) r (FrontierRow.version (to_row f)) Hcd Hr') as (s & Hs & Hs' & Hv).
      { split; [|done]. by apply (chain_pos _ Hc). }
      destruct (no_conflict _ _ _ Hnc Hs) as [_ []]. unfold same_scope in *. naive_solver congruence.
    + pose proof (latest_row_none _ _ _ _ _ L Hin) as H0. unfold args_scope in Hsc. congruence.
  - unfold getFrontierById. change (Frontier.id f) with (FrontierRow.id (to_row f)). rewrite find_id by done. simpl. by rewrite Hf.
Qed.

(** A save that returns: the frontier it returns is what the next reader of the
    scope gets and what its identifier resolves to, one version after the one
    the saver read, with that one as its parent. *)
Theorem saved_is_latest w i uuid t w' f :
  reachable w -> step w (Inserts i uuid t) = Some (w', Some (Saved f)) ->
  exists a prev, (Saver.prev <$> savers w !! i) = Some (Some prev) /\ (Saver.args <$> savers w !! i) = Some a /\
    read_latest (store w') a = Some f /\ loadFrontier (store w') (Frontier.id f) = Some f /\
    Frontier.version f = (default 0 (Frontier.version <$> prev) + 1)%Z /\ Frontier.parentId f = Frontier.id <$> prev.
Proof.
  intros [Hd Hs]%reachable_world_ok E. simpl in E. destruct (savers w !! i) as [[a n [prev|]]|] eqn:Hi; try done.
  destruct (Hs i _ Hi) as [_ Hp]. specialize (Hp prev eq_refl). unfold insert_step in E. simpl in *.
  destruct (insertFrontier _ _) as [d|] eqn:Ei; [|by destruct (_ <? _)%nat]. simplify_eq/=.
  destruct (inserted_latest _ _ _ _ _ _ Hd Hp Ei) as [? ?]. by exists a, prev.
Qed.

(** C26. A save that does not go through, its identifier being new: the scope has
    moved on since the saver read it (the version it tried is there), and it
    throws only on its third attempt. *)
Theorem lost_race w i a n prev uuid t w' o :
  reachable w -> savers w !! i = Some (Saver.mk a n (Some prev)) ->
  (forall r, r ∈ frontiers (store w) -> FrontierRow.id r <> "fr-" +:+ uuid) ->
  step w (Inserts i uuid t) = Some (w', o) -> (forall f, o <> Some (Saved f)) ->
  (exists r, r ∈ frontiers (store w) /\ args_scope a r = true /\
     FrontierRow.version r = (default 0 (Frontier.version <$> prev) + 1)%Z) /\
  (o = Some UniqueViolation /\ n = 2%nat /\ savers w' !! i = None \/
   o = None /\ (n < 2)%nat /\ savers w' !! i = Some (Saver.mk a (S n) None)).
Proof.
  intros [_ Hs]%reachable_world_ok Hi Hid E Ho. destruct (Hs i _ Hi) as [Hn _]. simpl in E, Hn. rewrite Hi in E. unfold insert_step in E. simpl in E.
  destruct (insertFrontier _ _) as [d|] eqn:Ei; [by simplify_eq; edestruct Ho|]. split.
  - unfold insertFrontier in Ei. destruct (existsb _ _) eqn:Ex; [|done]. apply existsb_exists in Ex as (r & Hr%list_elem_of_In & Hc).
    exists r. split; [done|]. unfold conflicts in Hc. apply orb_true_iff in Hc as [Hc|Hc]; apply bool_decide_eq_true in Hc.
    + by destruct (Hid r Hr).
    + destruct Hc as (? & ? & ? & ?). split; [|done]. by apply in_scope_spec.
  - unfold SAVE_RETRIES in *. destruct (Nat.ltb_spec (S n) 3); simplify_eq/=.
    + right. split; [done|]. split; [lia|]. apply lookup_insert_eq.
    + left. split; [done|]. split; [lia|]. apply lookup_delete_eq.
Qed.

(** Without a competitor the first attempt goes through. *)
Theorem saveFrontier_alone d a fresh :
  db_ok d -> (forall r, r ∈ frontiers d -> FrontierRow.id r <> "fr-" +:+ (fresh 0%nat).1) ->
  exists d' f, saveFrontier d a fresh = Some (d', f) /\ read_latest d' a = Some f /\
    loadFrontier d' (Frontier.id f) = Some f.
Proof.
  intros Hd Hid. unfold saveFrontier, SAVE_RETRIES. cbn [save_loop].
  set (f := next_frontier a (read_latest d a) (fresh 0%nat).1 (fresh 0%nat).2).
  destruct (insertFrontier d f) as [d'|] eqn:E.
  { exists d', f. split; [done|]. by apply (inserted_latest d a (read_latest d a)), E; [|apply read_latest_ok]. }
  exfalso. unfold insertFrontier in E. destruct (existsb _ _) eqn:Ex; [|done].
  apply existsb_exists in Ex as (r & Hr%list_elem_of_In & Hc).
  unfold conflicts in Hc. apply orb_true_iff in Hc as [Hc|Hc]; apply bool_decide_eq_true in Hc; [by destruct (Hid r Hr)|].
  destruct Hc as (Hoo & Hcc & Hii & Hvv). assert (args_scope a r = true) as Hsc by (by apply in_scope_spec).
  simpl in Hvv. unfold read_latest, getLatestFrontier in Hvv. destruct (latest_row _ _ _ _) as [q|] eqn:L; simpl in Hvv.
  - apply latest_row_spec in L as (_ & _ & Hmax). specialize (Hmax r Hr Hsc). lia.
  - pose proof (latest_row_none _ _ _ _ _ L Hr) as H0. unfold args_scope in Hsc. congruence.
Qed.

(** ** What serving reads *)

Lemma org_top_spec l x : top org_then_newer l = Some x -> x ∈ l /\ forall y, y ∈ l -> org_then_newer y x = false.
Proof.
  apply top_spec.
  - intros a b. unfold org_then_newer, newer. destruct (FrontierRow.orgId a), (FrontierRow.orgId b); done || lia.
  - intros a b c. unfold org_then_newer, newer.
    destruct (FrontierRow.orgId a), (FrontierRow.orgId b), (FrontierRow.orgId c); done || lia.
Qed.

Lemma visible_spec c o i r : visible c o i r = true <->
  FrontierRow.clusterId r = c /\ (FrontierRow.orgId r = Some o \/ FrontierRow.orgId r = None) /\ FrontierRow.instrument r = i.
Proof. unfold visible. rewrite !andb_true_iff, orb_true_iff, !bool_decide_eq_true. naive_solver. Qed.

(** Two latest rows of one scope are one row. *)
Lemma latest_unique d c o i r s :
  chains (frontiers d) -> latest_row d c o i = Some r -> s ∈ frontiers d -> in_scope c o i s = true ->
  (FrontierRow.version r <= FrontierRow.version s)%Z -> s = r.
Proof.
  intros Hc (Hr & Hri & Hmax)%latest_row_spec Hs Hsi Hle. specialize (Hmax s Hs Hsi).
  apply in_scope_spec in Hri as (? & ? & ?), Hsi as (? & ? & ?).
  apply (chain_unique _ Hc); [done|done|unfold same_scope; naive_solver congruence|lia].
Qed.

Lemma org_top d c o i :
  chains (frontiers d) ->
  top org_then_newer (List.filter (visible c o i) (frontiers d)) =
  match latest_row d c (Some o) i with Some r => Some r | None => latest_row d c None i end.
Proof.
  intros Hc. destruct (top _ _) as [x|] eqn:Et.
  - apply org_top_spec in Et as [[Hx (Hxc & Hxo & Hxi)%visible_spec]%elem_filter Hbef].
    assert (forall y, y ∈ frontiers d -> visible c o i y = true -> org_then_newer y x = false) as Hb
      by (intros; apply Hbef, elem_filter; done).
    destruct (latest_row d c (Some o) i) as [r|] eqn:L.
    + pose proof (latest_row_spec _ _ _ _ _ L) as (Hr & (Hrc & Hro & Hri)%in_scope_spec & _).
      specialize (Hb r Hr). rewrite visible_spec in Hb. specialize (Hb ltac:(auto)). unfold org_then_newer, newer in Hb. rewrite Hro in Hb.
      destruct Hxo as [Hxo|Hxo]; rewrite Hxo in Hb; [|done]. f_equal.
      apply (latest_unique d c (Some o) i); [done|done|done|by apply in_scope_spec|lia].
    + destruct Hxo as [Hxo|Hxo].
      { pose proof (latest_row_none _ _ _ _ _ L Hx) as H0. rewrite (proj2 (in_scope_spec c (Some o) i x)) in H0 by done. done. }
      destruct (latest_row d c None i) as [q|] eqn:L'.
      * pose proof (latest_row_spec _ _ _ _ _ L') as (Hq & (Hqc & Hqo & Hqi)%in_scope_spec & _).
        specialize (Hb q Hq). rewrite visible_spec in Hb. specialize (Hb ltac:(auto)). unfold org_then_newer, newer in Hb.
        rewrite Hqo, Hxo in Hb. f_equal. apply (latest_unique d c None i); [done|done|done|by apply in_scope_spec|lia].
      * pose proof (latest_row_none _ _ _ _ _ L' Hx) as H0. rewrite (proj2 (in_scope_spec c None i x)) in H0 by done. done.
  - apply top_none in Et.
    assert (forall y, y ∈ frontiers d -> visible c o i y = true -> False) as Hno.
    { intros y Hy Hv. assert (y ∈ List.filter (visible c o i) (frontiers d)) as H by (by apply elem_filter). rewrite Et in H.
      by apply not_elem_of_nil in H. }
    destruct (latest_row d c (Some o) i) as [r|] eqn:L.
    { apply latest_row_spec in L as (Hr & (? & ? & ?)%in_scope_spec & _). exfalso. apply (Hno r Hr), visible_spec. auto. }
    destruct (latest_row d c None i) as [r|] eqn:L'; [|done].
    apply latest_row_spec in L' as (Hr & (? & ? & ?)%in_scope_spec & _). exfalso. apply (Hno r Hr), visible_spec. auto.
Qed.

(** The serving read of an org without a pin: the latest frontier of its own
    scope, unless that is empty (then the platform's latest on the default
    instrument); without a frontier of its own, the platform's latest on the
    instrument asked for. *)
Theorem serving_read w c o i :
  reachable w -> getFrontierPin (store w) o c i = None ->
  loadCurrentFrontier (store w) c (Some o) i None =
  match latest_row (store w) c (Some o) i with
  | Some r => if bool_decide (FrontierRow.points r = []) then getLatestFrontier (store w) c None default_instrument
              else Some (toFrontier r)
  | None => getLatestFrontier (store w) c None i
  end.
Proof.
  intros [[Hc _ _] _]%reachable_world_ok Hp. unfold loadCurrentFrontier, getServingFrontier. simpl. rewrite Hp. simpl.
  unfold org_preferred. rewrite org_top by done. destruct (latest_row (store w) c (Some o) i) as [r|] eqn:L.
  - apply latest_row_spec in L as (_ & (_ & -> & _)%in_scope_spec & _). by destruct (FrontierRow.points r).
  - unfold getLatestFrontier. destruct (latest_row (store w) c None i) as [r|] eqn:L'; [|done].
    apply latest_row_spec in L' as (_ & (_ & -> & _)%in_scope_spec & _). done.
Qed.

Lemma find_app_some {A} (f : A -> bool) l k x : find f l = Some x -> find f (l ++ k) = Some x.
Proof. induction l as [|a l IH]; simpl; [done|]. by destruct (f a). Qed.

Lemma find_filter_other {A} (f g : A -> bool) l :
  (forall x, f x = true -> g x = true) -> find f (List.filter g l) = find f l.
Proof.
  intros H. induction l as [|a l IH]; simpl; [done|]. destruct (g a) eqn:Eg; simpl; [by rewrite IH|].
  destruct (f a) eqn:Ef; [|done]. by rewrite H in Eg.
Qed.

Lemma is_pin_spec o c i p : is_pin o c i p = true <->
  FrontierPinRow.orgId p = o /\ FrontierPinRow.clusterId p = c /\ FrontierPinRow.instrument p = i.
Proof. unfold is_pin. rewrite !andb_true_iff, !bool_decide_eq_true. naive_solver. Qed.

(** Setting another pin leaves this one. *)
Lemma set_other d o c i pin : is_pin o c i pin = false -> getFrontierPin (setFrontierPin d pin) o c i = getFrontierPin d o c i.
Proof.
  intros H. unfold getFrontierPin, setFrontierPin. simpl.
  set (same := is_pin (FrontierPinRow.orgId pin) (FrontierPinRow.clusterId pin) (FrontierPinRow.instrument pin)).
  assert (forall p, same p = true -> is_pin o c i p = false) as Hs.
  { intros p (? & ? & ?)%is_pin_spec. destruct (is_pin o c i p) eqn:E; [|done]. apply is_pin_spec in E as (? & ? & ?).
    rewrite (proj2 (is_pin_spec o c i pin)) in H by (split_and!; congruence). done. }
  destruct (existsb same (frontierPins d)) eqn:Ex.
  - clear Ex. induction (frontierPins d) as [|p l IH]; simpl; [done|]. destruct (same p) eqn:E; [rewrite H, (Hs p E)|]; by rewrite IH.
  - clear Ex. induction (frontierPins d) as [|p l IH]; simpl; [by rewrite H|]. by rewrite IH.
Qed.

Definition touches_pin (o c : string) (i : Instrument) (e : event) : bool :=
  match e with
  | Pins pin => is_pin o c i pin
  | Releases o' c' i' => bool_decide (o' = o /\ c' = c /\ i' = i)
  | _ => false
  end.

(** A pinned cluster does not move: whatever is saved, and whoever else pins or
    releases, the org is served the frontier it pinned. *)
Theorem pin_stable w e w' out o c i pin f :
  reachable w -> getFrontierPin (store w) o c i = Some pin -> loadFrontier (store w) (FrontierPinRow.frontierId pin) = Some f ->
  step w e = Some (w', out) -> touches_pin o c i e = false ->
  loadCurrentFrontier (store w') c (Some o) i None = Some f.
Proof.
  intros _ Hp Hf E Ht.
  enough (getFrontierPin (store w') o c i = Some pin /\ getFrontierById (store w') (FrontierPinRow.frontierId pin) = Some f) as [Hp' Hf'].
  { unfold loadCurrentFrontier, getServingFrontier. simpl. rewrite Hp'. simpl. by rewrite Hf'. }
  unfold loadFrontier in Hf. destruct e as [j a|j|j uuid t|j|pin'|o' c' i']; simpl in E.
  - destruct (savers w !! j); by simplify_eq.
  - destruct (savers w !! j) as [[a n [p|]]|]; try done. by injection E as <- <-.
  - destruct (savers w !! j) as [[a n [p|]]|]; try done. unfold insert_step in E.
    destruct (insertFrontier _ _) as [d|] eqn:Ei; [|destruct (_ <? _)%nat; by injection E as <- <-].
    injection E as <- <-. simpl.
    unfold insertFrontier in Ei. destruct (existsb _ _); [done|]. injection Ei as <-. split; [done|].
    unfold getFrontierById in *. destruct (find _ (frontiers (store w))) as [r|] eqn:Er; [|done]. simpl.
    by rewrite (find_app_some _ _ _ _ Er).
  - destruct (savers w !! j); by simplify_eq.
  - simplify_eq/=. split; [|done]. by rewrite set_other.
  - simplify_eq/=. split; [|done]. unfold getFrontierPin. simpl. rewrite find_filter_other; [done|].
    intros p (? & ? & ?)%is_pin_spec. apply negb_true_iff. destruct (is_pin o' c' i' p) eqn:E; [|done].
    apply is_pin_spec in E as (? & ? & ?). apply bool_decide_eq_false in Ht. destruct Ht. split_and!; congruence.
Qed.

(** ** A concrete history *)

Import Fixtures.

Definition args (org : option string) (ins : Instrument) (pts : list FrontierPoint.t) : SaveArgs.t :=
  SaveArgs.mk "code-gen" pts recompute "prices-1" (SaveFrontierOpts.mk org None (Some ins)).

Definition save (i : nat) (uuid : string) (a : SaveArgs.t) : list event := [Begin i a; Reads i; Inserts i uuid "t"].

Definition run (es : list event) (w : world) : option world :=
  foldl (fun w e => w ≫= fun w => fst <$> step w e) (Some w) es.

Lemma run_world_reachable es w w' : reachable w -> run es w = Some w' -> reachable w'.
Proof.
  intros Hw. revert w'. induction es as [|e es IH] using rev_ind; intros w'; unfold run.
  - by intros [= <-].
  - rewrite foldl_snoc. fold (run es w). destruct (run es w) as [w1|]; [|done]. simpl.
    destruct (step w1 e) as [[w2 out]|] eqn:E; [|done]. intros [= <-]. eapply reach_step; [by apply IH|exact E].
Qed.

(** The platform publishes a frontier on the default instrument and one on the
    tools instrument; org [o1] publishes its own tools frontier and later
    retires every point of it. *)
Definition retired_history : list event :=
  save 0 "a" (args None default_instrument [cheap]) ++ save 1 "b" (args None tools_instrument [best]) ++
  save 2 "c" (args (Some "o1") tools_instrument [mid]) ++ save 3 "d" (args (Some "o1") tools_instrument []).
Definition retired_world : world := default (World empty_db ∅) (run retired_history (World empty_db ∅)).

(** The fallback of a retired org frontier forgets the instrument: the tools
    read gets the platform's default-instrument frontier although the platform
    has one measured on tools, which an org without a frontier would get. *)
Theorem retired_fallback_instrument :
  Frontier.id <$> loadCurrentFrontier (store retired_world) "code-gen" (Some "o1") tools_instrument None = Some "fr-a" /\
  Frontier.id <$> loadCurrentFrontier (store retired_world) "code-gen" (Some "o2") tools_instrument None = Some "fr-b".
Proof. by vm_compute. Qed.

(** Two savers of one scope that both read before either inserts. *)
Definition race_history : list event :=
  [Begin 0 (args None default_instrument [cheap]); Begin 1 (args None default_instrument [mid]); Reads 0; Reads 1;
   Inserts 0 "a" "t"].
Definition race_world : world := default (World empty_db ∅) (run race_history (World empty_db ∅)).

Lemma race_reachable : reachable race_world.
Proof. apply (run_world_reachable race_history (World empty_db ∅)); [apply reach_init|vm_compute; reflexivity]. Defined.

Lemma retired_reachable : reachable retired_world.
Proof. apply (run_world_reachable retired_history (World empty_db ∅)); [apply reach_init|vm_compute; reflexivity]. Defined.

Lemma frontier_chains_witness :
  chains (frontiers (store retired_world)) /\ length (frontiers (store retired_world)) = 4%nat.
Proof. split; [apply (frontier_chains retired_world retired_reachable)|vm_compute; reflexivity]. Defined.

Lemma saved_is_latest_witness :
  let w := default (World empty_db ∅) (run (take 4 race_history) (World empty_db ∅)) in
  exists w' f, step w (Inserts 0 "a" "t") = Some (w', Some (Saved f)) /\ loadFrontier (store w') (Frontier.id f) = Some f.
Proof.
  intros w. assert (reachable w) as Hw.
  { apply (run_world_reachable (take 4 race_history) (World empty_db ∅)); [apply reach_init|vm_compute; reflexivity]. }
  destruct (step w (Inserts 0 "a" "t")) as [[w' [[f| |]|]]|] eqn:E; try (vm_compute in E; discriminate E).
  exists w', f. split; [reflexivity|]. by destruct (saved_is_latest w 0 "a" "t" w' f Hw E) as (a & prev & _ & _ & _ & H & _).
Defined.

Lemma lost_race_witness :
  exists w', step race_world (Inserts 1 "b" "t") = Some (w', None) /\
    savers w' !! 1%nat = Some (Saver.mk (args None default_instrument [mid]) 1 None).
Proof.
  destruct (step race_world (Inserts 1 "b" "t")) as [[w' o]|] eqn:E; [|vm_compute in E; discriminate E].
  destruct (lost_race race_world 1 (args None default_instrument [mid]) 0 None "b" "t" w' o) as [_ [(_ & H & _)|(-> & _ & H)]].
  - apply race_reachable.
  - vm_compute. reflexivity.
  - intros r Hr. vm_compute in Hr. apply list_elem_of_singleton in Hr. rewrite Hr. discriminate.
  - exact E.
  - intros f ->. vm_compute in E. discriminate E.
  - discriminate H.
  - exists w'. split; [reflexivity|exact H].
Defined.

Lemma saveFrontier_alone_witness :
  exists d' f, saveFrontier empty_db (args None default_instrument [cheap]) (fun _ => ("a", "t")) = Some (d', f) /\
    loadFrontier d' (Frontier.id f) = Some f.
Proof.
  destruct (saveFrontier_alone empty_db (args None default_instrument [cheap]) (fun _ => ("a", "t"))) as (d' & f & E & _ & H).
  - apply (world_db _ (reachable_world_ok _ reach_init)).
  - intros r Hr. by apply not_elem_of_nil in Hr.
  - by exists d', f.
Defined.

Lemma serving_read_witness :
  Frontier.id <$> loadCurrentFrontier (store retired_world) "code-gen" (Some "o2") tools_instrument None = Some "fr-b".
Proof. rewrite (serving_read retired_world); [vm_compute; reflexivity|apply retired_reachable|vm_compute; reflexivity]. Defined.

Definition pin_a : FrontierPinRow.t := FrontierPinRow.mk "o1" "code-gen" default_instrument "fr-a" 1 "ops".
Definition pinned_history : list event :=
  save 0 "a" (args None default_instrument [cheap]) ++ [Pins pin_a; Begin 1 (args (Some "o1") default_instrument [best]); Reads 1].
Definition pinned_world : world := default (World empty_db ∅) (run pinned_history (World empty_db ∅)).

Lemma pin_stable_witness :
  exists w' out, step pinned_world (Inserts 1 "b" "t") = Some (w', out) /\
  Frontier.id <$> loadCurrentFrontier (store w') "code-gen" (Some "o1") default_instrument None = Some "fr-a".
Proof.
  destruct (step pinned_world (Inserts 1 "b" "t")) as [[w' out]|] eqn:E; [|vm_compute in E; discriminate E].
  exists w', out. split; [reflexivity|].
  rewrite (pin_stable pinned_world (Inserts 1 "b" "t") w' out "o1" "code-gen" default_instrument pin_a
    (toFrontier (to_row (next_frontier (args None default_instrument [cheap]) None "a" "t")))).
  - reflexivity.
  - apply (run_world_reachable pinned_history (World empty_db ∅)); [apply reach_init|vm_compute; reflexivity].
  - vm_compute. reflexivity.
  - vm_compute. reflexivity.
  - exact E.
  - reflexivity.
Defined.

End Store.
