(* ===== verification/Shape.v ===== *)
(** * Request shapes and coverage: core/src/shape.ts, core/src/coverage.ts

    The content-free description of a request, the key of its demand cell, and
    the verdict on whether the measured evidence covers such a cell.  A
    string's length is its number of units. *)

From S2P Require Import Prelude Number Types.

Module Shape.
Import Num.

(** ** shape.ts *)

Module CharBucket.
Record t := mk { label : string; max : number }.
End CharBucket.

Definition CHAR_BUCKETS : list CharBucket.t :=
  [CharBucket.mk "0-1k" (of_Z 1000); CharBucket.mk "1k-4k" (of_Z 4000); CharBucket.mk "4k-16k" (of_Z 16000);
   CharBucket.mk "16k-64k" (of_Z 64000); CharBucket.mk "64k-256k" (of_Z 256000); CharBucket.mk "256k+" Infinity].

Inductive ToolChoiceMode := mode_none | mode_auto | mode_required | mode_named.

Module RequestShape.
Record t := mk {
  messages : nat;
  system : bool;
  tools : nat;
  toolChoice : option ToolChoiceMode;
  stream : bool;
  maxTokens : option number;
  chars : string;
}.
End RequestShape.

Module ShapeInput.
Record t := mk {
  messages : list ChatMessage.t;
  tools : option (list json);
  tool_choice : option ToolChoice;
  stream : option bool;
  max_tokens : option number;
}.
End ShapeInput.

Definition charBucket (total : number) : string :=
  match find (fun b => ltb total (CharBucket.max b)) CHAR_BUCKETS with
  | Some b => CharBucket.label b
  | None => "256k+"
  end.

Definition toolChoiceMode (choice : option ToolChoice) : option ToolChoiceMode :=
  match choice with
  | None => None
  | Some choice_none => Some mode_none
  | Some choice_auto => Some mode_auto
  | Some choice_required => Some mode_required
  | Some (choice_function _) => Some mode_named
  end.

(** The loop over the messages: the total length and the system flag. *)
Definition scan_message (acc : Z * bool) (m : ChatMessage.t) : Z * bool :=
  ((acc.1 + Z.of_nat (String.length (ChatMessage.content m)))%Z,
   acc.2 || bool_decide (ChatMessage.role m = system)).

Definition requestShape (input : ShapeInput.t) : RequestShape.t :=
  let '(chars, sys) := foldl scan_message (0%Z, false) (ShapeInput.messages input) in
  RequestShape.mk (length (ShapeInput.messages input)) sys
    (match ShapeInput.tools input with Some l => length l | None => 0 end)
    (toolChoiceMode (ShapeInput.tool_choice input))
    (bool_decide (ShapeInput.stream input = Some true))
    (ShapeInput.max_tokens input) (charBucket (of_Z chars)).

Definition shapeClass (shape : RequestShape.t) : string :=
  String.concat "/" [if (0 <? RequestShape.tools shape)%nat then "tools" else "no-tools";
                     if RequestShape.stream shape then "stream" else "sync"; RequestShape.chars shape].

Definition charBucketMax (label : string) : number :=
  match find (fun b => bool_decide (CharBucket.label b = label)) CHAR_BUCKETS with
  | Some b => CharBucket.max b
  | None => Infinity
  end.

Module ParsedShapeClass.
Record t := mk { tools : bool; stream : bool; chars : string }.
End ParsedShapeClass.

Definition slash : Ascii.ascii := Ascii.Ascii true true true true false true false false.

(** [key.split('/')]. *)
Fixpoint split_slash (s : string) : list string :=
  match s with
  | EmptyString => [EmptyString]
  | String c s =>
      if Ascii.eqb c slash then EmptyString :: split_slash s
      else match split_slash s with
           | [] => [String c EmptyString]
           | p :: ps => String c p :: ps
           end
  end.

Definition parseShapeClass (key : string) : option ParsedShapeClass.t :=
  match split_slash key with
  | [tools; stream; chars] =>
      if negb (bool_decide (tools = "tools")) && negb (bool_decide (tools = "no-tools")) then None
      else if negb (bool_decide (stream = "stream")) && negb (bool_decide (stream = "sync")) then None
      else if negb (existsb (fun b => bool_decide (CharBucket.label b = chars)) CHAR_BUCKETS) then None
      else Some (ParsedShapeClass.mk (bool_decide (tools = "tools")) (bool_decide (stream = "stream")) chars)
  | _ => None
  end.

(** ** coverage.ts *)

Definition MIN_MEASURED_POINTS : number := of_Z 3.
Definition CHARS_PER_TOKEN : number := of_Z 4.

Inductive CoverageReason :=
| covered | unassigned_region | no_live_points | no_tool_capable_point | context_too_short | thin_evidence.

#[export] Instance CoverageReason_eq_dec : EqDecision CoverageReason.
Proof. solve_decision. Defined.

Definition REASON_SEVERITY (r : CoverageReason) : number :=
  match r with
  | covered => zero
  | no_live_points => one
  | no_tool_capable_point => lit 9 1
  | context_too_short => lit 8 1
  | unassigned_region => lit 7 1
  | thin_evidence => lit 4 1
  end.

Inductive BucketKind := cluster | unassigned.

#[export] Instance BucketKind_eq_dec : EqDecision BucketKind.
Proof. solve_decision. Defined.

Module CoverageCell.
Record t := mk { bucket : string; bucketKind : BucketKind; shapeClass : string; requests : number; orgCount : number }.
End CoverageCell.

Module CoverageEvidence.
Record t := mk { livePoints : number; toolCapablePoints : number; maxContextTokens : option number }.
End CoverageEvidence.

Module CoverageVerdict.
Record t := mk { reason : CoverageReason; covered : bool; score : number; requiredContextTokens : number }.
End CoverageVerdict.

Definition required_tokens (shape : option ParsedShapeClass.t) : number :=
  let charsMax := match shape with None => Infinity | Some s => charBucketMax (ParsedShapeClass.chars s) end in
  if is_finite charsMax then ceil (div charsMax CHARS_PER_TOKEN) else ceil (div (of_Z 256000) CHARS_PER_TOKEN).

Definition assessCoverage (cell : CoverageCell.t) (evidence : option CoverageEvidence.t) : CoverageVerdict.t :=
  let shape := parseShapeClass (CoverageCell.shapeClass cell) in
  let requiredContextTokens := required_tokens shape in
  let verdict reason :=
    CoverageVerdict.mk reason (bool_decide (reason = covered))
      (if bool_decide (reason = covered) then zero
       else mul (mul (CoverageCell.requests cell) (CoverageCell.orgCount cell)) (REASON_SEVERITY reason))
      requiredContextTokens in
  if bool_decide (CoverageCell.bucketKind cell = unassigned) then verdict unassigned_region
  else match evidence with
  | None => verdict no_live_points
  | Some ev =>
      if eqb (CoverageEvidence.livePoints ev) zero then verdict no_live_points
      else if match shape with Some s => ParsedShapeClass.tools s | None => false end && eqb (CoverageEvidence.toolCapablePoints ev) zero
      then verdict no_tool_capable_point
      else if match CoverageEvidence.maxContextTokens ev with None => true | Some m => ltb m requiredContextTokens end
      then verdict context_too_short
      else if ltb (CoverageEvidence.livePoints ev) MIN_MEASURED_POINTS then verdict thin_evidence
      else verdict covered
  end.

(** ** Shapes *)

Definition total_chars (messages : list ChatMessage.t) : Z :=
  (foldl scan_message (0%Z, false) messages).1.

Lemma requestShape_chars input :
  RequestShape.chars (requestShape input) = charBucket (of_Z (total_chars (ShapeInput.messages input))).
Proof. unfold requestShape, total_chars. by destruct (foldl _ _ _). Qed.

Lemma charBucket_label total : charBucket total ∈ map CharBucket.label CHAR_BUCKETS.
Proof.
  unfold charBucket. destruct (find _ _) as [b|] eqn:E.
  - apply find_some in E as [Hb _]. apply list_elem_of_fmap. exists b. by rewrite list_elem_of_In.
  - apply list_elem_of_In. simpl. auto 10.
Qed.

Lemma parse_shapeClass input (shape := requestShape input) :
  parseShapeClass (shapeClass shape) =
  Some (ParsedShapeClass.mk (0 <? RequestShape.tools shape)%nat (RequestShape.stream shape) (RequestShape.chars shape)).
Proof.
  pose proof (charBucket_label (of_Z (total_chars (ShapeInput.messages input)))) as H.
  rewrite <- requestShape_chars in H. fold shape in H. unfold shapeClass.
  apply list_elem_of_In in H. generalize dependent (RequestShape.chars shape). intros chars H.
  simpl in H. destruct H as [<-|[<-|[<-|[<-|[<-|[<-|[]]]]]]]; destruct (0 <? _)%nat, (RequestShape.stream shape); done.
Qed.

(** C27. Whatever the request, the key of its cell reads back as the axes it was
    made of. *)
Theorem shapeClass_roundtrip input :
  let shape := requestShape input in
  parseShapeClass (shapeClass shape) =
  Some (ParsedShapeClass.mk (0 <? RequestShape.tools shape)%nat (RequestShape.stream shape) (RequestShape.chars shape)).
Proof. apply parse_shapeClass. Qed.

(** What a shape may depend on. *)
Definition envelope (m : ChatMessage.t) : Role * nat := (ChatMessage.role m, String.length (ChatMessage.content m)).

Lemma scan_envelope ms ms' acc : map envelope ms = map envelope ms' -> foldl scan_message acc ms = foldl scan_message acc ms'.
Proof.
  revert ms' acc. induction ms as [|m ms IH]; intros [|m' ms'] acc; try done. simpl. intros [= Hr Hl H].
  unfold scan_message at 2 4. rewrite Hr, Hl. by apply IH.
Qed.

(** Two requests of the same structure have the same shape, whatever their text,
    their tools' definitions and the name of the function they force. *)
Theorem requestShape_content_free a b :
  map envelope (ShapeInput.messages a) = map envelope (ShapeInput.messages b) ->
  length <$> ShapeInput.tools a = length <$> ShapeInput.tools b ->
  toolChoiceMode (ShapeInput.tool_choice a) = toolChoiceMode (ShapeInput.tool_choice b) ->
  ShapeInput.stream a = ShapeInput.stream b -> ShapeInput.max_tokens a = ShapeInput.max_tokens b ->
  requestShape a = requestShape b.
Proof.
  intros Hm Ht Hc Hs Hx. unfold requestShape. rewrite (scan_envelope _ _ _ Hm), Hc, Hs, Hx.
  assert (length (ShapeInput.messages a) = length (ShapeInput.messages b)) as ->.
  { apply (f_equal length) in Hm. by rewrite !length_map in Hm. }
  destruct (foldl _ _ _). f_equal. destruct (ShapeInput.tools a), (ShapeInput.tools b); by simplify_eq/=.
Qed.

(** ** Coverage *)

(** An integer and a double that is a small integer compare as integers do. *)
Lemma of_Z_leb a b : fin (of_Z b) = true -> units (of_Z b) = (b * 2 ^ 1074)%Z -> (a <= b)%Z -> leb (of_Z a) (of_Z b) = true.
Proof.
  intros Hf Hu Hab. apply (rounds_above _ _ (of_Z_rounds a)); [done|]. rewrite Hu.
  apply Z.mul_le_mono_nonneg_r; [by apply Z.pow_nonneg|done].
Qed.

Lemma of_Z_geb a b : fin (of_Z b) = true -> units (of_Z b) = (b * 2 ^ 1074)%Z -> (b <= a)%Z -> leb (of_Z b) (of_Z a) = true.
Proof.
  intros Hf Hu Hab. apply (rounds_below _ _ (of_Z_rounds a)); [done|]. rewrite Hu.
  apply Z.mul_le_mono_nonneg_r; [by apply Z.pow_nonneg|done].
Qed.

(** The buckets that have an upper edge, and its number of tokens. *)
Definition EDGES : list (string * Z) :=
  [("0-1k", 1000%Z); ("1k-4k", 4000%Z); ("4k-16k", 16000%Z); ("16k-64k", 64000%Z); ("64k-256k", 256000%Z)].

Lemma edge_max label m b : In (label, m) EDGES -> In b CHAR_BUCKETS -> CharBucket.label b = label -> CharBucket.max b = of_Z m.
Proof.
  unfold EDGES, CHAR_BUCKETS. intros He Hb E. cbn [In] in He, Hb.
  repeat (destruct He as [He|He]; [injection He as <- <-;
    repeat (destruct Hb as [Hb|Hb]; [subst b; try discriminate E; reflexivity|]); destruct Hb|]). destruct He.
Qed.

Lemma edge_exact label m : In (label, m) EDGES ->
  (fin (of_Z m) = true /\ units (of_Z m) = m * 2 ^ 1074)%Z /\
  (fin (of_Z (m / 4)) = true /\ units (of_Z (m / 4)) = m / 4 * 2 ^ 1074 /\ m mod 4 = 0)%Z.
Proof.
  unfold EDGES. cbn [In]. intros He. repeat (destruct He as [He|He]; [injection He as <- <-; vm_compute; auto|]). destruct He.
Qed.

(** A bucket's label bounds the length it was given to. *)
Lemma charBucket_bound n m label : In (label, m) EDGES -> charBucket (of_Z n) = label -> (n < m)%Z.
Proof.
  intros Hin Hl. destruct (Z.ltb_spec n m) as [|Hge]; [done|]. exfalso. destruct (edge_exact _ _ Hin) as [[Hf Hu] _].
  pose proof (leb_not_ltb _ _ (of_Z_geb n m Hf Hu Hge)) as Hn. revert Hl. unfold charBucket.
  destruct (find _ _) as [b|] eqn:E.
  - apply find_some in E as [Hb Hlt]. intros Hl. rewrite (edge_max _ _ _ Hin Hb Hl) in Hlt. congruence.
  - intros <-. unfold EDGES in Hin. cbn [In] in Hin. repeat (destruct Hin as [Hin|Hin]; [discriminate Hin|]). destruct Hin.
Qed.

Lemma edge_required tools stream label m :
  In (label, m) EDGES -> required_tokens (Some (ParsedShapeClass.mk tools stream label)) = of_Z (m / 4).
Proof.
  unfold EDGES. cbn [In]. intros He. repeat (destruct He as [He|He]; [injection He as <- <-; vm_compute; reflexivity|]). destruct He.
Qed.

Lemma edge_or_last n : (exists m, In (charBucket n, m) EDGES) \/ charBucket n = "256k+".
Proof.
  pose proof (charBucket_label n) as H. apply list_elem_of_In in H. unfold EDGES. cbn [map In CHAR_BUCKETS CharBucket.label] in *.
  destruct H as [H|[H|[H|[H|[H|[H|[]]]]]]]; rewrite <- H; try (left; eexists; auto 10; fail). by right.
Qed.

(** A covered cell whose bucket has an upper edge: any request of the cell,
    counted at four characters a token, fits the largest measured window, the
    cell has three live points, and a tool-capable one if it carries tools. *)
Theorem covered_sound cell ev input m :
  let shape := requestShape input in
  CoverageCell.shapeClass cell = shapeClass shape ->
  RequestShape.chars shape <> "256k+" ->
  CoverageVerdict.covered (assessCoverage cell (Some ev)) = true ->
  CoverageEvidence.maxContextTokens ev = Some m -> is_nan m = false ->
  leb (of_Z ((total_chars (ShapeInput.messages input) + 3) / 4)) m = true /\
  ltb (CoverageEvidence.livePoints ev) MIN_MEASURED_POINTS = false /\
  ((0 < RequestShape.tools shape)%nat -> eqb (CoverageEvidence.toolCapablePoints ev) zero = false).
Proof.
  intros shape Hc Hl Hv Hm Hn. unfold assessCoverage in Hv. unfold shape in Hc. rewrite Hc, parse_shapeClass, Hm in Hv. fold shape in Hv. cbv zeta in Hv.
  destruct (bool_decide (CoverageCell.bucketKind cell = unassigned)); [done|].
  destruct (eqb (CoverageEvidence.livePoints ev) zero); [done|]. cbn [ParsedShapeClass.tools] in Hv.
  destruct ((0 <? RequestShape.tools shape)%nat && eqb (CoverageEvidence.toolCapablePoints ev) zero) eqn:Et; [done|].
  destruct (ltb m _) eqn:Em; [done|]. destruct (ltb (CoverageEvidence.livePoints ev) MIN_MEASURED_POINTS); [done|]. clear Hv.
  split; [|split; [done|]].
  - unfold shape in *. rewrite requestShape_chars in *. set (n := total_chars (ShapeInput.messages input)) in *.
    destruct (edge_or_last (of_Z n)) as [[e He]|]; [|done]. pose proof (charBucket_bound n e _ He eq_refl) as Hne.
    rewrite (edge_required _ _ _ e He) in Em. apply (leb_trans _ (of_Z (e / 4))).
    + destruct (edge_exact _ _ He) as [_ (Hf & Hu & Hmod)]. apply of_Z_leb; [done|done|].
      rewrite (Z_div_exact_full_2 e 4) in Hne by done. apply Z.lt_succ_r, Z.div_lt_upper_bound; lia.
    + apply not_ltb_leb; [done| |done]. apply fin_not_nan. by destruct (edge_exact _ _ He) as [_ [? _]].
  - intros Ht. apply Nat.ltb_lt in Ht. by rewrite Ht in Et.
Qed.

(** The last bucket has no upper edge, and the verdict takes 256 000 characters
    for it: every longer request falls in a cell that a window of 64 000
    tokens covers. *)
Theorem covered_last_bucket :
  (forall n, (256000 <= n)%Z -> charBucket (of_Z n) = "256k+") /\
  CoverageVerdict.reason (assessCoverage (CoverageCell.mk "code-gen" cluster "no-tools/sync/256k+" (of_Z 50) (of_Z 5))
    (Some (CoverageEvidence.mk (of_Z 3) zero (Some (of_Z 64000))))) = covered.
Proof.
  split; [|by vm_compute]. intros n Hn. destruct (edge_or_last (of_Z n)) as [[e He]|]; [|done].
  pose proof (charBucket_bound n e _ He eq_refl) as Hne. unfold EDGES in He. cbn [In] in He.
  repeat (destruct He as [He|He]; [injection He as _ <-; lia|]). destruct He.
Qed.

Definition sample_message : ChatMessage.t := ChatMessage.mk user "hello" None None None None.
Definition sample_input : ShapeInput.t := ShapeInput.mk [sample_message] None None None None.

Lemma requestShape_content_free_witness :
  requestShape sample_input =
  requestShape (ShapeInput.mk [ChatMessage.mk user "world" None None None None] None None None None).
Proof. apply requestShape_content_free; reflexivity. Defined.

Lemma covered_sound_witness : leb (of_Z 2) (of_Z 8000) = true.
Proof.
  refine (proj1 (covered_sound (CoverageCell.mk "code-gen" cluster "no-tools/sync/0-1k" (of_Z 50) (of_Z 5))
    (CoverageEvidence.mk (of_Z 3) zero (Some (of_Z 8000))) sample_input (of_Z 8000) _ _ _ _ _)).
  - vm_compute. reflexivity.
  - vm_compute. discriminate.
  - vm_compute. reflexivity.
  - reflexivity.
  - reflexivity.
Defined.

End Shape.
