(* ===== verification/Consensus.v ===== *)
(** * When two answers agree: core/src/consensus.ts

    The key a reply is compared by: the value of the last "Final answer" line
    it declares, else its normalized text.  The regular expressions are written
    as scanners that follow their backtracking. *)

From Stdlib Require Import Ascii.
From S2P Require Import Prelude Number JsSort Types Print Prompt.

Module Consensus.
Import Num Print Prompt.

Definition is_punct (c : ascii) : bool :=
  Ascii.eqb c "." || Ascii.eqb c "!" || Ascii.eqb c "?" || Ascii.eqb c "," || Ascii.eqb c ";" || Ascii.eqb c ":".

Fixpoint drop_while (p : ascii -> bool) (s : string) : string :=
  match s with String c s' => if p c then drop_while p s' else s | EmptyString => EmptyString end.

(** [replace(TRAILING_PUNCT, '')]. *)
Definition strip_punct (s : string) : string := reverse (drop_while is_punct (reverse s)).

(** [replace(/\s+/g, ' ')]; [inside] a run whose space is already written. *)
Fixpoint collapse_spaces (inside : bool) (s : string) : string :=
  match s with
  | EmptyString => EmptyString
  | String c s =>
      if is_space c then
        if inside then collapse_spaces true s else String " " (collapse_spaces true s)
      else String c (collapse_spaces false s)
  end.

Definition normalizeAnswer (text : string) : string :=
  strip_punct (collapse_spaces false (toLowerCase (trim text))).

Fixpoint remove (p : ascii -> bool) (s : string) : string :=
  match s with
  | EmptyString => EmptyString
  | String c s => if p c then remove p s else String c (remove p s)
  end.

(** [\d{3}(?!\d)] at the head. *)
Definition three_digits (s : string) : bool := (String.length (digit_run s).1 =? 3)%nat.

(** [replace(/,(?=\d{3}(?!\d))/g, '')]. *)
Fixpoint remove_thousands (s : string) : string :=
  match s with
  | EmptyString => EmptyString
  | String c s =>
      if Ascii.eqb c "," && three_digits s then remove_thousands s else String c (remove_thousands s)
  end.

(** [/^\d+(?:\.\d+)?$/] and the value it denotes. *)
Definition unsigned_value (s : string) : option number :=
  match digits_pattern s with
  | None => None
  | Some (i, EmptyString) => Some (decimal (digits_value 0 i) 0)
  | Some (i, String c s) =>
      if Ascii.eqb c "." then
        match digits_pattern s with
        | Some (f, EmptyString) => Some (decimal (digits_value 0 (i +:+ f)) (- Z.of_nat (String.length f)))
        | _ => None
        end
      else None
  end.

Definition signed_value (s : string) : option number :=
  match s with
  | String c s' =>
      if Ascii.eqb c "-" then opp <$> unsigned_value s'
      else if Ascii.eqb c "+" then unsigned_value s' else unsigned_value s
  | EmptyString => None
  end.

Definition numericAnswer (text : string) : option number :=
  let bare := remove_thousands (remove (fun c => Ascii.eqb c "$" || is_space c) text) in
  match signed_value bare with
  | Some n => if is_finite n then Some n else None
  | None => None
  end.

(** ** The declared answer *)

Definition is_newline (c : ascii) : bool := Ascii.eqb c LF || Ascii.eqb c CR.

Fixpoint take_line (s : string) : string * string :=
  match s with
  | EmptyString => (EmptyString, EmptyString)
  | String c s' => if is_newline c then (EmptyString, s) else let '(l, r) := take_line s' in (String c l, r)
  end.

Definition trim_right (s : string) : string := reverse (drop_spaces (reverse s)).

(** [(.+?)\s*$] on a text that starts with a character other than white space. *)
Definition line_capture (s : string) : string * string :=
  let '(line, rest) := take_line s in (trim_right line, rest).

(** On white space up to the end of the text, [.+?] is left with its last unit
    that is not a line terminator. *)
Definition last_blank (s : string) : option string :=
  match drop_while is_newline (reverse s) with
  | String c _ => Some (String c EmptyString)
  | EmptyString => None
  end.

(** [\s*[:=]?\s*(.+?)\s*$] after the label: the capture and what is left to
    search. *)
Definition capture_after (s : string) : option (string * string) :=
  match drop_spaces s with
  | EmptyString => (fun b => (b, EmptyString)) <$> last_blank s
  | String c r as s1 =>
      if Ascii.eqb c ":" || Ascii.eqb c "=" then
        match drop_spaces r with
        | EmptyString => Some (match last_blank r with Some b => b | None => String c EmptyString end, EmptyString)
        | r1 => Some (line_capture r1)
        end
      else Some (line_capture s1)
  end.

(** [final\s+answer] at the head. *)
Definition label (s : string) : option string :=
  match strip_key "final" s with
  | Some (String c _ as r) => if is_space c then strip_key "answer" (drop_spaces r) else None
  | _ => None
  end.

Definition labelled_at (s : string) : option (string * string) :=
  match label s with Some r => capture_after r | None => None end.

(** [matchAll]: the captures in order; [skip] units are inside the last match. *)
Fixpoint labelled (skip : nat) (s : string) : list string :=
  match s with
  | EmptyString => []
  | String _ s' =>
      match skip with
      | S skip => labelled skip s'
      | O =>
          match labelled_at s with
          | Some (v, rest) => v :: labelled (String.length s' - String.length rest) s'
          | None => labelled 0 s'
          end
      end
  end.

(** A key is a tagged text, [n:] a printed number, [t:] a normalized text; keys
    are only compared, and printing is injective on numbers other than zero. *)
Inductive answer_key :=
| number_key (n : number)
| text_key (s : string).

#[export] Instance answer_key_eq_dec : EqDecision answer_key.
Proof. solve_decision. Defined.

Definition is_markup (c : ascii) : bool := Ascii.eqb c "*" || Ascii.eqb c "`" || Ascii.eqb c "_".

Definition declared (text : string) : string :=
  strip_punct (trim (remove is_markup (default "" (last (labelled 0 text))))).

Definition consensusKey (text : string) : answer_key :=
  let raw := declared text in
  match raw with
  | EmptyString => text_key (normalizeAnswer text)
  | _ =>
      match numericAnswer raw with
      | Some n => number_key (match n with S754_zero _ => zero | _ => n end)
      | None => text_key (normalizeAnswer raw)
      end
  end.

(** ** Properties *)

(** The word final, in any case, somewhere in the text. *)
Fixpoint mentions_final (s : string) : bool :=
  match strip_key "final" s with
  | Some _ => true
  | None => match s with String _ s' => mentions_final s' | EmptyString => false end
  end.

Definition declaration (a : string) : string := "Final answer: " +:+ a.

Lemma labelled_cons c s :
  labelled 0 (String c s) =
  match labelled_at (String c s) with
  | Some (v, rest) => v :: labelled (String.length s - String.length rest) s
  | None => labelled 0 s
  end.
Proof. reflexivity. Qed.

Lemma labelled_declaration pre a :
  mentions_final pre = false -> drop_spaces a = a -> a <> "" -> take_line a = (a, "") ->
  labelled 0 (pre +:+ String LF (declaration a)) = [trim_right a].
Proof.
  intros Hp Ha Hne Hl. assert (labelled_at (declaration a) = Some (trim_right a, "")) as Hd.
  { unfold labelled_at, label, declaration. simpl. unfold capture_after. simpl. change ("" +:+ a) with a. rewrite Ha.
    destruct a as [|c a']; [done|]. unfold line_capture. by rewrite Hl. }
  assert (forall s n, (String.length s <= n)%nat -> labelled n s = []) as Hskip.
  { clear. induction s as [|c s IH]; intros [|n] Hn; simpl in *; try done; [lia|]. apply IH. lia. }
  induction pre as [|c pre IH].
  - assert (forall t, labelled_at (String LF t) = None) as Hn by done.
    change ("" +:+ String LF (declaration a)) with (String LF (declaration a)). rewrite labelled_cons, Hn.
    assert (exists t, declaration a = String "F" t) as [t Ht] by (by eexists). rewrite Ht in *.
    rewrite labelled_cons, Hd.
    f_equal. apply Hskip. change (String.length "") with 0%nat. lia.
  - assert (labelled_at (String c pre +:+ String LF (declaration a)) = None) as Hn.
    { unfold labelled_at, label. rewrite strip_key_app by done.
      destruct (strip_key "final" (String c pre)) eqn:E; [|done]. cbn [mentions_final] in Hp. by rewrite E in Hp. }
    change (String c pre +:+ String LF (declaration a)) with (String c (pre +:+ String LF (declaration a))) in *.
    rewrite labelled_cons, Hn. apply IH. cbn [mentions_final] in Hp.
    by destruct (strip_key "final" (String c pre)).
Qed.

(** A declared answer decides the key, whatever reasoning precedes it: two
    replies that end by declaring the same answer agree. *)
Theorem declaration_decides pre pre' a :
  mentions_final pre = false -> mentions_final pre' = false ->
  drop_spaces a = a -> take_line a = (a, "") -> strip_punct (trim (remove is_markup (trim_right a))) <> "" ->
  consensusKey (pre +:+ nl +:+ declaration a) = consensusKey (pre' +:+ nl +:+ declaration a).
Proof.
  intros Hp Hp' Ha Hl Hne. assert (a <> "") as Hn by (by intros ->).
  unfold consensusKey, declared. change (nl +:+ declaration a) with (String LF (declaration a)).
  rewrite !labelled_declaration by done. simpl default.
  by destruct (strip_punct (trim (remove is_markup (trim_right a)))).
Qed.

Lemma declaration_decides_witness :
  consensusKey ("Half of 84." +:+ nl +:+ declaration "**$1,042.0**.")
  = consensusKey ("84 / 2, so:" +:+ nl +:+ declaration "**$1,042.0**.") /\
  consensusKey ("Half of 84." +:+ nl +:+ declaration "**$1,042.0**.") = number_key (of_Z 1042).
Proof. split; [apply declaration_decides; by vm_compute|by vm_compute]. Defined.

(** A heading swallows the declaration below it: after "Final answer" and blank
    lines the whole next line is the answer, so the same number declared with
    and without the heading does not agree. *)
Theorem heading_swallows_declaration :
  consensusKey (declaration "42") = number_key (of_Z 42) /\
  consensusKey ("## Final answer" +:+ nl +:+ nl +:+ declaration "42") = text_key "final answer: 42".
Proof. by vm_compute. Qed.

(** Trailing punctuation is dropped after the spaces are trimmed, so a space
    before it stays in the answer. *)
Theorem spaced_punctuation_differs :
  normalizeAnswer "Yes !" = "yes " /\ normalizeAnswer "Yes!" = "yes".
Proof. by vm_compute. Qed.
End Consensus.
