(* ===== verification/Demand.v ===== *)
(** * The demand accumulator: core/src/lsh.ts, core/src/demand.ts

    [DemandAccumulator] as a state and its operations.  Its [Map] is an
    association list in insertion order, its sets of contributors are lists
    without duplicates in insertion order.  A date is its number of
    milliseconds since the epoch.  The hyperplanes of [lshBucket] come from a
    cryptographic hash and are a parameter. *)

From Stdlib Require Import Ascii.
From S2P Require Import Prelude Number Types Print Shape.

Module Demand.
Import Num.

(** ** lsh.ts *)

Definition LSH_DIMS : nat := 384.
Definition LSH_BITS : nat := 16.

Definition hex_digit (d : Z) : Ascii.ascii := Ascii.ascii_of_nat (Z.to_nat (if (d <? 10)%Z then 48 + d else 87 + d)%Z).

(** [n.toString(16)] of a non-negative integer below [16 ^ fuel]. *)
Fixpoint to_hex (fuel : nat) (n : Z) (acc : string) : string :=
  match fuel with
  | O => acc
  | S fuel =>
      let acc := String (hex_digit (n mod 16)) acc in
      if (n <? 16)%Z then acc else to_hex fuel (n / 16) acc
  end.

(** [s.padStart(k, '0')]. *)
Definition pad_start (k : nat) (s : string) : string :=
  (fix go (n : nat) := match n with O => s | S n => String "0"%char (go n) end) (k - String.length s)%nat.

Fixpoint dot (a b : list number) (acc : number) : number :=
  match a, b with
  | x :: a, y :: b => dot a b (add acc (mul x y))
  | _, _ => acc
  end.

Definition set_bits (planes : list (list number)) (embedding : list number) : Z :=
  (foldl (fun '(bits, p) plane =>
     (if gtb (dot embedding plane zero) zero then Z.lor bits (Z.shiftl 1 p) else bits, p + 1))
   (0, 0) planes).1%Z.

Definition lshBucket (PLANES : list (list number)) (embedding : list number) : option string :=
  if negb (length embedding =? LSH_DIMS)%nat then None
  else Some ("lsh:" +:+ pad_start 4 (to_hex 4 (set_bits PLANES embedding) "")).

Definition is_hex (c : Ascii.ascii) : bool :=
  let n := Ascii.nat_of_ascii c in ((48 <=? n) && (n <=? 57) || (97 <=? n) && (n <=? 102))%nat.

(** [/^lsh:[0-9a-f]{4}$/]. *)
Definition isLshBucket (id : string) : bool :=
  match id with
  | String "l"%char (String "s"%char (String "h"%char (String ":"%char (String a (String b (String c (String d EmptyString))))))) =>
      is_hex a && is_hex b && is_hex c && is_hex d
  | _ => false
  end.

(** ** demand.ts *)

Definition DEFAULT_MIN_ORGS : nat := 5.
Definition DEFAULT_MIN_REQUESTS : nat := 20.
Definition DEFAULT_MAX_CELLS : nat := 5000.

Module DemandObservation.
Record t := mk {
  bucket : string;
  shapeClass : string;
  at_ : Z;
  orgId : string;
  confidence : option number;
  embedding : option (list number);
}.
End DemandObservation.

Module DemandDelta.
Record t := mk {
  cellKey : string;
  bucket : string;
  bucketKind : Shape.BucketKind;
  shapeClass : string;
  weekStart : string;
  requests : nat;
  orgIds : list string;
  confidenceSum : number;
  confidenceCount : nat;
  confidenceMin : option number;
  centroidSum : option (list number);
  centroidCount : nat;
}.
End DemandDelta.

(** The proleptic Gregorian date of a day counted from the epoch: (year, month,
    day). *)
Definition civil (days : Z) : Z * Z * Z :=
  (let z := days + 719468 in
   let era := z / 146097 in
   let doe := z - era * 146097 in
   let yoe := (doe - doe / 1460 + doe / 36524 - doe / 146096) / 365 in
   let doy := doe - (365 * yoe + yoe / 4 - yoe / 100) in
   let mp := (5 * doy + 2) / 153 in
   let m := if mp <? 10 then mp + 3 else mp - 9 in
   (yoe + era * 400 + (if m <=? 2 then 1 else 0), m, doy - (153 * mp + 2) / 5 + 1))%Z.

Definition digits (k : nat) (n : Z) : string := pad_start k (Print.show_Z n).

(** [toISOString().slice(0, 10)]: years outside 0..9999 print with a sign and six
    digits, of which the slice keeps the month. *)
Definition iso_day (days : Z) : string :=
  let '(y, m, d) := civil days in
  if ((0 <=? y) && (y <=? 9999))%Z then digits 4 y +:+ "-" +:+ digits 2 m +:+ "-" +:+ digits 2 d
  else (if (y <? 0)%Z then "-" else "+") +:+ digits 6 (Z.abs y) +:+ "-" +:+ digits 2 m.

(** The Monday on or before the day of an instant; [getUTCDay] of day 0, a
    Thursday, is 4. *)
Definition week_monday (at_ : Z) : Z :=
  (let day := at_ / 86400000 in
   let dow := ((day + 4) mod 7 + 6) mod 7 in day - dow)%Z.

Definition weekStart (at_ : Z) : string := iso_day (week_monday at_).

Definition demandCellKey (bucket shapeClass week : string) : string := bucket +:+ "|" +:+ shapeClass +:+ "|" +:+ week.

Module Cell.
Record t := mk {
  bucket : string;
  shapeClass : string;
  weekStart : string;
  requests : nat;
  orgIds : list string;
  confidenceSum : number;
  confidenceCount : nat;
  confidenceMin : option number;
  centroidSum : option (list number);
  centroidCount : nat;
}.
End Cell.

Record DemandAccumulator := Acc { cells : list (string * Cell.t); droppedCount : nat; maxCells : nat }.

Definition new_accumulator (maxCells : nat) : DemandAccumulator := Acc [] 0 maxCells.

Definition size (a : DemandAccumulator) : nat := length (cells a).
Definition dropped (a : DemandAccumulator) : nat := droppedCount a.

Definition new_cell (o : DemandObservation.t) : Cell.t :=
  Cell.mk (DemandObservation.bucket o) (DemandObservation.shapeClass o) (weekStart (DemandObservation.at_ o)) 0 [] zero 0 None None 0.

(** [Set.add]. *)
Definition set_add (x : string) (s : list string) : list string := if bool_decide (x ∈ s) then s else s ++ [x].

(** What an observation does to its cell. *)
Definition observe_cell (o : DemandObservation.t) (c : Cell.t) : Cell.t :=
  let '(csum, ccount, cmin) :=
    match DemandObservation.confidence o with
    | None => (Cell.confidenceSum c, Cell.confidenceCount c, Cell.confidenceMin c)
    | Some x =>
        (add (Cell.confidenceSum c) x, S (Cell.confidenceCount c),
         match Cell.confidenceMin c with
         | None => Some x
         | Some m => if ltb x m then Some x else Some m
         end)
    end in
  let '(sum, count) :=
    match DemandObservation.embedding o with
    | None => (Cell.centroidSum c, Cell.centroidCount c)
    | Some e =>
        let sum := match Cell.centroidSum c with Some s => s | None => replicate (length e) zero end in
        if negb (length sum =? length e)%nat then (Some sum, Cell.centroidCount c)
        else (Some (zip_with add sum e), S (Cell.centroidCount c))
    end in
  Cell.mk (Cell.bucket c) (Cell.shapeClass c) (Cell.weekStart c) (S (Cell.requests c))
    (set_add (DemandObservation.orgId o) (Cell.orgIds c)) csum ccount cmin sum count.

Definition key_of (o : DemandObservation.t) : string :=
  demandCellKey (DemandObservation.bucket o) (DemandObservation.shapeClass o) (weekStart (DemandObservation.at_ o)).

Definition lookup_cell (key : string) (l : list (string * Cell.t)) : option Cell.t :=
  snd <$> find (fun kc => bool_decide (kc.1 = key)) l.

(** The cell at [key] mutated in place. *)
Definition update_cell (key : string) (f : Cell.t -> Cell.t) (l : list (string * Cell.t)) : list (string * Cell.t) :=
  map (fun kc => if bool_decide (kc.1 = key) then (kc.1, f kc.2) else kc) l.

Definition observe (o : DemandObservation.t) (a : DemandAccumulator) : DemandAccumulator :=
  let key := key_of o in
  match lookup_cell key (cells a) with
  | Some _ => Acc (update_cell key (observe_cell o) (cells a)) (droppedCount a) (maxCells a)
  | None =>
      if (maxCells a <=? length (cells a))%nat then Acc (cells a) (S (droppedCount a)) (maxCells a)
      else Acc (cells a ++ [(key, observe_cell o (new_cell o))]) (droppedCount a) (maxCells a)
  end.

Definition to_delta (kc : string * Cell.t) : DemandDelta.t :=
  let c := kc.2 in
  DemandDelta.mk kc.1 (Cell.bucket c) (if isLshBucket (Cell.bucket c) then Shape.unassigned else Shape.cluster)
    (Cell.shapeClass c) (Cell.weekStart c) (Cell.requests c) (Cell.orgIds c) (Cell.confidenceSum c)
    (Cell.confidenceCount c) (Cell.confidenceMin c) (Cell.centroidSum c) (Cell.centroidCount c).

Definition drain (a : DemandAccumulator) : list DemandDelta.t * DemandAccumulator :=
  (map to_delta (cells a), Acc [] 0 (maxCells a)).

Definition isPublishable (orgCount requests minOrgs minRequests : nat) : bool :=
  (minOrgs <=? orgCount)%nat && (minRequests <=? requests)%nat.

Definition normalizeCentroid (sum : option (list number)) : option (list number) :=
  match sum with
  | None | Some [] => None
  | Some l =>
      let norm := sqrt (foldl (fun n x => add n (mul x x)) zero l) in
      if eqb norm zero then None else Some (map (fun x => div x norm) l)
  end.

(** A window: the observations between two drains. *)
Definition observe_all (max : nat) (os : list DemandObservation.t) : DemandAccumulator :=
  foldl (fun a o => observe o a) (new_accumulator max) os.

(** ** Cells *)

Definition of_key (key : string) (os : list DemandObservation.t) : list DemandObservation.t :=
  List.filter (fun o => bool_decide (key_of o = key)) os.

(** The cell that a list of observations of one key makes. *)
Definition cell_of (os : list DemandObservation.t) : option Cell.t :=
  match os with
  | [] => None
  | o :: rest => Some (foldl (fun c o => observe_cell o c) (observe_cell o (new_cell o)) rest)
  end.

Lemma cell_of_snoc os o c : cell_of os = Some c -> cell_of (os ++ [o]) = Some (observe_cell o c).
Proof. destruct os as [|x os]; simpl; [done|]. intros [= <-]. by rewrite foldl_snoc. Qed.

Lemma of_key_snoc key os o :
  of_key key (os ++ [o]) = if bool_decide (key_of o = key) then of_key key os ++ [o] else of_key key os.
Proof. unfold of_key. rewrite List.filter_app. simpl. destruct (bool_decide _); [done|by rewrite app_nil_r]. Qed.

Lemma set_add_spec x s : NoDup s -> NoDup (set_add x s) /\ forall y, y ∈ set_add x s <-> y = x \/ y ∈ s.
Proof.
  intros H. unfold set_add. case_bool_decide as E.
  - split; [done|]. intros y. split; [auto|]. by intros [->|?].
  - split.
    + apply NoDup_app. split; [done|]. split; [|apply NoDup_singleton]. by intros y Hy ->%list_elem_of_singleton.
    + intros y. rewrite elem_of_app, list_elem_of_singleton. tauto.
Qed.

(** What a cell says of the observations it was made of. *)
Record cell_ok (os : list DemandObservation.t) (c : Cell.t) : Prop := {
  cell_requests : Cell.requests c = length os;
  cell_nodup : NoDup (Cell.orgIds c);
  cell_orgs org : org ∈ Cell.orgIds c <-> org ∈ map DemandObservation.orgId os;
  cell_confidence : Cell.confidenceCount c = length (List.filter (fun o => bool_decide (is_Some (DemandObservation.confidence o))) os);
  cell_centroid : (Cell.centroidCount c <= length (List.filter (fun o => bool_decide (is_Some (DemandObservation.embedding o))) os))%nat;
}.

Lemma observe_cell_ok os o c : cell_ok os c -> cell_ok (os ++ [o]) (observe_cell o c).
Proof.
  intros [Hr Hn Ho Hc He]. unfold observe_cell. destruct (set_add_spec (DemandObservation.orgId o) _ Hn) as [Hn' Ho'].
  destruct (DemandObservation.confidence o) as [x|] eqn:Ec; destruct (DemandObservation.embedding o) as [e|] eqn:Ee;
    try destruct (negb _);
    split; simpl; try done; rewrite ?List.filter_app, ?length_app, ?Hr, ?map_app; simpl; rewrite ?Ec, ?Ee; simpl; try lia;
    intros org; rewrite Ho', elem_of_app, <- Ho, list_elem_of_singleton; tauto.
Qed.

Lemma cell_of_ok os c : cell_of os = Some c -> cell_ok os c.
Proof.
  revert c. induction os as [|o os IH] using rev_ind; intros c; [done|]. destruct (cell_of os) as [c0|] eqn:E.
  - rewrite (cell_of_snoc _ _ _ E). intros [= <-]. apply observe_cell_ok, IH. done.
  - destruct os; [|done]. intros [= <-]. apply (observe_cell_ok []). split; simpl; try done. constructor.
Qed.

(** ** Windows *)

Definition keys (a : DemandAccumulator) : list string := map fst (cells a).

Definition turned_away (a : DemandAccumulator) (os : list DemandObservation.t) : list DemandObservation.t :=
  List.filter (fun o => negb (bool_decide (key_of o ∈ keys a))) os.

Record window (max : nat) (os : list DemandObservation.t) (a : DemandAccumulator) : Prop := {
  win_max : maxCells a = max;
  win_nodup : NoDup (keys a);
  win_cells k c : (k, c) ∈ cells a -> cell_of (of_key k os) = Some c;
  win_full o : o ∈ os -> key_of o ∈ keys a \/ length (cells a) = max;
  win_bound : (length (cells a) <= max)%nat;
  win_dropped : droppedCount a = length (turned_away a os);
}.

Lemma lookup_cell_spec key l : match lookup_cell key l with
  | Some c => (key, c) ∈ l
  | None => key ∉ map fst l end.
Proof.
  unfold lookup_cell. destruct (find _ l) as [[k c]|] eqn:E; simpl.
  - apply find_some in E as [Hin Hk%bool_decide_eq_true]. simpl in Hk. subst. by apply list_elem_of_In.
  - intros (kc & Hk & Hin)%list_elem_of_fmap. apply list_elem_of_In in Hin.
    apply (find_none _ _ E) in Hin. by apply bool_decide_eq_false in Hin.
Qed.

Lemma update_keys key f l : map fst (update_cell key f l) = map fst l.
Proof. unfold update_cell. rewrite map_map. apply map_ext. intros [k c]; simpl. by destruct (bool_decide _). Qed.

Lemma filter_snoc_length {A} (f : A -> bool) l x :
  length (List.filter f (l ++ [x])) = (length (List.filter f l) + if f x then 1 else 0)%nat.
Proof. rewrite List.filter_app, length_app. simpl. by destruct (f x). Qed.

Lemma turned_away_keys a b os : keys a = keys b -> turned_away a os = turned_away b os.
Proof. unfold turned_away. by intros ->. Qed.

Lemma observe_window max os a o : window max os a -> window max (os ++ [o]) (observe o a).
Proof.
  intros [Hm Hn Hc Hf Hb Hd]. unfold observe. pose proof (lookup_cell_spec (key_of o) (cells a)) as L.
  destruct (lookup_cell (key_of o) (cells a)) as [c0|].
  - assert (key_of o ∈ keys a) as Hk by (apply list_elem_of_fmap; by exists (key_of o, c0)).
    split; simpl; unfold keys in *; simpl; rewrite ?update_keys; try done.
    + unfold update_cell. intros k c ([k1 c1] & E & Hin)%list_elem_of_fmap. simpl in E. rewrite of_key_snoc.
      case_bool_decide as E1; simplify_eq.
      * rewrite bool_decide_eq_true_2 by done. apply cell_of_snoc. by apply Hc.
      * rewrite bool_decide_eq_false_2 by done. by apply Hc.
    + unfold update_cell. intros q [Hq| ->%list_elem_of_singleton]%elem_of_app; [rewrite length_map; auto|by left].
    + unfold update_cell. by rewrite length_map.
    + rewrite (turned_away_keys _ a) by apply update_keys. unfold turned_away, keys in *.
      rewrite filter_snoc_length, bool_decide_eq_true_2 by done. simpl. lia.
  - destruct (Nat.leb_spec (maxCells a) (length (cells a))) as [Hfull|Hroom].
    + split; simpl; unfold keys in *; simpl; try done.
      * intros k c Hin. rewrite of_key_snoc. rewrite bool_decide_eq_false_2; [by apply Hc|].
        intros <-. destruct L. apply list_elem_of_fmap. by exists (key_of o, c).
      * intros q [Hq| ->%list_elem_of_singleton]%elem_of_app; [auto|right; lia].
      * rewrite (turned_away_keys _ a) by done. unfold turned_away, keys in *.
        rewrite filter_snoc_length, bool_decide_eq_false_2 by done. simpl. lia.
    + assert (forall q, q ∈ os -> key_of q ∈ map fst (cells a)) as Hall by (intros q Hq; destruct (Hf q Hq); [done|lia]).
      assert (of_key (key_of o) os = []) as Hnone.
      { apply filter_none. intros q Hq. apply bool_decide_eq_false. intros Ek. apply L. rewrite <- Ek. by apply Hall. }
      split; simpl; unfold keys in *; simpl; rewrite ?map_app, ?length_app; simpl; try done; try lia.
      * apply NoDup_app. split; [done|]. split; [|apply NoDup_singleton]. by intros k Hk ->%list_elem_of_singleton.
      * intros k c [Hin|[= -> ->]%list_elem_of_singleton]%elem_of_app; rewrite of_key_snoc.
        -- rewrite bool_decide_eq_false_2; [by apply Hc|]. intros <-. apply L, list_elem_of_fmap. by exists (key_of o, c).
        -- rewrite bool_decide_eq_true_2, Hnone by done. done.
      * intros q [Hq| ->%list_elem_of_singleton]%elem_of_app; left; apply elem_of_app; [left; auto|right; by apply list_elem_of_singleton].
      * rewrite Hd. unfold turned_away, keys; simpl. rewrite map_app. simpl.
        rewrite !filter_none; [done| |].
        -- intros q [Hq| ->%list_elem_of_singleton]%elem_of_app; apply negb_false_iff, bool_decide_eq_true, elem_of_app;
             [left; auto|right; by apply list_elem_of_singleton].
        -- intros q Hq. apply negb_false_iff, bool_decide_eq_true. auto.
Qed.

Lemma observe_all_window max os : window max os (observe_all max os).
Proof.
  induction os as [|o os IH] using rev_ind.
  - split; simpl; try done; [constructor| | |lia]; by intros ? ?%not_elem_of_nil || intros ? ? ?%not_elem_of_nil.
  - unfold observe_all. rewrite foldl_snoc. by apply observe_window.
Qed.

(** Observations split between the keys of a list and the rest. *)
Lemma key_indicator o ks : NoDup ks ->
  sum_list_with (fun k => if bool_decide (key_of o = k) then 1 else 0)%nat ks = if bool_decide (key_of o ∈ ks) then 1%nat else 0%nat.
Proof.
  induction 1 as [|k ks Hk Hn IH]; simpl; [done|]. rewrite IH.
  destruct (decide (key_of o = k)) as [E|E].
  - rewrite (bool_decide_eq_true_2 (key_of o = k)), (bool_decide_eq_false_2 (key_of o ∈ ks)), bool_decide_eq_true_2; [done|rewrite E; left|by rewrite E|done].
  - rewrite (bool_decide_eq_false_2 (key_of o = k)) by done. simpl.
    rewrite (bool_decide_ext (key_of o ∈ k :: ks) (key_of o ∈ ks)); [done|]. rewrite elem_of_cons. tauto.
Qed.

Lemma keys_partition ks os : NoDup ks ->
  (sum_list_with (fun k => length (of_key k os)) ks +
   length (List.filter (fun o => negb (bool_decide (key_of o ∈ ks))) os) = length os)%nat.
Proof.
  intros Hn. induction os as [|o os IH]; [simpl; clear; induction ks; simpl in *; lia|]. pose proof (key_indicator o ks Hn) as Hi.
  assert (sum_list_with (fun k => length (of_key k (o :: os))) ks =
    (sum_list_with (fun k => if bool_decide (key_of o = k) then 1 else 0)%nat ks + sum_list_with (fun k => length (of_key k os)) ks)%nat) as ->.
  { clear. induction ks as [|k ks IH]; [done|]. cbn [sum_list_with]. rewrite IH.
    unfold of_key at 1. cbn [List.filter]. fold (of_key k os). destruct (bool_decide _); simpl; lia. }
  rewrite Hi. cbn [List.filter]. destruct (bool_decide (key_of o ∈ ks)); cbn [negb length]; lia.
Qed.

Lemma sum_list_with_map {A B} (f : B -> nat) (g : A -> B) l : sum_list_with f (map g l) = sum_list_with (fun x => f (g x)) l.
Proof. induction l; simpl; congruence. Qed.

Lemma sum_list_with_ext {A} (f g : A -> nat) l : (forall x, x ∈ l -> f x = g x) -> sum_list_with f l = sum_list_with g l.
Proof.
  induction l as [|x l IH]; intros H; simpl; [done|]. rewrite (H x) by left. f_equal. apply IH. intros y ?. apply H. by right.
Qed.

(** What a drained delta says of the window it closes. *)
Definition delta_of (os : list DemandObservation.t) (d : DemandDelta.t) : Prop :=
  DemandDelta.requests d = length (of_key (DemandDelta.cellKey d) os) /\
  NoDup (DemandDelta.orgIds d) /\
  (forall org, org ∈ DemandDelta.orgIds d <-> exists o, o ∈ os /\ key_of o = DemandDelta.cellKey d /\ DemandObservation.orgId o = org) /\
  (DemandDelta.confidenceCount d <= DemandDelta.requests d)%nat /\ (DemandDelta.centroidCount d <= DemandDelta.requests d)%nat.

Lemma filter_length_le {A} (f : A -> bool) l : (length (List.filter f l) <= length l)%nat.
Proof. induction l as [|x l IH]; simpl; [lia|]. destruct (f x); simpl; lia. Qed.

Lemma drained_delta max os d : d ∈ (drain (observe_all max os)).1 -> delta_of os d.
Proof.
  intros ([k c] & -> & Hin)%list_elem_of_fmap.
  destruct (cell_of_ok _ _ (win_cells _ _ _ (observe_all_window max os) k c Hin)) as [Hr Hn Ho Hc He].
  unfold delta_of, to_delta; simpl. rewrite Hr. split; [done|]. split; [done|].
  pose proof (filter_length_le (fun o => bool_decide (is_Some (DemandObservation.confidence o))) (of_key k os)).
  pose proof (filter_length_le (fun o => bool_decide (is_Some (DemandObservation.embedding o))) (of_key k os)).
  split; [|lia]. intros org. rewrite Ho, list_elem_of_fmap. unfold of_key. split.
  - intros (o & -> & [Hin' Hk%bool_decide_eq_true]%elem_filter). eauto.
  - intros (o & Hin' & Hk & <-). exists o. split; [done|]. apply elem_filter. split; [done|]. by apply bool_decide_eq_true.
Qed.

(** A window of observations and the drain that closes it: every observation is
    either in one delta or counted as dropped; a delta holds all the
    observations of its cell, whole, with its contributors each counted once;
    never more cells than the cap, and none turned away below it; and the
    accumulator is as new. *)
Theorem demand_window max os :
  let a := observe_all max os in
  let '(deltas, a') := drain a in
  (sum_list_with DemandDelta.requests deltas + dropped a = length os)%nat /\
  (size a <= max)%nat /\ (dropped a <> 0 -> size a = max)%nat /\
  NoDup (map DemandDelta.cellKey deltas) /\ (forall d, d ∈ deltas -> delta_of os d) /\
  a' = new_accumulator max.
Proof.
  intros a. pose proof (observe_all_window max os) as [Hm Hn Hc Hf Hb Hd]. fold a in Hm, Hn, Hc, Hf, Hb, Hd.
  unfold drain. split; [|split; [done|split; [|split; [|split]]]].
  - unfold dropped. rewrite Hd, <- (keys_partition (keys a) os Hn) at 1. f_equal. unfold keys.
    rewrite !sum_list_with_map. apply sum_list_with_ext. intros [k c] Hin. simpl. by rewrite (cell_requests _ _ (cell_of_ok _ _ (Hc k c Hin))).
  - unfold dropped, size. rewrite Hd. intros Hne. destruct (turned_away a os) as [|o l] eqn:E; [done|].
    assert (o ∈ turned_away a os) as Ho by (rewrite E; left).
    apply elem_filter in Ho as [Ho Hk%negb_true_iff%bool_decide_eq_false]. by destruct (Hf o Ho).
  - rewrite map_map. exact Hn.
  - intros d Hin. by apply (drained_delta max).
  - unfold new_accumulator. by rewrite Hm.
Qed.

(** The publication gate: what it lets through was fed by five distinct orgs and
    twenty requests. *)
Theorem publishable_contributors max os d :
  d ∈ (drain (observe_all max os)).1 ->
  isPublishable (length (DemandDelta.orgIds d)) (DemandDelta.requests d) DEFAULT_MIN_ORGS DEFAULT_MIN_REQUESTS = true ->
  (20 <= length (of_key (DemandDelta.cellKey d) os))%nat /\
  exists orgs, NoDup orgs /\ (5 <= length orgs)%nat /\
    forall org, org ∈ orgs -> exists o, o ∈ os /\ key_of o = DemandDelta.cellKey d /\ DemandObservation.orgId o = org.
Proof.
  intros (Hr & Hn & Ho & _)%drained_delta [H1%Nat.leb_le H2%Nat.leb_le]%andb_prop. unfold DEFAULT_MIN_ORGS, DEFAULT_MIN_REQUESTS in *.
  split; [lia|]. exists (DemandDelta.orgIds d). split; [done|]. split; [done|]. intros org. apply Ho.
Qed.

(** ** Bucket labels *)

Lemma hex_digit_hex d : (0 <= d < 16)%Z -> is_hex (hex_digit d) = true.
Proof.
  intros H. assert (In d (map Z.of_nat (seq 0 16))) as Hin.
  { apply in_map_iff. exists (Z.to_nat d). split; [lia|]. apply in_seq. lia. }
  vm_compute in Hin. repeat (destruct Hin as [<-|Hin]; [reflexivity|]). destruct Hin.
Qed.

Lemma hex_label n : (0 <= n < 65536)%Z -> isLshBucket ("lsh:" +:+ pad_start 4 (to_hex 4 n "")) = true.
Proof.
  intros H. assert (forall x, is_hex (hex_digit (x mod 16)) = true) as Hd by (intros; apply hex_digit_hex, Z.mod_pos_bound; lia).
  cbn [to_hex].
  repeat match goal with |- context [(?a <? 16)%Z] => destruct (Z.ltb_spec a 16) end;
    cbv -[hex_digit is_hex Z.modulo Z.div]; rewrite ?Hd; reflexivity.
Qed.

#[local] Open Scope Z_scope.

Lemma lor_bound a b k : (0 <= a < 2 ^ k)%Z -> (0 <= b < 2 ^ k)%Z -> (0 <= k)%Z -> (Z.lor a b < 2 ^ k)%Z.
Proof.
  intros Ha Hb Hk. destruct (Z.eq_dec (Z.lor a b) 0) as [->|Hne]; [by apply Z.pow_pos_nonneg|].
  assert (k <> 0) by (intros ->; destruct Hne; replace a with 0 by lia; by replace b with 0 by lia).
  assert (0 <= Z.lor a b) by (apply Z.lor_nonneg; lia).
  apply Z.log2_lt_pow2; [lia|]. rewrite Z.log2_lor by lia. apply Z.max_lub_lt.
  - destruct (Z.eq_dec a 0) as [->|]; [simpl; lia|apply Z.log2_lt_pow2; lia].
  - destruct (Z.eq_dec b 0) as [->|]; [simpl; lia|apply Z.log2_lt_pow2; lia].
Qed.

Lemma set_bits_bound planes e : (length planes <= 16)%nat -> (0 <= set_bits planes e < 65536)%Z.
Proof.
  intros Hl. unfold set_bits.
  assert (forall ps bits p, (0 <= bits < 2 ^ p)%Z -> (0 <= p)%Z -> (p + Z.of_nat (length ps) <= 16)%Z ->
    0 <= (foldl (fun '(bits, p) plane => (if gtb (dot e plane zero) zero then Z.lor bits (Z.shiftl 1 p) else bits, p + 1)) (bits, p) ps).1 < 65536)%Z as H.
  { induction ps as [|pl ps IH]; intros bits p Hb Hp Hlen; simpl in *.
    - pose proof (Z.pow_le_mono_r 2 p 16). lia.
    - assert (2 ^ (p + 1) = 2 * 2 ^ p)%Z as E2 by (rewrite Z.pow_add_r by lia; lia).
      apply IH; [|lia|lia]. destruct (gtb _ _); [|lia]. split; [apply Z.lor_nonneg; split; [lia|]; apply Z.shiftl_nonneg; lia|].
      rewrite Z.shiftl_mul_pow2, Z.mul_1_l by lia. pose proof (Z.pow_pos_nonneg 2 p). apply lor_bound; lia. }
  apply (H planes 0 0); simpl; lia.
Qed.

(** Whatever the embedding and the planes, a label is one that
    [isLshBucket] recognizes. *)
Theorem lshBucket_label PLANES embedding id :
  length PLANES = LSH_BITS -> lshBucket PLANES embedding = Some id -> isLshBucket id = true.
Proof.
  intros Hp. unfold lshBucket. destruct (negb _); [done|]. intros [= <-]. apply hex_label, set_bits_bound. by rewrite Hp.
Qed.

(** A week starts on a Monday (day 4 is one), at most six days before. *)
Lemma week_monday_spec at_ :
  let day := at_ / 86400000 in
  (week_monday at_ - 4) mod 7 = 0 /\ week_monday at_ <= day < week_monday at_ + 7.
Proof.
  unfold week_monday. cbv zeta. set (d := at_ / 86400000). set (r := (d + 4) mod 7).
  pose proof (Z.mod_pos_bound (d + 4) 7 ltac:(lia)). pose proof (Z.div_mod (d + 4) 7 ltac:(lia)).
  pose proof (Z.mod_pos_bound (r + 6) 7 ltac:(lia)). pose proof (Z.div_mod (r + 6) 7 ltac:(lia)).
  split; [|lia]. fold r in H, H0.
  replace (d - (r + 6) mod 7 - 4) with (((d + 4) / 7 + (r + 6) / 7 - 2) * 7) by lia. by apply Z_mod_mult.
Qed.

(** ** Witnesses *)

Definition sample (org : string) (at_ : Z) : DemandObservation.t :=
  DemandObservation.mk "code-gen" "no-tools/sync/0-1k" at_ org (Some (lit 9 1)) None.

Definition sample_window : list DemandObservation.t :=
  concat (replicate 4 (map (fun org => sample org 1767600000000) ["o1"; "o2"; "o3"; "o4"; "o5"])).

Lemma publishable_contributors_witness :
  exists d, (drain (observe_all 10 sample_window)).1 = [d] /\ DemandDelta.weekStart d = "2026-01-05" /\
  exists orgs : list string, NoDup orgs /\ (5 <= length orgs)%nat.
Proof.
  eexists. split; [vm_compute; reflexivity|]. split; [reflexivity|].
  destruct (publishable_contributors 10 sample_window
    (default (DemandDelta.mk "" "" Shape.cluster "" "" 0 [] zero 0 None None 0) (head (drain (observe_all 10 sample_window)).1)))
    as (_ & orgs & H1 & H2 & _).
  - vm_compute. left.
  - vm_compute. reflexivity.
  - exists orgs. split; [exact H1|exact H2].
Defined.

Lemma lshBucket_label_witness : isLshBucket "lsh:0000" = true.
Proof.
  apply (lshBucket_label (replicate 16 (replicate LSH_DIMS zero)) (replicate LSH_DIMS one) "lsh:0000").
  - reflexivity.
  - vm_compute. reflexivity.
Defined.

End Demand.
