(* ===== verification/Interp.v ===== *)
(** * The program interpreter: strategies/src/program.ts

    [runProgram] evaluates a program by promises: a memo from node keys to the
    promise of the node, an asynchronous body per node, provider calls whose
    responses arrive in any order.  The model is a machine over that memo.  An
    entry is a started node with the promises it awaits and where its body
    stands; [start] is the synchronous part of [evalNode], up to the first
    [await]; an event is one block that runs after an [await]: a provider
    response, a provider failure, a body resuming with its awaited results, a
    rejection travelling up.

    Regular expressions of the program and [JSON.parse] are the language's; they
    enter as the class [Texts]. *)

From Stdlib Require Import Ascii.
From S2P Require Import Prelude Number Types Print Program Prompt Consensus.

Module Interp.
Import Num Print Program Prompt Consensus.

(** ** What a call exchanges: strategies/src/types.ts, providers/src/types.ts *)

Module StageTrace.
Record t := mk {
  stage : string;
  model : string;
  text : string;
  usage : Usage.t;
  confidence : option number;
  decision : option string;
}.
End StageTrace.

Module StrategyResult.
Record t := mk {
  text : string;
  trace : list StageTrace.t;
  usage : Usage.t;
  toolCalls : option (list ToolCall.t);
  finishReason : option FinishReason;
}.
End StrategyResult.

(** Absent parameters are a record with no field set. *)
Module CompleteParams.
Record t := mk {
  seed : option number;
  maxTokens : option number;
  logprobs : bool;
  tools : option (list Tool.t);
  tool_choice : option ToolChoice;
  reasoningEffort : option ReasoningEffort;
  sampling : option SamplingParams.t;
}.
End CompleteParams.

Module CompleteRequest.
Record t := mk { model : string; messages : list ChatMessage.t; params : CompleteParams.t }.
End CompleteRequest.

Module ProviderUsage.
Record t := mk {
  inputTokens : number;
  outputTokens : number;
  providerCostUsd : option number;
  usageEstimated : bool;
}.
End ProviderUsage.

Module CompleteResponse.
Record t := mk {
  text : string;
  usage : ProviderUsage.t;
  latencyMs : number;
  logprobConfidence : option number;
  modelVersion : string;
  toolCalls : option (list ToolCall.t);
  finishReason : option FinishReason;
}.
End CompleteResponse.

(** [resolve] throws on an unknown model; [relays] says which provider has a
    [completeStream], [stream] whether the caller wants tokens. *)
Module ExecContext.
Record t := mk {
  relays : ProviderId -> bool;
  resolve : string -> option PriceEntry.t;
  seed : option number;
  maxOutputTokens : option number;
  captureConfidence : bool;
  stream : bool;
  tools : option (list Tool.t);
  toolChoice : option ToolChoice;
  sampling : option SamplingParams.t;
}.
End ExecContext.

(** strategies/src/resolve.ts. *)
Definition createResolver (has_provider : ProviderId -> bool) (prices : PriceTable.t) (model : string)
    : option PriceEntry.t :=
  match find (fun e => bool_decide (PriceEntry.alias e = model) || bool_decide (PriceEntry.model e = model))
             (PriceTable.entries prices) with
  | Some entry => if has_provider (PriceEntry.provider entry) then Some entry else None
  | None => None
  end.

(** ** core/src/prices.ts *)

Definition costUsd (u : ProviderUsage.t) (e : PriceEntry.t) : number :=
  let modelled := div (add (mul (ProviderUsage.inputTokens u) (PriceEntry.inputPer1M e))
                           (mul (ProviderUsage.outputTokens u) (PriceEntry.outputPer1M e))) (of_Z 1000000) in
  match ProviderUsage.providerCostUsd u with
  | Some c => if is_finite c && geb c zero then c else modelled
  | None => modelled
  end.

(** [Math.round]: ties up, and a negative number that rounds to zero is [-0]. *)
Definition round (a : number) : number :=
  match a with
  | S754_finite s _ _ => let z := math_round a in if (z =? 0)%Z then S754_zero s else of_Z z
  | _ => a
  end.

Definition roundCost (usd : number) : number := div (round (mul usd (of_Z 1000000))) (of_Z 1000000).

(** ** Node results *)

Module NodeResult.
Record t := mk {
  text : string;
  confidence : option number;
  toolCalls : option (list ToolCall.t);
  trace : list StageTrace.t;
  usage : Usage.t;
}.
End NodeResult.

Definition zeroUsage : Usage.t := Usage.mk zero zero zero zero None.

Definition addUsage (a b : Usage.t) : Usage.t :=
  Usage.mk (add (Usage.inputTokens a) (Usage.inputTokens b)) (add (Usage.outputTokens a) (Usage.outputTokens b))
    (roundCost (add (Usage.costUsd a) (Usage.costUsd b))) (add (Usage.latencyMs a) (Usage.latencyMs b)) None.

(** What a node that is awaited again contributes: its answer, already paid for. *)
Definition paid (r : NodeResult.t) : NodeResult.t :=
  NodeResult.mk (NodeResult.text r) (NodeResult.confidence r) (NodeResult.toolCalls r) [] zeroUsage.

(** The language's regular expressions with the [s] flag, [None] when the pattern
    does not compile, and [JSON.parse], [None] when it throws. *)
Class Texts := {
  regexTest : string -> option (string -> bool);
  jsonParse : string -> option json;
}.

(** [text.match(/\{[\s\S]*\}/)]: from the first opening brace to the last
    closing one. *)
Definition not_char (a c : Ascii.ascii) : bool := negb (Ascii.eqb c a).
Definition braces (text : string) : option string :=
  match drop_while (not_char "{"%char) text with
  | EmptyString => None
  | s => match drop_while (not_char "}"%char) (reverse s) with
         | EmptyString => None
         | r => Some (reverse r)
         end
  end.

(** [k in parsed] looks through the prototypes. *)
Definition OBJECT_PROTOTYPE : list string :=
  ["constructor"; "__defineGetter__"; "__defineSetter__"; "hasOwnProperty"; "__lookupGetter__"; "__lookupSetter__";
   "isPrototypeOf"; "propertyIsEnumerable"; "toString"; "valueOf"; "__proto__"; "toLocaleString"].
Definition ARRAY_PROTOTYPE : list string :=
  ["length"; "at"; "concat"; "copyWithin"; "fill"; "find"; "findIndex"; "findLast"; "findLastIndex"; "lastIndexOf";
   "pop"; "push"; "reverse"; "shift"; "unshift"; "slice"; "sort"; "splice"; "includes"; "indexOf"; "join"; "keys";
   "entries"; "values"; "forEach"; "filter"; "flat"; "flatMap"; "map"; "every"; "some"; "reduce"; "reduceRight";
   "toReversed"; "toSorted"; "toSpliced"; "with"].

Definition has_property (k : string) (parsed : json) : bool :=
  match parsed with
  | JObj fs => bool_decide (k ∈ map fst fs) || bool_decide (k ∈ OBJECT_PROTOTYPE)
  | JArr l => existsb (fun i => bool_decide (show_Z (Z.of_nat i) = k)) (seq 0 (length l))
              || bool_decide (k ∈ ARRAY_PROTOTYPE) || bool_decide (k ∈ OBJECT_PROTOTYPE)
  | _ => false
  end.

Definition is_object (v : json) : bool := match v with JObj _ | JArr _ => true | _ => false end.

(** ** Combining the results of the operands *)

Definition spent_trace (rs : list NodeResult.t) : list StageTrace.t := flat_map NodeResult.trace rs.
Definition spent_usage (rs : list NodeResult.t) : Usage.t :=
  foldl (fun a r => addUsage a (NodeResult.usage r)) zeroUsage rs.

(** The first tool call among the results. *)
Definition first_tool (rs : list NodeResult.t) : option (list ToolCall.t) :=
  r ← find (fun r => bool_decide (is_Some (NodeResult.toolCalls r))) rs; NodeResult.toolCalls r.

(** [{ text: '', toolCalls, ...spent }]. *)
Definition tool_result (tools : list ToolCall.t) (rs : list NodeResult.t) : NodeResult.t :=
  NodeResult.mk "" None (Some tools) (spent_trace rs) (spent_usage rs).

Definition winner_result (winner : NodeResult.t) (rs : list NodeResult.t) : NodeResult.t :=
  NodeResult.mk (NodeResult.text winner) (NodeResult.confidence winner) None (spent_trace rs) (spent_usage rs).

(** The ballots, in order of first appearance. *)
Definition ballot : Type := answer_key * (nat * NodeResult.t).

Fixpoint count_vote (r : NodeResult.t) (counts : list ballot) : list ballot :=
  let k := consensusKey (NodeResult.text r) in
  match counts with
  | [] => [(k, (1%nat, r))]
  | (k', (n, first)) :: rest =>
      if decide (k' = k) then (k', (S n, first)) :: rest else (k', (n, first)) :: count_vote r rest
  end.

Definition majority_step (acc : nat * NodeResult.t) (b : ballot) : nat * NodeResult.t :=
  if (acc.1 <? b.2.1)%nat then b.2 else acc.

Definition majority (r0 : NodeResult.t) (rs : list NodeResult.t) : NodeResult.t :=
  (foldl majority_step (0%nat, r0) (foldl (fun counts r => count_vote r counts) [] rs)).2.

(** The vote; [None] is the TypeError of an empty one. *)
Definition vote_result (rs : list NodeResult.t) : option NodeResult.t :=
  match first_tool rs with
  | Some tools => Some (tool_result tools rs)
  | None => match rs with [] => None | r0 :: _ => Some (winner_result (majority r0 rs) rs) end
  end.

Definition confidence_or (r : NodeResult.t) : number := default (of_Z (-1)) (NodeResult.confidence r).

Definition more_confident (a b : NodeResult.t) : NodeResult.t :=
  if gtb (confidence_or b) (confidence_or a) then b else a.

Definition confident_result (rs : list NodeResult.t) : option NodeResult.t :=
  match rs with
  | [] => None
  | r0 :: rest => Some (winner_result (foldl more_confident r0 rest) rs)
  end.

(** The pick of a judge's reply. *)
Definition judge_result (rs : list NodeResult.t) (judged : NodeResult.t) : option NodeResult.t :=
  winner ← rs !! (parsePick (NodeResult.text judged) (length rs)).1;
  Some (NodeResult.mk (NodeResult.text winner) (NodeResult.confidence winner) None
          (spent_trace rs ++ NodeResult.trace judged) (addUsage (spent_usage rs) (NodeResult.usage judged))).

(** ** Checks *)

Inductive check_outcome := passes (ok : bool) | tool_call (tools : list ToolCall.t).

Section checks.
  Context `{!Texts}.

(** The object shape test of the json check. *)
Definition json_shape (text : string) (requiredKeys : option (list string)) : bool :=
  match jsonParse (default text (braces text)) with
  | Some parsed => is_object parsed && forallb (fun k => has_property k parsed) (default [] requiredKeys)
  | None => false
  end.

(** Every check but [tool-called] stops at a tool call. *)
Definition unless_tool (r : NodeResult.t) (k : option check_outcome) : option check_outcome :=
  match NodeResult.toolCalls r with Some tools => Some (tool_call tools) | None => k end.

(** [None]: a pattern that does not compile throws. *)
Definition check_result (c : ProgramCheck) (rs : list NodeResult.t) : option check_outcome :=
  match c, rs with
  | agree _ _, [a; b] =>
      match NodeResult.toolCalls a, NodeResult.toolCalls b with
      | Some tools, _ | None, Some tools => Some (tool_call tools)
      | None, None => Some (passes (bool_decide (consensusKey (NodeResult.text a) = consensusKey (NodeResult.text b))))
      end
  | tool_called _, [r] => Some (passes (bool_decide (is_Some (NodeResult.toolCalls r))))
  | confidence _ min, [r] =>
      unless_tool r (Some (passes match NodeResult.confidence r with Some c => geb c min | None => false end))
  | regex _ pattern, [r] => unless_tool r ((fun test => passes (test (NodeResult.text r))) <$> regexTest pattern)
  | json_check _ keys, [r] => unless_tool r (Some (passes (json_shape (NodeResult.text r) keys)))
  | _, _ => None
  end.
End checks.

(** What a check spent: agree adds its two usages, the others pass theirs on. *)
Definition check_usage (rs : list NodeResult.t) : Usage.t :=
  match rs with
  | [r] => NodeResult.usage r
  | [a; b] => addUsage (NodeResult.usage a) (NodeResult.usage b)
  | _ => zeroUsage
  end.

(** ** The machine *)

(** A provider call in flight: what its response is turned into. *)
Record pending := Pending {
  p_stage : string;
  p_entry : PriceEntry.t;
  p_request : CompleteRequest.t;
}.

Inductive error :=
| over_budget (** exceeded [MAX_PROGRAM_CALLS] *)
| unknown_model (model : string)
| provider_failed (message : string)
| invalid_pattern
| type_error.

(** A promise of [evalNode]: the node's key, and whether this is the call that
    evaluated it or a later one, which gets the answer [paid] for. *)
Record handle := Handle { h_key : json; h_owner : bool }.

(** Where a node's body stands. *)
Inductive phase :=
| in_call (p : pending)
| in_check
| in_branch (spent : list StageTrace.t) (usage : Usage.t)
| in_all
| in_judge (results : list NodeResult.t) (p : pending).

Inductive status :=
| running (ph : phase)
| settled (r : NodeResult.t)
| rejected (e : error).

(** A rejected entry keeps what it was awaiting: those promises go on, unread. *)
Record entry := Entry {
  e_key : json;
  e_node : ProgramNode;
  e_awaiting : list handle;
  e_status : status;
}.

(** [memo] and [calls] are the variables of [runProgram]; [sent] and [received]
    record the wire. *)
Record state := State {
  memo : list entry;
  calls : nat;
  sent : list CompleteRequest.t;
  received : list StageTrace.t;
}.

Definition lookup (k : json) (s : state) : option entry := find (fun e => bool_decide (e_key e = k)) (memo s).

Definition update (k : json) (hs : list handle) (st : status) (s : state) : state :=
  State (map (fun e => if decide (e_key e = k) then Entry k (e_node e) hs st else e) (memo s))
        (calls s) (sent s) (received s).

Definition push_entry (e : entry) (s : state) : state :=
  State (memo s ++ [e]) (calls s) (sent s) (received s).

(** The value of an awaited promise, when it is settled. *)
Definition view (s : state) (h : handle) : option NodeResult.t :=
  e ← lookup (h_key h) s;
  match e_status e with
  | settled r => Some (if h_owner h then r else paid r)
  | _ => None
  end.

Definition collect (s : state) (hs : list handle) : option (list NodeResult.t) := mapM (view s) hs.

(** The knobs a stage name records after the stage itself. *)
Definition effort_name (e : ReasoningEffort) : string :=
  match e with low => "low" | medium => "medium" | high => "high" end.
Definition variant_name (v : PromptVariant) : string :=
  match v with terse => "terse" | step_by_step => "step-by-step" | json_only => "json-only" end.
Definition part {A} (f : A -> string) (o : option A) : list string := match o with Some a => [f a] | None => [] end.

Section run.
  Context (ctx : ExecContext.t) (name : string) (messages : list ChatMessage.t) `{!Texts}.

Definition stage_name (stage : string) (re : option ReasoningEffort) (pv : option PromptVariant)
    (cs : option ContextSelect.t) (ts : option ToolSelect.t) : string :=
  join ":" ([stage] ++ part effort_name re ++ part variant_name pv
            ++ part (fun c => "keep" +:+ show_Z (ContextSelect.keepParagraphs c)) cs
            ++ part (fun c => "tools" +:+ show_Z (ToolSelect.keepTools c)) ts).

Definition request_text (msgs : list ChatMessage.t) : string := join nl (map ChatMessage.content msgs).

(** The request of [call]. *)
Definition request (model : string) (msgs : list ChatMessage.t) (re : option ReasoningEffort)
    (pv : option PromptVariant) (cs : option ContextSelect.t) (ts : option ToolSelect.t) : CompleteRequest.t :=
  CompleteRequest.mk model (applyPromptVariant (selectContext msgs cs) pv)
    (CompleteParams.mk (ExecContext.seed ctx) (ExecContext.maxOutputTokens ctx) (ExecContext.captureConfidence ctx)
       (selectTools (ExecContext.tools ctx) (request_text msgs) ts) (ExecContext.toolChoice ctx) re None).

(** The first half of [call]: count, check the bound, resolve, send. *)
Definition issue (model stage : string) (msgs : list ChatMessage.t) (re : option ReasoningEffort)
    (pv : option PromptVariant) (cs : option ContextSelect.t) (ts : option ToolSelect.t) (s : state)
    : state * (pending + error) :=
  let s := State (memo s) (S (calls s)) (sent s) (received s) in
  if (MAX_PROGRAM_CALLS <? calls s)%nat then (s, inr over_budget)
  else match ExecContext.resolve ctx model with
       | None => (s, inr (unknown_model model))
       | Some entry =>
           let req := request model msgs re pv cs ts in
           (State (memo s) (calls s) (sent s ++ [req]) (received s),
            inl (Pending (stage_name stage re pv cs ts) entry req))
       end.

(** The second half of [call]: the response as a node result. *)
Definition response_usage (r : CompleteResponse.t) (e : PriceEntry.t) : Usage.t :=
  let u := CompleteResponse.usage r in
  Usage.mk (ProviderUsage.inputTokens u) (ProviderUsage.outputTokens u) (roundCost (costUsd u e))
    (CompleteResponse.latencyMs r) (if ProviderUsage.usageEstimated u then Some tt else None).

Definition call_result (p : pending) (r : CompleteResponse.t) : NodeResult.t :=
  let usage := response_usage r (p_entry p) in
  NodeResult.mk (CompleteResponse.text r) (CompleteResponse.logprobConfidence r)
    (match CompleteResponse.toolCalls r with Some ((_ :: _) as tools) => Some tools | _ => None end)
    [StageTrace.mk (p_stage p) (CompleteRequest.model (p_request p)) (CompleteResponse.text r) usage
       (CompleteResponse.logprobConfidence r) None]
    usage.

Definition stage (kind : string) : string := "program:" +:+ name +:+ ":" +:+ kind.

Definition judge_messages (rs : list NodeResult.t) : list ChatMessage.t :=
  buildJudgeMessages messages (map NodeResult.text rs) None.

(** The synchronous part of [evalNode] and [evalCheck]: look the key up, or run
    the body to its first [await] and store the promise. *)
Fixpoint start (node : ProgramNode) (s : state) : state * handle :=
  let key := programNodeKey node in
  if decide (key ∈ map e_key (memo s)) then (s, Handle key false)
  else
    let '(s, hs, st) :=
      match node with
      | call model re pv cs ts =>
          let '(s, p) := issue model (stage "call") messages re pv cs ts s in
          (s, [], match p with inl p => running (in_call p) | inr e => rejected e end)
      | if_ check _ _ => let '(s, hs) := start_check check s in (s, hs, running in_check)
      | vote of_ | pick of_ _ =>
          let '(s, hs) := (fix go l s :=
            match l with
            | [] => (s, [])
            | x :: l => let '(s, h) := start x s in let '(s, hs) := go l s in (s, h :: hs)
            end) of_ s in
          (s, hs, running in_all)
      end in
    (push_entry (Entry key node hs st) s, Handle key true)
with start_check (c : ProgramCheck) (s : state) : state * list handle :=
  match c with
  | agree a b => let '(s, ha) := start a s in let '(s, hb) := start b s in (s, [ha; hb])
  | confidence n _ | regex n _ | tool_called n | json_check n _ => let '(s, h) := start n s in (s, [h])
  end.

Inductive event :=
| Respond (k : json) (r : CompleteResponse.t)
| Fail (k : json) (message : string)
| Resume (k : json)
| Abort (k child : json).

Definition receive (r : NodeResult.t) (s : state) : state :=
  State (memo s) (calls s) (sent s) (received s ++ NodeResult.trace r).

(** The end of a body: its promise settles, or rejects on a thrown TypeError. *)
Definition settle (k : json) (r : option NodeResult.t) (s : state) : state :=
  update k [] match r with Some r => settled r | None => rejected type_error end s.

(** A pick with its results in: a tool call ends it, the judge is asked. *)
Definition resume_pick (k : json) (by_ : PickBy) (rs : list NodeResult.t) (s : state) : state :=
  match first_tool rs, by_ with
  | Some tools, _ => settle k (Some (tool_result tools rs)) s
  | None, by_confidence => settle k (confident_result rs) s
  | None, by_judge model =>
      let '(s, p) := issue model (stage "judge") (judge_messages rs) None None None None s in
      update k [] match p with inl p => running (in_judge rs p) | inr e => rejected e end s
  end.

(** An if with its check's operands in: a tool call ends it, else a branch
    starts. *)
Definition resume_check (k : json) (c : ProgramCheck) (then_ else_ : ProgramNode) (rs : list NodeResult.t) (s : state)
    : state :=
  match check_result c rs with
  | None => update k [] (rejected invalid_pattern) s
  | Some (tool_call tools) =>
      settle k (Some (NodeResult.mk "" None (Some tools) (spent_trace rs) (check_usage rs))) s
  | Some (passes ok) =>
      let '(s, h) := start (if ok then then_ else else_) s in
      update k [h] (running (in_branch (spent_trace rs) (check_usage rs))) s
  end.

Definition branch_result (spent : list StageTrace.t) (usage : Usage.t) (b : NodeResult.t) : NodeResult.t :=
  NodeResult.mk (NodeResult.text b) (NodeResult.confidence b) (NodeResult.toolCalls b)
    (spent ++ NodeResult.trace b) (addUsage usage (NodeResult.usage b)).

Definition resume (k : json) (e : entry) (ph : phase) (rs : list NodeResult.t) (s : state) : option state :=
  match e_node e, ph, rs with
  | if_ c t f, in_check, _ => Some (resume_check k c t f rs s)
  | if_ _ _ _, in_branch spent usage, [b] => Some (settle k (Some (branch_result spent usage b)) s)
  | vote _, in_all, _ => Some (settle k (vote_result rs) s)
  | pick _ by_, in_all, _ => Some (resume_pick k by_ rs s)
  | _, _, _ => None
  end.

(** One block of the event loop; [None] when the event cannot happen. *)
Definition step (ev : event) (s : state) : option state :=
  match ev with
  | Respond k r =>
      e ← lookup k s;
      match e_status e with
      | running (in_call p) => let res := call_result p r in Some (settle k (Some res) (receive res s))
      | running (in_judge rs p) => let res := call_result p r in Some (settle k (judge_result rs res) (receive res s))
      | _ => None
      end
  | Fail k m =>
      e ← lookup k s;
      match e_status e with
      | running (in_call _) | running (in_judge _ _) => Some (update k [] (rejected (provider_failed m)) s)
      | _ => None
      end
  | Resume k =>
      e ← lookup k s;
      match e_status e with
      | running ph => rs ← collect s (e_awaiting e); resume k e ph rs s
      | _ => None
      end
  | Abort k child =>
      e ← lookup k s; c ← lookup child s;
      match e_status e, e_status c with
      | running _, rejected err =>
          if decide (child ∈ map h_key (e_awaiting e)) then Some (update k (e_awaiting e) (rejected err) s) else None
      | _, _ => None
      end
  end.

Fixpoint run (evs : list event) (s : state) : option state :=
  match evs with
  | [] => Some s
  | ev :: evs => s' ← step ev s; run evs s'
  end.

Definition empty : state := State [] 0 [] [].

(** [runProgram]: the initial block, and what its promise has become. *)
Definition initial (body : ProgramNode) : state := (start body empty).1.

Definition reachable (body : ProgramNode) (s : state) : Prop := exists evs, run evs (initial body) = Some s.

Definition root (body : ProgramNode) (s : state) : option (StrategyResult.t + error) :=
  e ← lookup (programNodeKey body) s;
  match e_status e with
  | settled r =>
      Some (inl (StrategyResult.mk (NodeResult.text r) (NodeResult.trace r) (NodeResult.usage r) (NodeResult.toolCalls r) None))
  | rejected err => Some (inr err)
  | running _ => None
  end.
End run.

(** ** Reference programs *)

Definition plain_call (model : string) : ProgramNode := call model None None None None.

Definition consensusOrEscalate (cheapA cheapB strong : string) : ProgramNode :=
  let a := plain_call cheapA in
  let b := plain_call cheapB in
  if_ (agree a b) (pick [a; b] by_confidence) (plain_call strong).

Inductive cascade_gate := json_gate (requiredKeys : option (list string)) | regex_gate (pattern : string).

Definition verifiedCascade (cheap strong : string) (check : cascade_gate) : ProgramNode :=
  let c := plain_call cheap in
  if_ (match check with json_gate keys => json_check c keys | regex_gate pattern => regex c pattern end)
      c (plain_call strong).

Definition confidenceGatedCascade (cheap strong : string) (tau : number) : ProgramNode :=
  let c := plain_call cheap in
  if_ (confidence c tau) c (plain_call strong).

(** ** A sample run

    Two cheap models answer out of order and agree; the more confident answer
    is picked from the memo. *)

Definition sample_texts : Texts := {|
  regexTest pattern := Some (fun text => bool_decide (pattern = text));
  jsonParse text := if bool_decide (text = "{}") then Some (JObj []) else None;
|}.
#[local] Existing Instance sample_texts.

Definition sample_price : PriceEntry.t := PriceEntry.mk "cheap" mock_provider "cheap" (of_Z 1) (of_Z 2).
Definition sample_ctx : ExecContext.t := 
  ExecContext.mk (fun _ => false) (fun _ => Some sample_price) None None true false None None None.
Definition sample_messages : list ChatMessage.t := [message user "What is 6 times 7?"].
Definition sample_body : ProgramNode := consensusOrEscalate "a" "b" "strong".

Definition sample_response (text : string) (conf : Z) (estimated : bool) : CompleteResponse.t :=
  CompleteResponse.mk text (ProviderUsage.mk (of_Z 10) (of_Z 20) None estimated) (of_Z 300) (Some (lit conf 2)) "v1" None None.

Definition response_a : CompleteResponse.t := sample_response "Final answer: 42" 80 true.
Definition response_b : CompleteResponse.t := sample_response ("6 * 7" +:+ nl +:+ "Final answer: 42.") 90 false.

Definition sample_answer (r : CompleteRequest.t) : option CompleteResponse.t :=
  if bool_decide (CompleteRequest.model r = "a") then Some response_a
  else if bool_decide (CompleteRequest.model r = "b") then Some response_b else None.

Definition sample_a : json := programNodeKey (plain_call "a").
Definition sample_b : json := programNodeKey (plain_call "b").
Definition sample_pick : json := programNodeKey (pick [plain_call "a"; plain_call "b"] by_confidence).
Definition sample_root : json := programNodeKey sample_body.

Definition sample_events : list event :=
  [Respond sample_b response_b; Respond sample_a response_a; Resume sample_root; Resume sample_pick; Resume sample_root].

Definition sample_state (n : nat) : state :=
  default empty (run sample_ctx "sample" sample_messages (take n sample_events)
                   (initial sample_ctx "sample" sample_messages sample_body)).

Lemma sample_run n : (n <= 5)%nat ->
  run sample_ctx "sample" sample_messages (take n sample_events)
    (initial sample_ctx "sample" sample_messages sample_body) = Some (sample_state n).
Proof. intros Hn. do 6 (destruct n as [|n]; [by vm_compute|]). lia. Qed.

(** ** Two divergences *)

(** The types promise that a sum of usages is marked as estimated when any part
    was; the interpreter's sum drops the mark, although the stage keeps it. *)
Theorem estimated_usage_lost :
  exists r, root sample_body (sample_state 5) = Some (inl r) /\
    Usage.usageEstimated (StrategyResult.usage r) = None /\
    map (fun t => Usage.usageEstimated (StageTrace.usage t)) (StrategyResult.trace r) = [Some tt; None].
Proof. eexists. by vm_compute. Qed.

(** A key that every object inherits counts as present: a json check that
    requires it passes on the empty object. *)
Theorem inherited_keys_pass : json_shape "{}" (Some ["constructor"; "toString"]) = true.
Proof. by vm_compute. Qed.
End Interp.
