(* ===== verification/InterpSafety.v ===== *)
(** * The interpreter under every interleaving: bounds, progress, billing

    Invariants of the machine of [Interp]: what [start] adds to the memo, the
    shape of its entries, who awaits what.  From them: no run makes more
    provider calls than the static bound, a run in which the provider answers
    never gets stuck and is short, and a finished program's trace bills every
    response received exactly once. *)

From S2P Require Import Prelude Number Types Print Program Prompt Consensus Interp.

Module Safety.
Import Num Program Prompt Interp.

(** ** Keys and sizes *)

Lemma key_size x y : programNodeKey x = programNodeKey y -> size x = size y.
Proof. intros H. by rewrite !size_trace, (key_trace x y H). Qed.

Lemma subnodes_trans a b c : a ∈ subnodes b -> b ∈ subnodes c -> a ∈ subnodes c.
Proof.
  intros Ha. induction c as [c IH] using node_ind. rewrite (subnodes_children c), !elem_of_cons, !elem_of_flat_map.
  intros [->|(d & Hd & Hb)].
  - rewrite subnodes_children, elem_of_cons, elem_of_flat_map in Ha. done.
  - right. exists d. split; [done|]. rewrite Forall_forall in IH. auto.
Qed.

Definition memo_keys (s : state) : list json := map e_key (memo s).

(** The nodes a node's body awaits first. *)
Definition awaited (n : ProgramNode) : list ProgramNode :=
  match n with call _ _ _ _ _ => [] | if_ c _ _ => operands c | vote l | pick l _ => l end.

Lemma awaited_children n x : x ∈ awaited n -> x ∈ children n.
Proof. destruct n; simpl; rewrite ?elem_of_app; auto. Qed.

Lemma awaited_smaller n x : x ∈ awaited n -> (size x < size n)%nat.
Proof. intros. by apply child_size, awaited_children. Qed.

Definition first_phase (n : ProgramNode) : phase := match n with if_ _ _ _ => in_check | _ => in_all end.

Section safety.
  Context (ctx : ExecContext.t) (name : string) (messages : list ChatMessage.t) `{Htexts : !Texts}.

Abbreviation start := (start ctx name messages).
Abbreviation step := (step ctx name messages).
Abbreviation run := (run ctx name messages).
Abbreviation initial := (initial ctx name messages).
Abbreviation reachable := (reachable ctx name messages).
Abbreviation issue := (issue ctx).

(** ** [start], one node at a time *)

Fixpoint start_all (l : list ProgramNode) (s : state) : state * list handle :=
  match l with
  | [] => (s, [])
  | x :: l => let '(s, h) := start x s in let '(s, hs) := start_all l s in (s, h :: hs)
  end.

(** The first block of a body: its state, the handles it awaits, its status. *)
Definition begin (n : ProgramNode) (s : state) : state * list handle * status :=
  match n with
  | call model re pv cs ts =>
      let '(s, p) := issue model (stage name "call") messages re pv cs ts s in
      (s, [], match p with inl p => running (in_call p) | inr e => rejected e end)
  | _ => let '(s, hs) := start_all (awaited n) s in (s, hs, running (first_phase n))
  end.

Lemma start_eq n s :
  start n s =
  if decide (programNodeKey n ∈ memo_keys s) then (s, Handle (programNodeKey n) false)
  else let '(s', hs, st) := begin n s in
       (push_entry (Entry (programNodeKey n) n hs st) s', Handle (programNodeKey n) true).
Proof.
  unfold memo_keys. destruct n as [|c t e|l|l b]; simpl; case_decide; try done.
  destruct c; simpl; repeat (destruct (Interp.start _ _ _ _ _) as [? ?]); done.
Qed.

(** ** The shape of an entry *)

Definition call_pending (n : ProgramNode) (p : pending) : Prop :=
  match n with
  | call m re pv cs ts =>
      exists e, ExecContext.resolve ctx m = Some e /\
        p = Pending (stage_name (stage name "call") re pv cs ts) e (request ctx m messages re pv cs ts)
  | _ => False
  end.

Definition judge_pending (n : ProgramNode) (rs : list NodeResult.t) (p : pending) : Prop :=
  match n with
  | pick l (by_judge m) =>
      length rs = length l /\ first_tool rs = None /\ exists e, ExecContext.resolve ctx m = Some e /\
        p = Pending (stage_name (stage name "judge") None None None None) e
              (request ctx m (judge_messages messages rs) None None None None)
  | _ => False
  end.

Definition awaits (e : entry) (l : list ProgramNode) : Prop := map h_key (e_awaiting e) = map programNodeKey l.

Definition phase_shape (e : entry) (ph : phase) : Prop :=
  match ph with
  | in_call p => call_pending (e_node e) p /\ e_awaiting e = []
  | in_check | in_all => is_call (e_node e) = false /\ ph = first_phase (e_node e) /\ awaits e (awaited (e_node e))
  | in_branch _ _ => exists c t f b, e_node e = if_ c t f /\ b ∈ [t; f] /\ awaits e [b]
  | in_judge rs p => judge_pending (e_node e) rs p /\ e_awaiting e = []
  end.

Record shape (e : entry) : Prop := {
  shape_key : e_key e = programNodeKey (e_node e);
  shape_phase : match e_status e with running ph => phase_shape e ph | settled _ => e_awaiting e = [] | rejected _ => True end;
  shape_awaits : forall h, h ∈ e_awaiting e -> exists x, x ∈ children (e_node e) /\ h_key h = programNodeKey x;
}.

Lemma awaits_in e l : awaits e l -> (forall x, x ∈ l -> x ∈ children (e_node e)) ->
  forall h, h ∈ e_awaiting e -> exists x, x ∈ children (e_node e) /\ h_key h = programNodeKey x.
Proof.
  intros Ha Hin h Hh. assert (h_key h ∈ map h_key (e_awaiting e)) as Hk by (by apply list_elem_of_fmap_2).
  unfold awaits in Ha. rewrite Ha in Hk. apply list_elem_of_fmap in Hk as (x & Hx & Hxl). eauto.
Qed.

Lemma awaits_none e : e_awaiting e = [] ->
  forall h, h ∈ e_awaiting e -> exists x, x ∈ children (e_node e) /\ h_key h = programNodeKey x.
Proof. by intros -> h ?%elem_of_nil. Qed.

(** ** What [start] adds to the memo *)

Definition own (hs : list handle) : list json := map h_key (List.filter h_owner hs).
Definition owned (es : list entry) : list json := flat_map (fun e => own (e_awaiting e)) es.

Definition call_entries (es : list entry) : list entry := List.filter (fun e => is_call (e_node e)) es.

(** An entry that [start] has just made. *)
Definition fresh (e : entry) : Prop :=
  match e_status e with
  | running (in_call _) | running in_check | running in_all => True
  | rejected over_budget => True
  | rejected (unknown_model m) =>
      ExecContext.resolve ctx m = None /\ exists re pv cs ts, e_node e = call m re pv cs ts
  | _ => False
  end.

Record started (ns : list ProgramNode) (s : state) (new : list entry) (s' : state) (hs : list handle) : Prop := {
  st_memo : memo s' = memo s ++ new;
  st_received : received s' = received s;
  st_calls : calls s' = (calls s + length (call_entries new))%nat;
  st_sent : (length (sent s') - length (sent s) <= calls s' - calls s /\ length (sent s) <= length (sent s'))%nat;
  st_cap : (length (sent s) <= calls s -> length (sent s) <= MAX_PROGRAM_CALLS -> length (sent s') <= MAX_PROGRAM_CALLS)%nat;
  st_shape : Forall (fun e => shape e /\ fresh e) new;
  st_nodes : Forall (fun e => e_node e ∈ flat_map subnodes ns) new;
  st_nodup : NoDup (map e_key new);
  st_new : Forall (fun e => e_key e ∉ memo_keys s) new;
  st_handles : map h_key hs = map programNodeKey ns;
  st_present : Forall (fun h => h_key h ∈ memo_keys s') hs;
  st_awaited : Forall (fun e => Forall (fun h => h_key h ∈ memo_keys s') (e_awaiting e)) new;
  st_owned : owned new ++ own hs ≡ₚ map e_key new;
  st_budget : Forall (fun e => e_status e = rejected over_budget -> MAX_PROGRAM_CALLS < calls s')%nat new;
}.

Lemma memo_keys_app s s' new : memo s' = memo s ++ new -> memo_keys s' = memo_keys s ++ map e_key new.
Proof. unfold memo_keys. intros ->. apply map_app. Qed.

Lemma started_nil s : started [] s [] s [].
Proof. split; try done; unfold call_entries; simpl; rewrite ?app_nil_r; try done; try lia; constructor. Qed.

Lemma flat_map_perm {A B} (f : A -> list B) l k : flat_map f (l ++ k) = flat_map f l ++ flat_map f k.
Proof. apply flat_map_app. Qed.

Lemma own_cons h hs : own (h :: hs) = own [h] ++ own hs.
Proof. unfold own. simpl. by destruct (h_owner h). Qed.

Lemma started_app n ns s new s1 h new' s2 hs :
  started [n] s new s1 [h] -> started ns s1 new' s2 hs -> started (n :: ns) s (new ++ new') s2 (h :: hs).
Proof.
  intros A B. pose proof (memo_keys_app _ _ _ (st_memo _ _ _ _ _ A)) as KA.
  pose proof (memo_keys_app _ _ _ (st_memo _ _ _ _ _ B)) as KB.
  destruct A as [A1 A2 A3 A4 A0 A5 A6 A7 A8 A9 A10 A11 A12 A13], B as [B1 B2 B3 B4 B0 B5 B6 B7 B8 B9 B10 B11 B12 B13].
  simpl in *. rewrite app_nil_r in *. split.
  - by rewrite B1, A1, app_assoc.
  - congruence.
  - unfold call_entries in *. rewrite List.filter_app, length_app. lia.
  - lia.
  - intros. apply B0; [lia|auto].
  - by apply Forall_app.
  - apply Forall_app. split; [eapply Forall_impl; [exact A6|]|eapply Forall_impl; [exact B6|]]; intros e; simpl; rewrite elem_of_app; auto.
  - rewrite map_app. apply NoDup_app. split; [done|]. split; [|done].
    intros k Hk Hk'. apply list_elem_of_fmap in Hk' as (e & -> & He).
    rewrite Forall_forall in B8. apply (B8 e He). rewrite KA, elem_of_app. auto.
  - apply Forall_app. split; [done|]. eapply Forall_impl; [exact B8|]. intros e He Hin. apply He. rewrite KA. set_solver.
  - simpl. injection A9 as ->. by rewrite B9.
  - constructor; [|done]. inversion A10; subst. rewrite KB. set_solver.
  - apply Forall_app. split; [|done]. eapply Forall_impl; [exact A11|]. intros e He.
    eapply Forall_impl; [exact He|]. intros k. rewrite KB. set_solver.
  - unfold owned. rewrite flat_map_app, map_app, own_cons. unfold owned in *. rewrite <- A12, <- B12. solve_Permutation.
  - apply Forall_app. split; [|done]. eapply Forall_impl; [exact A13|]. intros e He ?. specialize (He ltac:(done)). lia.
Qed.

Lemma start_all_started l : 
  Forall (fun n => forall s, NoDup (memo_keys s) -> exists new, started [n] s new (start n s).1 [(start n s).2]) l ->
  forall s, NoDup (memo_keys s) -> exists new, started l s new (start_all l s).1 (start_all l s).2.
Proof.
  induction 1 as [|n l Hn Hl IH]; intros s Hs; simpl.
  - exists []. apply started_nil.
  - destruct (Hn s Hs) as [new A]. destruct (start n s) as [s1 h]. simpl in A.
    assert (NoDup (memo_keys s1)) as Hs1.
    { rewrite (memo_keys_app _ _ _ (st_memo _ _ _ _ _ A)). apply NoDup_app. split; [done|].
      split; [|apply A]. intros k Hk Hk'. apply list_elem_of_fmap in Hk' as (e & -> & He).
      pose proof (st_new _ _ _ _ _ A) as Hnew. rewrite Forall_forall in Hnew. by apply (Hnew e He). }
    destruct (IH s1 Hs1) as [new' B]. destruct (start_all l s1) as [s2 hs]. exists (new ++ new').
    by apply (started_app _ _ _ _ s1).
Qed.

Lemma issue_spec m st msgs re pv cs ts s :
  let '(s', p) := issue m st msgs re pv cs ts s in
  memo s' = memo s /\ received s' = received s /\ calls s' = S (calls s) /\
  match p with
  | inl p => sent s' = sent s ++ [p_request p] /\ (calls s' <= MAX_PROGRAM_CALLS)%nat /\ exists e, ExecContext.resolve ctx m = Some e /\
      p = Pending (stage_name st re pv cs ts) e (request ctx m msgs re pv cs ts)
  | inr over_budget => sent s' = sent s /\ (MAX_PROGRAM_CALLS < calls s')%nat
  | inr (unknown_model m') => sent s' = sent s /\ m' = m /\ ExecContext.resolve ctx m = None
  | inr _ => False
  end.
Proof.
  unfold Interp.issue. cbn [calls memo sent received]. destruct (Nat.ltb_spec MAX_PROGRAM_CALLS (S (calls s))); [done|].
  destruct (ExecContext.resolve ctx m) as [e|]; [|done]. split; [done|]. split; [done|]. split; [done|].
  split; [done|]. split; [done|]. by exists e.
Qed.

(** A call node started: one entry, one call counted, at most one request sent. *)
Lemma started_call n s : is_call n = true -> programNodeKey n ∉ memo_keys s ->
  exists new, started [n] s new (start n s).1 [(start n s).2].
Proof.
  intros Hc Hk. destruct n as [m re pv cs ts| | |]; try done. rewrite start_eq. rewrite decide_False by done.
  simpl begin. pose proof (issue_spec m (stage name "call") messages re pv cs ts s) as Hi.
  destruct (issue m (stage name "call") messages re pv cs ts s) as [s1 p]. destruct Hi as (Hm & Hr & Hcl & Hp).
  set (n := call m re pv cs ts) in *. set (e := Entry (programNodeKey n) n []
    match p with inl p => running (in_call p) | inr e => rejected e end).
  exists [e]. split; simpl.
  - by rewrite Hm.
  - done.
  - rewrite Hcl. unfold call_entries. simpl. lia.
  - destruct p as [p|[]]; try done; destruct Hp as [-> _]; rewrite ?length_app; simpl; lia.
  - intros H1 H2. destruct p as [p|[]]; try done; [destruct Hp as (-> & Hp & _)|destruct Hp as [-> _]..]; rewrite ?length_app; simpl; lia.
  - apply Forall_singleton. destruct p as [p|[]]; try done; (split; [split; [done| |by apply awaits_none]|]); try done.
    + split; [|done]. destruct Hp as (_ & _ & Hp). exact Hp.
    + destruct Hp as (_ & -> & Hp). split; [done|]. by exists re, pv, cs, ts.
  - apply Forall_singleton. simpl. left.
  - apply NoDup_singleton.
  - by apply Forall_singleton.
  - done.
  - apply Forall_singleton. unfold memo_keys. simpl. rewrite map_app. set_solver.
  - by apply Forall_singleton.
  - done.
  - apply Forall_singleton. intros He. simpl in *. destruct p as [p|[]]; try done. apply Hp.
Qed.

(** Any other node: its operands' entries, then its own, which awaits them. *)
Lemma started_inner n s new s1 hs :
  is_call n = false -> programNodeKey n ∉ memo_keys s -> NoDup (memo_keys s) ->
  started (awaited n) s new s1 hs ->
  started [n] s (new ++ [Entry (programNodeKey n) n hs (running (first_phase n))])
    (push_entry (Entry (programNodeKey n) n hs (running (first_phase n))) s1) [Handle (programNodeKey n) true].
Proof.
  intros Hc Hk Hs A. pose proof (memo_keys_app _ _ _ (st_memo _ _ _ _ _ A)) as KA.
  destruct A as [A1 A2 A3 A4 A0 A5 A6 A7 A8 A9 A10 A11 A12 A13]. set (e := Entry _ _ _ _).
  assert (memo_keys (push_entry e s1) = memo_keys s1 ++ [e_key e]) as KP by (unfold memo_keys; simpl; by rewrite map_app).
  assert (e_key e ∉ map e_key new) as Hfresh.
  { intros (x & Hx & Hin)%list_elem_of_fmap. simpl in Hx. rewrite !Forall_forall in *.
    destruct (A5 x Hin) as [[Hkx _] _]. rewrite Hkx in Hx. apply key_size in Hx.
    specialize (A6 x Hin). apply elem_of_flat_map in A6 as (c & Hc' & Hsub).
    pose proof (subnode_size _ _ Hsub). pose proof (awaited_smaller _ _ Hc'). lia. }
  split; simpl.
  - by rewrite A1, app_assoc.
  - done.
  - unfold call_entries in *. rewrite List.filter_app, length_app. simpl. rewrite Hc. simpl. lia.
  - done.
  - done.
  - apply Forall_app. split; [done|]. apply Forall_singleton. split; [|by destruct n].
    split; [done|simpl; by destruct n|]. apply (awaits_in _ (awaited n)); [exact A9|apply awaited_children].
  - apply Forall_app. split; [|apply Forall_singleton; rewrite elem_of_app; left; destruct n; left].
    eapply Forall_impl; [exact A6|]. intros x (c & Hin & Hx)%elem_of_flat_map. simpl. rewrite app_nil_r.
    rewrite subnodes_children, elem_of_cons, elem_of_flat_map. right. exists c. split; [|done]. by apply awaited_children.
  - rewrite map_app. apply NoDup_app. split; [done|]. split; [|apply NoDup_singleton].
    intros k Hin ->%list_elem_of_singleton. done.
  - apply Forall_app. split; [done|]. by apply Forall_singleton.
  - done.
  - apply Forall_singleton. simpl. rewrite KP. set_solver.
  - apply Forall_app. split; [|apply Forall_singleton].
    + eapply Forall_impl; [exact A11|]. intros x Hx. eapply Forall_impl; [exact Hx|]. intros h. rewrite KP. set_solver.
    + eapply Forall_impl; [exact A10|]. intros h. rewrite KP. set_solver.
  - unfold owned in *. rewrite flat_map_app, map_app, <- A12. simpl. rewrite app_nil_r. solve_Permutation.
  - apply Forall_app. split; [done|]. by apply Forall_singleton.
Qed.

Lemma started_hit n s : programNodeKey n ∈ memo_keys s -> started [n] s [] s [Handle (programNodeKey n) false].
Proof.
  intros Hk. split; try done; unfold call_entries; simpl; rewrite ?app_nil_r; try done; try lia; try constructor; done.
Qed.

Lemma start_started n : forall s, NoDup (memo_keys s) -> exists new, started [n] s new (start n s).1 [(start n s).2].
Proof.
  induction n as [n IH] using node_ind. intros s Hs.
  destruct (decide (programNodeKey n ∈ memo_keys s)) as [Hk|Hk].
  - exists []. rewrite start_eq, decide_True by done. by apply started_hit.
  - destruct (is_call n) eqn:Hc; [by apply started_call|].
    destruct (start_all_started (awaited n)) with (s := s) as [new A]; [|done|].
    { apply Forall_forall. intros x Hx%awaited_children. rewrite Forall_forall in IH. auto. }
    rewrite start_eq, decide_False by done.
    replace (begin n s) with ((start_all (awaited n) s).1, (start_all (awaited n) s).2, running (first_phase n))
      by (destruct n; try done; simpl; by destruct (start_all _ s)).
    eexists. by apply started_inner.
Qed.

(** ** One block of the event loop

    What a step does to the entry it runs: the handles it then awaits, its new
    status, and the state before that is written back to the memo. *)

(** A body that settles from its awaited results alone. *)
Definition combined (n : ProgramNode) (ph : phase) (rs : list NodeResult.t) : option NodeResult.t :=
  match n, ph, rs with
  | if_ c _ _, in_check, _ =>
      match check_result c rs with
      | Some (tool_call tools) => Some (NodeResult.mk "" None (Some tools) (spent_trace rs) (check_usage rs))
      | _ => None
      end
  | if_ _ _ _, in_branch spent usage, [b] => Some (branch_result spent usage b)
  | vote _, in_all, _ => vote_result rs
  | pick _ by_, in_all, _ =>
      match first_tool rs, by_ with
      | Some tools, _ => Some (tool_result tools rs)
      | None, by_confidence => confident_result rs
      | None, by_judge _ => None
      end
  | _, _, _ => None
  end.

(** A body that throws on them. *)
Definition thrown (n : ProgramNode) (ph : phase) (rs : list NodeResult.t) (err : error) : Prop :=
  match n, ph with
  | if_ c _ _, in_check => check_result c rs = None /\ err = invalid_pattern
  | vote _, in_all => vote_result rs = None /\ err = type_error
  | pick _ by_confidence, in_all => first_tool rs = None /\ confident_result rs = None /\ err = type_error
  | _, _ => False
  end.

Inductive turn (s : state) (e : entry) : event -> list handle -> status -> state -> Prop :=
| turn_answered p r :
    e_status e = running (in_call p) ->
    turn s e (Respond (e_key e) r) [] (settled (call_result p r)) (receive (call_result p r) s)
| turn_judged rs p r :
    e_status e = running (in_judge rs p) ->
    turn s e (Respond (e_key e) r) []
      match judge_result rs (call_result p r) with Some w => settled w | None => rejected type_error end
      (receive (call_result p r) s)
| turn_failed m ph p :
    e_status e = running ph -> (ph = in_call p \/ exists rs, ph = in_judge rs p) ->
    turn s e (Fail (e_key e) m) [] (rejected (provider_failed m)) s
| turn_aborted ph c err :
    e_status e = running ph -> c ∈ memo s -> e_status c = rejected err -> e_key c ∈ map h_key (e_awaiting e) ->
    turn s e (Abort (e_key e) (e_key c)) (e_awaiting e) (rejected err) s
| turn_combined ph rs r :
    e_status e = running ph -> collect s (e_awaiting e) = Some rs -> combined (e_node e) ph rs = Some r ->
    turn s e (Resume (e_key e)) [] (settled r) s
| turn_thrown ph rs err :
    e_status e = running ph -> collect s (e_awaiting e) = Some rs -> thrown (e_node e) ph rs err ->
    turn s e (Resume (e_key e)) [] (rejected err) s
| turn_branch c t f rs ok :
    e_status e = running in_check -> e_node e = if_ c t f -> collect s (e_awaiting e) = Some rs ->
    check_result c rs = Some (passes ok) ->
    turn s e (Resume (e_key e)) [(start (if ok then t else f) s).2]
      (running (in_branch (spent_trace rs) (check_usage rs))) (start (if ok then t else f) s).1
| turn_asked l m rs s1 p :
    e_status e = running in_all -> e_node e = pick l (by_judge m) -> collect s (e_awaiting e) = Some rs ->
    first_tool rs = None ->
    issue m (stage name "judge") (judge_messages messages rs) None None None None s = (s1, p) ->
    turn s e (Resume (e_key e)) []
      match p with inl p => running (in_judge rs p) | inr err => rejected err end s1.

Lemma lookup_some k s e : lookup k s = Some e -> e ∈ memo s /\ e_key e = k.
Proof.
  unfold lookup. intros He. apply find_some in He as [Hin He]. apply list_elem_of_In in Hin.
  by apply bool_decide_eq_true in He.
Qed.

Lemma step_turn ev s s' : step ev s = Some s' ->
  exists e hs st s1, e ∈ memo s /\ turn s e ev hs st s1 /\ s' = update (e_key e) hs st s1.
Proof.
  destruct ev as [k r|k m|k|k child]; simpl; destruct (lookup k s) as [e|] eqn:He; try done;
    apply lookup_some in He as [Hin <-]; simpl.
  - destruct (e_status e) as [[p| | | |rs p]| |] eqn:Est; try done; intros [= <-];
      exists e; eexists _, _, _; (split; [done|]); split; try done; by constructor.
  - destruct (e_status e) as [[p| | | |rs p]| |] eqn:Est; try done; intros [= <-];
      exists e; eexists _, _, _; (split; [done|]); split; try done; eapply turn_failed; eauto.
  - destruct (e_status e) as [ph| |] eqn:Est; try done. destruct (collect s (e_awaiting e)) as [rs|] eqn:Hrs; [|done].
    simpl. unfold resume. intros Hs. exists e. destruct (e_node e) as [|c t f|l|l b] eqn:En; try done.
    + destruct ph; try done.
      * injection Hs as <-. unfold resume_check. destruct (check_result c rs) as [[ok|tools]|] eqn:Hc.
        -- pose proof (turn_branch s e c t f rs ok Est En Hrs Hc) as Ht.
           destruct (start (if ok then t else f) s). simpl in Ht. eexists _, _, _. eauto.
        -- eexists _, _, _. split; [done|]. split; [|done]. eapply turn_combined; eauto. rewrite En. simpl. by rewrite Hc.
        -- eexists _, _, _. split; [done|]. split; [|done]. eapply turn_thrown; eauto. rewrite En. simpl. auto.
      * destruct rs as [|b [|]]; try done. injection Hs as <-. eexists _, _, _. split; [done|]. split; [|done].
        eapply turn_combined; eauto. by rewrite En.
    + destruct ph; try done. injection Hs as <-. unfold settle.
      destruct (vote_result rs) eqn:Hv; eexists _, _, _; (split; [done|]); (split; [|done]).
      * eapply turn_combined; eauto. rewrite En. done.
      * eapply turn_thrown; eauto. rewrite En. simpl. auto.
    + destruct ph; try done. injection Hs as <-. unfold resume_pick, settle.
      destruct (first_tool rs) as [tools|] eqn:Hf.
      { eexists _, _, _. split; [done|]. split; [|done]. eapply turn_combined; eauto. rewrite En. simpl. by rewrite Hf. }
      destruct b as [|m].
      * destruct (confident_result rs) eqn:Hv; eexists _, _, _; (split; [done|]); (split; [|done]).
        -- eapply turn_combined; eauto. rewrite En. simpl. by rewrite Hf.
        -- eapply turn_thrown; eauto. rewrite En. simpl. auto.
      * pose proof (fun s1 p => turn_asked s e l m rs s1 p Est En Hrs Hf) as Ht.
        destruct (Interp.issue _ _ _ _ _ _ _ _ s) as [s1 p]. eexists _, _, _. eauto.
  - destruct (lookup child s) as [c|] eqn:Hc; [|done]. simpl. apply lookup_some in Hc as [Hcin <-].
    destruct (e_status e) as [ph| |] eqn:Est; try done. destruct (e_status c) as [| |err] eqn:Ec; try done.
    case_decide; [|done]. intros [= <-]. eexists e, _, _, _. split; [done|]. split; [|done]. by eapply turn_aborted.
Qed.

(** ** The invariant *)

(** The calls an entry accounts for: a call node its own, a judge pick its
    judge's as soon as it no longer waits for its candidates. *)
Definition credit (e : entry) : nat :=
  if is_call (e_node e) then 1
  else if is_judge_pick (e_node e) then match e_status e with running in_all => 0 | _ => 1 end
  else 0.

Definition credits (es : list entry) : nat := list_sum (map credit es).

Record wf (body : ProgramNode) (s : state) : Prop := {
  wf_nodup : NoDup (memo_keys s);
  wf_shape : Forall shape (memo s);
  wf_nodes : Forall (fun e => e_node e ∈ subnodes body) (memo s);
  wf_awaited : Forall (fun e => Forall (fun h => h_key h ∈ memo_keys s) (e_awaiting e)) (memo s);
  wf_root : programNodeKey body ∈ memo_keys s;
  wf_calls : (length (sent s) <= calls s <= credits (memo s))%nat;
  wf_cap : (length (sent s) <= MAX_PROGRAM_CALLS)%nat;
  wf_budget : Forall (fun e => e_status e = rejected over_budget -> MAX_PROGRAM_CALLS < calls s)%nat (memo s);
}.

Lemma credits_app a b : credits (a ++ b) = (credits a + credits b)%nat.
Proof. unfold credits. by rewrite map_app, list_sum_app. Qed.

Lemma credits_calls es : (length (call_entries es) <= credits es)%nat.
Proof.
  unfold call_entries, credits. induction es as [|e es IH]; simpl; [lia|]. unfold credit at 1.
  destruct (is_call (e_node e)); simpl; lia.
Qed.

Lemma wf_started body s n new s1 h :
  wf body s -> n ∈ subnodes body -> started [n] s new s1 [h] -> wf body s1.
Proof.
  intros [W1 W2 W3 W4 W5 W6 W0 W7] Hn A. pose proof (memo_keys_app _ _ _ (st_memo _ _ _ _ _ A)) as KA.
  destruct A as [A1 A2 A3 A4 A0 A5 A6 A7 A8 A9 A10 A11 A12 A13]. split; rewrite ?KA, ?A1.
  - apply NoDup_app. split; [done|]. split; [|done]. intros k Hk (e & -> & He)%list_elem_of_fmap.
    rewrite Forall_forall in A8. by apply (A8 e He).
  - apply Forall_app. split; [done|]. eapply Forall_impl; [exact A5|]. by intros e [? _].
  - apply Forall_app. split; [done|]. eapply Forall_impl; [exact A6|]. simpl. intros e. rewrite app_nil_r.
    intros He. by eapply subnodes_trans.
  - apply Forall_app. split; [|by rewrite KA in A11].
    eapply Forall_impl; [exact W4|]. intros e He. eapply Forall_impl; [exact He|]. set_solver.
  - set_solver.
  - rewrite credits_app. pose proof (credits_calls new). lia.
  - apply A0; [lia|done].
  - apply Forall_app. split; [|done]. eapply Forall_impl; [exact W7|]. intros e He ?. specialize (He ltac:(done)). lia.
Qed.

Lemma update_at hs st s l1 e l2 : NoDup (memo_keys s) -> memo s = l1 ++ e :: l2 ->
  memo (update (e_key e) hs st s) = l1 ++ Entry (e_key e) (e_node e) hs st :: l2.
Proof.
  intros Hd Hm. unfold memo_keys in Hd. unfold update. simpl. rewrite Hm, map_app in *. simpl in *.
  rewrite decide_True by done. apply NoDup_app in Hd as (_ & H1 & H2). apply NoDup_cons in H2 as [H2 _].
  assert (forall l, e_key e ∉ map e_key l ->
    map (fun x => if decide (e_key x = e_key e) then Entry (e_key e) (e_node x) hs st else x) l = l) as Hid.
  { clear. induction l as [|x l IH]; simpl; [done|]. rewrite elem_of_cons. intros Hn.
    rewrite decide_False by (intros E; apply Hn; auto). f_equal. apply IH. auto. }
  f_equal; [apply Hid|f_equal; by apply Hid]. intros Hk. apply (H1 _ Hk). left.
Qed.

Lemma update_split k hs st s e : NoDup (memo_keys s) -> e ∈ memo s -> e_key e = k ->
  exists l1 l2, memo s = l1 ++ e :: l2 /\ memo (update k hs st s) = l1 ++ Entry k (e_node e) hs st :: l2.
Proof.
  intros Hd He <-. apply list_elem_of_split in He as (l1 & l2 & Hm). exists l1, l2. split; [done|]. by apply update_at.
Qed.

(** Writing an entry back. *)
Lemma wf_update body s e hs st :
  NoDup (memo_keys s) -> Forall shape (memo s) -> Forall (fun e => e_node e ∈ subnodes body) (memo s) ->
  Forall (fun e => Forall (fun h => h_key h ∈ memo_keys s) (e_awaiting e)) (memo s) ->
  programNodeKey body ∈ memo_keys s ->
  Forall (fun e => e_status e = rejected over_budget -> MAX_PROGRAM_CALLS < calls s)%nat (memo s) ->
  e ∈ memo s -> let e' := Entry (e_key e) (e_node e) hs st in
  shape e' -> Forall (fun h => h_key h ∈ memo_keys s) hs ->
  (length (sent s) <= calls s)%nat -> (length (sent s) <= MAX_PROGRAM_CALLS)%nat -> (calls s + credit e <= credits (memo s) + credit e')%nat ->
  (st = rejected over_budget -> MAX_PROGRAM_CALLS < calls s)%nat ->
  wf body (update (e_key e) hs st s).
Proof.
  intros W1 W2 W3 W4 W5 W7 He e' Hsh Hhs Hs Hcap Hc Hb.
  destruct (update_split (e_key e) hs st s e W1 He eq_refl) as (l1 & l2 & Hm & Hm'). fold e' in Hm'.
  assert (memo_keys (update (e_key e) hs st s) = memo_keys s) as Hk.
  { unfold memo_keys. rewrite Hm, Hm', !map_app. done. }
  assert (forall P, Forall P (memo s) -> P e' -> Forall P (memo (update (e_key e) hs st s))) as HF.
  { intros P HP HPe. rewrite Hm in HP. rewrite Hm'. rewrite Forall_app, Forall_cons in *. naive_solver. }
  split; rewrite ?Hk; auto.
  - apply HF; [done|]. simpl. rewrite Forall_forall in W3. auto.
  - simpl in *. split; [done|]. rewrite Hm in Hc. rewrite Hm', !credits_app in *. unfold credits in *. simpl in *. lia.
Qed.

Lemma credit_le e hs st : st <> running in_all -> (credit e <= credit (Entry (e_key e) (e_node e) hs st))%nat.
Proof.
  intros Hst. unfold credit. simpl. destruct (is_call (e_node e)), (is_judge_pick (e_node e)); try lia.
  destruct st as [[]| |]; try lia; try done; destruct (e_status e) as [[]| |]; lia.
Qed.

Lemma collect_length s hs rs : collect s hs = Some rs -> length rs = length hs.
Proof. intros Hc. symmetry. by eapply length_mapM. Qed.

Lemma wf_update_done body s s1 e st :
  wf body s -> e ∈ memo s -> memo s1 = memo s -> calls s1 = calls s -> sent s1 = sent s ->
  match st with running _ => False | rejected over_budget => (MAX_PROGRAM_CALLS < calls s)%nat | _ => True end ->
  wf body (update (e_key e) [] st s1).
Proof.
  intros [W1 W2 W3 W4 W5 W6 W0 W7] He Hm Hc Hs Hst. unfold memo_keys in *. rewrite <- Hm, <- Hc, <- Hs in *.
  apply (wf_update body s1 e [] st); unfold memo_keys; auto.
  - rewrite Forall_forall in W2. destruct (W2 e He) as [Hk _ _].
    split; [done|simpl; by destruct st|by apply awaits_none].
  - lia.
  - assert (credit e <= credit (Entry (e_key e) (e_node e) [] st))%nat by (apply credit_le; by destruct st). lia.
  - by intros ->.
Qed.

Lemma wf_turn body s e ev hs st s1 :
  wf body s -> e ∈ memo s -> turn s e ev hs st s1 -> wf body (update (e_key e) hs st s1).
Proof.
  intros W He Ht. pose proof W as [W1 W2 W3 W4 W5 W6 W0 W7]. rewrite Forall_forall in W2, W3, W7.
  destruct (W2 e He) as [Hk Hph Haw].
  destruct Ht as [p r Est|rs p r Est|m ph p Est|ph c err Est Hc Ec Hin|ph rs r Est|ph rs err Est Hrs Hth
    |c t f rs ok Est En Hrs Hck|l m rs s2 p Est En Hrs Hf Hi]; try by apply (wf_update_done body s).
  - apply (wf_update_done body s); try done. by destruct (judge_result _ _).
  - assert (err = over_budget -> MAX_PROGRAM_CALLS < calls s)%nat as Hb by (intros ->; by apply (W7 c)).
    apply (wf_update body s); try done; try apply W; [..|by intros [= ->]; auto].
    + rewrite Forall_forall in W4. auto.
    + assert (credit e <= credit (Entry (e_key e) (e_node e) (e_awaiting e) (rejected err)))%nat by (by apply credit_le). lia.
  - apply (wf_update_done body s); try done. destruct err; try done.
    destruct (e_node e) as [|c' ? ?|l'|l' []], ph; simpl in Hth; try done; naive_solver.
  - set (b := if ok then t else f). assert (b ∈ subnodes body) as Hb.
    { apply (subnodes_trans _ (e_node e)); [|by apply W3]. rewrite En, subnodes_children. simpl.
      right. rewrite elem_of_flat_map. exists b. split; [|destruct b; left].
      rewrite elem_of_app. right. subst b. destruct ok; set_solver. }
    destruct (start_started b s W1) as [new A]. pose proof (wf_started body s b new _ _ W Hb A) as Ws.
    destruct Ws as [V1 V2 V3 V4 V5 V6 V0 V7]. assert (e ∈ memo (start b s).1) as He1.
    { rewrite (st_memo _ _ _ _ _ A). set_solver. }
    apply (wf_update body _ e); auto.
    + assert (b ∈ [t; f]) as Hbt by (subst b; destruct ok; set_solver).
      assert (awaits (Entry (e_key e) (e_node e) [(start b s).2] (running (in_branch (spent_trace rs) (check_usage rs)))) [b])
        as Hh by exact (st_handles _ _ _ _ _ A).
      split; [done|simpl; by exists c, t, f, b|]. apply (awaits_in _ [b]); [done|].
      intros x ->%list_elem_of_singleton. simpl. rewrite En. simpl. rewrite elem_of_app. auto.
    + exact (st_present _ _ _ _ _ A).
    + lia.
    + assert (credit e <= credit (Entry (e_key e) (e_node e) [(start b s).2]
        (running (in_branch (spent_trace rs) (check_usage rs)))))%nat by (by apply credit_le). lia.
    + done.
  - pose proof (issue_spec m (stage name "judge") (judge_messages messages rs) None None None None s) as Hs.
    rewrite Hi in Hs. destruct Hs as (Hm & Hr & Hcl & Hp).
    assert (credit e = 0%nat) as Hz by (unfold credit; by rewrite En, Est).
    assert (length rs = length l) as Hlen.
    { rewrite (collect_length _ _ _ Hrs). rewrite Est in Hph. destruct Hph as (_ & _ & Haw2).
      unfold awaits in Haw2. rewrite En in Haw2. simpl in Haw2. apply (f_equal length) in Haw2.
      by rewrite !length_map in Haw2. }
    apply (wf_update body s2 e); unfold memo_keys; rewrite ?Hm; auto.
    + apply Forall_forall. auto.
    + apply Forall_forall. auto.
    + apply Forall_forall. intros x Hx ?. specialize (W7 x Hx ltac:(done)). lia.
    + split; [done| |by apply awaits_none]. simpl. destruct p as [p|err]; [|done]. split; [|done]. rewrite En. simpl.
      split; [done|]. split; [done|]. destruct Hp as (_ & _ & Hp). exact Hp.
    + destruct p as [p|[]]; try done; destruct Hp as [-> _]; rewrite ?length_app; simpl; lia.
    + destruct p as [p|[]]; try done; [destruct Hp as (-> & Hp & _)|destruct Hp as [-> _]..]; rewrite ?length_app; simpl; lia.
    + rewrite Hz, Hcl. assert (credit (Entry (e_key e) (e_node e) []
        match p with inl p => running (in_judge rs p) | inr err => rejected err end) = 1%nat) as ->; [|lia].
      unfold credit. simpl. rewrite En. simpl. by destruct p.
    + destruct p as [p|[]]; try done. by destruct Hp.
Qed.

Lemma wf_step body s ev s' : wf body s -> step ev s = Some s' -> wf body s'.
Proof. intros W Hs. apply step_turn in Hs as (e & hs & st & s1 & He & Ht & ->). by eapply wf_turn. Qed.

Lemma wf_initial body : wf body (initial body).
Proof.
  destruct (start_started body Interp.empty) as [new A]; [constructor|].
  pose proof (memo_keys_app _ _ _ (st_memo _ _ _ _ _ A)) as KA. unfold Interp.initial.
  destruct A as [A1 A2 A3 A4 A0 A5 A6 A7 A8 A9 A10 A11 A12 A13]. simpl in *. rewrite app_nil_r in *.
  split; rewrite ?KA, ?A1; try done.
  - eapply Forall_impl; [exact A5|]. by intros e [? _].
  - by rewrite KA in A11.
  - inversion A10 as [|? ? Hin]. injection A9 as A9. rewrite A9, KA in Hin. done.
  - pose proof (credits_calls new). lia.
  - apply A0; simpl; lia.
Qed.

Lemma run_invariant (P : state -> Prop) : (forall s ev s', P s -> step ev s = Some s' -> P s') ->
  forall evs s s', P s -> run evs s = Some s' -> P s'.
Proof.
  intros Hstep. induction evs as [|ev evs IH]; intros s s' Hs; simpl; [by intros [= <-]|].
  destruct (step ev s) as [s1|] eqn:E; [|done]. simpl. apply IH. by apply (Hstep s ev).
Qed.

Lemma wf_reachable body s : reachable body s -> wf body s.
Proof.
  intros [evs Hr]. apply (run_invariant (wf body)) with (evs := evs) (s := initial body); [|apply wf_initial|done].
  intros s0 ev s'. apply wf_step.
Qed.

(** ** Counting entries against the static bound *)

Lemma nodup_length_le {A} `{!EqDecision A} (l k : list A) :
  NoDup l -> (forall x, x ∈ l -> x ∈ k) -> (length l <= length (remove_dups k))%nat.
Proof.
  intros Hl Hin. apply submseteq_length, NoDup_submseteq; [done|]. intros x Hx. rewrite elem_of_remove_dups. auto.
Qed.

Lemma filter_keys_le body s (p : ProgramNode -> bool) : wf body s ->
  (length (List.filter (fun e => p (e_node e)) (memo s))
   <= length (remove_dups (map programNodeKey (filter (fun x => p x) (subnodes body)))))%nat.
Proof.
  intros [W1 W2 W3 _ _ _ _ _]. rewrite <- (length_map e_key). apply nodup_length_le.
  - unfold memo_keys in W1. revert W1. generalize (memo s). clear. induction l as [|e l IH]; simpl; [done|].
    rewrite NoDup_cons. intros [Hn Hl]. destruct (p (e_node e)); simpl; [|auto]. apply NoDup_cons. split; [|auto].
    intros (x & Hx & Hin)%list_elem_of_fmap. apply elem_filter in Hin as [Hin _]. apply Hn. rewrite Hx.
    by apply list_elem_of_fmap_2.
  - intros k (e & -> & He)%list_elem_of_fmap. apply elem_filter in He as [He Hp].
    rewrite Forall_forall in W2, W3. rewrite (shape_key _ (W2 e He)). apply elem_of_filter_map. exists (e_node e).
    split; [by apply W3|done].
Qed.

Lemma credits_split es : (credits es <= length (List.filter (fun e => is_call (e_node e)) es)
  + length (List.filter (fun e => is_judge_pick (e_node e)) es))%nat.
Proof.
  unfold credits. induction es as [|e es IH]; simpl; [lia|]. unfold credit at 1.
  destruct (is_call (e_node e)) eqn:E1, (is_judge_pick (e_node e)) eqn:E2; simpl; try lia.
  destruct (e_status e) as [[]| |]; lia.
Qed.

Lemma calls_bounded body s : wf body s -> (calls s <= programCallCount body)%nat.
Proof.
  intros W. rewrite call_count_keys. etrans; [apply W|]. etrans; [apply credits_split|].
  pose proof (filter_keys_le body s is_call W). pose proof (filter_keys_le body s is_judge_pick W). lia.
Qed.

(** ** Progress *)

Lemma lookup_in body s e : wf body s -> e ∈ memo s -> lookup (e_key e) s = Some e.
Proof.
  intros W He. unfold lookup. destruct (find _ (memo s)) as [c|] eqn:Hc.
  - apply lookup_some in Hc as [Hin Hk]. f_equal. by apply (NoDup_key_inj e_key (memo s)); [apply W|..].
  - apply list_elem_of_In in He. eapply find_none in Hc; [|exact He]. by rewrite bool_decide_eq_false in Hc.
Qed.

Lemma awaited_entry body s e ph h : wf body s -> e ∈ memo s -> e_status e = running ph -> h ∈ e_awaiting e ->
  exists c, c ∈ memo s /\ e_key c = h_key h /\ (size (e_node c) < size (e_node e))%nat.
Proof.
  intros W He Est Hh. pose proof (wf_awaited _ _ W) as Ha. pose proof (wf_shape _ _ W) as Hsh.
  rewrite Forall_forall in Ha, Hsh. specialize (Ha e He). rewrite Forall_forall in Ha. specialize (Ha h Hh).
  apply list_elem_of_fmap in Ha as (c & Hc & Hin). exists c. split; [done|]. split; [done|].
  destruct (shape_awaits _ (Hsh e He) h Hh) as (x & Hx & Hkx).
  rewrite Hc, (shape_key _ (Hsh c Hin)) in Hkx. apply key_size in Hkx. rewrite Hkx. by apply child_size.
Qed.

(** What can happen next: a response or failure of a pending call, whatever it
    is, or a block that is ready. *)
Definition can_move (s : state) : Prop :=
  (exists k, (forall r, is_Some (step (Respond k r) s)) /\ forall m, is_Some (step (Fail k m) s)) \/
  (exists k, is_Some (step (Resume k) s)) \/ exists k c, is_Some (step (Abort k c) s).

Lemma ready_resumes e ph rs s : shape e -> e_status e = running ph -> length rs = length (e_awaiting e) ->
  match ph with in_call _ | in_judge _ _ => False | _ => True end -> is_Some (resume ctx name messages (e_key e) e ph rs s).
Proof.
  intros [_ Hs _] Est Hl Hph. rewrite Est in Hs. unfold resume. destruct ph; try done; simpl in Hs.
  - destruct Hs as (Hc & Hp & _). by destruct (e_node e).
  - destruct Hs as (c & t & f & b & -> & _ & Ha). unfold awaits in Ha. apply (f_equal length) in Ha.
    rewrite !length_map in Ha. rewrite Ha in Hl. destruct rs as [|x [|]]; done.
  - destruct Hs as (Hc & Hp & _). by destruct (e_node e).
Qed.

Lemma all_settled s hs :
  Forall (fun h => exists c r, lookup (h_key h) s = Some c /\ e_status c = settled r) hs -> is_Some (collect s hs).
Proof.
  induction 1 as [|h hs (c & r & Hc & Hr) Hhs [rs IH]]; unfold collect; simpl; [done|].
  assert (view s h = Some (if h_owner h then r else paid r)) as -> by (unfold view; rewrite Hc; simpl; by rewrite Hr).
  unfold collect in IH. simpl. by rewrite IH.
Qed.

(** How an awaited promise stands. *)
Definition is_rejected (s : state) (h : handle) : bool :=
  match lookup (h_key h) s with Some c => match e_status c with rejected _ => true | _ => false end | None => false end.
Definition is_running (s : state) (h : handle) : bool :=
  match lookup (h_key h) s with Some c => match e_status c with running _ => true | _ => false end | None => false end.

Lemma running_moves body s : wf body s -> forall n e ph,
  (size (e_node e) <= n)%nat -> e ∈ memo s -> e_status e = running ph -> can_move s.
Proof.
  intros W. pose proof (wf_shape _ _ W) as Hsh. rewrite Forall_forall in Hsh.
  induction n as [|n IH]; intros e ph Hn He Est.
  { unfold size in Hn. rewrite subnodes_children in Hn. simpl in Hn. lia. }
  assert (match ph with in_call _ | in_judge _ _ => True | _ => False end \/
          match ph with in_call _ | in_judge _ _ => False | _ => True end) as [Hph|Hph] by (destruct ph; auto).
  - left. exists (e_key e). split; intros; simpl; rewrite (lookup_in body s e W He); simpl; rewrite Est; by destruct ph.
  - destruct (existsb (is_rejected s) (e_awaiting e)) eqn:Hrej.
    + apply existsb_exists in Hrej as (h & Hh & Hr). apply list_elem_of_In in Hh. unfold is_rejected in Hr.
      destruct (lookup (h_key h) s) as [c|] eqn:Hc; [|done]. destruct (e_status c) as [| |err] eqn:Ec; try done.
      right. right. exists (e_key e), (h_key h). simpl. rewrite (lookup_in body s e W He), Hc. simpl.
      rewrite Est, Ec. rewrite decide_True; [done|]. by apply list_elem_of_fmap_2.
    + destruct (existsb (is_running s) (e_awaiting e)) eqn:Hrun.
      * apply existsb_exists in Hrun as (h & Hh & Hr). apply list_elem_of_In in Hh. unfold is_running in Hr.
        destruct (awaited_entry body s e ph h W He Est Hh) as (c & Hin & Hk & Hsz).
        rewrite <- Hk, (lookup_in body s c W Hin) in Hr. destruct (e_status c) as [ph'| |] eqn:Ec; try done.
        apply (IH c ph'); [lia|done..].
      * right. left. exists (e_key e). simpl. rewrite (lookup_in body s e W He). simpl. rewrite Est.
        destruct (all_settled s (e_awaiting e)) as [rs Hrs].
        { apply Forall_forall. intros h Hh. destruct (awaited_entry body s e ph h W He Est Hh) as (c & Hin & Hk & _).
          pose proof (lookup_in body s c W Hin) as Hl. rewrite Hk in Hl. apply list_elem_of_In in Hh.
          destruct (e_status c) as [ph'|r|err] eqn:Ec; [|by exists c, r|]; exfalso.
          - enough (existsb (is_running s) (e_awaiting e) = true) by congruence.
            apply existsb_exists. exists h. split; [done|]. unfold is_running. by rewrite Hl, Ec.
          - enough (existsb (is_rejected s) (e_awaiting e) = true) by congruence.
            apply existsb_exists. exists h. split; [done|]. unfold is_rejected. by rewrite Hl, Ec. }
        rewrite Hrs. simpl. apply ready_resumes; auto. by eapply collect_length.
Qed.

(** ** Termination: every block moves one entry forward *)

Definition work (st : status) : nat :=
  match st with
  | running in_check | running in_all => 0
  | running _ => 1
  | settled _ | rejected _ => 2
  end.

Definition total (s : state) : nat := list_sum (map (fun e => work (e_status e)) (memo s)).

Lemma turn_memo s e ev hs st s1 : NoDup (memo_keys s) -> turn s e ev hs st s1 -> exists new, memo s1 = memo s ++ new.
Proof.
  intros Hd Ht. destruct Ht as [| | | | | |c t f rs ok|l m rs s2 p Est En Hrs Hf Hi]; try (exists []; by rewrite app_nil_r).
  - destruct (start_started (if ok then t else f) s Hd) as [new A]. exists new. apply A.
  - exists []. rewrite app_nil_r.
    pose proof (issue_spec m (stage name "judge") (judge_messages messages rs) None None None None s) as Hs.
    rewrite Hi in Hs. apply Hs.
Qed.

Lemma turn_work s e ev hs st s1 : turn s e ev hs st s1 -> (work (e_status e) < work st)%nat.
Proof.
  intros Ht. destruct Ht as [p r Est|rs p r Est|m ph p Est|ph c err Est Hc Ec Hin|ph rs r Est|ph rs err Est Hrs Hth
    |c t f rs ok Est En Hrs Hck|l m rs s2 p Est En Hrs Hf Hi]; rewrite Est; simpl; try lia; try (destruct ph; lia).
  - destruct (judge_result _ _); simpl; lia.
  - destruct p; simpl; lia.
Qed.

Lemma list_sum_le {A} (f : A -> nat) b l : (forall x, f x <= b)%nat -> (list_sum (map f l) <= b * length l)%nat.
Proof. intros Hf. induction l as [|x l IH]; simpl; [lia|]. specialize (Hf x). lia. Qed.

Lemma total_step body s ev s' : wf body s -> step ev s = Some s' -> (total s < total s')%nat.
Proof.
  intros W Hs. apply step_turn in Hs as (e & hs & st & s1 & He & Ht & ->).
  destruct (turn_memo s e ev hs st s1 (wf_nodup _ _ W) Ht) as [new Hm].
  assert (NoDup (memo_keys s1) /\ e ∈ memo s1) as [Hd He1].
  { split; [|rewrite Hm; set_solver]. pose proof (wf_nodup _ _ (wf_turn body s e ev hs st s1 W He Ht)) as Hn.
    unfold memo_keys, update in *. simpl in Hn. rewrite map_map in Hn. erewrite map_ext; [exact Hn|].
    intros x. simpl. by case_decide. }
  destruct (update_split (e_key e) hs st s1 e Hd He1 eq_refl) as (l1 & l2 & E1 & E2).
  assert (total s <= total s1)%nat as Hle.
  { unfold total. rewrite Hm, map_app, list_sum_app. lia. }
  pose proof (turn_work s e ev hs st s1 Ht). unfold total in *. rewrite E1 in Hle. rewrite E2.
  rewrite map_app, list_sum_app in *. simpl in *. lia.
Qed.

Lemma memo_length body s : wf body s -> (length (memo s) <= size body)%nat.
Proof.
  intros W. rewrite <- (length_map e_key). etrans; [apply (nodup_length_le _ (map programNodeKey (subnodes body)))|].
  - apply W.
  - intros k (e & -> & He)%list_elem_of_fmap. pose proof (wf_nodes _ _ W) as Hn. pose proof (wf_shape _ _ W) as Hsh.
    rewrite Forall_forall in Hn, Hsh. rewrite (shape_key _ (Hsh e He)). apply list_elem_of_fmap_2. auto.
  - transitivity (length (map programNodeKey (subnodes body))); [|by rewrite length_map].
    apply submseteq_length, NoDup_submseteq; [apply NoDup_remove_dups|]. intros k. by rewrite elem_of_remove_dups.
Qed.

Lemma run_total body evs : forall s s', wf body s -> run evs s = Some s' -> (length evs + total s <= total s')%nat.
Proof.
  induction evs as [|ev evs IH]; intros s s' W; simpl; [intros [= <-]; lia|].
  destruct (step ev s) as [s1|] eqn:E; [|done]. simpl. intros Hr.
  pose proof (total_step body s ev s1 W E). specialize (IH s1 s' (wf_step body s ev s1 W E) Hr). lia.
Qed.

(** ** Properties *)

(** C7. Whatever the order in which responses arrive, a program never makes more
    provider calls than its static count, nor more than [MAX_PROGRAM_CALLS]; a
    program whose count is within the bound is never refused during a run. *)
Theorem program_calls_bounded body s :
  reachable body s ->
  (length (sent s) <= programCallCount body)%nat /\ (length (sent s) <= MAX_PROGRAM_CALLS)%nat /\
  ((programCallCount body <= MAX_PROGRAM_CALLS)%nat -> Forall (fun e => e_status e <> rejected over_budget) (memo s)).
Proof.
  intros W%wf_reachable. pose proof (calls_bounded body s W) as Hb. destruct W as [W1 W2 W3 W4 W5 W6 W0 W7].
  split; [lia|]. split; [done|]. intros Hle. eapply Forall_impl; [exact W7|]. intros e He E. specialize (He E). lia.
Qed.

(** C9. A run has at most two blocks per node of the program, and as long as the
    program's promise is pending some block is ready or some call is waiting
    for its provider: when every call is answered, the program settles. *)
Theorem program_terminates body evs s :
  run evs (initial body) = Some s ->
  (length evs <= 2 * size body)%nat /\ (root body s = None -> can_move s).
Proof.
  intros Hr. assert (wf body s) as W by (apply wf_reachable; by exists evs). split.
  - pose proof (run_total body evs (initial body) s (wf_initial body) Hr). pose proof (memo_length body s W).
    assert (total s <= 2 * length (memo s))%nat; [|lia].
    apply list_sum_le. intros e. destruct (e_status e) as [[]| |]; simpl; lia.
  - unfold root. pose proof (wf_root _ _ W) as Hin. apply list_elem_of_fmap in Hin as (e & Hk & He).
    rewrite Hk, (lookup_in body s e W He). simpl. destruct (e_status e) as [ph| |] eqn:Est; try done.
    intros _. by apply (running_moves body s W (size (e_node e)) e ph).
Qed.
End safety.

(** The sample run makes two calls where the program's count is three. *)
Lemma program_calls_bounded_witness :
  length (sent (sample_state 5)) = 2%nat /\ programCallCount sample_body = 3%nat /\
  (length (sent (sample_state 5)) <= programCallCount sample_body)%nat.
Proof.
  split; [by vm_compute|]. split; [by vm_compute|].
  apply (@program_calls_bounded sample_ctx "sample" sample_messages sample_texts sample_body (sample_state 5)).
  exists (take 5 sample_events). apply sample_run. lia.
Defined.

(** After one response the sample is pending, and can go on. *)
Lemma program_terminates_witness :
  root sample_body (sample_state 1) = None /\
  @can_move sample_ctx "sample" sample_messages sample_texts (sample_state 1).
Proof.
  split; [by vm_compute|].
  apply (@program_terminates sample_ctx "sample" sample_messages sample_texts sample_body (take 1 sample_events));
    [apply sample_run; lia|by vm_compute].
Defined.
End Safety.
