(* ===== verification/InterpBilling.v ===== *)
(** * What a finished program bills

    Every started node is awaited by exactly one owner, which takes its trace
    over when it resumes.  The responses received so far are therefore, up to
    their order, the traces of the settled nodes nobody has taken over yet and
    the traces bodies are holding; at the end only the root's is left. *)

From S2P Require Import Prelude Number Types Print Program Prompt Consensus Interp InterpSafety.

Module Billing.
Import Num Program Prompt Interp Safety.

(** The promise is not settled: pending, or rejected. *)
Definition is_open (e : entry) : bool := match e_status e with settled _ => false | _ => true end.

Definition trace_of (st : status) : list StageTrace.t := match st with settled r => NodeResult.trace r | _ => [] end.

(** What a body holds between two blocks. *)
Definition held_in (st : status) : list StageTrace.t :=
  match st with
  | running (in_branch spent _) => spent
  | running (in_judge rs _) => spent_trace rs
  | _ => []
  end.

Definition held (es : list entry) : list StageTrace.t := flat_map (fun e => held_in (e_status e)) es.

Lemma held_nil es : Forall (fun e => trace_of (e_status e) = [] /\ held_in (e_status e) = []) es -> held es = [].
Proof. unfold held. induction 1 as [|x l [_ Hx] _ IH]; simpl; [done|]. by rewrite Hx, IH. Qed.

(** The trace behind a key. *)
Definition trace_at (s : state) (k : json) : list StageTrace.t :=
  match lookup k s with Some e => trace_of (e_status e) | None => [] end.

Definition no_rejected (s : state) : Prop := Forall (fun e => match e_status e with rejected _ => False | _ => True end) (memo s).

Lemma flat_map_set {A B} `{!EqDecision A} (f g : A -> list B) k K :
  NoDup K -> k ∈ K -> f k = [] -> (forall x, x ∈ K -> x <> k -> g x = f x) -> flat_map g K ≡ₚ flat_map f K ++ g k.
Proof.
  intros HK Hk Hf Hg. apply list_elem_of_split in Hk as (K1 & K2 & ->).
  apply NoDup_app in HK as (_ & H1 & H2). apply NoDup_cons in H2 as [H2 _].
  rewrite !flat_map_app. simpl. rewrite Hf. simpl.
  assert (forall K, (forall x, x ∈ K -> x ∈ K1 ++ k :: K2) -> k ∉ K -> flat_map g K = flat_map f K) as He.
  { intros K Hin Hn. induction K as [|x K IH]; simpl; [done|]. rewrite elem_of_cons in Hn. f_equal.
    - apply Hg; [apply Hin; left|]. intros ->. apply Hn. auto.
    - apply IH; [|auto]. intros y Hy. apply Hin. by right. }
  rewrite !He by set_solver. solve_Permutation.
Qed.

Section billing.
  Context (ctx : ExecContext.t) (name : string) (messages : list ChatMessage.t) `{Htexts : !Texts}.

Abbreviation start := (start ctx name messages).
Abbreviation step := (step ctx name messages).
Abbreviation initial := (initial ctx name messages).
Abbreviation reachable := (reachable ctx name messages).
Abbreviation wf := (wf ctx name messages).
Abbreviation turn := (turn ctx name messages).
Abbreviation started := (started ctx name messages).

Lemma trace_at_in body s e : wf body s -> e ∈ memo s -> trace_at s (e_key e) = trace_of (e_status e).
Proof. intros W He. unfold trace_at. by rewrite (lookup_in _ _ _ body s e W He). Qed.

Lemma no_traces body s es : wf body s -> (forall x, x ∈ es -> x ∈ memo s) ->
  Forall (fun e => trace_of (e_status e) = [] /\ held_in (e_status e) = []) es -> flat_map (trace_at s) (map e_key es) = [].
Proof.
  intros W Hin. induction 1 as [|x l [Hx _] _ IH]; simpl; [done|].
  rewrite (trace_at_in body s x W), Hx by (apply Hin; left). apply IH. intros y Hy. apply Hin. by right.
Qed.

(** ** Ownership *)

Record owned_once (body : ProgramNode) (s : state) : Prop := {
  oo_nodup : NoDup (programNodeKey body :: owned (memo s));
  oo_open : Forall (fun e => is_open e = true -> e_key e ∈ programNodeKey body :: owned (memo s)) (memo s);
}.

Definition billed (body : ProgramNode) (s : state) : Prop :=
  no_rejected s ->
  received s ≡ₚ flat_map (trace_at s) (programNodeKey body :: owned (memo s)) ++ held (memo s).

(** One block, as far as ownership and traces go: the entry gives up the handles
    [gone], keeps [kept], and new entries appear. *)
Record advance (s : state) (e : entry) (hs : list handle) (st : status) (s' : state)
    (gone kept : list json) (new : list entry) (extra : list StageTrace.t) : Prop := {
  adv_running : exists ph, e_status e = running ph;
  adv_memo : exists l1 l2, memo s = l1 ++ e :: l2 /\ memo s' = l1 ++ Entry (e_key e) (e_node e) hs st :: l2 ++ new;
  adv_old : own (e_awaiting e) ≡ₚ gone ++ kept;
  adv_new : own hs ++ owned new ≡ₚ kept ++ map e_key new;
  adv_gone : forall c, c ∈ memo s -> e_key c ∈ gone -> is_open c = false;
  adv_self : e_key e ∉ gone;
  adv_fresh : Forall (fun x => trace_of (e_status x) = [] /\ held_in (e_status x) = []) new;
  adv_money : no_rejected s' -> received s' = received s ++ extra /\
    trace_of st ++ held_in st ≡ₚ held_in (e_status e) ++ flat_map (trace_at s) gone ++ extra;
}.

(** The keys an entry list owns besides one entry's. *)
Lemma owned_split l1 e l2 : owned (l1 ++ e :: l2) = owned l1 ++ own (e_awaiting e) ++ owned l2.
Proof. unfold owned. rewrite flat_map_app. done. Qed.

Section advance.
  Context (body : ProgramNode) (s : state) (e : entry) (hs : list handle) (st : status) (s' : state)
    (gone kept : list json) (new : list entry) (extra : list StageTrace.t).
  Hypothesis W : wf body s.
  Hypothesis W' : wf body s'.
  Hypothesis O : owned_once body s.
  Hypothesis A : advance s e hs st s' gone kept new extra.

(** The owned keys before and after: a common part, and what is given up or made. *)
Lemma advance_keys : exists K,
  programNodeKey body :: owned (memo s) ≡ₚ K ++ gone /\
  programNodeKey body :: owned (memo s') ≡ₚ K ++ map e_key new /\
  NoDup K /\ (forall k, k ∈ K -> k ∈ memo_keys s) /\ NoDup (K ++ map e_key new) /\ e_key e ∈ K.
Proof.
  destruct A as [[ph Est] (l1 & l2 & E1 & E2) Aold Anew Agone Aself Afresh _].
  assert (is_open e = true) as Ho by (unfold is_open; by rewrite Est).
  exists (programNodeKey body :: owned l1 ++ kept ++ owned l2).
  assert (programNodeKey body :: owned (memo s) ≡ₚ (programNodeKey body :: owned l1 ++ kept ++ owned l2) ++ gone) as P1.
  { rewrite E1, owned_split, Aold. solve_Permutation. }
  assert (programNodeKey body :: owned (memo s') ≡ₚ (programNodeKey body :: owned l1 ++ kept ++ owned l2) ++ map e_key new) as P2.
  { rewrite E2, owned_split. simpl. unfold owned at 2. rewrite flat_map_app. fold (owned l2) (owned new).
    transitivity (programNodeKey body :: owned l1 ++ (own hs ++ owned new) ++ owned l2); [solve_Permutation|].
    rewrite Anew. solve_Permutation. }
  set (K := programNodeKey body :: owned l1 ++ kept ++ owned l2) in *.
  assert (NoDup (K ++ gone)) as Hd by (rewrite <- P1; apply O).
  assert (NoDup K) as HdK by (by apply NoDup_app in Hd as [? _]).
  assert (forall k, k ∈ K -> k ∈ memo_keys s) as HK.
  { intros k Hk. assert (k ∈ programNodeKey body :: owned (memo s)) as Hin by (rewrite P1; set_solver).
    apply elem_of_cons in Hin as [->|Hin]; [apply W|]. apply elem_of_flat_map in Hin as (c & Hc & Hin).
    unfold own in Hin. apply list_elem_of_fmap in Hin as (h & -> & Hh). apply elem_filter in Hh as [Hh _].
    pose proof (wf_awaited _ _ _ _ _ W) as Ha. rewrite Forall_forall in Ha. specialize (Ha c Hc).
    rewrite Forall_forall in Ha. by apply Ha. }
  split; [done|]. split; [done|]. split; [done|]. split; [done|]. split.
  - apply NoDup_app. split; [done|]. pose proof (wf_nodup _ _ _ _ _ W') as Hn. unfold memo_keys in Hn, HK.
    rewrite E2, map_app, map_cons, map_app in Hn. rewrite E1, map_app, map_cons in HK.
    rewrite app_comm_cons, app_assoc in Hn. apply NoDup_app in Hn as (_ & Hx & Hnew). split; [|done].
    intros k Hk. apply Hx. by apply HK.
  - pose proof (oo_open _ _ O) as Hop. rewrite Forall_forall in Hop.
    assert (e_key e ∈ K ++ gone) as Hin.
    { rewrite <- P1. apply Hop; [|done]. rewrite E1. set_solver. }
    set_solver.
Qed.

Lemma advance_owned : owned_once body s'.
Proof.
  destruct advance_keys as (K & P1 & P2 & HdK & HK & Hd & Hself). split; [by rewrite P2|].
  destruct A as [_ (l1 & l2 & E1 & E2) Aold Anew Agone Aself Afresh _].
  apply Forall_forall. intros x Hx Hop. rewrite P2. rewrite E2 in Hx.
  assert (forall c, c ∈ memo s -> is_open c = true -> e_key c ∈ K) as Hold.
  { intros c Hc Hoc. pose proof (oo_open _ _ O) as HO. rewrite Forall_forall in HO. specialize (HO c Hc Hoc).
    rewrite P1, elem_of_app in HO. destruct HO as [|Hg]; [done|]. by rewrite (Agone c Hc Hg) in Hoc. }
  rewrite elem_of_app. apply elem_of_app in Hx as [Hx|Hx].
  { left. apply Hold; [rewrite E1; set_solver|done]. }
  apply elem_of_cons in Hx as [->|Hx]; [by left|]. apply elem_of_app in Hx as [Hx|Hx].
  { left. apply Hold; [rewrite E1; set_solver|done]. }
  right. by apply list_elem_of_fmap_2.
Qed.

Lemma advance_billed : billed body s -> billed body s'.
Proof.
  intros B Hnr. destruct advance_keys as (K & P1 & P2 & HdK & HK & Hd & Hself).
  destruct A as [[ph Est] (l1 & l2 & E1 & E2) Aold Anew Agone Aself Afresh Amoney].
  destruct (Amoney Hnr) as [Hr Hm]. set (e' := Entry (e_key e) (e_node e) hs st) in *.
  assert (no_rejected s) as Hnr0.
  { unfold no_rejected in *. rewrite E1. rewrite E2 in Hnr. rewrite !Forall_app, !Forall_cons, ?Forall_app in *.
    rewrite Est. naive_solver. }
  assert (forall c, c ∈ memo s -> c ∈ l1 \/ c = e \/ c ∈ l2) as Hcase by (intros c; rewrite E1; set_solver).
  assert (forall x, x ∈ K -> x <> e_key e -> trace_at s' x = trace_at s x) as Hsame.
  { intros x Hx Hne. apply HK in Hx as (c & -> & Hc)%list_elem_of_fmap.
    rewrite (trace_at_in body s c W Hc). apply (trace_at_in body s' c W'). rewrite E2. apply Hcase in Hc. set_solver. }
  assert (trace_at s' (e_key e) = trace_of st) as Hset by (apply (trace_at_in body s' e' W'); rewrite E2; set_solver).
  assert (trace_at s (e_key e) = []) as Hun by (rewrite (trace_at_in body s e W); [by rewrite Est|rewrite E1; set_solver]).
  assert (flat_map (trace_at s') (map e_key new) = []) as Hnew.
  { apply (no_traces body); [done| |done]. rewrite E2. set_solver. }
  pose proof (held_nil new Afresh) as Hheld.
  rewrite P2, flat_map_app, Hnew, app_nil_r, Hr, (B Hnr0), P1, flat_map_app.
  rewrite (flat_map_set (trace_at s) (trace_at s') (e_key e) K HdK Hself Hun Hsame), Hset.
  rewrite E1, E2. unfold held in *. rewrite !flat_map_app. simpl. rewrite flat_map_app, Hheld, app_nil_r.
  transitivity (flat_map (trace_at s) K ++ (held_in (e_status e) ++ flat_map (trace_at s) gone ++ extra)
    ++ flat_map (fun e => held_in (e_status e)) l1 ++ flat_map (fun e => held_in (e_status e)) l2); [solve_Permutation|].
  rewrite <- Hm. solve_Permutation.
Qed.
End advance.

(** ** Every block advances *)

Lemma collect_gone body s hs rs : wf body s -> collect s hs = Some rs ->
  flat_map (trace_at s) (own hs) = spent_trace rs /\
  forall c, c ∈ memo s -> e_key c ∈ map h_key hs -> is_open c = false.
Proof.
  intros W Hc. apply mapM_Some in Hc. induction Hc as [|h r hs rs Hv Hc [IH1 IH2]]; simpl.
  - split; [done|]. by intros c _ ?%elem_of_nil.
  - unfold view in Hv. destruct (lookup (h_key h) s) as [c|] eqn:El; [|done]. simpl in Hv.
    destruct (e_status c) as [|r0|] eqn:Ec; try done. injection Hv as <-. split.
    + rewrite own_cons, flat_map_app, IH1. unfold spent_trace. simpl. f_equal. unfold own. simpl.
      destruct (h_owner h); simpl; [|done]. unfold trace_at. rewrite El, Ec. simpl. by rewrite app_nil_r.
    + apply lookup_some in El as [Hin Hk]. intros d Hd Hdk. apply elem_of_cons in Hdk as [Hdk|Hdk]; [|by apply IH2].
      assert (d = c) as ->; [|by unfold is_open; rewrite Ec].
      apply (NoDup_key_inj e_key (memo s)); try done; [apply W|congruence].
Qed.

Lemma own_keys h hs : h ∈ own hs -> h ∈ map h_key hs.
Proof.
  unfold own. intros (x & -> & Hx)%list_elem_of_fmap. apply elem_filter in Hx as [Hx _]. by apply list_elem_of_fmap_2.
Qed.

Lemma own_smaller body s e : wf body s -> e ∈ memo s -> e_key e ∉ own (e_awaiting e).
Proof.
  intros W He Hin%own_keys. pose proof (wf_shape _ _ _ _ _ W) as Hsh. rewrite Forall_forall in Hsh.
  destruct (Hsh e He) as [Hk _ Ha]. apply list_elem_of_fmap in Hin as (h & Hh & Hin).
  destruct (Ha h Hin) as (x & Hx & Hkx). rewrite Hk, Hkx in Hh. apply key_size in Hh.
  pose proof (child_size _ _ Hx). lia.
Qed.

Lemma combined_trace n ph rs r : combined n ph rs = Some r ->
  NodeResult.trace r = held_in (running ph) ++ spent_trace rs.
Proof.
  destruct n as [|c t f|l|l b], ph; simpl; try done.
  - destruct (check_result c rs) as [[]|]; try done. by intros [= <-].
  - destruct rs as [|x [|]]; try done. intros [= <-]. unfold spent_trace. simpl. by rewrite app_nil_r.
  - unfold vote_result. destruct (first_tool rs); [by intros [= <-]|]. destruct rs; [done|]. by intros [= <-].
  - destruct (first_tool rs), b; try done; try by intros [= <-].
    unfold confident_result. destruct rs; [done|]. by intros [= <-].
Qed.

(** Blocks that keep the memo's entries and give up all that was awaited. *)
Lemma advance_plain body s e st s1 extra :
  wf body s -> e ∈ memo s -> (exists ph, e_status e = running ph) -> memo s1 = memo s ->
  (forall c, c ∈ memo s -> e_key c ∈ own (e_awaiting e) -> is_open c = false) ->
  (no_rejected (update (e_key e) [] st s1) -> received s1 = received s ++ extra /\
    trace_of st ++ held_in st ≡ₚ held_in (e_status e) ++ flat_map (trace_at s) (own (e_awaiting e)) ++ extra) ->
  advance s e [] st (update (e_key e) [] st s1) (own (e_awaiting e)) [] [] extra.
Proof.
  intros W He Hrun Hm Hgone Hmoney. pose proof (wf_nodup _ _ _ _ _ W) as Hd.
  apply list_elem_of_split in He as (l1 & l2 & El). split; try done.
  - exists l1, l2. split; [done|]. rewrite app_nil_r. apply update_at; [unfold memo_keys in *|]; by rewrite Hm.
  - by rewrite app_nil_r.
  - apply (own_smaller body s); [done|]. rewrite El. set_solver.
Qed.

Lemma no_rejected_here s e hs err : NoDup (memo_keys s) -> e ∈ memo s ->
  no_rejected (update (e_key e) hs (rejected err) s) -> False.
Proof.
  intros Hd He. destruct (update_split (e_key e) hs (rejected err) s e Hd He eq_refl) as (l1 & l2 & _ & E).
  unfold no_rejected. rewrite E, Forall_app, Forall_cons. simpl. tauto.
Qed.

Lemma turn_advance body s e ev hs st s1 : wf body s -> e ∈ memo s -> turn s e ev hs st s1 ->
  exists gone kept new extra, advance s e hs st (update (e_key e) hs st s1) gone kept new extra.
Proof.
  intros W He Ht. pose proof (wf_nodup _ _ _ _ _ W) as Hd. pose proof (wf_shape _ _ _ _ _ W) as Hsh.
  rewrite Forall_forall in Hsh. destruct (Hsh e He) as [Hk Hph _].
  assert (forall s2 hs err Q, memo s2 = memo s -> no_rejected (update (e_key e) hs (rejected err) s2) -> (Q : Prop)) as Hvac.
  { intros s2 hs' err Q Hm Hn. exfalso. apply (no_rejected_here s2 e hs' err); [unfold memo_keys in *; by rewrite Hm|by rewrite Hm|exact Hn]. }
  assert (e_awaiting e = [] -> forall c, c ∈ memo s -> e_key c ∈ own (e_awaiting e) -> is_open c = false) as Hnone.
  { intros -> c _ Hin. by apply elem_of_nil in Hin. }
  destruct Ht as [p r Est|rs p r Est|m ph p Est Hp|ph c err Est Hc Ec Hin|ph rs r Est Hrs Hcb|ph rs err Est Hrs Hth
    |c t f rs ok Est En Hrs Hck|l m rs s2 p Est En Hrs Hf Hi].
  - rewrite Est in Hph. destruct Hph as [_ Ha]. eexists _, _, _, (NodeResult.trace (call_result p r)).
    apply (advance_plain body); eauto. intros _. rewrite Ha, Est. simpl. split; [done|]. done.
  - rewrite Est in Hph. destruct Hph as [_ Ha]. eexists _, _, _, (NodeResult.trace (call_result p r)).
    apply (advance_plain body); eauto. rewrite Ha, Est. simpl held_in.
    destruct (judge_result rs (call_result p r)) as [w|] eqn:Hj; [|intros Hn; by eapply Hvac; [|exact Hn]]. intros _. split; [done|].
    unfold judge_result in Hj. destruct (rs !! _); simpl in Hj; [|done]. injection Hj as <-. simpl. by rewrite app_nil_r.
  - assert (e_awaiting e = []) as Ha.
    { rewrite Est in Hph. destruct Hp as [->|[rs ->]]; apply Hph. }
    eexists _, _, _, []. apply (advance_plain body); eauto. intros Hn. by eapply Hvac; [|exact Hn].
  - exists [], (own (e_awaiting e)), [], []. split; try done; [by exists ph| |set_solver|set_solver|].
    + apply list_elem_of_split in He as (l1 & l2 & El). exists l1, l2. split; [done|]. rewrite app_nil_r. by apply update_at.
    + intros Hn. by eapply Hvac; [|exact Hn].
  - destruct (collect_gone body s _ rs W Hrs) as [Hg Hop]. eexists _, _, _, [].
    apply (advance_plain body); eauto; [intros x Hx ?%own_keys; by apply Hop|]. intros _. rewrite app_nil_r. split; [done|].
    rewrite Est, Hg. simpl trace_of. rewrite (combined_trace _ _ _ _ Hcb). by rewrite !app_nil_r.
  - destruct (collect_gone body s _ rs W Hrs) as [Hg Hop]. eexists _, _, _, [].
    apply (advance_plain body); eauto; [intros x Hx ?%own_keys; by apply Hop|]. intros Hn. by eapply Hvac; [|exact Hn].
  - destruct (collect_gone body s _ rs W Hrs) as [Hg Hop]. set (b := if ok then t else f).
    destruct (start_started ctx name messages b s Hd) as [new A]. exists (own (e_awaiting e)), [], new, [].
    pose proof (memo_keys_app _ _ _ (st_memo _ _ _ _ _ _ _ _ A)) as KA.
    apply list_elem_of_split in He as (l1 & l2 & El).
    assert (memo (start b s).1 = l1 ++ e :: l2 ++ new) as El1.
    { rewrite (st_memo _ _ _ _ _ _ _ _ A), El. by rewrite <- app_assoc. }
    split; [by eexists| |by rewrite app_nil_r| | | | |].
    + exists l1, l2. split; [done|]. apply update_at; [|done]. rewrite KA. apply NoDup_app. split; [done|].
      split; [|apply A]. intros k Hkk (x & -> & Hx)%list_elem_of_fmap. pose proof (st_new _ _ _ _ _ _ _ _ A) as Hnew.
      rewrite Forall_forall in Hnew. by apply (Hnew x Hx).
    + simpl. rewrite <- (st_owned _ _ _ _ _ _ _ _ A). solve_Permutation.
    + intros x Hx ?%own_keys. by apply Hop.
    + apply (own_smaller body s); [done|]. rewrite El. set_solver.
    + eapply Forall_impl; [apply A|]. intros x [_ Hfr]. unfold fresh in Hfr. destruct (e_status x) as [[]| |[]]; done.
    + intros _. split; [simpl; rewrite app_nil_r; apply A|]. rewrite Est, Hg. simpl. by rewrite app_nil_r.
  - destruct (collect_gone body s _ rs W Hrs) as [Hg Hop].
    pose proof (issue_spec ctx m (stage name "judge") (judge_messages messages rs) None None None None s) as Hs.
    rewrite Hi in Hs. destruct Hs as (Hm & Hr & _ & _). eexists _, _, _, [].
    apply (advance_plain body); eauto; [intros x Hx ?%own_keys; by apply Hop|].
    destruct p as [p|err]; [|intros Hn; by eapply Hvac; [|exact Hn]]. intros _. rewrite app_nil_r, Est, Hg. simpl. by rewrite app_nil_r.
Qed.

Lemma billing_step body s ev s' :
  wf body s /\ owned_once body s /\ billed body s -> step ev s = Some s' ->
  wf body s' /\ owned_once body s' /\ billed body s'.
Proof.
  intros (W & O & B) Hs. pose proof (wf_step ctx name messages body s ev s' W Hs) as W'.
  apply step_turn in Hs as (e & hs & st & s1 & He & Ht & ->).
  destruct (turn_advance body s e ev hs st s1 W He Ht) as (gone & kept & new & extra & A).
  split; [done|]. split; [by apply (advance_owned body s e hs st _ gone kept new extra)|].
  by apply (advance_billed body s e hs st _ gone kept new extra).
Qed.

Lemma billing_initial body : wf body (initial body) /\ owned_once body (initial body) /\ billed body (initial body).
Proof.
  pose proof (wf_initial ctx name messages body) as W. split; [done|].
  destruct (start_started ctx name messages body Interp.empty) as [new A]; [constructor|]. fold (initial body) in *.
  assert ((Interp.start ctx name messages body Interp.empty).2 = Handle (programNodeKey body) true) as Hh.
  { rewrite start_eq, decide_False by (by intros ?%elem_of_nil). by destruct (begin _ _ _ _ _) as [[? ?] ?]. }
  destruct A as [A1 A2 _ _ _ A5 _ _ _ _ _ _ A12 _]. rewrite Hh in *. fold (initial body) in *. simpl in A1, A2, A12.
  assert (programNodeKey body :: owned (memo (initial body)) ≡ₚ memo_keys (initial body)) as P.
  { unfold memo_keys. rewrite A1, <- A12. solve_Permutation. }
  split; [split|].
  - rewrite P. apply W.
  - apply Forall_forall. intros e He _. rewrite P. by apply list_elem_of_fmap_2.
  - intros _. rewrite A2, P.
    assert (Forall (fun e => trace_of (e_status e) = [] /\ held_in (e_status e) = []) (memo (initial body))) as Hf.
    { rewrite A1. eapply Forall_impl; [exact A5|]. intros x [_ Hfr]. unfold fresh in Hfr.
      destruct (e_status x) as [[]| |[]]; done. }
    rewrite (held_nil _ Hf), app_nil_r. unfold memo_keys. by rewrite (no_traces body).
Qed.

Lemma billing_reachable body s : reachable body s -> wf body s /\ owned_once body s /\ billed body s.
Proof.
  intros [evs Hr]. revert Hr. apply (run_invariant ctx name messages (fun s => wf body s /\ owned_once body s /\ billed body s)).
  - intros s0 ev s'. apply billing_step.
  - apply billing_initial.
Qed.

(** ** A settled root leaves nothing open *)

Lemma open_owner body s e : wf body s -> owned_once body s -> e ∈ memo s -> is_open e = true ->
  e_key e = programNodeKey body \/
  exists p, p ∈ memo s /\ is_open p = true /\ (size (e_node e) < size (e_node p))%nat.
Proof.
  intros W [_ O] He Ho. rewrite Forall_forall in O. specialize (O e He Ho).
  apply elem_of_cons in O as [|Hin]; [by left|right]. apply elem_of_flat_map in Hin as (p & Hp & Hin%own_keys).
  pose proof (wf_shape _ _ _ _ _ W) as Hsh. rewrite Forall_forall in Hsh. destruct (Hsh p Hp) as [_ Hph Haw].
  exists p. split; [done|]. split.
  - unfold is_open. destruct (e_status p) eqn:Ep; try done. rewrite Hph in Hin. by apply elem_of_nil in Hin.
  - apply list_elem_of_fmap in Hin as (h & Hh & Hin). destruct (Haw h Hin) as (x & Hx & Hkx).
    rewrite Hkx, (shape_key _ _ _ _ (Hsh e He)) in Hh. apply key_size in Hh. rewrite Hh. by apply child_size.
Qed.

Lemma root_settles_last body s r : wf body s -> owned_once body s -> r ∈ memo s ->
  e_key r = programNodeKey body -> is_open r = false -> Forall (fun e => is_open e = false) (memo s).
Proof.
  intros W O Hr Hk Hro. apply Forall_forall. intros e He. destruct (is_open e) eqn:Ho; [exfalso|done].
  assert (forall n e, (size body - size (e_node e) < n)%nat -> e ∈ memo s -> is_open e = true -> False) as Hn;
    [|apply (Hn (S (size body - size (e_node e))) e); [lia|done..]].
  clear e He Ho. induction n as [|n IH]; intros e Hlt He Ho; [lia|].
  destruct (open_owner body s e W O He Ho) as [Hke|(p & Hp & Hpo & Hsz)].
  - assert (e = r) as ->; [|congruence]. apply (NoDup_key_inj e_key (memo s)); try done; [apply W|congruence].
  - apply (IH p); try done. pose proof (wf_nodes _ _ _ _ _ W) as Hnd. rewrite Forall_forall in Hnd.
    pose proof (subnode_size _ _ (Hnd p Hp)). lia.
Qed.

(** ** Properties *)

(** C8. When a program settles, its trace is exactly the stages of the responses
    received, each once: no call that was answered is left out of the bill, and
    a memoized node is billed once however often it is used. *)
Theorem program_bills_once body s r :
  reachable body s -> root body s = Some (inl r) -> StrategyResult.trace r ≡ₚ received s.
Proof.
  intros Hreach. destruct (billing_reachable body s Hreach) as (W & O & B). unfold root.
  destruct (lookup (programNodeKey body) s) as [e|] eqn:El; [|done]. simpl.
  destruct (e_status e) as [|r0|] eqn:Ee; try done. intros [= <-]. simpl.
  pose proof (lookup_some _ _ _ El) as [He Hk].
  assert (Forall (fun x => is_open x = false) (memo s)) as Hall.
  { apply (root_settles_last body s e); try done. unfold is_open. by rewrite Ee. }
  pose proof (wf_shape _ _ _ _ _ W) as Hsh.
  assert (Forall (fun x => exists r, e_status x = settled r /\ e_awaiting x = []) (memo s)) as Hset.
  { apply Forall_forall. intros x Hx. rewrite Forall_forall in Hall, Hsh. specialize (Hall x Hx).
    destruct (Hsh x Hx) as [_ Hph _]. unfold is_open in Hall. destruct (e_status x) as [|rx|]; try done. by exists rx. }
  rewrite B.
  - assert (owned (memo s) = [] /\ held (memo s) = []) as [-> ->].
    { unfold owned, held. clear -Hset. induction Hset as [|x l (rx & Hx & Ha) _ [IH1 IH2]]; simpl; [done|].
      by rewrite IH1, IH2, Ha, Hx. }
    simpl. rewrite !app_nil_r. unfold trace_at. by rewrite El, Ee.
  - eapply Forall_impl; [exact Hset|]. by intros x (rx & -> & _).
Qed.
End billing.

(** The sample's two responses are billed although the answers are awaited
    twice. *)
Lemma program_bills_once_witness :
  exists r, root sample_body (sample_state 5) = Some (inl r) /\
    StrategyResult.trace r ≡ₚ received (sample_state 5) /\ length (StrategyResult.trace r) = 2%nat.
Proof.
  eexists. split; [vm_compute; reflexivity|]. split; [|reflexivity].
  apply (@program_bills_once sample_ctx "sample" sample_messages sample_texts sample_body).
  - exists (take 5 sample_events). apply sample_run. lia.
  - by vm_compute.
Defined.
End Billing.
