(* ===== verification/InterpEval.v ===== *)
(** * What a program means

    [eval] is a program's meaning without memo, billing or interleaving: the
    provider is a function from requests to answers, and every node is evaluated
    where it stands.  A run of the machine of [Interp] against such a provider
    can only settle on that value, in every interleaving: sharing a node's
    promise by its key is sound on the programs the schema accepts. *)

From S2P Require Import Prelude Number Types Print Program Prompt Consensus Interp InterpSafety.

Module Eval.
Import Num Program Prompt Interp Safety.

(** ** schemas.ts: what a stored program satisfies *)

Definition in_range (lo hi z : Z) : bool := (lo <=? z)%Z && (z <=? hi)%Z.
Definition non_empty (s : string) : bool := negb (bool_decide (s = "")).

(** [z.number().min(0).max(1)]. *)
Definition valid_threshold (min : number) : bool := geb min zero && leb min one.

Section valid.
  Context `{Htexts : !Texts}.

Fixpoint valid_node (n : ProgramNode) : bool :=
  match n with
  | call model _ _ cs ts =>
      non_empty model
      && match cs with Some c => in_range 1 50 (ContextSelect.keepParagraphs c) | None => true end
      && match ts with Some c => in_range 1 64 (ToolSelect.keepTools c) | None => true end
  | if_ c t f => valid_check c && valid_node t && valid_node f
  | vote l => (3 <=? length l)%nat && forallb valid_node l
  | pick l b =>
      (2 <=? length l)%nat && forallb valid_node l
      && match b with by_judge model => non_empty model | by_confidence => true end
  end
with valid_check (c : ProgramCheck) : bool :=
  match c with
  | agree a b => valid_node a && valid_node b
  | confidence n min => valid_node n && valid_threshold min
  | regex n pattern => valid_node n && non_empty pattern && bool_decide (is_Some (regexTest pattern))
  | json_check n _ | tool_called n => valid_node n
  end.

(** [ProgramBodySchema]. *)
Definition valid_program (body : ProgramNode) : bool :=
  valid_node body && (programCallCount body <=? MAX_PROGRAM_CALLS)%nat.
End valid.

(** ** Node results without their bill *)

Definition bare (r : NodeResult.t) : Prop := paid r = r.

Lemma paid_paid r : paid (paid r) = paid r.
Proof. done. Qed.

Lemma first_tool_paid rs : first_tool (map paid rs) = first_tool rs.
Proof.
  unfold first_tool. induction rs as [|r rs IH]; simpl; [done|]. by case_bool_decide.
Qed.

Lemma texts_paid rs : map NodeResult.text (map paid rs) = map NodeResult.text rs.
Proof. by rewrite map_map. Qed.

Definition paid_ballot (b : Interp.ballot) : Interp.ballot := (b.1, (b.2.1, paid b.2.2)).

Lemma count_vote_paid r counts : count_vote (paid r) (map paid_ballot counts) = map paid_ballot (count_vote r counts).
Proof.
  induction counts as [|[k [n f]] counts IH]; simpl; [done|].
  change (NodeResult.text (paid r)) with (NodeResult.text r). case_decide; simpl; [done|]. by rewrite IH.
Qed.

Lemma counts_paid rs : forall counts,
  foldl (fun c r => count_vote r c) (map paid_ballot counts) (map paid rs)
  = map paid_ballot (foldl (fun c r => count_vote r c) counts rs).
Proof. induction rs as [|r rs IH]; intros counts; simpl; [done|]. by rewrite count_vote_paid, IH. Qed.

Lemma majority_paid r0 rs : majority (paid r0) (map paid rs) = paid (majority r0 rs).
Proof.
  unfold majority. pose proof (counts_paid rs []) as Hc. simpl in Hc. rewrite Hc.
  generalize (foldl (fun c r => count_vote r c) [] rs). intros counts. generalize 0%nat. revert r0.
  induction counts as [|[k [n f]] counts IH]; intros r0 m; simpl; [done|].
  unfold majority_step at 2 4. simpl. destruct (m <? n)%nat; apply IH.
Qed.

Lemma vote_result_paid rs : paid <$> vote_result (map paid rs) = paid <$> vote_result rs.
Proof.
  unfold vote_result. rewrite first_tool_paid. destruct (first_tool rs); [done|].
  destruct rs as [|r0 rs]; [done|]. change (map paid (r0 :: rs)) with (paid r0 :: map paid rs) at 1.
  cbv beta iota. change (paid r0 :: map paid rs) with (map paid (r0 :: rs)). rewrite majority_paid. done.
Qed.

Lemma confident_result_paid rs : paid <$> confident_result (map paid rs) = paid <$> confident_result rs.
Proof.
  destruct rs as [|r0 rs]; [done|]. simpl.
  assert (foldl more_confident (paid r0) (map paid rs) = paid (foldl more_confident r0 rs)) as ->; [|done].
  revert r0. induction rs as [|r rs IH]; intros r0; simpl; [done|].
  assert (more_confident (paid r0) (paid r) = paid (more_confident r0 r)) as ->; [|apply IH].
  unfold more_confident, confidence_or. simpl. by destruct (gtb _ _).
Qed.

Lemma judge_result_paid rs j : paid <$> judge_result (map paid rs) (paid j) = paid <$> judge_result rs j.
Proof.
  unfold judge_result. rewrite length_map. change (NodeResult.text (paid j)) with (NodeResult.text j).
  rewrite list_lookup_fmap. by destruct (rs !! _).
Qed.

Lemma check_result_paid `{Htexts : !Texts} c rs : check_result c (map paid rs) = check_result c rs.
Proof. destruct c; by destruct rs as [|x [|y [|]]]. Qed.

Lemma judge_messages_paid messages rs : judge_messages messages (map paid rs) = judge_messages messages rs.
Proof. unfold judge_messages. by rewrite texts_paid. Qed.

(** ** Nodes of equal keys *)

Definition jfield (k : string) (v : json) : option json :=
  match v with JObj fs => snd <$> find (fun f => String.eqb f.1 k) fs | _ => None end.

Definition keep_json (field : string) (k : Z) : json := JObj [(field, printed (of_Z k))].

Lemma call_fields m re pv cs ts (v := programNodeKey (call m re pv cs ts)) :
  jfield "model" v = Some (JStr m) /\ jfield "reasoningEffort" v = effort_json <$> re /\
  jfield "promptVariant" v = variant_json <$> pv /\
  jfield "contextSelect" v = (fun c => keep_json "keepParagraphs" (ContextSelect.keepParagraphs c)) <$> cs /\
  jfield "toolSelect" v = (fun c => keep_json "keepTools" (ToolSelect.keepTools c)) <$> ts.
Proof. by destruct re as [[]|], pv as [[]|], cs, ts. Qed.

(** The counts the schema admits print differently. *)
Lemma keep_inj a b : in_range 1 64 a = true -> in_range 1 64 b = true -> printed (of_Z a) = printed (of_Z b) -> a = b.
Proof.
  unfold in_range. intros Ha Hb E. bool_prop. rewrite !Z.leb_le in *.
  assert (forallb (fun x => forallb (fun y =>
    negb (bool_decide (printed (of_Z (Z.of_nat x)) = printed (of_Z (Z.of_nat y)))) || Nat.eqb x y)
    (seq 1 64)) (seq 1 64) = true) as Hall by by vm_compute.
  rewrite forallb_forall in Hall. specialize (Hall (Z.to_nat a) ltac:(apply in_seq; lia)).
  rewrite forallb_forall in Hall. specialize (Hall (Z.to_nat b) ltac:(apply in_seq; lia)).
  rewrite !Z2Nat.id in Hall by lia. apply orb_prop in Hall as [Hall|Hall].
  - apply negb_true_iff, bool_decide_eq_false in Hall. done.
  - apply Nat.eqb_eq in Hall. lia.
Qed.

Section same.
  Context `{Htexts : !Texts}.

Lemma call_key_inj m re pv cs ts n' :
  programNodeKey (call m re pv cs ts) = programNodeKey n' ->
  valid_node (call m re pv cs ts) = true -> valid_node n' = true -> n' = call m re pv cs ts.
Proof.
  intros Hk Hv Hv'. pose proof (key_op_eq _ _ Hk) as Ho. destruct n' as [m' re' pv' cs' ts'| | |]; try done.
  destruct (call_fields m re pv cs ts) as (F1 & F2 & F3 & F4 & F5).
  destruct (call_fields m' re' pv' cs' ts') as (G1 & G2 & G3 & G4 & G5). rewrite Hk in *.
  rewrite G1 in F1. rewrite G2 in F2. rewrite G3 in F3. rewrite G4 in F4. rewrite G5 in F5.
  injection F1 as ->. simpl in Hv, Hv'. bool_prop. f_equal.
  - by destruct re as [[]|], re' as [[]|].
  - by destruct pv as [[]|], pv' as [[]|].
  - destruct cs as [[a]|], cs' as [[b]|]; try done. simpl in *. injection F4 as F4. do 2 f_equal.
    apply keep_inj; try done; unfold in_range in *; bool_prop; rewrite !Z.leb_le in *; apply andb_true_intro; lia.
  - destruct ts as [[a]|], ts' as [[b]|]; try done. simpl in *. injection F5 as F5. do 2 f_equal. by apply keep_inj.
Qed.

Lemma printed_same a b c : valid_threshold a = true -> valid_threshold b = true -> printed a = printed b -> geb c a = geb c b.
Proof.
  destruct a as [sa|sa| |sa ma ea], b as [sb|sb| |sb mb eb]; try done; try (by destruct sa); try (by destruct sb).
  by intros _ _ [= -> -> ->].
Qed.

Lemma check_key_min n min n' min' :
  check_key (confidence n min) = check_key (confidence n' min') -> printed min = printed min'.
Proof.
  assert (forall n m, jfield "min" (check_key (confidence n m)) = Some (printed m)) as Hm by reflexivity.
  intros E. apply (f_equal (jfield "min")) in E. rewrite !Hm in E. congruence.
Qed.

Lemma check_key_pattern n p n' p' : check_key (regex n p) = check_key (regex n' p') -> p = p'.
Proof.
  assert (forall n m, jfield "pattern" (check_key (regex n m)) = Some (JStr m)) as Hm by reflexivity.
  intros E. apply (f_equal (jfield "pattern")) in E. rewrite !Hm in E. congruence.
Qed.

Lemma check_key_required n ks n' ks' : check_key (json_check n ks) = check_key (json_check n' ks') -> ks = ks'.
Proof.
  assert (forall n ks, jfield "requiredKeys" (check_key (json_check n ks)) = (fun l => JArr (map JStr l)) <$> ks) as Hm.
  { intros m [l|]; [|done]. transitivity (Some (stringify (sortKeys (JArr (map JStr l))))); [reflexivity|].
    simpl. by rewrite !map_map. }
  intros E. apply (f_equal (jfield "requiredKeys")) in E. rewrite !Hm in E.
  destruct ks as [l|], ks' as [l'|]; try done. injection E as E. f_equal.
  revert l' E. induction l as [|x l IH]; intros [|y l'] [=]; [done|]. f_equal; [done|auto].
Qed.

(** Checks of equal keys decide alike. *)
Lemma check_same c c' rs : check_key c = check_key c' -> valid_check c = true -> valid_check c' = true ->
  check_result c rs = check_result c' rs.
Proof.
  intros Hk Hv Hv'. pose proof (check_key_kind c) as K. rewrite Hk, check_key_kind in K.
  destruct c as [a b|n min|n p|n|n ks], c' as [a' b'|n' min'|n' p'|n'|n' ks']; try discriminate K; try done.
  - apply check_key_min in Hk. simpl in Hv, Hv'. bool_prop. destruct rs as [|r [|]]; try done. simpl.
    unfold unless_tool. destruct (NodeResult.toolCalls r); [done|]. destruct (NodeResult.confidence r) as [x|]; [|done].
    by rewrite (printed_same min min').
  - by apply check_key_pattern in Hk as ->.
  - by apply check_key_required in Hk as ->.
Qed.

Lemma valid_operands c : valid_check c = true -> Forall (fun x => valid_node x = true) (operands c).
Proof. destruct c; simpl; intros Hv; bool_prop; repeat constructor; done. Qed.

Lemma valid_children n : valid_node n = true -> Forall (fun x => valid_node x = true) (children n).
Proof.
  destruct n as [|c t f|l|l b]; simpl; intros Hv; bool_prop; [constructor| | |].
  - apply Forall_app. split; [by apply valid_operands|]. by repeat constructor.
  - apply Forall_forall. intros x Hx%list_elem_of_In. by eapply forallb_forall.
  - apply Forall_forall. intros x Hx%list_elem_of_In. by eapply forallb_forall.
Qed.

Lemma valid_subnodes n x : valid_node n = true -> x ∈ subnodes n -> valid_node x = true.
Proof.
  induction n as [n IH] using node_ind. intros Hv. rewrite subnodes_children, elem_of_cons, elem_of_flat_map.
  intros [->|(c & Hc & Hx)]; [done|]. pose proof (valid_children n Hv) as Hch. rewrite Forall_forall in IH, Hch. by apply (IH c Hc); [apply Hch|].
Qed.
End same.

(** ** The meaning of a program *)

Section eval.
  Context (ctx : ExecContext.t) (name : string) (messages : list ChatMessage.t) `{Htexts : !Texts}.
  (** The provider: the answer to a request, if it gives one. *)
  Context (answer : CompleteRequest.t -> option CompleteResponse.t).

Definition ask (model stage : string) (msgs : list ChatMessage.t) (re : option ReasoningEffort)
    (pv : option PromptVariant) (cs : option ContextSelect.t) (ts : option ToolSelect.t) : option NodeResult.t :=
  e ← ExecContext.resolve ctx model;
  r ← answer (request ctx model msgs re pv cs ts);
  Some (paid (call_result (Pending (stage_name stage re pv cs ts) e (request ctx model msgs re pv cs ts)) r)).

Definition tools_only (tools : list ToolCall.t) : NodeResult.t := NodeResult.mk "" None (Some tools) [] zeroUsage.

Fixpoint eval (n : ProgramNode) : option NodeResult.t :=
  let eval_all := fix go l : option (list NodeResult.t) :=
    match l with [] => Some [] | x :: l => r ← eval x; rs ← go l; Some (r :: rs) end in
  match n with
  | call m re pv cs ts => ask m (stage name "call") messages re pv cs ts
  | if_ c t f =>
      rs ← eval_check c;
      match check_result c rs with
      | None => None
      | Some (tool_call tools) => Some (tools_only tools)
      | Some (passes ok) => if ok then eval t else eval f
      end
  | vote l => rs ← eval_all l; paid <$> vote_result rs
  | pick l b =>
      rs ← eval_all l;
      match first_tool rs, b with
      | Some tools, _ => Some (tools_only tools)
      | None, by_confidence => paid <$> confident_result rs
      | None, by_judge m =>
          j ← ask m (stage name "judge") (judge_messages messages rs) None None None None;
          paid <$> judge_result rs j
      end
  end
with eval_check (c : ProgramCheck) : option (list NodeResult.t) :=
  match c with
  | agree a b => ra ← eval a; rb ← eval b; Some [ra; rb]
  | confidence n _ | regex n _ | tool_called n | json_check n _ => r ← eval n; Some [r]
  end.

Definition eval_list (l : list ProgramNode) : option (list NodeResult.t) := mapM eval l.

Lemma eval_check_list c : eval_check c = eval_list (operands c).
Proof. by destruct c as [a b| | | |]; unfold eval_list; simpl; destruct (eval _). Qed.

(** The value of a node whose operands have these values. *)
Definition value (n : ProgramNode) (rs : list NodeResult.t) : option NodeResult.t :=
  match n with
  | call m re pv cs ts => ask m (stage name "call") messages re pv cs ts
  | if_ c t f =>
      match check_result c rs with
      | None => None
      | Some (tool_call tools) => Some (tools_only tools)
      | Some (passes ok) => if ok then eval t else eval f
      end
  | vote _ => paid <$> vote_result rs
  | pick _ b =>
      match first_tool rs, b with
      | Some tools, _ => Some (tools_only tools)
      | None, by_confidence => paid <$> confident_result rs
      | None, by_judge m =>
          j ← ask m (stage name "judge") (judge_messages messages rs) None None None None;
          paid <$> judge_result rs j
      end
  end.

Lemma eval_value n : eval n = rs ← eval_list (awaited n); value n rs.
Proof.
  assert (forall l, (fix go l := match l with [] => Some [] | x :: l => r ← eval x; rs ← go l; Some (r :: rs) end) l
    = eval_list l) as Hl.
  { induction l as [|x l IH]; [done|].
    change (eval_list (x :: l)) with (r ← eval x; rs ← eval_list l; Some (r :: rs)). by rewrite <- IH. }
  destruct n as [| |l|l b]; simpl; [done| | |].
  - by rewrite eval_check_list.
  - by rewrite Hl.
  - by rewrite Hl.
Qed.

(** Nodes of equal keys have equal values: sharing them is sound. *)
Lemma eval_list_same l l' :
  Forall (fun x => forall y, programNodeKey x = programNodeKey y -> valid_node x = true -> valid_node y = true -> eval x = eval y) l ->
  map programNodeKey l = map programNodeKey l' ->
  Forall (fun x => valid_node x = true) l -> Forall (fun x => valid_node x = true) l' -> eval_list l = eval_list l'.
Proof.
  intros Hl. revert l'. induction Hl as [|x l Hx Hl IH]; intros [|y l'] Hk Hv Hv'; try done.
  simpl in Hk. injection Hk as Hxy Hk. inversion Hv; inversion Hv'; subst. unfold eval_list in *. simpl.
  by rewrite (Hx y), (IH l').
Qed.

Lemma key_eval x : forall y, programNodeKey x = programNodeKey y -> valid_node x = true -> valid_node y = true -> eval x = eval y.
Proof.
  induction x as [x IH] using node_ind. intros y Hk Hv Hv'. pose proof (key_op_eq _ _ Hk) as Ho.
  pose proof (valid_children x Hv) as Hc. pose proof (valid_children y Hv') as Hc'.
  destruct x as [m re pv cs ts|c t f|l|l b], y as [m' re' pv' cs' ts'|c' t' f'|l'|l' b']; try done.
  - by rewrite (call_key_inj _ _ _ _ _ _ Hk Hv Hv').
  - rewrite !key_if in Hk. injection Hk as Hck Hf Ht. simpl in IH, Hc, Hc'. rewrite Forall_app in IH, Hc, Hc'.
    destruct IH as [IHc IHb], Hc as [Hvc Hvb], Hc' as [Hvc' Hvb'].
    inversion IHb as [|? ? IHt IHf']; inversion IHf' as [|? ? IHf _]; subst.
    inversion Hvb as [|? ? Vt Vf']; inversion Vf' as [|? ? Vf _]; subst.
    inversion Hvb' as [|? ? Vt' Vf'']; inversion Vf'' as [|? ? Vff _]; subst.
    rewrite !eval_value. simpl awaited. rewrite (eval_list_same (operands c) (operands c')) by (done || by apply check_key_operands).
    destruct (eval_list (operands c')) as [rs|]; [|done]. simpl. simpl in Hv, Hv'. bool_prop.
    rewrite (check_same c c') by done. destruct (check_result c' rs) as [[[]|]|]; auto.
  - rewrite !key_vote in Hk. injection Hk as Hl. rewrite !eval_value. simpl awaited.
    by rewrite (eval_list_same l l').
  - rewrite !key_pick in Hk. injection Hk as Hb Hl. apply by_key_inj in Hb as ->. rewrite !eval_value. simpl awaited.
    by rewrite (eval_list_same l l').
Qed.

(** ** Runs against that provider *)

Abbreviation start := (start ctx name messages).
Abbreviation step := (step ctx name messages).
Abbreviation initial := (initial ctx name messages).
Abbreviation wf := (wf ctx name messages).
Abbreviation turn := (turn ctx name messages).

(** The provider call an entry waits for. *)
Definition pending_at (k : json) (s : state) : option pending :=
  e ← lookup k s;
  match e_status e with running (in_call p) | running (in_judge _ p) => Some p | _ => None end.

(** Responses and failures are the provider's. *)
Definition honest (s : state) (ev : event) : Prop :=
  match ev with
  | Respond k r => exists p, pending_at k s = Some p /\ answer (p_request p) = Some r
  | Fail k _ => exists p, pending_at k s = Some p /\ answer (p_request p) = None
  | Resume _ | Abort _ _ => True
  end.

(** A run of honest events. *)
Inductive runs (body : ProgramNode) : list event -> state -> Prop :=
| runs_nil : runs body [] (initial body)
| runs_snoc evs s ev s' : runs body evs s -> honest s ev -> step ev s = Some s' -> runs body (evs ++ [ev]) s'.

(** Where an entry stands agrees with its node's value. *)
Definition agrees (e : entry) : Prop :=
  match e_status e with
  | settled r => eval (e_node e) = Some (paid r)
  | rejected over_budget => True
  | rejected _ => eval (e_node e) = None
  | running (in_branch _ _) =>
      exists x, x ∈ children (e_node e) /\ awaits e [x] /\ eval (e_node e) = eval x
  | running (in_judge rs _) => eval_list (awaited (e_node e)) = Some (map paid rs)
  | running _ => True
  end.

Definition agree_all (s : state) : Prop := Forall agrees (memo s).

Section agreement.
  Context (body : ProgramNode) (s : state).
  Hypothesis V : valid_node body = true.
  Hypothesis W : wf body s.
  Hypothesis G : agree_all s.

(** A node whose key is in the memo has its entry's value. *)
Lemma entry_eval x c : c ∈ memo s -> e_key c = programNodeKey x -> valid_node x = true -> eval x = eval (e_node c).
Proof.
  intros Hc Hk Hv. pose proof (wf_shape _ _ _ _ _ W) as Hsh. pose proof (wf_nodes _ _ _ _ _ W) as Hn.
  rewrite Forall_forall in Hsh, Hn. apply key_eval; [|done|].
  - rewrite <- Hk. apply (Hsh c Hc).
  - by apply (valid_subnodes body); [|apply Hn].
Qed.

Lemma valid_entry e : e ∈ memo s -> valid_node (e_node e) = true.
Proof.
  intros He. pose proof (wf_nodes _ _ _ _ _ W) as Hn. rewrite Forall_forall in Hn.
  by apply (valid_subnodes body); [|apply Hn].
Qed.

(** The results a body resumes with are its operands' values. *)
Lemma collect_eval hs l rs :
  collect s hs = Some rs -> map h_key hs = map programNodeKey l -> Forall (fun x => valid_node x = true) l ->
  eval_list l = Some (map paid rs).
Proof.
  intros Hc%mapM_Some Hk Hv. revert l Hk Hv. induction Hc as [|h r hs rs Hh Hc IH]; intros [|x l] Hk Hv; try done.
  simpl in Hk. injection Hk as Hkx Hk. inversion Hv as [|? ? Vx Vl]; subst.
  unfold view in Hh. destruct (lookup (h_key h) s) as [c|] eqn:El; [|done]. simpl in Hh.
  destruct (e_status c) as [|r0|] eqn:Ec; try done. injection Hh as <-. apply lookup_some in El as [Hin Hck].
  assert (eval x = Some (paid r0)) as Hx.
  { rewrite (entry_eval x c Hin) by (done || congruence). unfold agree_all in G. rewrite Forall_forall in G.
    specialize (G c Hin). unfold agrees in G. by rewrite Ec in G. }
  unfold eval_list in *. simpl. rewrite Hx. simpl. rewrite (IH l Hk Vl). simpl. by destruct (h_owner h).
Qed.

Lemma awaited_valid e : e ∈ memo s -> Forall (fun x => valid_node x = true) (awaited (e_node e)).
Proof.
  intros He. pose proof (valid_children _ (valid_entry e He)) as Hc. rewrite Forall_forall in *.
  intros x Hx. by apply Hc, awaited_children.
Qed.

(** A failed operand fails the list. *)
Lemma eval_list_none l x : x ∈ l -> eval x = None -> eval_list l = None.
Proof.
  intros Hx He. unfold eval_list. induction l as [|y l IH]; [by apply elem_of_nil in Hx|]. simpl.
  apply elem_of_cons in Hx as [<-|Hx]; [by rewrite He|]. destruct (eval y); simpl; [|done]. by rewrite IH.
Qed.

Lemma combined_eval e ph rs r : e ∈ memo s -> e_status e = running ph -> collect s (e_awaiting e) = Some rs ->
  combined (e_node e) ph rs = Some r -> eval (e_node e) = Some (paid r).
Proof.
  intros He Est Hrs Hcb. pose proof (wf_shape _ _ _ _ _ W) as Hsh. rewrite Forall_forall in Hsh.
  destruct (Hsh e He) as [_ Hph _]. rewrite Est in Hph.
  assert (forall l, awaits e l -> Forall (fun x => valid_node x = true) l -> eval_list l = Some (map paid rs)) as Hl
    by (intros l Ha Hv; by apply (collect_eval (e_awaiting e))).
  pose proof (awaited_valid e He) as Hva. rewrite eval_value.
  destruct (e_node e) as [|c t f|l|l b] eqn:En, ph; simpl in Hcb; try done; simpl in Hph.
  - destruct Hph as (_ & _ & Ha). rewrite En in Ha. rewrite (Hl _ Ha Hva). simpl. rewrite check_result_paid.
    destruct (check_result c rs) as [[|]|]; try done. by injection Hcb as <-.
  - destruct rs as [|x [|]]; try done. injection Hcb as <-. unfold agree_all in G. rewrite Forall_forall in G.
    specialize (G e He). unfold agrees in G. rewrite Est, En in G. destruct G as (y & Hy & Ha & Hev).
    rewrite <- eval_value, Hev. pose proof (valid_children _ (valid_entry e He)) as Hvc. rewrite En in Hvc. rewrite Forall_forall in Hvc.
    specialize (Hl [y] Ha ltac:(apply Forall_singleton; auto)). unfold eval_list in Hl. simpl in Hl.
    destruct (eval y); [|done]. simpl in Hl. injection Hl as ->. done.
  - destruct Hph as (_ & _ & Ha). rewrite En in Ha. rewrite (Hl _ Ha Hva). simpl.
    rewrite vote_result_paid, Hcb. done.
  - destruct Hph as (_ & _ & Ha). rewrite En in Ha. rewrite (Hl _ Ha Hva). simpl. rewrite first_tool_paid.
    destruct (first_tool rs); [by injection Hcb as <-|]. destruct b; [|done]. by rewrite confident_result_paid, Hcb.
Qed.

Lemma thrown_eval e ph rs err : e ∈ memo s -> e_status e = running ph -> collect s (e_awaiting e) = Some rs ->
  thrown (e_node e) ph rs err -> eval (e_node e) = None /\ err <> over_budget.
Proof.
  intros He Est Hrs Hth. pose proof (wf_shape _ _ _ _ _ W) as Hsh. rewrite Forall_forall in Hsh.
  destruct (Hsh e He) as [_ Hph _]. rewrite Est in Hph.
  assert (forall l, awaits e l -> Forall (fun x => valid_node x = true) l -> eval_list l = Some (map paid rs)) as Hl
    by (intros l Ha Hv; by apply (collect_eval (e_awaiting e))).
  pose proof (awaited_valid e He) as Hva. rewrite eval_value.
  destruct (e_node e) as [|c t f|l|l []] eqn:En, ph; simpl in Hth; try done; simpl in Hph;
    destruct Hph as (_ & _ & Ha); rewrite En in Ha; rewrite (Hl _ Ha Hva); simpl.
  - rewrite check_result_paid. destruct Hth as [-> ->]. done.
  - rewrite vote_result_paid. destruct Hth as [-> ->]. done.
  - rewrite first_tool_paid, confident_result_paid. destruct Hth as (-> & -> & ->). done.
Qed.

(** A rejected operand rejects the node. *)
Lemma aborted_eval e ph c err : e ∈ memo s -> e_status e = running ph -> c ∈ memo s -> e_status c = rejected err ->
  err <> over_budget -> e_key c ∈ map h_key (e_awaiting e) -> eval (e_node e) = None.
Proof.
  intros He Est Hc Ec Herr Hin. pose proof (wf_shape _ _ _ _ _ W) as Hsh. rewrite Forall_forall in Hsh.
  destruct (Hsh e He) as [_ Hph _]. rewrite Est in Hph. pose proof (valid_children _ (valid_entry e He)) as Hvc.
  unfold agree_all in G. rewrite Forall_forall in G. rewrite Forall_forall in Hvc. pose proof (G e He) as Ge. pose proof (G c Hc) as Gc.
  assert (eval (e_node c) = None) as Hcn by (unfold agrees in Gc; rewrite Ec in Gc; by destruct err).
  assert (forall l, awaits e l -> (forall x, x ∈ l -> x ∈ children (e_node e)) -> exists x, x ∈ l /\ eval x = None) as Hl.
  { intros l Ha Hch. unfold awaits in Ha. rewrite Ha in Hin. apply list_elem_of_fmap in Hin as (x & Hx & Hxl).
    exists x. split; [done|]. rewrite (entry_eval x c Hc); auto. }
  destruct ph; simpl in Hph.
  - destruct Hph as [_ Ha]. rewrite Ha in Hin. by apply elem_of_nil in Hin.
  - destruct Hph as (_ & _ & Ha). destruct (Hl _ Ha (awaited_children _)) as (x & Hx & Hn).
    by rewrite eval_value, (eval_list_none _ x).
  - unfold agrees in Ge. rewrite Est in Ge. destruct Ge as (y & Hy & Ha & ->).
    destruct (Hl [y] Ha) as (x & ->%list_elem_of_singleton & Hn); [|done]. by intros x ->%list_elem_of_singleton.
  - destruct Hph as (_ & _ & Ha). destruct (Hl _ Ha (awaited_children _)) as (x & Hx & Hn).
    by rewrite eval_value, (eval_list_none _ x).
  - destruct Hph as [_ Ha]. rewrite Ha in Hin. by apply elem_of_nil in Hin.
Qed.
End agreement.

Lemma fresh_agrees e : fresh ctx e -> agrees e.
Proof.
  unfold fresh, agrees. destruct (e_status e) as [[]| |[]]; try done.
  intros (Hr & re & pv & cs & ts & ->). simpl. unfold ask. by rewrite Hr.
Qed.

(** The response of a call node, and the failure of one. *)
Lemma call_eval n p : call_pending ctx name messages n p ->
  eval n = (fun r => paid (call_result p r)) <$> answer (p_request p).
Proof.
  destruct n as [m re pv cs ts| | |]; try done. intros (e & He & ->). simpl. unfold ask. rewrite He. simpl.
  by destruct (answer _).
Qed.

Lemma judge_eval n rs p : judge_pending ctx name messages n rs p -> eval_list (awaited n) = Some (map paid rs) ->
  eval n = r ← answer (p_request p); paid <$> judge_result rs (call_result p r).
Proof.
  destruct n as [| | |l [|m]]; try done. intros (_ & Hf & e & He & ->) Hl. rewrite eval_value, Hl. simpl.
  rewrite first_tool_paid, Hf, judge_messages_paid. unfold ask. rewrite He. simpl.
  destruct (answer _) as [r|]; [|done]. simpl. apply judge_result_paid.
Qed.

Lemma turn_agrees body s e ev hs st s1 :
  valid_node body = true -> wf body s -> agree_all s -> honest s ev -> e ∈ memo s -> turn s e ev hs st s1 ->
  agrees (Entry (e_key e) (e_node e) hs st).
Proof.
  intros V W G Hh He Ht. pose proof (wf_shape _ _ _ _ _ W) as Hsh. rewrite Forall_forall in Hsh.
  destruct (Hsh e He) as [Hk Hph _]. unfold agree_all in G. pose proof G as G0. rewrite Forall_forall in G.
  specialize (G e He). unfold agrees in G. pose proof (lookup_in _ _ _ body s e W He) as Hlk.
  assert (forall p, pending_at (e_key e) s = Some p ->
    match e_status e with running (in_call q) | running (in_judge _ q) => q = p | _ => False end) as Hp.
  { unfold pending_at. rewrite Hlk. simpl. intros p. destruct (e_status e) as [[]| |]; congruence. }
  destruct Ht as [p r Est|rs p r Est|m ph p Est Hpp|ph c err Est Hc Ec Hin|ph rs r Est Hrs Hcb|ph rs err Est Hrs Hth
    |c t f rs ok Est En Hrs Hck|l m rs s2 p Est En Hrs Hf Hi]; unfold agrees; simpl; rewrite Est in *; simpl in Hph.
  - destruct Hh as (q & Hq%Hp & Ha). subst q. rewrite (call_eval _ p) by apply Hph. by rewrite Ha.
  - destruct Hh as (q & Hq%Hp & Ha). subst q.
    destruct (judge_result rs (call_result p r)) as [w|] eqn:Hj; rewrite (judge_eval _ rs p), Ha by (apply Hph || done);
      simpl; by rewrite Hj.
  - destruct Hh as (q & Hq%Hp & Ha). destruct Hpp as [->|[rs ->]]; subst q; simpl in Hph.
    + rewrite (call_eval _ p) by apply Hph. by rewrite Ha.
    + rewrite (judge_eval _ rs p) by (apply Hph || done). by rewrite Ha.
  - assert (err <> over_budget -> eval (e_node e) = None); [|by destruct err; auto].
    intros. by apply (aborted_eval body s V W G0 e ph c err).
  - by apply (combined_eval body s V W G0 e ph rs).
  - destruct (thrown_eval body s V W G0 e ph rs err) as [? ?]; auto. by destruct err.
  - destruct Hph as (_ & _ & Ha). exists (if ok then t else f). split; [|split].
    + rewrite En. simpl. rewrite elem_of_app. right. destruct ok; set_solver.
    + pose proof (wf_nodup _ _ _ _ _ W) as Hd.
      destruct (start_started ctx name messages (if ok then t else f) s Hd) as [new A]. apply (st_handles _ _ _ _ _ _ _ _ A).
    + rewrite eval_value, (collect_eval body s V W G0 (e_awaiting e) (awaited (e_node e)) rs Hrs Ha
        (awaited_valid body s V W e He)). rewrite En. simpl. rewrite check_result_paid, Hck. by destruct ok.
  - destruct Hph as (_ & _ & Ha).
    pose proof (collect_eval body s V W G0 (e_awaiting e) (awaited (e_node e)) rs Hrs Ha (awaited_valid body s V W e He)) as Hl.
    pose proof (issue_spec ctx m (stage name "judge") (judge_messages messages rs) None None None None s) as Hs.
    rewrite Hi in Hs. destruct Hs as (_ & _ & _ & Hs). destruct p as [p|[]]; try done.
    destruct Hs as (_ & -> & Hr). rewrite eval_value, Hl, En. simpl.
    rewrite first_tool_paid, Hf, judge_messages_paid. unfold ask. by rewrite Hr.
Qed.

Lemma agree_step body s ev s' :
  valid_node body = true -> wf body s -> agree_all s -> honest s ev -> step ev s = Some s' -> agree_all s'.
Proof.
  intros V W G Hh Hs. apply step_turn in Hs as (e & hs & st & s1 & He & Ht & ->).
  pose proof (turn_agrees body s e ev hs st s1 V W G Hh He Ht) as He'. pose proof (wf_nodup _ _ _ _ _ W) as Hd.
  assert (exists new, memo s1 = memo s ++ new /\ NoDup (memo_keys s1) /\ Forall agrees new) as (new & Hm & Hd1 & Hnew).
  { destruct Ht as [| | | | | |c t f rs ok|l m rs s2 p Est En Hrs Hf Hi];
      try (exists []; split; [by rewrite app_nil_r|]; split; [exact Hd|constructor]).
    - destruct (start_started ctx name messages (if ok then t else f) s Hd) as [new A]. exists new. split; [apply A|].
      split; [|eapply Forall_impl; [apply A|]; intros x [_ Hx]; by apply fresh_agrees].
      rewrite (memo_keys_app _ _ _ (st_memo _ _ _ _ _ _ _ _ A)). apply NoDup_app. split; [done|]. split; [|apply A].
      intros k Hkk (x & -> & Hx)%list_elem_of_fmap. pose proof (st_new _ _ _ _ _ _ _ _ A) as Hn.
      rewrite Forall_forall in Hn. by apply (Hn x Hx).
    - pose proof (issue_spec ctx m (stage name "judge") (judge_messages messages rs) None None None None s) as Hs.
      rewrite Hi in Hs. destruct Hs as (Hm & _). exists []. rewrite app_nil_r. split; [done|].
      split; [unfold memo_keys; by rewrite Hm|constructor]. }
  destruct (update_split (e_key e) hs st s1 e Hd1 ltac:(rewrite Hm; set_solver) eq_refl) as (l1 & l2 & E1 & E2).
  unfold agree_all in *. rewrite E2. assert (Forall agrees (memo s1)) as Hall by (rewrite Hm; by apply Forall_app).
  rewrite E1 in Hall. rewrite Forall_app, Forall_cons in *. naive_solver.
Qed.

Lemma runs_agree body evs s : valid_node body = true -> runs body evs s -> wf body s /\ agree_all s.
Proof.
  intros V. induction 1 as [|evs s ev s' Hr [W G] Hh Hs].
  - split; [apply wf_initial|]. destruct (start_started ctx name messages body Interp.empty) as [new A]; [constructor|].
    unfold agree_all, Interp.initial. rewrite (st_memo _ _ _ _ _ _ _ _ A). simpl.
    eapply Forall_impl; [apply A|]. intros x [_ Hx]. by apply fresh_agrees.
  - split; [by eapply wf_step|by eapply agree_step].
Qed.

(** ** Properties *)

(** C6. A run of a valid program against a provider that answers each request the
    same way settles on the program's value, and rejects only when it has none,
    whatever the order of the responses and whatever the memo shared. *)
Theorem program_refines_eval body evs s res :
  valid_program body = true -> runs body evs s -> root body s = Some res ->
  match res, eval body with
  | inl r, Some v => StrategyResult.text r = NodeResult.text v /\ StrategyResult.toolCalls r = NodeResult.toolCalls v
  | inr _, None => True
  | _, _ => False
  end.
Proof.
  intros [V Hb]%andb_prop Hr Hroot. destruct (runs_agree body evs s V Hr) as [W G]. apply Nat.leb_le in Hb.
  unfold root in Hroot. destruct (lookup (programNodeKey body) s) as [e|] eqn:El; [|done]. simpl in Hroot.
  apply lookup_some in El as [He Hk]. unfold agree_all in G. rewrite Forall_forall in G. pose proof (G e He) as Ge.
  rewrite (entry_eval body s V W body e He Hk V).
  unfold agrees in Ge. destruct (e_status e) as [|r|err] eqn:Est; [done| |]; injection Hroot as <-.
  - by rewrite Ge.
  - destruct err; try by rewrite Ge. exfalso. pose proof (wf_budget _ _ _ _ _ W) as Hbud. rewrite Forall_forall in Hbud.
    specialize (Hbud e He Est). pose proof (calls_bounded ctx name messages body s W). lia.
Qed.
End eval.

Lemma sample_honest n : (n <= 5)%nat ->
  @runs sample_ctx "sample" sample_messages sample_texts sample_answer sample_body (take n sample_events) (sample_state n).
Proof.
  induction n as [|n IH]; intros Hn.
  - replace (sample_state 0) with (@initial sample_ctx "sample" sample_messages sample_body) by by vm_compute.
    constructor.
  - destruct (lookup_lt_is_Some_2 sample_events n) as [ev Hev]; [simpl; lia|]. rewrite (take_S_r _ _ _ Hev).
    apply (runs_snoc _ _ _ _ _ _ (sample_state n)); [apply IH; lia| |].
    + do 5 (destruct n as [|n]; [injection Hev as <-; simpl; try done; eexists; split; by vm_compute|]). lia.
    + do 5 (destruct n as [|n]; [injection Hev as <-; by vm_compute|]). lia.
Qed.

Definition sample_eval : option NodeResult.t :=
  @eval sample_ctx "sample" sample_messages sample_texts sample_answer sample_body.

Definition sample_result : StrategyResult.t + error :=
  default (inr type_error) (root sample_body (sample_state 5)).

Lemma sample_settles : root sample_body (sample_state 5) = Some sample_result.
Proof. by vm_compute. Qed.

Lemma program_refines_eval_witness :
  match sample_result, sample_eval with
  | inl r, Some v => StrategyResult.text r = NodeResult.text v /\ StrategyResult.toolCalls r = NodeResult.toolCalls v
  | inr _, None => True
  | _, _ => False
  end /\ NodeResult.text <$> sample_eval = Some (CompleteResponse.text response_b).
Proof.
  split; [|by vm_compute].
  exact (@program_refines_eval sample_ctx "sample" sample_messages sample_texts sample_answer sample_body
    (take 5 sample_events) (sample_state 5) sample_result ltac:(by vm_compute) (sample_honest 5 (le_n 5)) sample_settles).
Defined.
End Eval.
