(* ===== verification/InterpSound.v ===== *)
(** * Valid programs do not go wrong

    What schemas.ts refuses at parse time is what could break inside the
    interpreter: a pattern that does not compile, a vote or a pick without
    operands, a program over its budget.  A run of a program the schema accepts
    rejects only because a model is unknown or its provider failed. *)

From S2P Require Import Prelude Number Types Print Program Prompt Consensus Interp InterpSafety InterpEval.

Module Sound.
Import Num Program Prompt Interp Safety Eval.

(** The errors the run of a valid program may meet. *)
Definition outside (err : error) : Prop :=
  match err with unknown_model _ | provider_failed _ => True | _ => False end.

(** No entry holds an error of the interpreter itself. *)
Definition sane (e : entry) : Prop :=
  match e_status e with rejected err => err = over_budget \/ outside err | _ => True end.

Section sound.
  Context (ctx : ExecContext.t) (name : string) (messages : list ChatMessage.t) `{Htexts : !Texts}.

Abbreviation wf := (wf ctx name messages).
Abbreviation turn := (turn ctx name messages).
Abbreviation step := (step ctx name messages).
Abbreviation reachable := (reachable ctx name messages).

Lemma judge_picks rs j : (0 < length rs)%nat -> is_Some (judge_result rs j).
Proof.
  intros Hn. unfold judge_result.
  assert ((parsePick (NodeResult.text j) (length rs)).1 < length rs)%nat as [w Hw]%lookup_lt_is_Some_2.
  { unfold parsePick. destruct (lastAnchoredValue _ _ _) as [v|]; [|done].
    destruct (Z.ltb_spec (digits_value 0 v) (Z.of_nat (length rs))); [simpl; lia|done]. }
  rewrite Hw. by eexists.
Qed.

Lemma check_decides c rs : valid_check c = true -> length rs = length (operands c) -> is_Some (check_result c rs).
Proof.
  intros V Hl. destruct c as [a b|n min|n pattern|n|n keys]; simpl in V, Hl.
  - destruct rs as [|x [|y [|]]]; try done. simpl. destruct (NodeResult.toolCalls x), (NodeResult.toolCalls y); by eexists.
  - destruct rs as [|x [|]]; try done. simpl. unfold unless_tool. destruct (NodeResult.toolCalls x); by eexists.
  - destruct rs as [|x [|]]; try done. simpl. apply andb_prop in V as [_ [test ->]%bool_decide_eq_true].
    unfold unless_tool. destruct (NodeResult.toolCalls x); by eexists.
  - destruct rs as [|x [|]]; try done; by eexists.
  - destruct rs as [|x [|]]; try done. simpl. unfold unless_tool. destruct (NodeResult.toolCalls x); by eexists.
Qed.

(** The body of a valid node does not throw on its results. *)
Lemma never_thrown n ph rs err : valid_node n = true -> length rs = length (awaited n) -> ~ thrown n ph rs err.
Proof.
  intros V Hl Ht. destruct n as [|c t f|l|l [|m]], ph; simpl in Ht, Hl, V; try done.
  - bool_prop. destruct Ht as [Hc _]. destruct (check_decides c rs) as [o Ho]; congruence.
  - bool_prop. destruct Ht as [Hv _]. unfold vote_result in Hv. destruct (first_tool rs); [done|].
    destruct rs; [|done]. destruct l; done.
  - bool_prop. destruct Ht as (_ & Hv & _). destruct rs; [|done]. destruct l; done.
Qed.

Lemma turn_sane body s e ev hs st s1 :
  valid_node body = true -> wf body s -> Forall sane (memo s) -> e ∈ memo s -> turn s e ev hs st s1 ->
  sane (Entry (e_key e) (e_node e) hs st).
Proof.
  intros V W G He Ht. pose proof (wf_shape _ _ _ _ _ W) as Hsh. rewrite Forall_forall in Hsh, G.
  destruct (Hsh e He) as [_ Hph _]. pose proof (valid_entry ctx name messages body s V W e He) as Hve.
  destruct Ht as [p r Est|rs p r Est|m ph p Est Hpp|ph c err Est Hc Ec Hin|ph rs r Est Hrs Hcb|ph rs err Est Hrs Hth
    |c t f rs ok Est En Hrs Hck|l m rs s2 p Est En Hrs Hf Hi]; unfold sane; simpl; rewrite Est in Hph.
  - done.
  - destruct Hph as [Hj _]. destruct (e_node e) as [| | |l [|m]]; try done. destruct Hj as (Hl & _). simpl in Hve. bool_prop.
    destruct (judge_picks rs (call_result p r)) as [w ->]; [|done]. rewrite Hl. destruct l; [done|simpl; lia].
  - by right.
  - specialize (G c Hc). unfold sane in G. by rewrite Ec in G.
  - done.
  - exfalso. assert (length rs = length (awaited (e_node e))) as Hl.
    { rewrite (collect_length _ _ _ Hrs). destruct ph; try (by destruct (e_node e) as [| | |? []]);
        destruct Hph as (_ & _ & Ha); apply (f_equal length) in Ha; by rewrite !length_map in Ha. }
    by apply (never_thrown _ _ _ _ Hve Hl) in Hth.
  - done.
  - pose proof (issue_spec ctx m (stage name "judge") (judge_messages messages rs) None None None None s) as Hs.
    rewrite Hi in Hs. destruct Hs as (_ & _ & _ & Hs). destruct p as [p|[]]; try done; [by left|by right].
Qed.

Lemma fresh_sane e : fresh ctx e -> sane e.
Proof. unfold fresh, sane. destruct (e_status e) as [[]| |[]]; try done; by (left + right). Qed.

Lemma sane_step body s ev s' :
  valid_node body = true -> wf body s -> Forall sane (memo s) -> step ev s = Some s' -> Forall sane (memo s').
Proof.
  intros V W G Hs. apply step_turn in Hs as (e & hs & st & s1 & He & Ht & ->).
  pose proof (turn_sane body s e ev hs st s1 V W G He Ht) as He'.
  assert (Forall sane (memo s1)) as G1.
  { destruct Ht as [| | | | | |c t f rs ok Est En|l m rs s2 p Est En Hrs Hf Hi]; try done.
    - destruct (start_started ctx name messages (if ok then t else f) s (wf_nodup _ _ _ _ _ W)) as [new A].
      rewrite (st_memo _ _ _ _ _ _ _ _ A). apply Forall_app. split; [done|].
      eapply Forall_impl; [apply A|]. intros x [_ Hx]. by apply fresh_sane.
    - pose proof (issue_spec ctx m (stage name "judge") (judge_messages messages rs) None None None None s) as Hs.
      rewrite Hi in Hs. destruct Hs as (-> & _). done. }
  unfold update. simpl. apply Forall_map. eapply Forall_impl; [exact G1|]. intros x Hx.
  case_decide; [|done]. unfold sane in *. simpl in *. done.
Qed.

Lemma reachable_sane body s : valid_node body = true -> reachable body s -> wf body s /\ Forall sane (memo s).
Proof.
  intros V [evs Hr]. revert Hr. apply (run_invariant ctx name messages (fun s => wf body s /\ Forall sane (memo s))).
  - intros s1 ev s2 [W G] Hs. split; [by eapply wf_step|by eapply sane_step].
  - split; [apply wf_initial|]. destruct (start_started ctx name messages body Interp.empty) as [new A]; [constructor|].
    unfold Interp.initial. rewrite (st_memo _ _ _ _ _ _ _ _ A). simpl. eapply Forall_impl; [apply A|].
    intros x [_ Hx]. by apply fresh_sane.
Qed.

(** ** Property *)

(** C14. A program the schema accepts does not go wrong: whatever is answered and in
    whatever order, its run rejects only with an unknown model or a failed
    provider call, never with an error of the interpreter. *)
Theorem valid_program_sound body s err :
  valid_program body = true -> reachable body s -> root body s = Some (inr err) -> outside err.
Proof.
  intros [V Hb]%andb_prop Hr Hroot. destruct (reachable_sane body s V Hr) as [W G].
  unfold root in Hroot. destruct (lookup (programNodeKey body) s) as [e|] eqn:El; [|done]. simpl in Hroot.
  apply lookup_some in El as [He _]. rewrite Forall_forall in G. specialize (G e He). unfold sane in G.
  destruct (e_status e) as [| |err'] eqn:Est; try done. injection Hroot as <-. destruct G as [->|G]; [|done].
  exfalso. pose proof (wf_budget _ _ _ _ _ W) as Hbud. rewrite Forall_forall in Hbud. specialize (Hbud e He Est).
  pose proof (calls_bounded ctx name messages body s W). apply Nat.leb_le in Hb. lia.
Qed.
End sound.

(** The sample with a call that fails. *)
Definition failing_events : list event :=
  [Respond sample_b response_b; Fail sample_a "timeout"; Abort sample_root sample_a].

Definition failed_state : state :=
  default Interp.empty (@run sample_ctx "sample" sample_messages sample_texts failing_events
                          (initial sample_ctx "sample" sample_messages sample_body)).

Lemma valid_program_sound_witness :
  root sample_body failed_state = Some (inr (provider_failed "timeout")) /\ outside (provider_failed "timeout").
Proof.
  split; [by vm_compute|].
  apply (@valid_program_sound sample_ctx "sample" sample_messages sample_texts sample_body failed_state
    (provider_failed "timeout")); [by vm_compute|by exists failing_events; vm_compute|by vm_compute].
Defined.
End Sound.
