(* ===== verification/Calls.v ===== *)
(** * Provider calls of a strategy: strategies/src/helpers.ts

    The handwritten strategies are straight asynchronous code: send a call or a
    fan-out of calls ([Promise.all]), wait for all of it, go on.  [prog] is that
    code as a tree: what is sent next, and how the code goes on with the
    responses.  A fan-out is read by position, so the order of its responses
    does not matter; when some of its calls fail the promise rejects with the
    first failure to arrive, which the model leaves open ([call_failed] holds
    all of them).

    [run] plays a [prog] against a provider that may answer every call
    differently, and records the requests sent, the usage of the calls answered
    and the tokens streamed to the caller. *)

From Stdlib Require Import Ascii.
From S2P Require Import Prelude Number Types Print Prompt Consensus Interp.

Module Calls.
Import Num Print Prompt.

(** ** The code as a tree *)

Inductive failure :=
| no_model (model : string) (** [ctx.resolve] threw *)
| call_failed (messages : list string)
| malformed (what : string) (** an [Error] the strategy throws itself *)
| invalid_json (** [JSON.parse] threw *)
| no_element. (** a TypeError on an absent array element *)

(** A call of a fan-out; [ctx.resolve] gave no entry when it threw. *)
Record slot := Slot { s_entry : option PriceEntry.t; s_request : Interp.CompleteRequest.t }.

Definition reply : Type := PriceEntry.t * Interp.CompleteResponse.t.

Inductive prog (A : Type) : Type :=
| Ret (a : A)
| Throw (f : failure)
| Send (block : list slot) (k : list reply -> prog A)
| Relay (s : slot) (k : reply -> prog A)
| Emit (token : string) (k : prog A).
#[global] Arguments Ret {A} _.
#[global] Arguments Throw {A} _.
#[global] Arguments Send {A} _ _.
#[global] Arguments Relay {A} _ _.
#[global] Arguments Emit {A} _ _.

#[export] Instance prog_ret : MRet prog := @Ret.

#[export] Instance prog_bind : MBind prog := fun A B k =>
  fix go p :=
    match p with
    | Ret a => k a
    | Throw f => Throw f
    | Send block k' => Send block (fun rs => go (k' rs))
    | Relay s k' => Relay s (fun r => go (k' r))
    | Emit t p => Emit t (go p)
    end.

Fixpoint emit (tokens : list string) : prog unit :=
  match tokens with [] => Ret tt | t :: ts => Emit t (emit ts) end.

(** ** Running it *)

(** [answered] holds the usage of the calls answered, in the order the code
    reads them. *)
Record world := World {
  requests : list Interp.CompleteRequest.t;
  answered : list Usage.t;
  tokens : list string;
}.

Definition idle : world := World [] [] [].

Definition usage_of (r : reply) : Usage.t := Interp.response_usage r.2 r.1.

(** A call whose model does not resolve is never sent. *)
Definition sent_of (block : list slot) : list Interp.CompleteRequest.t :=
  map s_request (List.filter (fun s => bool_decide (is_Some (s_entry s))) block).

Definition sends (block : list slot) (w : world) : world :=
  World (requests w ++ sent_of block) (answered w) (tokens w).
Definition answers (rs : list reply) (w : world) : world :=
  World (requests w) (answered w ++ map usage_of rs) (tokens w).
Definition streams (ts : list string) (w : world) : world := World (requests w) (answered w) (tokens w ++ ts).

(** The first model that does not resolve: its rejection arrives first. *)
Definition unresolved (block : list slot) : option string :=
  (fun s => Interp.CompleteRequest.model (s_request s)) <$> find (fun s => bool_decide (s_entry s = None)) block.

Section run.
  (** The provider's answer to the n-th request of the run, and the tokens it
      relays when asked to stream. *)
  Context (answer : nat -> Interp.CompleteRequest.t -> Interp.CompleteResponse.t + string).
  Context (deltas : nat -> Interp.CompleteRequest.t -> list string).

Fixpoint replies (n : nat) (block : list slot) : list reply * list string :=
  match block with
  | [] => ([], [])
  | s :: rest =>
      let '(rs, ms) := replies (S n) rest in
      match s_entry s, answer n (s_request s) with
      | Some e, inl r => ((e, r) :: rs, ms)
      | Some _, inr m => (rs, m :: ms)
      | None, _ => (rs, ms)
      end
  end.

Fixpoint run {A} (p : prog A) (w : world) : world * (A + failure) :=
  match p with
  | Ret a => (w, inl a)
  | Throw f => (w, inr f)
  | Send block k =>
      let n := length (requests w) in
      let w := sends block w in
      match unresolved block with
      | Some model => (w, inr (no_model model))
      | None =>
          match replies n block with
          | (rs, []) => run (k rs) (answers rs w)
          | (_, ms) => (w, inr (call_failed ms))
          end
      end
  | Relay s k =>
      let n := length (requests w) in
      let w := sends [s] w in
      match s_entry s with
      | None => (w, inr (no_model (Interp.CompleteRequest.model (s_request s))))
      | Some e =>
          let w := streams (deltas n (s_request s)) w in
          match answer n (s_request s) with
          | inl r => run (k (e, r)) (answers [(e, r)] w)
          | inr m => (w, inr (call_failed [m]))
          end
      end
  | Emit t p => run p (streams [t] w)
  end.
End run.

(** ** helpers.ts *)

Definition zeroUsage : Usage.t := Usage.mk zero zero zero zero None.

Definition or_estimated (a b : option unit) : option unit := match b with Some _ => Some tt | None => a end.

Definition addUsage (acc u : Usage.t) : Usage.t :=
  Usage.mk (add (Usage.inputTokens acc) (Usage.inputTokens u)) (add (Usage.outputTokens acc) (Usage.outputTokens u))
    (Interp.roundCost (add (Usage.costUsd acc) (Usage.costUsd u))) (add (Usage.latencyMs acc) (Usage.latencyMs u))
    (or_estimated (Usage.usageEstimated acc) (Usage.usageEstimated u)).

Definition addUsageParallel (acc u : Usage.t) : Usage.t :=
  Usage.mk (add (Usage.inputTokens acc) (Usage.inputTokens u)) (add (Usage.outputTokens acc) (Usage.outputTokens u))
    (Interp.roundCost (add (Usage.costUsd acc) (Usage.costUsd u))) (max (Usage.latencyMs acc) (Usage.latencyMs u))
    (or_estimated (Usage.usageEstimated acc) (Usage.usageEstimated u)).

(** providers/src/mock/rng.ts: FNV-1a on 32 bits; [Math.imul] keeps the low 32
    bits, whose sign [>>> 0] drops. *)
Definition uint32 (z : Z) : Z := z mod 2 ^ 32.

Fixpoint hash_loop (h : Z) (input : string) : Z :=
  match input with
  | EmptyString => h
  | String c input => hash_loop (uint32 (Z.lxor h (Z.of_N (unit_of c)) * 0x01000193)) input
  end.

Definition hashString (input : string) : Z := hash_loop 0x811c9dc5 input.

Section calls.
  Context (ctx : Interp.ExecContext.t).

Definition baseSeedOf (messages : list ChatMessage.t) : number :=
  default (of_Z (Z.land (hashString (promptTextOf messages)) 0x7fffffff)) (Interp.ExecContext.seed ctx).

(** The arguments of [callModel]. *)
Record call_args := Args {
  a_model : string;
  a_messages : list ChatMessage.t;
  a_seed : number;
  a_maxTokens : option number;
}.

Definition call_request (a : call_args) : Interp.CompleteRequest.t :=
  Interp.CompleteRequest.mk (a_model a) (a_messages a)
    (Interp.CompleteParams.mk (Some (a_seed a))
       (match a_maxTokens a with Some m => Some m | None => Interp.ExecContext.maxOutputTokens ctx end)
       (Interp.ExecContext.captureConfidence ctx) (Interp.ExecContext.tools ctx) (Interp.ExecContext.toolChoice ctx)
       None None).

Definition call_slot (a : call_args) : slot := Slot (Interp.ExecContext.resolve ctx (a_model a)) (call_request a).
End calls.

Module CallOutcome.
Record t := mk {
  text : string;
  usage : Usage.t;
  logprobConfidence : option number;
  modelVersion : string;
  toolCalls : option (list ToolCall.t);
}.
End CallOutcome.

Definition some_tools (r : Interp.CompleteResponse.t) : option (list ToolCall.t) :=
  match Interp.CompleteResponse.toolCalls r with Some ((_ :: _) as tools) => Some tools | _ => None end.

Definition outcome (r : reply) : CallOutcome.t :=
  CallOutcome.mk (Interp.CompleteResponse.text r.2) (usage_of r) (Interp.CompleteResponse.logprobConfidence r.2)
    (Interp.CompleteResponse.modelVersion r.2) (some_tools r.2).

(** [Promise.all] of calls. *)
Definition callAll (ctx : Interp.ExecContext.t) (l : list call_args) : prog (list CallOutcome.t) :=
  Send (map (call_slot ctx) l) (fun rs => Ret (map outcome rs)).

Definition callModel (ctx : Interp.ExecContext.t) (a : call_args) : prog CallOutcome.t :=
  Send [call_slot ctx a] (fun rs => match rs with r :: _ => Ret (outcome r) | [] => Throw no_element end).
End Calls.
