(* ===== verification/Strategies.v ===== *)
(** * The handwritten strategies: strategies/src

    One [prog] per interpreter: single.ts, cascade.ts, best-of-n.ts,
    draft-verify.ts, ensemble.ts, decompose.ts, composite.ts, dispatched by
    [execute].  The mutable [trace] and [total] of the source are threaded. *)

From Stdlib Require Import Ascii.
From S2P Require Import Prelude Number JsSort Types Print Prompt Consensus Program Compile Interp Calls.

Module Strategies.
Import Num Print Prompt Calls.

#[local] Abbreviation StrategyResult := Interp.StrategyResult.t.
#[local] Abbreviation StageTrace := Interp.StageTrace.t.
#[local] Abbreviation ExecContext := Interp.ExecContext.t.

Definition nat_text (n : nat) : string := show_Z (Z.of_nat n).

(** A trace entry of a call. *)
Definition call_trace (stage model : string) (o : CallOutcome.t) (confidence : option number) (decision : option string)
    : StageTrace :=
  Interp.StageTrace.mk stage model (CallOutcome.text o) (CallOutcome.usage o) confidence decision.

(** A trace entry without a call. *)
Definition note_trace (stage model text decision : string) : StageTrace :=
  Interp.StageTrace.mk stage model text zeroUsage None (Some decision).

Definition result (text : string) (trace : list StageTrace) (usage : Usage.t) : StrategyResult :=
  Interp.StrategyResult.mk text trace usage None None.

(** ** single.ts *)

(** [match(/\S+\s*/g)]; [cur] is the match under way. *)
Fixpoint chunk_loop (cur : string) (in_spaces : bool) (s : string) : list string :=
  match s with
  | EmptyString => push_run cur []
  | String c s =>
      if is_space c then
        match cur with
        | EmptyString => chunk_loop EmptyString false s
        | _ => chunk_loop (cur +:+ String c EmptyString) true s
        end
      else if in_spaces then cur :: chunk_loop (String c EmptyString) false s
      else chunk_loop (cur +:+ String c EmptyString) false s
  end.

Definition streamChunks (text : string) : list string := chunk_loop EmptyString false text.

Section strategies.
  Context (ctx : ExecContext).

Definition single_request (model : string) (messages : list ChatMessage.t) : Interp.CompleteRequest.t :=
  Interp.CompleteRequest.mk model messages
    (Interp.CompleteParams.mk (Interp.ExecContext.seed ctx) (Interp.ExecContext.maxOutputTokens ctx)
       (Interp.ExecContext.captureConfidence ctx) (Interp.ExecContext.tools ctx) (Interp.ExecContext.toolChoice ctx)
       None (Interp.ExecContext.sampling ctx)).

Definition canRelay (entry : PriceEntry.t) : bool :=
  Interp.ExecContext.stream ctx && Interp.ExecContext.relays ctx (PriceEntry.provider entry)
  && negb (Interp.ExecContext.captureConfidence ctx).

Definition single_result (model : string) (r : reply) : StrategyResult :=
  let o := outcome r in
  Interp.StrategyResult.mk (CallOutcome.text o)
    [call_trace "single" model o (CallOutcome.logprobConfidence o) None] (CallOutcome.usage o) (some_tools r.2)
    (Interp.CompleteResponse.finishReason r.2).

(** The replay of a finished text to a caller that wants tokens. *)
Definition replay (text : string) : prog unit :=
  if Interp.ExecContext.stream ctx then emit (streamChunks text) else Ret tt.

Definition runSingle (model : string) (messages : list ChatMessage.t) : prog StrategyResult :=
  match Interp.ExecContext.resolve ctx model with
  | None => Throw (no_model model)
  | Some entry =>
      let s := Slot (Some entry) (single_request model messages) in
      if canRelay entry then Relay s (fun r => Ret (single_result model r))
      else Send [s] (fun rs =>
             match rs with
             | [] => Throw no_element
             | r :: _ => replay (Interp.CompleteResponse.text r.2) ≫= fun _ => Ret (single_result model r)
             end)
  end.

(** ** cascade.ts *)

Definition seed_at (baseSeed : number) (offset : nat) : number := add baseSeed (of_Z (Z.of_nat offset)).

Definition answer_args (model : string) (messages : list ChatMessage.t) (seed : number) : call_args :=
  Args model messages seed None.
Definition protocol_args (model : string) (messages : list ChatMessage.t) (seed : number) : call_args :=
  Args model messages seed (Some PROTOCOL_MAX_TOKENS).

(** The raw value of a self-report, and whether it parsed. *)
Definition self_report (text : string) : number * bool :=
  match lastAnchoredValue text "CONFIDENCE" CONFIDENCE_VALUE_PATTERN with
  | Some v => (confidence_value v, true)
  | None => (SELF_REPORT_FALLBACK_RAW, false)
  end.

Definition self_report_decision (parsed : bool) : string :=
  if parsed then "self-report" else "self-report-unparseable-default-" +:+ to_string SELF_REPORT_FALLBACK_RAW.

(** The calibrated confidence, the trace entry of the probe and its usage. *)
Definition selfReportConfidence (stageIndex : nat) (model : string) (messages : list ChatMessage.t) (draft : string)
    (seed : number) (note : option string) : prog (number * StageTrace * Usage.t) :=
  probe ← callModel ctx (protocol_args model (buildSelfReportMessages messages draft) seed);
  let '(raw, parsed) := self_report (CallOutcome.text probe) in
  Ret (calibrateSelfReport raw,
       call_trace ("stage-" +:+ nat_text stageIndex +:+ "-self-report") model probe (Some raw)
         (Some (match note with Some (String _ _ as n) => n +:+ ";" | _ => "" end +:+ self_report_decision parsed)),
       CallOutcome.usage probe).

Definition warning_trace (i : nat) (model : string) : StageTrace :=
  note_trace ("stage-" +:+ nat_text i +:+ "-warning") model ""
    "warn:no-logprob-confidence-from-provider;fallback:self-report-calibrated".

(** The confidence of a stage that may escalate: what the provider reports, or a
    probe that takes the next seed; with the entries and usage it adds. *)
Definition stage_confidence (method_ : ConfidenceMethod) (i : nat) (model : string) (messages : list ChatMessage.t)
    (o : CallOutcome.t) (seed : number) : prog (number * list StageTrace * option Usage.t) :=
  match method_, CallOutcome.logprobConfidence o with
  | logprob, Some c => Ret (c, [], None)
  | logprob, None =>
      '(c, entry, u) ← selfReportConfidence i model messages (CallOutcome.text o) seed
                         (Some "fallback:no-logprob-confidence");
      Ret (c, [warning_trace i model; entry], Some u)
  | self_report_calibrated, _ =>
      '(c, entry, u) ← selfReportConfidence i model messages (CallOutcome.text o) seed None;
      Ret (c, [entry], Some u)
  end.

Definition add_probe (total : Usage.t) (u : option Usage.t) : Usage.t := default total (addUsage total <$> u).
Definition probe_calls (u : option Usage.t) : nat := match u with Some _ => 1 | None => 0 end.

Definition stage_name (i : nat) : string := "stage-" +:+ nat_text i.

(** The loop over the stages from the i-th on; [off] is [callOffset]. *)
Fixpoint cascade_loop (method_ : ConfidenceMethod) (messages : list ChatMessage.t) (baseSeed : number)
    (i off : nat) (stages : list CascadeStage.t) (trace : list StageTrace) (total : Usage.t) (finalText : string)
    : prog StrategyResult :=
  match stages with
  | [] => Ret (result finalText trace total)
  | stage :: rest =>
      let model := CascadeStage.model stage in
      o ← callModel ctx (answer_args model messages (seed_at baseSeed off));
      let total := addUsage total (CallOutcome.usage o) in
      match CallOutcome.toolCalls o with
      | Some tools =>
          Ret (Interp.StrategyResult.mk (CallOutcome.text o)
                 (trace ++ [call_trace (stage_name i) model o None (Some "tool_call")]) total (Some tools) None)
      | None =>
          match rest, Compile.threshold stage with
          | _ :: _, Some threshold =>
              '(conf, probes, u) ← stage_confidence method_ i model messages o (seed_at baseSeed (S off));
              let escalates := ltb conf threshold in
              let trace :=
                trace ++ [call_trace (stage_name i) model o (Some conf)
                            (Some (if escalates then "escalate" else "accept"))] ++ probes in
              let total := add_probe total u in
              if escalates
              then cascade_loop method_ messages baseSeed (S i) (S off + probe_calls u) rest trace total (CallOutcome.text o)
              else Ret (result (CallOutcome.text o) trace total)
          | _, _ =>
              Ret (result (CallOutcome.text o) (trace ++ [call_trace (stage_name i) model o None (Some "accept")]) total)
          end
      end
  end.

Definition runCascade (stages : list CascadeStage.t) (method_ : ConfidenceMethod) (messages : list ChatMessage.t)
    : prog StrategyResult :=
  match stages with
  | [] => Throw (malformed "cascade requires at least one stage")
  | _ => cascade_loop method_ messages (baseSeedOf ctx messages) 0 0 stages [] zeroUsage ""
  end.

(** ** best-of-n.ts *)

Definition pick_decision (method_ : string) (index : nat) (parsed : bool) : string :=
  method_ +:+ ":" +:+ nat_text index +:+ if parsed then "" else ";unparseable-judge-answer-default-0".

Definition candidate_trace (i : nat) (model : string) (c : CallOutcome.t) : StageTrace :=
  call_trace ("candidate-" +:+ nat_text i) model c (CallOutcome.logprobConfidence c) None.

Definition add_parallel (total : Usage.t) (cs : list CallOutcome.t) : Usage.t :=
  foldl (fun acc c => addUsageParallel acc (CallOutcome.usage c)) total cs.

(** One judge call over the texts, and the text it picks. *)
Definition judged (stage method_ : string) (judge : JudgeConfig.t) (messages : list ChatMessage.t) (texts : list string)
    (seed : number) (trace : list StageTrace) (total : Usage.t) : prog StrategyResult :=
  o ← callModel ctx
        (protocol_args (JudgeConfig.model judge) (buildJudgeMessages messages texts (JudgeConfig.rubric judge)) seed);
  let '(index, parsed) := parsePick (CallOutcome.text o) (length texts) in
  match texts !! index with
  | None => Throw no_element
  | Some text =>
      Ret (result text
             (trace ++ [call_trace stage (JudgeConfig.model judge) o None (Some (pick_decision method_ index parsed))])
             (addUsage total (CallOutcome.usage o)))
  end.

Definition runBestOfN (model : string) (n : Z) (judge : JudgeConfig.t) (messages : list ChatMessage.t)
    : prog StrategyResult :=
  if (n <? 1)%Z then Throw (malformed "best-of-n requires n >= 1")
  else
    let baseSeed := baseSeedOf ctx messages in
    candidates ← callAll ctx (map (fun i => answer_args model messages (seed_at baseSeed i)) (seq 0 (Z.to_nat n)));
    judged "judge" "pick" judge messages (map CallOutcome.text candidates) (add baseSeed (of_Z n))
      (imap (fun i c => candidate_trace i model c) candidates) (add_parallel zeroUsage candidates).

(** ** draft-verify.ts *)

Definition buildVerifyMessages (original : list ChatMessage.t) (draft : string) : list ChatMessage.t :=
  original ++
  [message assistant draft;
   message user
     ("Verify the draft answer above for correctness and completeness. "
      +:+ "If anything is wrong or missing, correct it. Return only the final corrected answer.")].

Definition runDraftVerify (draftModel verifierModel : string) (messages : list ChatMessage.t) : prog StrategyResult :=
  let baseSeed := baseSeedOf ctx messages in
  draft ← callModel ctx (answer_args draftModel messages baseSeed);
  verified ← callModel ctx
               (answer_args verifierModel (buildVerifyMessages messages (CallOutcome.text draft)) (seed_at baseSeed 1));
  Ret (result (CallOutcome.text verified)
         [call_trace "draft" draftModel draft (CallOutcome.logprobConfidence draft) None;
          call_trace "verify" verifierModel verified (CallOutcome.logprobConfidence verified) (Some "final")]
         (addUsage (addUsage zeroUsage (CallOutcome.usage draft)) (CallOutcome.usage verified))).

(** ** composite.ts *)

Definition COMPOSITE_STREAM_BUFFER_TOKENS : nat := 20.

Definition COMPOSITE_UPGRADE_NOTE : string := "A cheaper model produced this partial answer; continue/improve it:".

Definition buildCompositeUpgradeMessages (original : list ChatMessage.t) (partial : string) : list ChatMessage.t :=
  original ++ [message system (COMPOSITE_UPGRADE_NOTE +:+ nl +:+ wrapUntrustedData partial)].

(** The start model's confidence, with what a probe adds. *)
Definition start_confidence (startModel : string) (messages : list ChatMessage.t) (start : CallOutcome.t)
    (seed : number) : prog (number * list StageTrace * option Usage.t) :=
  match CallOutcome.logprobConfidence start with
  | Some c => Ret (c, [], None)
  | None =>
      probe ← callModel ctx
                (protocol_args startModel (buildSelfReportMessages messages (CallOutcome.text start)) seed);
      let '(raw, parsed) := self_report (CallOutcome.text probe) in
      Ret (calibrateSelfReport raw,
           [call_trace "composite-start-self-report" startModel probe (Some raw) (Some (self_report_decision parsed))],
           Some (CallOutcome.usage probe))
  end.

(** The chunks a streaming caller gets before the upgrade. *)
Definition prefix_chunks (text : string) : list string :=
  if Interp.ExecContext.stream ctx then take COMPOSITE_STREAM_BUFFER_TOKENS (streamChunks text) else [].

Definition runComposite (startModel upgradeModel : string) (threshold : number) (messages : list ChatMessage.t)
    : prog StrategyResult :=
  let baseSeed := baseSeedOf ctx messages in
  start ← callModel ctx (answer_args startModel messages (seed_at baseSeed 0));
  '(conf, probes, u) ← start_confidence startModel messages start (seed_at baseSeed 1);
  let total := add_probe (addUsage zeroUsage (CallOutcome.usage start)) u in
  let upgraded := ltb conf threshold in
  let trace :=
    call_trace "composite-start" startModel start (Some conf) (Some (if upgraded then "upgraded" else "kept"))
    :: probes in
  if negb upgraded then
    replay (CallOutcome.text start) ≫= fun _ => Ret (result (CallOutcome.text start) trace total)
  else
    let prefix := prefix_chunks (CallOutcome.text start) in
    let partial := if Interp.ExecContext.stream ctx then join "" prefix else CallOutcome.text start in
    emit prefix ≫= fun _ =>
    upgrade ← callModel ctx
                (answer_args upgradeModel (buildCompositeUpgradeMessages messages partial)
                   (seed_at baseSeed (1 + probe_calls u)));
    let trace :=
      trace ++ [call_trace "composite-upgrade" upgradeModel upgrade (CallOutcome.logprobConfidence upgrade) (Some "upgraded")] in
    replay (CallOutcome.text upgrade) ≫= fun _ =>
    Ret (result (if Interp.ExecContext.stream ctx then partial +:+ CallOutcome.text upgrade else CallOutcome.text upgrade)
           trace (addUsage total (CallOutcome.usage upgrade))).
End strategies.
(** ** ensemble.ts *)

Definition buildTestWriterMessages (original : list ChatMessage.t) : list ChatMessage.t :=
  original ++
  [message user
     ("Do NOT answer the request above. Instead, write a JavaScript test snippet for the requested functionality. "
      +:+ "The sandbox provides: test(name, fn), assert(cond, msg), assertDeepEqual(actual, expected). "
      +:+ "Write 3 to 8 focused test() cases derived ONLY from what the request itself states or clearly implies. "
      +:+ "Do not define or include the implementation. Return only the test code — no markdown fences, no prose.")].

Definition quoted (s : string) : string := String (Ascii.ascii_of_N 34) (s +:+ String (Ascii.ascii_of_N 34) EmptyString).

Definition buildFieldWriterMessages (original : list ChatMessage.t) : list ChatMessage.t :=
  original ++
  [message user
     ("Do NOT answer the request above. Instead, list the fields the request asks to be extracted or returned. "
      +:+ "Respond with ONLY a JSON array of the field names, exactly as the request names them (same casing/wording), "
      +:+ "no markdown fences, no prose. Example: ["
      +:+ join "," (map quoted ["order_number"; "issue"; "urgency"]) +:+ "]")].

(** [replace(/^```LANG\s*\n?/i, '')] and [replace(/\n?\s*```$/, '')] around a
    trimmed text; [lang] drops the language tag. *)
Definition strip_fence (lang : string -> string) (text : string) : string :=
  let opened := match strip_key "```" (trim text) with Some s => drop_spaces (lang s) | None => trim text end in
  trim match strip_key "```" (reverse opened) with Some r => reverse r | None => opened end.

Definition is_tag (c : Ascii.ascii) : bool :=
  is_lower c || is_upper c || is_digit c || Ascii.eqb c "_" || Ascii.eqb c "-".

Definition stripAnyFence : string -> string := strip_fence (Consensus.drop_while is_tag).

(** exec-sandbox.ts: [(?:javascript|js)?]. *)
Definition drop_js (s : string) : string :=
  match strip_key "javascript" s with Some r => r | None => default s (strip_key "js" s) end.
Definition stripCodeFences : string -> string := strip_fence drop_js.

Definition normField (k : string) : string := Consensus.remove (fun c => negb (is_word c)) (toLowerCase k).

Definition is_field (x : json) : option string :=
  match x with JStr s => if decide (trim s = "") then None else Some s | _ => None end.

Module CodeExecReport.
Record t := mk { passed : number; total : number; failures : list string; error : option string }.
End CodeExecReport.

(** decompose.ts. *)
Module Subtask.
Record t := mk { kind : string; prompt : string }.
End Subtask.

(** The worker that runs generated code against a test snippet. *)
Class Sandbox := { runCodeWithTests : string -> string -> CodeExecReport.t }.

Section ensemble.
  Context `{Htexts : !Interp.Texts} `{Hsandbox : !Sandbox} (ctx : ExecContext).

Definition parseFieldList (text : string) : option (list string) :=
  match Interp.jsonParse (stripAnyFence text) with
  | Some (JArr v) => match omap is_field v with [] => None | fields => Some fields end
  | _ => None
  end.

Definition minus_one : number := of_Z (-1).
Definition count {A} (l : list A) : number := of_Z (Z.of_nat (length l)).

Definition fieldCoverage (candidateText : string) (required : list string) : number :=
  match Interp.jsonParse (stripAnyFence candidateText) with
  | Some (JObj fs) =>
      let keys := map (fun f => normField f.1) fs in
      div (count (List.filter (fun r => bool_decide (normField r ∈ keys)) required)) (count required)
  | _ => minus_one
  end.

(** The writers of an exec-pick or verify-pick fusion. *)
Definition picks_by_writers (m : FusionMethod) : bool := match m with exec_pick | verify_pick => true | _ => false end.

Definition writers_of (fusion : FusionConfig.t) : list JudgeConfig.t :=
  if picks_by_writers (FusionConfig.method fusion) then
    match FusionConfig.testWriters fusion, FusionConfig.testWriter fusion with
    | Some ((_ :: _) as ws), _ => ws
    | _, Some w => [w]
    | _, None => []
    end
  else [].

(** One candidate against one suite: its rate and the verdict recorded. *)
Definition field_verdict (fields : option (list string)) (candidate : string) : number * string :=
  match fields with
  | None => (minus_one, "error(unusable field list)")
  | Some fields =>
      let rate := fieldCoverage candidate fields in
      (rate, if ltb rate zero then "error(unparseable json)"
             else to_string (Interp.round (mul rate (count fields))) +:+ "/" +:+ nat_text (length fields))
  end.

Definition exec_verdict (candidate suite : string) : number * string :=
  let report := runCodeWithTests (stripCodeFences candidate) suite in
  let unusable := bool_decide (is_Some (CodeExecReport.error report)) || eqb (CodeExecReport.total report) zero in
  if unusable
  then (minus_one, "error(" +:+ String.substring 0 60 (default "no cases" (CodeExecReport.error report)) +:+ ")")
  else (div (CodeExecReport.passed report) (CodeExecReport.total report),
        to_string (CodeExecReport.passed report) +:+ "/" +:+ to_string (CodeExecReport.total report)).

Definition verdict_of (verify : bool) (suite candidate : string) : number * string :=
  if verify then field_verdict (parseFieldList suite) candidate else exec_verdict candidate suite.

(** A candidate's score and verdicts over the suites: the mean rate. *)
Definition suite_step (verify : bool) (suites : list string) (candidate : string)
    (acc : nat * number * string) (suite : string) : nat * number * string :=
  let '(wi, score, verdicts) := acc in
  let '(rate, verdict) := verdict_of verify suite candidate in
  (S wi, add score (div rate (count suites)), verdicts +:+ (if (0 <? wi)%nat then "+" else "") +:+ verdict).

Definition suite_score (verify : bool) (suites : list string) (candidate : string) : number * string :=
  let '(_, score, verdicts) := foldl (suite_step verify suites candidate) (0%nat, zero, "") suites in
  (score, verdicts).

(** The candidates whose score is the top one. *)
Definition top_score (scores : list number) : number := foldl max (S754_infinity true) scores.
Definition tied_of (scores : list number) : list nat :=
  List.filter (fun i => match scores !! i with Some s => eqb s (top_score scores) | None => false end)
    (seq 0 (length scores)).

(** The winner among the tied, how it was found, the judge's entry and the
    total with the judge's usage. *)
Definition break_tie (fusion : FusionConfig.t) (messages : list ChatMessage.t) (candidates : list CallOutcome.t)
    (tied : list nat) (first : nat) (seed : number) (total : Usage.t) : prog (nat * string * list StageTrace * Usage.t) :=
  match tied with
  | _ :: _ :: _ =>
      match FusionConfig.judge fusion with
      | Some judge =>
          let texts := map (fun i => default "" (CallOutcome.text <$> candidates !! i)) tied in
          o ← callModel ctx
                (protocol_args (JudgeConfig.model judge) (buildJudgeMessages messages texts (JudgeConfig.rubric judge)) seed);
          let '(within, parsed) := parsePick (CallOutcome.text o) (length tied) in
          let index := default first (tied !! within) in
          Ret (index, pick_decision ";tie-judge" index parsed, [call_trace "tie-judge" (JudgeConfig.model judge) o None None],
               addUsage total (CallOutcome.usage o))
      | None =>
          let order := rankIndices (map (fun c => (CallOutcome.text c, CallOutcome.logprobConfidence c)) candidates) in
          let index := default first (find (fun i => bool_decide (i ∈ tied)) order) in
          Ret (index, ";tie-confidence:" +:+ nat_text index, [], total)
      end
  | _ => Ret (first, "", [], total)
  end.

Definition method_name (m : FusionMethod) : string := Compile.fusion_name m.

Definition writer_trace (verify : bool) (writers : list JudgeConfig.t) (wi : nat) (o : CallOutcome.t) : StageTrace :=
  let prefix := if verify then "field-writer" else "test-writer" in
  call_trace (if (length writers =? 1)%nat then prefix else prefix +:+ "-" +:+ nat_text wi)
    (default "" (JudgeConfig.model <$> writers !! wi)) o None None.

(** The fusion by tests or by field lists. *)
Definition fuse_by_writers (fusion : FusionConfig.t) (writers : list JudgeConfig.t) (messages : list ChatMessage.t)
    (candidates writerOutcomes : list CallOutcome.t) (seed : number) (trace : list StageTrace) (total : Usage.t)
    : prog StrategyResult :=
  let verify := match FusionConfig.method fusion with verify_pick => true | _ => false end in
  let total := add_parallel total writerOutcomes in
  let trace := trace ++ imap (writer_trace verify writers) writerOutcomes in
  let suites := map (fun o => stripCodeFences (CallOutcome.text o)) writerOutcomes in
  let graded := map (fun c => suite_score verify suites (CallOutcome.text c)) candidates in
  let tied := tied_of (map fst graded) in
  match tied with
  | [] => Throw no_element
  | first :: _ =>
      '(index, how, entries, total) ← break_tie fusion messages candidates tied first seed total;
      match candidates !! index with
      | None => Throw no_element
      | Some winner =>
          Ret (result (CallOutcome.text winner)
                 (trace ++ entries ++
                  [note_trace (if verify then "fusion-verify" else "fusion-exec") (if verify then "field-check" else "sandbox")
                     (CallOutcome.text winner)
                     (method_name (FusionConfig.method fusion) +:+ ":" +:+ nat_text index +:+ ";exec:"
                      +:+ join "|" (map snd graded) +:+ how)])
                 total)
      end
  end.

Definition order_decision (order : list nat) : string :=
  "concat-rank:order=[" +:+ join "," (map nat_text order) +:+ "]".

(** The concatenation by rank, with a header per text. *)
Definition ranked_text (header : nat -> string) (texts : list string) (order : list nat) : string :=
  join (nl +:+ nl)
    (imap (fun rank idx => "## " +:+ header idx +:+ " (rank " +:+ nat_text (S rank) +:+ ")" +:+ nl +:+ default "" (texts !! idx))
       order).

Definition runEnsemble (models : list string) (fusion : FusionConfig.t) (messages : list ChatMessage.t)
    : prog StrategyResult :=
  let m := FusionConfig.method fusion in
  let writers := writers_of fusion in
  match models with
  | [] => Throw (malformed "ensemble requires at least one model")
  | _ =>
      if picks_by_writers m && (length writers =? 0)%nat
      then Throw (malformed ("ensemble fusion '" +:+ method_name m +:+ "' requires fusion.testWriter or fusion.testWriters"))
      else
        let baseSeed := baseSeedOf ctx messages in
        let k := length models in
        let writer_messages :=
          match m with verify_pick => buildFieldWriterMessages messages | _ => buildTestWriterMessages messages end in
        outcomes ← callAll ctx
          (imap (fun i model => answer_args model messages (seed_at baseSeed i)) models
           ++ imap (fun wi w => answer_args (JudgeConfig.model w) writer_messages
                                (add (add (seed_at baseSeed k) one) (of_Z (Z.of_nat wi)))) writers);
        let candidates := take k outcomes in
        let trace := imap (fun i c => candidate_trace i (default "" (models !! i)) c) candidates in
        let total := add_parallel zeroUsage candidates in
        match m with
        | exec_pick | verify_pick =>
            fuse_by_writers fusion writers messages candidates (drop k outcomes) (seed_at baseSeed k) trace total
        | judge_pick =>
            match FusionConfig.judge fusion with
            | None => Throw (malformed "ensemble fusion 'judge-pick' requires fusion.judge")
            | Some judge =>
                judged ctx "fusion-judge" "judge-pick" judge messages (map CallOutcome.text candidates)
                  (seed_at baseSeed k) trace total
            end
        | concat_rank =>
            let order := rankIndices (map (fun c => (CallOutcome.text c, CallOutcome.logprobConfidence c)) candidates) in
            let text := ranked_text (fun i => default "" (models !! i)) (map CallOutcome.text candidates) order in
            Ret (result text (trace ++ [note_trace "fusion" "deterministic" text (order_decision order)]) total)
        end
  end.

(** ** decompose.ts *)

Definition MAX_SUBTASKS : nat := 8.
Definition MAX_SUBTASK_PROMPT_CHARS : nat := 4000.
Definition INVALID_KIND : string := "invalid-kind".

(** [/^[a-zA-Z0-9][a-zA-Z0-9_-]{0,31}$/]. *)
Fixpoint all_chars (p : Ascii.ascii -> bool) (s : string) : bool :=
  match s with EmptyString => true | String c s => p c && all_chars p s end.
Definition is_alphanumeric (c : Ascii.ascii) : bool := is_lower c || is_upper c || is_digit c.
Definition KIND_PATTERN (kind : string) : bool :=
  match kind with
  | EmptyString => false
  | String c s => is_alphanumeric c && all_chars is_tag s && (String.length s <=? 31)%nat
  end.

Definition DECOMPOSE_INSTRUCTION : string :=
  "Break the task above into subtasks. Respond with a JSON array of subtasks, each of the form {"
  +:+ quoted "kind" +:+ ": " +:+ quoted "..." +:+ ", " +:+ quoted "prompt" +:+ ": " +:+ quoted "..." +:+ "}, and nothing else.".

(** [indexOf] as what precedes and what follows the first occurrence. *)
Fixpoint split_at (key s : string) : option (string * string) :=
  match strip_key key s, s with
  | Some r, _ => Some (EmptyString, r)
  | None, String c s => (fun '(a, b) => (String c a, b)) <$> split_at key s
  | None, EmptyString => None
  end.

(** [/```(?:json)?\s*([\s\S]*?)```/i]. *)
Definition fenced (cleaned : string) : option string :=
  '(_, after) ← split_at "```" cleaned;
  '(inside, _) ← split_at "```" (drop_spaces (default after (strip_key "json" after)));
  Some inside.

(** From the first opening bracket to the last closing one. *)
Definition bracketed (text : string) : option string :=
  match Consensus.drop_while (Interp.not_char "["%char) text with
  | EmptyString => None
  | s => match Consensus.drop_while (Interp.not_char "]"%char) (reverse s) with
         | EmptyString => None
         | r => Some (reverse r)
         end
  end.

Definition field_of (k : string) (item : json) : option string :=
  match item with
  | JObj fs => f ← find (fun f => bool_decide (f.1 = k)) fs; match f.2 with JStr s => Some s | _ => None end
  | _ => None
  end.

Definition to_subtask (item : json) : option Subtask.t :=
  kind ← field_of "kind" item; prompt ← field_of "prompt" item;
  Some (Subtask.mk (if KIND_PATTERN kind then kind else INVALID_KIND) (String.substring 0 MAX_SUBTASK_PROMPT_CHARS prompt)).

Definition parseSubtasks (text : string) : list Subtask.t + failure :=
  let trimmed := trim text in
  let cleaned := match fenced trimmed with Some inside => trim inside | None => trimmed end in
  match bracketed cleaned with
  | None => inr (malformed "decompose: could not find a JSON array in decomposer output")
  | Some slice =>
      match Interp.jsonParse slice with
      | None => inr invalid_json
      | Some (JArr ((_ :: _) as items)) =>
          match mapM to_subtask (take MAX_SUBTASKS items) with
          | Some subtasks => inl subtasks
          | None => inr (malformed "decompose: subtask lacks string kind/prompt fields")
          end
      | Some _ => inr (malformed "decompose: decomposer output is not a non-empty JSON array")
      end
  end.

(** An own key of the routing table. *)
Definition routed (routing : list (string * string)) (k : string) : option string :=
  snd <$> find (fun r => bool_decide (r.1 = k)) routing.

(** The context of a subtask: what the caller set besides the providers is left
    behind. *)
Definition sub_ctx (seed : number) : ExecContext :=
  Interp.ExecContext.mk (Interp.ExecContext.relays ctx) (Interp.ExecContext.resolve ctx) (Some seed) None false false
    None None None.

(** The loop over the subtasks from the i-th on. *)
Fixpoint subtask_loop (routing : list (string * string)) (baseSeed : number) (i : nat) (subtasks : list Subtask.t)
    (results : list string) (trace : list StageTrace) (total : Usage.t)
    : prog (list string * list StageTrace * Usage.t) :=
  match subtasks with
  | [] => Ret (results, trace, total)
  | st :: rest =>
      let kind := Subtask.kind st in
      let direct := routed routing kind in
      match (match direct with Some m => Some m | None => routed routing "*" end) with
      | Some (String _ _ as model) =>
          r ← runSingle (sub_ctx (add (add baseSeed one) (of_Z (Z.of_nat i)))) model [message user (Subtask.prompt st)];
          let text := Interp.StrategyResult.text r in
          let usage := Interp.StrategyResult.usage r in
          let decision :=
            match direct with
            | Some _ => "routed:" +:+ kind +:+ "->" +:+ model
            | None => "routed:*->" +:+ model
            end in
          subtask_loop routing baseSeed (S i) rest (results ++ [text])
            (trace ++ [Interp.StageTrace.mk ("subtask-" +:+ nat_text i +:+ ":" +:+ kind) model text usage None (Some decision)])
            (addUsage total usage)
      | _ => Throw (malformed ("decompose: no routing for subtask kind '" +:+ kind +:+ "' and no '*' fallback"))
      end
  end.

Definition subtask_header (subtasks : list Subtask.t) (i : nat) : string :=
  "Subtask " +:+ nat_text i +:+ " (" +:+ default "" (Subtask.kind <$> subtasks !! i) +:+ ")".

Definition runDecompose (decomposerModel : string) (routing : list (string * string)) (fusion : option FusionConfig.t)
    (messages : list ChatMessage.t) : prog StrategyResult :=
  let baseSeed := baseSeedOf ctx messages in
  decomposed ← callModel ctx
                 (answer_args decomposerModel (messages ++ [message user DECOMPOSE_INSTRUCTION]) baseSeed);
  match parseSubtasks (CallOutcome.text decomposed) with
  | inr f => Throw f
  | inl subtasks =>
      '(results, trace, total) ← subtask_loop routing baseSeed 0 subtasks []
        [call_trace "decompose" decomposerModel decomposed None None] (addUsage zeroUsage (CallOutcome.usage decomposed));
      match FusionConfig.method <$> fusion, fusion ≫= FusionConfig.judge with
      | Some judge_pick, None => Throw (malformed "decompose fusion 'judge-pick' requires fusion.judge")
      | Some judge_pick, Some judge =>
          judged ctx "fusion-judge" "judge-pick" judge messages results
            (add (add baseSeed one) (of_Z (Z.of_nat (length subtasks)))) trace total
      | Some concat_rank, _ =>
          let order := rankIndices (map (fun t => (t, None)) results) in
          let text := ranked_text (subtask_header subtasks) results order in
          Ret (result text (trace ++ [note_trace "fusion" "deterministic" text (order_decision order)]) total)
      | _, _ =>
          Ret (result
                 (join (nl +:+ nl)
                    (imap (fun i r => "## " +:+ subtask_header subtasks i +:+ nl +:+ r) results)) trace total)
      end
  end.

(** ** execute.ts *)

(** A program runs on the machine of [Interp]. *)
Inductive execution :=
| staged (p : prog StrategyResult)
| programmed (name : string) (body : ProgramNode).

Definition execute (strategy : StrategyConfig) (messages : list ChatMessage.t) : execution :=
  match strategy with
  | single model => staged (runSingle ctx model messages)
  | cascade stages method_ => staged (runCascade ctx stages method_ messages)
  | best_of_n model n judge => staged (runBestOfN ctx model n judge messages)
  | draft_verify draftModel verifierModel => staged (runDraftVerify ctx draftModel verifierModel messages)
  | ensemble models fusion => staged (runEnsemble models fusion messages)
  | decompose decomposerModel routing fusion => staged (runDecompose decomposerModel routing fusion messages)
  | program name body => programmed name body
  | composite startModel upgradeModel threshold => staged (runComposite ctx startModel upgradeModel threshold messages)
  end.
End ensemble.

(** ** A sample provider *)

Definition strategy_texts : Interp.Texts := {|
  Interp.regexTest _ := None;
  Interp.jsonParse s :=
    if bool_decide (s = "[subtasks]") then Some (JArr [JObj [("kind", JStr "code"); ("prompt", JStr "Write it.")]]) else None;
|}.

Definition strategy_sandbox : Sandbox := {| runCodeWithTests _ _ := CodeExecReport.mk one one [] None |}.

Definition strategy_ctx (stream : bool) : Interp.ExecContext.t :=
  Interp.ExecContext.mk (fun _ => false) (fun _ => Some Interp.sample_price) None (Some (of_Z 4096)) true stream None None None.

Definition strategy_reply (text : string) (conf : Z) : Interp.CompleteResponse.t := Interp.sample_response text conf false.

(** "cheap" answers with little confidence. *)
Definition strategy_answer (q : Interp.CompleteRequest.t) : option Interp.CompleteResponse.t :=
  let m := Interp.CompleteRequest.model q in
  Some (if bool_decide (m = "cheap") then strategy_reply "Hello" 20
        else if bool_decide (m = "planner") then strategy_reply "[subtasks]" 90
        else if bool_decide (m = "judge") then strategy_reply "PICK: 1" 90
        else strategy_reply " world" 90).

Definition strategy_provider (_ : nat) (q : Interp.CompleteRequest.t) : Interp.CompleteResponse.t + string :=
  match strategy_answer q with Some r => inl r | None => inr "refused" end.

Definition no_deltas (_ : nat) (_ : Interp.CompleteRequest.t) : list string := [].

Definition run_sample {A} (p : prog A) : world * (A + failure) := run strategy_provider no_deltas p idle.

(** The result of a run that returns. *)
Definition result_of (p : prog StrategyResult) : StrategyResult :=
  match (run_sample p).2 with inl r => r | inr _ => result "" [] zeroUsage end.

Definition sample_stages : list CascadeStage.t :=
  [CascadeStage.mk "cheap" (Some (Some (lit 5 1))); CascadeStage.mk "strong" None].
End Strategies.
