(* ===== verification/StrategiesBilling.v ===== *)
(** * What the handwritten strategies send and bill

    A small logic over [prog]: [returns] for what holds of a run that returns,
    [at_most] for the number of requests of any run, [asks] for what holds of
    every request.  With it: a strategy's usage is the sum over every call it
    made and each call has its stage in the trace; how many calls a strategy can
    make; which models it can call. *)

From S2P Require Import Prelude Number JsSort Types Print Prompt Consensus Program Compile Interp Calls Strategies.

Module StrategiesBilling.
Import Num Print Prompt Calls Strategies.

(** ** Sums of usages *)

Definition is_estimated (u : Usage.t) : bool := bool_decide (is_Some (Usage.usageEstimated u)).

(** [total] carries the tokens, the cost and the mark of all the usages [us]. *)
Record tally (us : list Usage.t) (total : Usage.t) : Prop := Tally {
  t_input : Usage.inputTokens total = foldl add zero (map Usage.inputTokens us);
  t_output : Usage.outputTokens total = foldl add zero (map Usage.outputTokens us);
  t_cost : Usage.costUsd total = foldl (fun c d => Interp.roundCost (add c d)) zero (map Usage.costUsd us);
  t_estimated : Usage.usageEstimated total = if existsb is_estimated us then Some tt else None;
}.

(** Every usage of [us] is a stage of the trace; the other stages cost nothing. *)
Definition covers (us : list Usage.t) (trace : list Interp.StageTrace.t) : Prop :=
  exists zs, map Interp.StageTrace.usage trace ≡ₚ us ++ zs /\ Forall (eq zeroUsage) zs.

Definition billed (us : list Usage.t) (r : Interp.StrategyResult.t) : Prop :=
  tally us (Interp.StrategyResult.usage r) /\ covers us (Interp.StrategyResult.trace r).

Lemma tally_nil : tally [] zeroUsage.
Proof. by split. Qed.

Lemma estimated_snoc us u a :
  a = (if existsb is_estimated us then Some tt else None) ->
  or_estimated a (Usage.usageEstimated u) = if existsb is_estimated (us ++ [u]) then Some tt else None.
Proof.
  intros ->. rewrite existsb_app. simpl. unfold is_estimated at 3.
  destruct (Usage.usageEstimated u); simpl; [by rewrite orb_true_r|by rewrite !orb_false_r].
Qed.

Lemma tally_add us total u : tally us total -> tally (us ++ [u]) (addUsage total u).
Proof. intros []. split; simpl; rewrite ?map_app, ?foldl_app; simpl; try congruence. by apply estimated_snoc. Qed.

Lemma tally_add_parallel us total u : tally us total -> tally (us ++ [u]) (addUsageParallel total u).
Proof. intros []. split; simpl; rewrite ?map_app, ?foldl_app; simpl; try congruence. by apply estimated_snoc. Qed.

Lemma tally_parallel cs : forall us total,
  tally us total -> tally (us ++ map CallOutcome.usage cs) (add_parallel total cs).
Proof.
  induction cs as [|c cs IH]; intros us total H; simpl; [by rewrite app_nil_r|].
  rewrite cons_middle, app_assoc. apply IH. by apply tally_add_parallel.
Qed.

Lemma covers_nil : covers [] [].
Proof. by exists []. Qed.

Lemma covers_app us us' t t' : covers us t -> covers us' t' -> covers (us ++ us') (t ++ t').
Proof.
  intros (zs & Hp & Hz) (zs' & Hp' & Hz'). exists (zs ++ zs'). split; [|by apply Forall_app].
  rewrite map_app, Hp, Hp'. solve_Permutation.
Qed.

Lemma covers_call stage model o conf dec : covers [CallOutcome.usage o] [call_trace stage model o conf dec].
Proof. by exists []. Qed.

Lemma covers_note stage model text dec : covers [] [note_trace stage model text dec].
Proof. exists [zeroUsage]. split; [done|by constructor]. Qed.

Lemma covers_imap (f : nat -> CallOutcome.t -> Interp.StageTrace.t) cs :
  (forall i c, Interp.StageTrace.usage (f i c) = CallOutcome.usage c) -> covers (map CallOutcome.usage cs) (imap f cs).
Proof.
  intros Hf. exists []. split; [|done]. rewrite app_nil_r. revert f Hf.
  induction cs as [|c cs IH]; intros f Hf; simpl; [done|]. rewrite Hf. apply perm_skip. apply IH. intros i x. apply Hf.
Qed.

(** ** Runs that return *)

Section logic.
  Context (answer : nat -> Interp.CompleteRequest.t -> Interp.CompleteResponse.t + string).
  Context (deltas : nat -> Interp.CompleteRequest.t -> list string).

Definition returns {A} (w : world) (p : prog A) (Q : world -> A -> Prop) : Prop :=
  forall w' a, run answer deltas p w = (w', inl a) -> Q w' a.

Lemma run_bind {A B} (p : prog A) (k : A -> prog B) : forall w,
  run answer deltas (p ≫= k) w =
  match run answer deltas p w with
  | (w', inl a) => run answer deltas (k a) w'
  | (w', inr f) => (w', inr f)
  end.
Proof.
  induction p as [a|f|block k' IH|s k' IH|t p IH]; intros w; simpl; try done.
  - destruct (unresolved block); [done|]. destruct (replies _ _ block) as [rs [|]]; [apply IH|done].
  - destruct (s_entry s); [|done]. destruct (answer _ _); [apply IH|done].
Qed.

Lemma returns_ret {A} w (a : A) (Q : world -> A -> Prop) : Q w a -> returns w (Ret a) Q.
Proof. intros H w' a' [= <- <-]. done. Qed.

Lemma returns_throw {A} w f (Q : world -> A -> Prop) : returns w (Throw f) Q.
Proof. by intros w' a'. Qed.

Lemma returns_bind {A B} w (p : prog A) (k : A -> prog B) (Q : world -> B -> Prop) :
  returns w p (fun w' a => returns w' (k a) Q) -> returns w (p ≫= k) Q.
Proof.
  intros H w' b. rewrite run_bind. destruct (run answer deltas p w) as [w1 [a|f]] eqn:E; [|done]. by apply (H w1 a).
Qed.

Lemma returns_weaken {A} w (p : prog A) (Q R : world -> A -> Prop) :
  (forall w' a, Q w' a -> R w' a) -> returns w p Q -> returns w p R.
Proof. intros H Hq w' a E. by apply H, Hq. Qed.

(** A call that returns has its usage on record. *)
Lemma returns_callModel ctx w a (Q : world -> CallOutcome.t -> Prop) :
  (forall w' o, answered w' = answered w ++ [CallOutcome.usage o] -> Q w' o) -> returns w (callModel ctx a) Q.
Proof.
  intros H w' o. unfold callModel, call_slot. simpl. unfold unresolved. simpl.
  destruct (Interp.ExecContext.resolve ctx (a_model a)) as [e|]; simpl; [|done].
  destruct (answer _ _) as [r|m]; simpl; [|done]. intros [= <- <-]. by apply H.
Qed.

Lemma returns_callAll ctx w l (Q : world -> list CallOutcome.t -> Prop) :
  (forall w' os, answered w' = answered w ++ map CallOutcome.usage os -> length os = length l -> Q w' os) ->
  returns w (callAll ctx l) Q.
Proof.
  intros H w' os. unfold callAll. simpl. destruct (unresolved _) eqn:Hu; [done|].
  destruct (replies _ _ _) as [rs [|]] eqn:Hr; [|done]. intros [= <- <-]. apply H; [by rewrite map_map|].
  rewrite length_map. clear H. revert Hu Hr. generalize (length (requests w)). revert rs.
  induction l as [|a l IH]; intros rs n Hu Hr; simpl in *; [by injection Hr as <-|].
  unfold unresolved in Hu. simpl in Hu. destruct (replies answer (S n) _) as [rs' ms] eqn:Hr'.
  destruct (Interp.ExecContext.resolve ctx (a_model a)) as [e|]; [|done]. simpl in Hu.
  destruct (answer n _); [|done]. injection Hr as <- ->. simpl. f_equal. by apply (IH rs' (S n)).
Qed.

Lemma returns_emit w ts (Q : world -> unit -> Prop) :
  (forall w', answered w' = answered w -> Q w' tt) -> returns w (emit ts) Q.
Proof.
  intros H w' []. revert w H. induction ts as [|t ts IH]; intros w H; simpl.
  - intros [= <-]. by apply H.
  - apply IH. intros w1 H1. by apply H.
Qed.

Lemma returns_replay ctx w text (Q : world -> unit -> Prop) :
  (forall w', answered w' = answered w -> Q w' tt) -> returns w (replay ctx text) Q.
Proof. intros H. unfold replay. destruct (Interp.ExecContext.stream ctx); [by apply returns_emit|apply returns_ret, H, eq_refl]. Qed.
(** ** Every strategy bills every call *)

Definition settles (w : world) (p : prog Interp.StrategyResult.t) : Prop :=
  returns w p (fun w' r => billed (answered w') r).

Lemma judged_bills ctx stage method_ judge msgs texts seed trace total w :
  billed (answered w) (result "" trace total) -> settles w (judged ctx stage method_ judge msgs texts seed trace total).
Proof.
  intros [Ht Hc]. unfold judged. apply returns_bind, returns_callModel. intros w' o Hw.
  destruct (parsePick _ _) as [index parsed]. destruct (texts !! index) as [text|]; [|apply returns_throw].
  apply returns_ret. rewrite Hw. split; [by apply tally_add|]. apply covers_app; [done|]. apply covers_call.
Qed.

Lemma single_bills ctx model msgs w :
  returns w (runSingle ctx model msgs) (fun w' r =>
    answered w' = answered w ++ [Interp.StrategyResult.usage r] /\
    covers [Interp.StrategyResult.usage r] (Interp.StrategyResult.trace r)).
Proof.
  unfold runSingle. destruct (Interp.ExecContext.resolve ctx model) as [e|]; [|apply returns_throw].
  destruct (canRelay ctx e).
  - intros w' r. simpl. destruct (answer _ _) as [res|]; [|done]. intros [= <- <-]. split; [done|]. apply covers_call.
  - intros w' r. simpl. unfold unresolved. simpl. destruct (answer _ _) as [res|]; [|done]. cbn [run].
    rewrite run_bind. match goal with |- context [run _ _ (replay ctx ?t) ?w1] =>
      pose proof (returns_replay ctx w1 t (fun w2 _ => answered w2 = answered w1)) as Hr;
      destruct (run answer deltas (replay ctx t) w1) as [w2 [[]|f]] eqn:E end; [|done].
    intros [= <- <-]. rewrite (Hr ltac:(done) _ _ E). simpl. split; [done|]. apply covers_call.
Qed.

Lemma self_report_bills ctx i model msgs draft seed note w :
  returns w (selfReportConfidence ctx i model msgs draft seed note) (fun w' x =>
    answered w' = answered w ++ [x.2] /\ covers [x.2] [x.1.2]).
Proof.
  unfold selfReportConfidence. apply returns_bind, returns_callModel. intros w' o Hw.
  destruct (self_report _) as [raw parsed]. apply returns_ret. split; [done|]. apply covers_call.
Qed.

Definition probed (u : option Usage.t) : list Usage.t := match u with Some u => [u] | None => [] end.

Lemma stage_confidence_bills ctx method_ i model msgs o seed w :
  returns w (stage_confidence ctx method_ i model msgs o seed) (fun w' x =>
    answered w' = answered w ++ probed x.2 /\ covers (probed x.2) x.1.2).
Proof.
  unfold stage_confidence.
  destruct method_; [destruct (CallOutcome.logprobConfidence o)|].
  - apply returns_ret. simpl. rewrite app_nil_r. split; [done|apply covers_nil].
  - apply returns_bind. eapply returns_weaken; [|apply self_report_bills]. intros w' [[c e] u] [Hw He].
    apply returns_ret. simpl in *. split; [done|].
    apply (covers_app [] [u] [warning_trace i model] [e]); [apply covers_note|done].
  - apply returns_bind. eapply returns_weaken; [|apply self_report_bills]. intros w' [[c e] u] [Hw He].
    by apply returns_ret.
Qed.

Lemma tally_probe us total u : tally us total -> tally (us ++ probed u) (add_probe total u).
Proof. destruct u; simpl; [apply tally_add|by rewrite app_nil_r]. Qed.

Lemma cascade_bills ctx method_ msgs base stages : forall i off trace total text w,
  billed (answered w) (result "" trace total) ->
  settles w (cascade_loop ctx method_ msgs base i off stages trace total text).
Proof.
  induction stages as [|stage rest IH]; intros i off trace total text w [Ht Hc]; cbn [cascade_loop]; [by apply returns_ret|].
  apply returns_bind, returns_callModel. intros w1 o Hw1.
  assert (tally (answered w1) (addUsage total (CallOutcome.usage o))) as Ht1 by (rewrite Hw1; by apply tally_add).
  assert (forall conf dec, covers (answered w1) (trace ++ [call_trace (stage_name i) (CascadeStage.model stage) o conf dec]))
    as Hc1 by (intros conf dec; rewrite Hw1; apply covers_app; [done|apply covers_call]).
  destruct (CallOutcome.toolCalls o) as [tools|]; [apply returns_ret; split; [done|apply Hc1]|].
  destruct rest as [|next rest]; [apply returns_ret; split; [done|apply Hc1]|].
  destruct (Compile.threshold stage) as [tau|]; [|apply returns_ret; split; [done|apply Hc1]].
  apply returns_bind. eapply returns_weaken; [|apply stage_confidence_bills].
  intros w2 [[conf probes] u] [Hw2 Hp]. simpl in Hw2, Hp.
  assert (billed (answered w2) (result "" (trace ++ [call_trace (stage_name i) (CascadeStage.model stage) o (Some conf)
      (Some (if ltb conf tau then "escalate" else "accept"))] ++ probes) (add_probe (addUsage total (CallOutcome.usage o)) u)))
    as Hb.
  { rewrite Hw2. split; [by apply tally_probe|]. rewrite app_assoc. apply covers_app; [apply Hc1|done]. }
  destruct (ltb conf tau); [by apply IH|by apply returns_ret].
Qed.

Lemma best_of_n_bills ctx model n judge msgs : settles idle (runBestOfN ctx model n judge msgs).
Proof.
  unfold runBestOfN. destruct (n <? 1)%Z; [apply returns_throw|]. apply returns_bind, returns_callAll.
  intros w cs Hw _. apply judged_bills. rewrite Hw. split; [apply tally_parallel, tally_nil|].
  apply (covers_imap _ cs). done.
Qed.

Lemma draft_verify_bills ctx d v msgs : settles idle (runDraftVerify ctx d v msgs).
Proof.
  unfold runDraftVerify. apply returns_bind, returns_callModel. intros w1 o1 H1.
  apply returns_bind, returns_callModel. intros w2 o2 H2. apply returns_ret. rewrite H2, H1. split.
  - by apply tally_add, (tally_add []), tally_nil.
  - apply (covers_app [_] [_] [_] [_]); apply covers_call.
Qed.

Lemma composite_bills ctx s u tau msgs : settles idle (runComposite ctx s u tau msgs).
Proof.
  unfold runComposite. apply returns_bind, returns_callModel. intros w1 o H1.
  apply returns_bind.
  apply (returns_weaken _ _ (fun w2 x => answered w2 = answered w1 ++ probed x.2 /\ covers (probed x.2) x.1.2)).
  - intros w2 [[conf probes] u2] [Hw2 Hp]. simpl in Hw2, Hp.
    assert (forall text dec, billed (answered w2) (result text
      (call_trace "composite-start" s o (Some conf) (Some dec) :: probes) (add_probe (addUsage zeroUsage (CallOutcome.usage o)) u2)))
      as Hb.
    { intros text dec. rewrite Hw2, H1. split; [by apply tally_probe, (tally_add []), tally_nil|].
      apply (covers_app [_] _ [_] _); [apply covers_call|done]. }
    destruct (ltb conf tau); cbn [negb].
    + apply returns_bind, returns_emit. intros w3 H3. apply returns_bind, returns_callModel. intros w4 o4 H4.
      apply returns_bind, returns_replay. intros w5 H5. apply returns_ret. rewrite H5, H4, H3.
      destruct (Hb "" "upgraded") as [Ht Hc]. split; [by apply tally_add|]. simpl.
      apply (covers_app _ [_] (_ :: probes) [_]); [exact Hc|apply covers_call].
    + apply returns_bind, returns_replay. intros w3 H3. apply returns_ret. rewrite H3. apply Hb.
  - unfold start_confidence. destruct (CallOutcome.logprobConfidence o).
    + apply returns_ret. simpl. rewrite app_nil_r. split; [done|apply covers_nil].
    + apply returns_bind, returns_callModel. intros w2 p H2. destruct (self_report _) as [raw parsed].
      apply returns_ret. split; [done|]. apply covers_call.
Qed.
Section fusion.
  Context `{Htexts : !Interp.Texts} `{Hsandbox : !Sandbox} (ctx : Interp.ExecContext.t).

Lemma break_tie_bills fusion msgs cs tied first seed total w :
  tally (answered w) total ->
  returns w (break_tie ctx fusion msgs cs tied first seed total) (fun w' x =>
    tally (answered w') x.2 /\ exists us, answered w' = answered w ++ us /\ covers us x.1.2).
Proof.
  intros Ht. unfold break_tie.
  assert (forall index how, returns w (Ret (index, how, [], total)) (fun w' (x : nat * string * list Interp.StageTrace.t * Usage.t) =>
    tally (answered w') x.2 /\ exists us, answered w' = answered w ++ us /\ covers us x.1.2)) as Hn.
  { intros index how. apply returns_ret. split; [done|]. exists []. rewrite app_nil_r. split; [done|apply covers_nil]. }
  destruct tied as [|t1 [|t2 tied]]; try apply Hn. destruct (FusionConfig.judge fusion) as [judge|]; [|apply Hn].
  apply returns_bind, returns_callModel. intros w' o Hw. destruct (parsePick _ _) as [within parsed]. apply returns_ret.
  rewrite Hw. split; [by apply tally_add|]. exists [CallOutcome.usage o]. split; [done|apply covers_call].
Qed.

Lemma fuse_bills fusion writers msgs cs ws seed trace total w us :
  answered w = us ++ map CallOutcome.usage ws -> billed us (result "" trace total) ->
  settles w (fuse_by_writers ctx fusion writers msgs cs ws seed trace total).
Proof.
  intros Hw [Ht Hc]. unfold fuse_by_writers. destruct (tied_of _) as [|first tied]; [apply returns_throw|].
  apply returns_bind. eapply returns_weaken; [|apply break_tie_bills; rewrite Hw; by apply tally_parallel].
  intros w' [[[index how] entries] total'] [Ht' (us' & Hw' & Hc')]. simpl in Ht', Hc'.
  destruct (cs !! index) as [winner|]; [|apply returns_throw]. apply returns_ret. split; [exact Ht'|].
  rewrite Hw', Hw. simpl. rewrite <- (app_nil_r us'). apply covers_app.
  - apply covers_app; [done|]. by apply covers_imap.
  - apply covers_app; [done|]. apply covers_note.
Qed.

Lemma ensemble_bills models fusion msgs : settles idle (runEnsemble ctx models fusion msgs).
Proof.
  unfold runEnsemble. destruct models as [|m models]; [apply returns_throw|].
  destruct (picks_by_writers _ && _); [apply returns_throw|]. apply returns_bind, returns_callAll. intros w os Hw Hlen.
  set (k := length (m :: models)) in *. simpl in Hw. rewrite length_app, !length_imap in Hlen. fold k in Hlen.
  rewrite <- (take_drop k os), map_app in Hw.
  assert (writers_of fusion = [] -> drop k os = []) as Hnone by (intros E; apply drop_ge; rewrite Hlen, E, Nat.add_0_r; reflexivity).
  set (cs := take k os) in *. set (ws := drop k os) in *. clearbody cs ws.
  set (trace := imap (fun i c => candidate_trace i (default "" ((m :: models) !! i)) c) cs).
  assert (billed (map CallOutcome.usage cs) (result "" trace (add_parallel zeroUsage cs))) as Hb.
  { split; [apply (tally_parallel cs [] zeroUsage), tally_nil|by apply covers_imap]. }
  assert (settles w (fuse_by_writers ctx fusion (writers_of fusion) msgs cs ws (seed_at (baseSeedOf ctx msgs) k) trace
    (add_parallel zeroUsage cs))) as Hf by by apply (fuse_bills _ _ _ _ _ _ _ _ _ (map CallOutcome.usage cs)).
  unfold writers_of in Hnone.
  destruct (FusionConfig.method fusion); simpl in Hnone; try exact Hf; rewrite (Hnone eq_refl) in Hw; simpl in Hw;
    rewrite app_nil_r in Hw.
  - destruct (FusionConfig.judge fusion); [|apply returns_throw]. apply judged_bills. by rewrite Hw.
  - apply returns_ret. rewrite Hw. split; [apply Hb|]. rewrite <- (app_nil_r (map _ cs)). apply covers_app; [apply Hb|].
    apply covers_note.
Qed.

Lemma subtasks_bill routing base subtasks : forall i results trace total w,
  billed (answered w) (result "" trace total) ->
  returns w (subtask_loop ctx routing base i subtasks results trace total) (fun w' x =>
    billed (answered w') (result "" x.1.2 x.2)).
Proof.
  induction subtasks as [|st rest IH]; intros i results trace total w [Ht Hc]; cbn [subtask_loop]; [by apply returns_ret|].
  destruct (match routed routing (Subtask.kind st) with Some m => Some m | None => _ end) as [[|c model]|];
    try apply returns_throw.
  apply returns_bind. eapply returns_weaken; [|apply single_bills]. intros w' r [Hw Hr]. apply IH. rewrite Hw. split.
  - by apply tally_add.
  - apply covers_app; [done|]. by exists [].
Qed.

Lemma decompose_bills d routing fusion msgs : settles idle (runDecompose ctx d routing fusion msgs).
Proof.
  unfold runDecompose. apply returns_bind, returns_callModel. intros w o Hw.
  destruct (parseSubtasks _) as [subtasks|f]; [|apply returns_throw].
  apply returns_bind. eapply returns_weaken; [|apply subtasks_bill; rewrite Hw; split].
  - intros w' [[results trace] total] [Ht Hc].
    assert (forall text, settles w' (Ret (result text trace total))) as Hend by (intros text; by apply returns_ret).
    destruct (FusionConfig.method <$> fusion) as [[]|], (fusion ≫= FusionConfig.judge) as [judge|];
      try apply Hend; try apply returns_throw.
    + by apply judged_bills.
    + apply returns_ret. split; [done|]. rewrite <- (app_nil_r (answered w')). apply covers_app; [done|]. apply covers_note.
    + apply returns_ret. split; [done|]. rewrite <- (app_nil_r (answered w')). apply covers_app; [done|]. apply covers_note.
  - apply (tally_add []), tally_nil.
  - apply covers_call.
Qed.

(** ** Properties *)

(** C10. Whatever the provider answers, a handwritten strategy that returns reports
    the tokens, the cost and the estimated mark of every call that was answered,
    the probes, judges and writers included, and each of those calls is a stage
    of its trace.  [single] passes the usage of its one call on. *)
Theorem strategies_bill_every_call strategy msgs p w r :
  execute ctx strategy msgs = staged p -> run answer deltas p idle = (w, inl r) ->
  match strategy with
  | single _ => answered w = [Interp.StrategyResult.usage r]
  | _ => tally (answered w) (Interp.StrategyResult.usage r)
  end /\ covers (answered w) (Interp.StrategyResult.trace r).
Proof.
  intros He Hr. assert (forall q, staged p = staged q -> settles idle q -> billed (answered w) r) as H.
  { intros q [= <-] H. by apply H. }
  destruct strategy as [m|stages c|m n j|d v|ms f|d rt f|s u tau|nm b]; try (apply (H _ (eq_sym He)));
    [|destruct stages; [apply returns_throw|]; apply cascade_bills; split; [apply tally_nil|apply covers_nil]
     |apply best_of_n_bills|apply draft_verify_bills|apply ensemble_bills|apply decompose_bills|apply composite_bills|done].
  injection He as <-. pose proof (single_bills ctx m msgs idle w r Hr) as [Hw Hc]. simpl in Hw. by rewrite Hw.
Qed.
End fusion.
End logic.

(** The sample cascade probes its first stage: three calls, three stages and the
    sum of the three. *)
Lemma strategies_bill_every_call_witness :
  let w := (run_sample (runCascade (strategy_ctx false) sample_stages self_report_calibrated Interp.sample_messages)).1 in
  let r := result_of (runCascade (strategy_ctx false) sample_stages self_report_calibrated Interp.sample_messages) in
  length (answered w) = 3%nat /\ tally (answered w) (Interp.StrategyResult.usage r) /\
  covers (answered w) (Interp.StrategyResult.trace r).
Proof.
  split; [by vm_compute|].
  apply (@strategies_bill_every_call strategy_provider no_deltas strategy_texts strategy_sandbox (strategy_ctx false)
    (cascade sample_stages self_report_calibrated) Interp.sample_messages
    (runCascade (strategy_ctx false) sample_stages self_report_calibrated Interp.sample_messages)); [done|by vm_compute].
Defined.
End StrategiesBilling.
