(* ===== verification/StrategiesBounds.v ===== *)
(** * What the handwritten strategies may send

    [bounded P n p]: whatever the provider answers, the code [p] sends at most
    [n] requests, all of which satisfy [P].  With it: the number of paid calls
    each strategy can make, the models it can call, and what a decomposer's
    output can make [decompose] send. *)

From S2P Require Import Prelude Number JsSort Types Print Prompt Consensus Program Compile Interp Calls Strategies.

Module StrategiesBounds.
Import Num Print Prompt Program Calls Strategies.

Fixpoint bounded {A} (P : Interp.CompleteRequest.t -> Prop) (n : nat) (p : prog A) : Prop :=
  match p with
  | Ret _ | Throw _ => True
  | Send block k =>
      Forall (fun s => P (s_request s)) block /\ (length block <= n)%nat /\ forall rs, bounded P (n - length block) (k rs)
  | Relay s k => P (s_request s) /\ (1 <= n)%nat /\ forall r, bounded P (n - 1) (k r)
  | Emit _ p => bounded P n p
  end.

Section bounded.
  Context (P : Interp.CompleteRequest.t -> Prop).

Lemma bounded_mono {A} (p : prog A) : forall n m, (n <= m)%nat -> bounded P n p -> bounded P m p.
Proof.
  induction p as [a|f|block k IH|s k IH|t p IH]; intros n m Hnm; simpl; try done.
  - intros (Hb & Hl & Hk). split; [done|]. split; [lia|]. intros rs. eapply IH; [|apply Hk]. lia.
  - intros (Hb & Hl & Hk). split; [done|]. split; [lia|]. intros r. eapply IH; [|apply Hk]. lia.
  - by apply IH.
Qed.

Lemma bounded_bind {A B} (p : prog A) (k : A -> prog B) m : forall n,
  bounded P n p -> (forall a, bounded P m (k a)) -> bounded P (n + m) (p ≫= k).
Proof.
  intros n Hp Hk. revert n Hp. induction p as [a|f|block k' IH|s k' IH|t p IH]; intros n; simpl; try done.
  - intros _. eapply bounded_mono; [|apply Hk]. lia.
  - intros (Hb & Hl & Hr). split; [done|]. split; [lia|]. intros rs.
    replace (n + m - length block)%nat with (n - length block + m)%nat by lia. apply IH, Hr.
  - intros (Hb & Hl & Hr). split; [done|]. split; [lia|]. intros r.
    replace (n + m - 1)%nat with (n - 1 + m)%nat by lia. apply IH, Hr.
  - apply IH.
Qed.

Lemma bounded_callModel ctx a : P (call_request ctx a) -> bounded P 1 (callModel ctx a).
Proof. intros H. simpl. split; [by constructor|]. split; [lia|]. by intros [|]. Qed.

Lemma bounded_callAll ctx l : Forall (fun a => P (call_request ctx a)) l -> bounded P (length l) (callAll ctx l).
Proof. intros H. simpl. rewrite length_map. split; [by apply Forall_map|]. split; [lia|done]. Qed.

Lemma bounded_emit ts n : bounded P n (emit ts).
Proof. induction ts as [|t ts IH]; [done|apply IH]. Qed.

Lemma bounded_replay ctx text n : bounded P n (replay ctx text).
Proof. unfold replay. destruct (Interp.ExecContext.stream ctx); [apply bounded_emit|done]. Qed.

(** What is bounded sends no more, whatever happens. *)
Lemma bounded_run {A} answer deltas (p : prog A) : forall n w w' res,
  bounded P n p -> run answer deltas p w = (w', res) ->
  exists reqs, requests w' = requests w ++ reqs /\ (length reqs <= n)%nat /\ Forall P reqs.
Proof.
  induction p as [a|f|block k IH|s k IH|t p IH]; intros n w w' res; simpl.
  - intros _ [= <- _]. exists []. rewrite app_nil_r. split; [done|]. split; [simpl; lia|done].
  - intros _ [= <- _]. exists []. rewrite app_nil_r. split; [done|]. split; [simpl; lia|done].
  - intros (Hb & Hl & Hk). unfold sends. set (sent := sent_of block).
    assert (length sent <= length block)%nat as Hs by (unfold sent, sent_of; rewrite length_map; apply filter_length_le).
    assert (Forall P sent) as Hp.
    { apply Forall_map, Forall_forall. intros s [Hin _]%elem_filter. rewrite Forall_forall in Hb. by apply Hb. }
    destruct (unresolved block).
    { intros [= <- _]. exists sent. split; [done|]. split; [lia|done]. }
    destruct (replies _ _ _) as [rs [|]].
    + intros (reqs & E & Hr & HP)%(IH rs (n - length block)%nat); [|apply Hk]. simpl in E. exists (sent ++ reqs).
      rewrite app_assoc. split; [done|]. rewrite length_app. split; [lia|by apply Forall_app].
    + intros [= <- _]. exists sent. split; [done|]. split; [lia|done].
  - intros (Hb & Hl & Hk). destruct s as [[e|] req]; simpl in *.
    + destruct (answer _ req) as [r|m].
      * intros (reqs & E & Hr & HP)%(IH _ (n - 1)%nat); [|apply Hk]. simpl in E.
        exists (req :: reqs). rewrite <- app_assoc in E. split; [done|]. simpl. split; [lia|by constructor].
      * intros [= <- _]. exists [req]. split; [done|]. simpl. split; [lia|by constructor].
    + intros [= <- _]. exists []. split; [done|]. split; [simpl; lia|done].
  - intros H E. apply (IH n _ _ _ H E).
Qed.
End bounded.

(** ** The strategies *)

(** The models a strategy calls besides those [strategyModels] lists. *)
Definition helper_models (strategy : StrategyConfig) : list string :=
  match strategy with
  | best_of_n _ _ judge => [JudgeConfig.model judge]
  | ensemble _ fusion =>
      map JudgeConfig.model (writers_of fusion) ++ option_list (JudgeConfig.model <$> FusionConfig.judge fusion)
  | decompose _ _ fusion => option_list (JudgeConfig.model <$> (fusion ≫= FusionConfig.judge))
  | _ => []
  end.

(** The most calls a strategy makes. *)
Definition call_limit (strategy : StrategyConfig) : nat :=
  match strategy with
  | single _ => 1
  | cascade stages logprob | cascade stages self_report_calibrated => 2 * length stages - 1
  | best_of_n _ n _ => Z.to_nat n + 1
  | draft_verify _ _ => 2
  | ensemble models fusion =>
      length models + length (writers_of fusion) + match FusionConfig.judge fusion with Some _ => 1 | None => 0 end
  | decompose _ _ fusion => 1 + MAX_SUBTASKS + match fusion ≫= FusionConfig.judge with Some _ => 1 | None => 0 end
  | composite _ _ _ => 3
  | program _ body => programCallCount body
  end.

Definition to_models (L : list string) (q : Interp.CompleteRequest.t) : Prop := Interp.CompleteRequest.model q ∈ L.

Section strategies.
  Context (P : Interp.CompleteRequest.t -> Prop) (ctx : Interp.ExecContext.t).

(** Every request [callModel] makes to a model satisfies [P]. *)
Definition callable (model : string) : Prop :=
  forall msgs seed cap, P (call_request ctx (Args model msgs seed cap)).

Lemma single_bounded c model msgs : P (single_request c model msgs) -> bounded P 1 (runSingle c model msgs).
Proof.
  intros H. unfold runSingle. destruct (Interp.ExecContext.resolve c model) as [e|]; [|done].
  destruct (canRelay c e); simpl; [split; [done|]; split; [lia|done]|].
  split; [by constructor|]. split; [lia|]. intros [|r rs]; [done|].
  apply (bounded_bind P _ _ 0 0); [apply bounded_replay|done].
Qed.

Lemma judged_bounded stage m judge msgs texts seed trace total :
  callable (JudgeConfig.model judge) -> bounded P 1 (judged ctx stage m judge msgs texts seed trace total).
Proof.
  intros H. apply (bounded_bind P _ _ 0 1); [apply bounded_callModel, H|]. intros o. destruct (parsePick _ _).
  by destruct (texts !! _).
Qed.

Lemma self_report_bounded i model msgs draft seed note :
  callable model -> bounded P 1 (selfReportConfidence ctx i model msgs draft seed note).
Proof. intros H. apply (bounded_bind P _ _ 0 1); [apply bounded_callModel, H|]. intros o. by destruct (self_report _). Qed.

Lemma stage_confidence_bounded method_ i model msgs o seed :
  callable model -> bounded P 1 (stage_confidence ctx method_ i model msgs o seed).
Proof.
  intros H. unfold stage_confidence. destruct method_; [destruct (CallOutcome.logprobConfidence o); [done|]|];
    (apply (bounded_bind P _ _ 0 1); [by apply self_report_bounded|]; by intros [[c e] u]).
Qed.

Lemma cascade_bounded method_ msgs base stages : Forall (fun s => callable (CascadeStage.model s)) stages ->
  forall i off trace total text, bounded P (2 * length stages - 1) (cascade_loop ctx method_ msgs base i off stages trace total text).
Proof.
  induction 1 as [|s rest Hs Hrest IH]; intros i off trace total text; cbn [cascade_loop]; [done|].
  apply (bounded_mono P _ (1 + (2 * length rest))); [simpl; lia|].
  apply bounded_bind; [apply bounded_callModel, Hs|]. intros o.
  destruct (CallOutcome.toolCalls o); [done|]. destruct rest as [|next rest]; [done|].
  destruct (Compile.threshold s) as [tau|]; [|done].
  apply (bounded_mono P _ (1 + (2 * length (next :: rest) - 1))); [simpl; lia|].
  apply bounded_bind; [by apply stage_confidence_bounded|]. intros [[c probes] u].
  destruct (ltb c tau); [apply IH|done].
Qed.

Lemma best_of_n_bounded model n judge msgs :
  callable model -> callable (JudgeConfig.model judge) -> bounded P (Z.to_nat n + 1) (runBestOfN ctx model n judge msgs).
Proof.
  intros Hm Hj. unfold runBestOfN. destruct (n <? 1)%Z; [done|]. apply bounded_bind; [|intros cs; by apply judged_bounded].
  apply (bounded_mono P _ (length (map (fun i => answer_args model msgs (seed_at (baseSeedOf ctx msgs) i)) (seq 0 (Z.to_nat n)))));
    [by rewrite length_map, length_seq|].
  apply bounded_callAll, Forall_map, Forall_forall. intros x _. apply Hm.
Qed.

Lemma composite_bounded s u tau msgs : callable s -> callable u -> bounded P 3 (runComposite ctx s u tau msgs).
Proof.
  intros Hs Hu. unfold runComposite. apply (bounded_bind P _ _ 2 1); [apply bounded_callModel, Hs|]. intros o.
  apply (bounded_bind P _ _ 1 1).
  - unfold start_confidence. destruct (CallOutcome.logprobConfidence o); [done|].
    apply (bounded_bind P _ _ 0 1); [apply bounded_callModel, Hs|]. intros p. by destruct (self_report _).
  - intros [[c probes] us]. destruct (negb _).
    + apply (bounded_bind P _ _ 0 1); [apply bounded_replay|done].
    + apply (bounded_bind P _ _ 1 0); [apply bounded_emit|]. intros _.
      apply (bounded_bind P _ _ 0 1); [apply bounded_callModel, Hu|]. intros v.
      apply (bounded_bind P _ _ 0 0); [apply bounded_replay|done].
Qed.

Section fusion.
  Context `{Htexts : !Interp.Texts} `{Hsandbox : !Sandbox}.

Lemma break_tie_bounded fusion msgs cs tied first seed total :
  (forall j, FusionConfig.judge fusion = Some j -> callable (JudgeConfig.model j)) ->
  bounded P (match FusionConfig.judge fusion with Some _ => 1 | None => 0 end)
    (break_tie ctx fusion msgs cs tied first seed total).
Proof.
  intros H. unfold break_tie. destruct tied as [|t1 [|t2 tied]]; try done.
  destruct (FusionConfig.judge fusion) as [j|]; [|done].
  apply (bounded_bind P _ _ 0 1); [by apply bounded_callModel, H|]. intros o. by destruct (parsePick _ _).
Qed.

Lemma Forall_imap {A B} (Q : B -> Prop) (R : A -> Prop) (f : nat -> A -> B) l :
  (forall i x, R x -> Q (f i x)) -> Forall R l -> Forall Q (imap f l).
Proof.
  intros H Hl. apply Forall_forall. intros y (i & x & -> & Hx)%elem_of_lookup_imap. apply H.
  rewrite Forall_forall in Hl. by eapply Hl, list_elem_of_lookup_2.
Qed.

Lemma ensemble_bounded models fusion msgs :
  Forall callable models -> Forall (fun w => callable (JudgeConfig.model w)) (writers_of fusion) ->
  (forall j, FusionConfig.judge fusion = Some j -> callable (JudgeConfig.model j)) ->
  bounded P (call_limit (ensemble models fusion)) (runEnsemble ctx models fusion msgs).
Proof.
  intros Hm Hw Hj. unfold runEnsemble. destruct models as [|m models]; [done|].
  destruct (picks_by_writers _ && _); [done|]. cbn [call_limit].
  apply bounded_bind; [eapply bounded_mono; [|apply bounded_callAll, Forall_app; split]|].
  - by rewrite length_app, !length_imap.
  - eapply Forall_imap; [|exact Hm]. intros i x H. apply H.
  - eapply Forall_imap; [|exact Hw]. intros i x H. apply H.
  - intros os. set (cs := take _ os). set (ws := drop _ os).
    assert (forall seed trace total, bounded P (match FusionConfig.judge fusion with Some _ => 1 | None => 0 end)
      (fuse_by_writers ctx fusion (writers_of fusion) msgs cs ws seed trace total)) as Hf.
    { intros seed trace total. unfold fuse_by_writers. destruct (tied_of _) as [|first tied]; [done|].
      rewrite <- (Nat.add_0_r (match FusionConfig.judge fusion with Some _ => 1 | None => 0 end)).
      apply bounded_bind; [by apply break_tie_bounded|]. intros [[[index how] entries] total']. by destruct (cs !! index). }
    destruct (FusionConfig.method fusion); try apply Hf; [|done].
    destruct (FusionConfig.judge fusion) as [j|] eqn:Ej; [|done]. apply judged_bounded. by apply Hj.
Qed.

Lemma parseSubtasks_bounds text subtasks : parseSubtasks text = inl subtasks ->
  (length subtasks <= MAX_SUBTASKS)%nat /\
  Forall (fun st => (String.length (Subtask.prompt st) <= MAX_SUBTASK_PROMPT_CHARS)%nat) subtasks.
Proof.
  unfold parseSubtasks. destruct (bracketed _) as [s|]; [|done].
  destruct (Interp.jsonParse s) as [[| | | |[|x items]|]|]; try done.
  destruct (mapM to_subtask _) as [l|] eqn:E; [|done]. intros [= <-]. apply mapM_Some_1 in E. split.
  - rewrite <- (Forall2_length _ _ _ E), length_take. lia.
  - clear -E. induction E as [|y st ys k Hi _ IH]; constructor; [|done].
    unfold to_subtask in Hi. destruct (field_of "kind" y); [|done]. simpl in Hi.
    destruct (field_of "prompt" y) as [prompt|]; [|done]. injection Hi as <-. cbn [Subtask.prompt].
    generalize MAX_SUBTASK_PROMPT_CHARS. clear. induction prompt as [|c s IH]; intros [|n]; simpl; try lia.
    specialize (IH n). lia.
Qed.

Lemma routed_elem routing k m : routed routing k = Some m -> m ∈ map snd routing.
Proof.
  unfold routed. destruct (find _ routing) as [r|] eqn:E; [|done]. intros [= <-].
  apply find_some in E as [Hin _]. apply list_elem_of_fmap_2. by apply list_elem_of_In.
Qed.

(** A subtask's request: a routed model, asked one prompt of bounded length. *)
Definition subtask_request (routing : list (string * string)) (q : Interp.CompleteRequest.t) : Prop :=
  exists seed model prompt, q = single_request (sub_ctx ctx seed) model [message user prompt] /\
    model ∈ map snd routing /\ (String.length prompt <= MAX_SUBTASK_PROMPT_CHARS)%nat.

Lemma subtasks_bounded routing base subtasks : (forall q, subtask_request routing q -> P q) ->
  Forall (fun st => (String.length (Subtask.prompt st) <= MAX_SUBTASK_PROMPT_CHARS)%nat) subtasks ->
  forall i results trace total, bounded P (length subtasks) (subtask_loop ctx routing base i subtasks results trace total).
Proof.
  intros HP. induction 1 as [|st rest Hst Hrest IH]; intros i results trace total; cbn [subtask_loop]; [done|].
  assert (forall c model seed, (match routed routing (Subtask.kind st) with Some m => Some m | None => routed routing "*" end)
      = Some (String c model) -> P (single_request (sub_ctx ctx seed) (String c model) [message user (Subtask.prompt st)])) as H.
  { intros c model seed E. apply HP. exists seed, (String c model), (Subtask.prompt st). split; [done|]. split; [|done].
    destruct (routed routing (Subtask.kind st)) as [m|] eqn:Er; [|by eapply routed_elem].
    cbv iota in E. rewrite E in Er. by eapply routed_elem. }
  destruct (match routed routing (Subtask.kind st) with Some m => Some m | None => _ end) as [[|c model]|]; [done| |done].
  apply (bounded_bind P _ _ (length rest) 1); [apply single_bounded; by apply H|]. intros r. apply IH.
Qed.

Lemma decompose_bounded d routing fusion msgs :
  callable d -> (forall q, subtask_request routing q -> P q) ->
  (forall j, fusion ≫= FusionConfig.judge = Some j -> callable (JudgeConfig.model j)) ->
  bounded P (call_limit (decompose d routing fusion)) (runDecompose ctx d routing fusion msgs).
Proof.
  intros Hd Hs Hj. unfold runDecompose. cbn [call_limit]. rewrite <- Nat.add_assoc.
  apply bounded_bind; [apply bounded_callModel, Hd|]. intros o.
  destruct (parseSubtasks _) as [subtasks|f] eqn:E; [|done]. apply parseSubtasks_bounds in E as [Hl Hp].
  apply bounded_bind; [eapply bounded_mono; [exact Hl|by apply subtasks_bounded]|]. intros [[results trace] total].
  destruct (FusionConfig.method <$> fusion) as [[]|], (fusion ≫= FusionConfig.judge) as [j|] eqn:Ej; try done.
  apply judged_bounded. by apply Hj.
Qed.
End fusion.
End strategies.

Section properties.
  Context `{Htexts : !Interp.Texts} `{Hsandbox : !Sandbox} (ctx : Interp.ExecContext.t).
  Context (answer : nat -> Interp.CompleteRequest.t -> Interp.CompleteResponse.t + string).
  Context (deltas : nat -> Interp.CompleteRequest.t -> list string).

Lemma callable_models (L : list string) model : model ∈ L -> callable (to_models L) ctx model.
Proof. by intros H msgs seed cap. Qed.

Lemma execute_bounded strategy msgs p :
  execute ctx strategy msgs = staged p ->
  bounded (to_models (strategyModels strategy ++ helper_models strategy)) (call_limit strategy) p.
Proof.
  intros He. set (L := strategyModels strategy ++ helper_models strategy).
  assert (forall m, m ∈ strategyModels strategy \/ m ∈ helper_models strategy -> callable (to_models L) ctx m) as HL
    by (intros m H; apply callable_models; by apply elem_of_app).
  destruct strategy as [m|stages c|m n j|d v|ms f|d rt f|s u tau|nm b]; try done; injection He as <-; simpl in HL.
  - apply single_bounded. unfold to_models, L. simpl. set_solver.
  - destruct stages as [|s stages]; [done|].
    assert (bounded (to_models L) (2 * length (s :: stages) - 1) (runCascade ctx (s :: stages) c msgs)) as H; [|by destruct c].
    apply cascade_bounded, Forall_forall. intros x Hx. apply HL. left. by apply list_elem_of_fmap_2.
  - apply best_of_n_bounded; apply HL; set_solver.
  - apply (bounded_bind (to_models L) _ _ 1 1); [apply bounded_callModel, HL; set_solver|]. intros o.
    apply (bounded_bind (to_models L) _ _ 0 1); [apply bounded_callModel, HL; set_solver|done].
  - apply ensemble_bounded.
    + apply Forall_forall. intros x Hx. apply HL. by left.
    + apply Forall_forall. intros x Hx. apply HL. right. apply elem_of_app. left. by apply list_elem_of_fmap_2.
    + intros j Ej. apply HL. right. rewrite Ej. simpl. set_solver.
  - apply decompose_bounded.
    + apply HL. set_solver.
    + intros q (seed & model & prompt & -> & Hm & _). unfold to_models, L. simpl. set_solver.
    + intros j Ej. apply HL. right. rewrite Ej. simpl. set_solver.
  - apply composite_bounded; apply HL; set_solver.
Qed.

(** ** Properties *)

(** C11. Whatever the provider answers, and also when it fails, a handwritten
    strategy sends no more requests than its limit, all of them to models its
    config names: the ones [strategyModels] lists or its judges and writers. *)
Theorem strategies_bounded strategy msgs p w res :
  execute ctx strategy msgs = staged p -> run answer deltas p idle = (w, res) ->
  (length (requests w) <= call_limit strategy)%nat /\
  Forall (fun q => Interp.CompleteRequest.model q ∈ strategyModels strategy ++ helper_models strategy) (requests w).
Proof.
  intros He Hr. destruct (bounded_run _ answer deltas p _ _ _ _ (execute_bounded _ _ _ He) Hr) as (reqs & -> & Hl & HP).
  by split.
Qed.

(** C12. A decomposer cannot choose what is paid for: whatever it and the other
    models answer, [decompose] sends at most [MAX_SUBTASKS] requests besides the
    decomposer's and the judge's, and every request is a call of the decomposer,
    one of the configured judge, or a single prompt of at most
    [MAX_SUBTASK_PROMPT_CHARS] units to a model of the routing table. *)
Theorem decompose_contained d routing fusion msgs w res :
  run answer deltas (runDecompose ctx d routing fusion msgs) idle = (w, res) ->
  (length (requests w) <= 1 + MAX_SUBTASKS + 1)%nat /\
  Forall (fun q => (exists a, a_model a = d /\ q = call_request ctx a) \/ subtask_request ctx routing q \/
                   exists a j, fusion ≫= FusionConfig.judge = Some j /\ a_model a = JudgeConfig.model j /\ q = call_request ctx a)
    (requests w).
Proof.
  intros Hr. set (P := fun q => _ \/ _).
  destruct (bounded_run P answer deltas _ (call_limit (decompose d routing fusion)) _ _ _
    ltac:(apply decompose_bounded; [by intros m s c; left; exists (Args d m s c)|by intros q Hq; right; left|
      intros j Ej m s c; right; right; by exists (Args (JudgeConfig.model j) m s c), j]) Hr) as (reqs & -> & Hl & HP).
  split; [|done]. simpl requests. etrans; [exact Hl|]. simpl. destruct (fusion ≫= FusionConfig.judge); lia.
Qed.
End properties.

Definition sample_best_of : StrategyConfig := best_of_n "cheap" 2 (JudgeConfig.mk "judge" None).
Definition sample_best_of_run : prog Interp.StrategyResult.t :=
  runBestOfN (strategy_ctx false) "cheap" 2 (JudgeConfig.mk "judge" None) Interp.sample_messages.

(** Two candidates and a judge: the limit is reached. *)
Lemma strategies_bounded_witness :
  let w := (run_sample sample_best_of_run).1 in
  length (requests w) = 3%nat /\ (length (requests w) <= call_limit sample_best_of)%nat /\
  Forall (fun q => Interp.CompleteRequest.model q ∈ strategyModels sample_best_of ++ helper_models sample_best_of) (requests w).
Proof.
  split; [by vm_compute|].
  apply (@strategies_bounded strategy_texts strategy_sandbox (strategy_ctx false) strategy_provider no_deltas sample_best_of
    Interp.sample_messages sample_best_of_run (run_sample sample_best_of_run).1 (run_sample sample_best_of_run).2);
    [done|by vm_compute].
Defined.

Definition sample_decompose : prog Interp.StrategyResult.t :=
  @runDecompose strategy_texts (strategy_ctx false) "planner" [("code", "cheap"); ("*", "strong")] None Interp.sample_messages.

Lemma decompose_contained_witness :
  map Interp.CompleteRequest.model (requests (run_sample sample_decompose).1) = ["planner"; "cheap"] /\
  (length (requests (run_sample sample_decompose).1) <= 1 + MAX_SUBTASKS + 1)%nat.
Proof.
  split; [by vm_compute|].
  apply (@decompose_contained strategy_texts (strategy_ctx false) strategy_provider no_deltas "planner"
    [("code", "cheap"); ("*", "strong")] None Interp.sample_messages (run_sample sample_decompose).1
    (run_sample sample_decompose).2). by vm_compute.
Defined.

(** The models a strategy is said to call leave the judge out, and the judge is
    called. *)
Theorem judge_undeclared :
  existsb (fun q => bool_decide (Interp.CompleteRequest.model q = "judge")) (requests (run_sample sample_best_of_run).1) = true /\
  bool_decide ("judge" ∈ strategyModels sample_best_of) = false.
Proof. by vm_compute. Qed.

(** A subtask of [decompose] is sent without the output ceiling of the run. *)
Theorem decompose_drops_ceiling :
  map (fun q => Interp.CompleteParams.maxTokens (Interp.CompleteRequest.params q)) (requests (run_sample sample_decompose).1)
  = [Interp.ExecContext.maxOutputTokens (strategy_ctx false); None].
Proof. by vm_compute. Qed.

Definition overflowing_messages : list ChatMessage.t := [message user "Summarize document 2217400212"].

(** The base seed is masked to 31 bits but the offsets are added after the mask:
    on this prompt the second call of [draft-verify] carries the seed 2^31 the
    mask is there to rule out. *)
Theorem derived_seed_overflows :
  map (fun q => Interp.CompleteParams.seed (Interp.CompleteRequest.params q))
    (requests (run_sample (runDraftVerify (strategy_ctx false) "cheap" "strong" overflowing_messages)).1)
  = [Some (of_Z (2 ^ 31 - 1)); Some (of_Z (2 ^ 31))].
Proof. by vm_compute. Qed.
End StrategiesBounds.
