(* ===== verification/StrategiesSpec.v ===== *)
(** * What the handwritten strategies answer

    A compiled cascade against the cascade it was compiled from: the two
    interpreters give the same answer when the provider reports a confidence.
    What a streaming caller receives.  Where the code departs from what its
    comments promise. *)

From S2P Require Import Prelude Number JsSort Types Print Prompt Consensus Program Compile Interp InterpSafety InterpEval.
From S2P Require Import Calls Strategies StrategiesBilling.

Module StrategiesSpec.
Import Num Print Prompt Compile Calls Strategies.

(** ** One call *)

Section runs.
  Context (answer : nat -> Interp.CompleteRequest.t -> Interp.CompleteResponse.t + string).
  Context (deltas : nat -> Interp.CompleteRequest.t -> list string).

(** The world after a call was sent, and after it was answered. *)
Definition sent_one (q : Interp.CompleteRequest.t) (w : world) : world := World (requests w ++ [q]) (answered w) (tokens w).

Lemma run_callModel {B} ctx a (k : CallOutcome.t -> prog B) w :
  run answer deltas (callModel ctx a ≫= k) w =
  match Interp.ExecContext.resolve ctx (a_model a) with
  | None => (World (requests w ++ []) (answered w) (tokens w), inr (no_model (a_model a)))
  | Some e =>
      match answer (length (requests w)) (call_request ctx a) with
      | inl r => run answer deltas (k (outcome (e, r))) (answers [(e, r)] (sent_one (call_request ctx a) w))
      | inr m => (sent_one (call_request ctx a) w, inr (call_failed [m]))
      end
  end.
Proof.
  unfold callModel, call_slot, mbind. simpl. unfold unresolved, sends, sent_of. simpl.
  destruct (Interp.ExecContext.resolve ctx (a_model a)) as [e|]; simpl; [|done].
  by destruct (answer _ _).
Qed.
End runs.

(** ** A compiled cascade *)

Section compiled.
  Context (ctx : Interp.ExecContext.t) (name : string) (messages : list ChatMessage.t) `{Htexts : !Interp.Texts}.
  (** A provider whose answers do not depend on the seed, and that reports a
      confidence with every answer. *)
  Context (answer : Interp.CompleteRequest.t -> option Interp.CompleteResponse.t) (deltas : nat -> Interp.CompleteRequest.t -> list string).

Definition with_seed (seed : option number) (q : Interp.CompleteRequest.t) : Interp.CompleteRequest.t :=
  let p := Interp.CompleteRequest.params q in
  Interp.CompleteRequest.mk (Interp.CompleteRequest.model q) (Interp.CompleteRequest.messages q)
    (Interp.CompleteParams.mk seed (Interp.CompleteParams.maxTokens p) (Interp.CompleteParams.logprobs p)
       (Interp.CompleteParams.tools p) (Interp.CompleteParams.tool_choice p) (Interp.CompleteParams.reasoningEffort p)
       (Interp.CompleteParams.sampling p)).

Definition seedless : Prop := forall q seed, answer (with_seed seed q) = answer q.
Definition confident : Prop :=
  forall q r, answer q = Some r -> exists c, Interp.CompleteResponse.logprobConfidence r = Some c /\ is_nan c = false.

Definition provider (_ : nat) (q : Interp.CompleteRequest.t) : Interp.CompleteResponse.t + string :=
  match answer q with Some r => inl r | None => inr "refused" end.

Abbreviation value_of := (Eval.eval ctx name messages answer).

(** What a returned result and a program's value have in common; a tool call
    ends both, but a program drops the text that came with it. *)
Definition same_answer (res : world * (Interp.StrategyResult.t + failure)) (v : option Interp.NodeResult.t) : Prop :=
  match res.2, v with
  | inl r, Some v =>
      Interp.StrategyResult.toolCalls r = Interp.NodeResult.toolCalls v /\
      (Interp.NodeResult.toolCalls v = None -> Interp.StrategyResult.text r = Interp.NodeResult.text v)
  | inr _, None => True
  | _, _ => False
  end.

Lemma seeded_request model seed : seedless ->
  answer (call_request ctx (answer_args model messages seed)) = answer (Interp.request ctx model messages None None None None).
Proof.
  intros H. rewrite <- (H (Interp.request ctx model messages None None None None) (Some seed)). f_equal.
  unfold call_request, with_seed, Interp.request. simpl. f_equal. f_equal. by destruct (Interp.ExecContext.tools ctx).
Qed.

(** The value of a stage's call, from what the provider answers. *)
Lemma call_value model :
  value_of (plain_call model) =
  match Interp.ExecContext.resolve ctx model with
  | Some e =>
      (fun r => Interp.NodeResult.mk (Interp.CompleteResponse.text r) (Interp.CompleteResponse.logprobConfidence r)
                  (some_tools r) [] Interp.zeroUsage) <$> answer (Interp.request ctx model messages None None None None)
  | None => None
  end.
Proof.
  simpl. unfold Eval.ask. destruct (Interp.ExecContext.resolve ctx model) as [e|]; [|done]. simpl.
  by destruct (answer _).
Qed.

Lemma gated_value model tau n :
  value_of (if_ (confidence (plain_call model) tau) (plain_call model) n) =
  v ← value_of (plain_call model);
  match Interp.NodeResult.toolCalls v with
  | Some tools => Some (Eval.tools_only tools)
  | None => if match Interp.NodeResult.confidence v with Some c => geb c tau | None => false end then Some v else value_of n
  end.
Proof.
  change (value_of (if_ (confidence (plain_call model) tau) (plain_call model) n)) with
    (rs ← (r ← value_of (plain_call model); Some [r]);
     match Interp.check_result (confidence (plain_call model) tau) rs with
     | None => None
     | Some (Interp.tool_call tools) => Some (Eval.tools_only tools)
     | Some (Interp.passes ok) => if ok then value_of (plain_call model) else value_of n
     end).
  destruct (value_of (plain_call model)) as [v|]; [|done]. simpl. unfold Interp.unless_tool.
  destruct (Interp.NodeResult.toolCalls v); [done|]. destruct (Interp.NodeResult.confidence v) as [c|]; [|done].
  by destruct (geb c tau).
Qed.

Lemma cascade_agrees stages : seedless -> confident ->
  Forall (fun s => forall tau, Compile.threshold s = Some tau -> is_nan tau = false) stages ->
  forall node base i off trace total text w, cascade_body stages = Some node ->
  same_answer (run provider deltas (cascade_loop ctx logprob messages base i off stages trace total text) w) (value_of node).
Proof.
  intros Hs Hc. induction stages as [|s rest IH]; intros Ht node base i off trace total text w Hn; [done|].
  inversion Ht as [|? ? Hs1 Ht1]; subst. cbn [cascade_loop]. rewrite run_callModel. simpl a_model. unfold provider at 1.
  rewrite (seeded_request _ _ Hs).
  set (ans := answer (Interp.request ctx (CascadeStage.model s) messages None None None None)).
  assert (value_of (plain_call (CascadeStage.model s)) = None -> value_of node = None) as Hnone.
  { intros E. destruct rest as [|next rest]; [by injection Hn as <-|]. rewrite cascade_body_cons in Hn.
    destruct (cascade_body (next :: rest)) as [n|]; [|done]. injection Hn as <-. unfold wrap_stage.
    destruct (Compile.threshold s); [|done]. by rewrite gated_value, E. }
  rewrite call_value in Hnone. fold ans in Hnone.
  destruct (Interp.ExecContext.resolve ctx (CascadeStage.model s)) as [e|] eqn:Ee; [|by rewrite Hnone].
  destruct ans as [r|] eqn:Er; [|by rewrite Hnone]. clear Hnone.
  assert (value_of (plain_call (CascadeStage.model s)) = Some (Interp.NodeResult.mk (Interp.CompleteResponse.text r)
    (Interp.CompleteResponse.logprobConfidence r) (some_tools r) [] Interp.zeroUsage)) as Hv
    by (rewrite call_value, Ee; fold ans; by rewrite Er).
  destruct (Hc _ _ Er) as (c & Hrc & Hnan). cbn [outcome CallOutcome.toolCalls CallOutcome.logprobConfidence snd].
  assert (same_answer (sent_one (call_request ctx (answer_args (CascadeStage.model s) messages (seed_at base off))) w,
    inl (Interp.StrategyResult.mk (Interp.CompleteResponse.text r) [] zeroUsage (some_tools r) None))
    (value_of (plain_call (CascadeStage.model s)))) as Hend by by rewrite Hv.
  destruct rest as [|next rest]; [injection Hn as <-; cbn [foldr take length Nat.sub]; by destruct (some_tools r)|].
  rewrite cascade_body_cons in Hn. destruct (cascade_body (next :: rest)) as [n|] eqn:En; [|done]. injection Hn as <-.
  unfold wrap_stage. destruct (Compile.threshold s) as [tau|] eqn:Etau; [|by destruct (some_tools r)].
  rewrite gated_value, Hv. cbn [mbind option_bind Interp.NodeResult.toolCalls Interp.NodeResult.confidence].
  destruct (some_tools r) as [tools|]; [done|]. unfold stage_confidence.
  cbn [outcome CallOutcome.logprobConfidence snd]. rewrite Hrc. cbn [mbind prog_bind].
  destruct (ltb c tau) eqn:El.
  - rewrite (ltb_not_leb _ _ El : geb c tau = false). by apply IH.
  - rewrite (not_ltb_leb _ _ Hnan (Hs1 _ eq_refl) El : geb c tau = true). done.
Qed.

End compiled.

(** ** Streaming *)

Lemma append_assoc (a b c : string) : (a +:+ b) +:+ c = a +:+ (b +:+ c).
Proof. induction a as [|x a IH]; [done|]. exact (f_equal (String x) IH). Qed.

Lemma append_nil (a : string) : a +:+ "" = a.
Proof. induction a as [|x a IH]; [done|]. exact (f_equal (String x) IH). Qed.

Lemma join_cons x l : join "" (x :: l) = x +:+ join "" l.
Proof. destruct l as [|y l]; [by rewrite append_nil|done]. Qed.

Lemma join_app k l : join "" (k ++ l) = join "" k +:+ join "" l.
Proof. induction k as [|x k IH]; [done|]. simpl app. rewrite !join_cons, IH. by rewrite append_assoc. Qed.

Lemma chunk_loop_cur s : forall x cur b, join "" (chunk_loop (String x cur) b s) = String x cur +:+ s.
Proof.
  induction s as [|c s IH]; intros x cur b; cbn [chunk_loop].
  - simpl push_run. by rewrite join_cons.
  - assert (forall b', join "" (chunk_loop (String x cur +:+ String c "") b' s) = String x cur +:+ String c s) as H.
    { intros b'. etrans; [apply (IH x (cur +:+ String c ""))|]. change (String x (cur +:+ String c "")) with (String x cur +:+ String c "").
      by rewrite append_assoc. }
    destruct (is_space c); [apply H|]. destruct b; [|apply H]. by rewrite join_cons, IH.
Qed.

(** Replayed chunks are the text without its leading white space. *)
Lemma join_streamChunks text : join "" (streamChunks text) = drop_spaces text.
Proof.
  unfold streamChunks. induction text as [|c s IH]; [done|]. cbn [chunk_loop drop_spaces].
  destruct (is_space c); [apply IH|apply chunk_loop_cur].
Qed.

Section streaming.
  Context (answer : nat -> Interp.CompleteRequest.t -> Interp.CompleteResponse.t + string).
  Context (deltas : nat -> Interp.CompleteRequest.t -> list string).
  Context (ctx : Interp.ExecContext.t) (Hstream : Interp.ExecContext.stream ctx = true).

Lemma run_emit {B} ts (k : unit -> prog B) : forall w,
  run answer deltas (emit ts ≫= k) w = run answer deltas (k tt) (streams ts w).
Proof.
  induction ts as [|t ts IH]; intros [rq us tk].
  - simpl. unfold streams. simpl. by rewrite app_nil_r.
  - change (run answer deltas (emit ts ≫= k) (streams [t] (World rq us tk))
      = run answer deltas (k tt) (streams (t :: ts) (World rq us tk))).
    rewrite IH. unfold streams. simpl. by rewrite <- app_assoc.
Qed.

Lemma run_replay {B} text (k : unit -> prog B) w :
  run answer deltas (replay ctx text ≫= k) w = run answer deltas (k tt) (streams (streamChunks text) w).
Proof. unfold replay. rewrite Hstream. apply run_emit. Qed.

(** What a streaming caller of [composite] receives is the text of the result,
    except for the white space that starts a replayed text: at the start, or
    where the kept prefix ends and the upgrade begins. *)
Theorem composite_stream s u tau messages w r :
  run answer deltas (runComposite ctx s u tau messages) idle = (w, inl r) ->
  exists shown rest, Interp.StrategyResult.text r = shown +:+ rest /\ join "" (tokens w) = shown +:+ drop_spaces rest /\
    (shown = "" \/ exists draft, shown = join "" (take COMPOSITE_STREAM_BUFFER_TOKENS (streamChunks draft))).
Proof.
  unfold runComposite. rewrite run_callModel. destruct (Interp.ExecContext.resolve ctx _) as [e|]; [|done].
  destruct (answer _ _) as [start|]; [|done]. set (o := outcome (e, start)). set (w1 := answers _ _).
  assert (tokens w1 = []) as Hw1 by done. clearbody w1. unfold start_confidence.
  match goal with |- run _ _ (?p ≫= ?k) w1 = _ -> _ =>
    assert (forall x w2, tokens w2 = [] -> run answer deltas (k x) w2 = (w, inl r) ->
      exists shown rest, Interp.StrategyResult.text r = shown +:+ rest /\ join "" (tokens w) = shown +:+ drop_spaces rest /\
        (shown = "" \/ exists draft, shown = join "" (take COMPOSITE_STREAM_BUFFER_TOKENS (streamChunks draft)))) as Hk end.
  { intros [[c probes] us] w2 Hw2. destruct (ltb c tau); cbn [negb].
    - rewrite Hstream, run_emit, run_callModel. destruct (Interp.ExecContext.resolve ctx _) as [e'|]; [|done].
      destruct (answer _ _) as [up|]; [|done]. rewrite run_replay. cbn [run]. intros [= <- <-].
      exists (join "" (prefix_chunks ctx (CallOutcome.text o))), (Interp.CompleteResponse.text up). split; [done|].
      cbn [streams answers sent_one tokens]. rewrite Hw2. cbn [app]. rewrite join_app, join_streamChunks. split; [done|]. right. exists (CallOutcome.text o).
      unfold prefix_chunks. by rewrite Hstream.
    - rewrite run_replay. cbn [run]. intros [= <- <-]. exists "", (CallOutcome.text o). split; [done|].
      cbn [streams tokens]. rewrite Hw2. cbn [app]. rewrite join_streamChunks. split; [done|]. by left. }
  destruct (CallOutcome.logprobConfidence o) as [c|]; [exact (Hk (c, [], None) w1 Hw1)|].
  rewrite StrategiesBilling.run_bind, run_callModel. destruct (Interp.ExecContext.resolve ctx _) as [e'|]; [|done].
  destruct (answer _ _) as [probe|]; [|done]. destruct (self_report _) as [raw parsed]. cbn [run].
  by apply (Hk (_, _, _)).
Qed.

(** A replayed [single] streams its text; a relayed one streams what the
    provider does, for the one request it sends. *)
Theorem single_stream model messages e w r :
  Interp.ExecContext.resolve ctx model = Some e ->
  run answer deltas (runSingle ctx model messages) idle = (w, inl r) ->
  requests w = [single_request ctx model messages] /\
  if canRelay ctx e then tokens w = deltas 0 (single_request ctx model messages)
  else join "" (tokens w) = drop_spaces (Interp.StrategyResult.text r).
Proof.
  intros He. unfold runSingle. rewrite He. destruct (canRelay ctx e); cbn [run].
  - cbn [s_entry]. destruct (answer _ _); [|done]. by intros [= <- <-].
  - simpl. unfold unresolved. simpl. destruct (answer _ _) as [res|]; [|done]. rewrite run_replay. cbn [run].
    intros [= <- <-]. split; [done|]. apply join_streamChunks.
Qed.
End streaming.

(** ** Witnesses *)

Definition compiled_sample : ProgramNode := default (plain_call "") (cascade_body sample_stages).


Lemma single_stream_witness :
  join "" (tokens (run_sample (runSingle (strategy_ctx true) "cheap" Interp.sample_messages)).1) = "Hello".
Proof.
  apply (single_stream strategy_provider no_deltas (strategy_ctx true) eq_refl "cheap" Interp.sample_messages Interp.sample_price
    (run_sample (runSingle (strategy_ctx true) "cheap" Interp.sample_messages)).1
    (result_of (runSingle (strategy_ctx true) "cheap" Interp.sample_messages))); [done|by vm_compute].
Defined.

Definition sample_composite : prog Interp.StrategyResult.t :=
  runComposite (strategy_ctx true) "cheap" "strong" (lit 5 1) Interp.sample_messages.

Lemma composite_stream_witness :
  exists shown rest, Interp.StrategyResult.text (result_of sample_composite) = shown +:+ rest /\
    join "" (tokens (run_sample sample_composite).1) = shown +:+ drop_spaces rest.
Proof.
  destruct (composite_stream strategy_provider no_deltas (strategy_ctx true) eq_refl "cheap" "strong" (lit 5 1)
    Interp.sample_messages (run_sample sample_composite).1 (result_of sample_composite)) as (shown & rest & Ht & Hj & _);
    [by vm_compute|]. exists shown, rest. by split.
Defined.

(** ** Divergences *)

(** The caller of an upgraded [composite] does not receive the text of the
    result: the space that starts the continuation is lost. *)
Theorem upgraded_stream_glued :
  Interp.StrategyResult.text (result_of sample_composite) = "Hello world" /\
  join "" (tokens (run_sample sample_composite).1) = "Helloworld".
Proof. by vm_compute. Qed.

Definition tool_reply : Interp.CompleteResponse.t :=
  Interp.CompleteResponse.mk "Let me look that up." (Interp.ProviderUsage.mk one one None false) one (Some one) "v1"
    (Some [ToolCall.mk "1" "search" "{}"]) None.

(** A stage that calls a tool answers with its text in the cascade and with no
    text in the program compiled from it, with a confidence reported. *)
Theorem compiled_tool_text_lost :
  Interp.StrategyResult.text <$> (match (run (fun _ _ => inl tool_reply) no_deltas
    (runCascade (strategy_ctx false) sample_stages logprob Interp.sample_messages) idle).2 with inl r => Some r | _ => None end)
    = Some "Let me look that up." /\
  Interp.NodeResult.text <$> @Eval.eval (strategy_ctx false) "sample" Interp.sample_messages strategy_texts
    (fun _ => Some tool_reply) compiled_sample = Some "".
Proof. by vm_compute. Qed.
End StrategiesSpec.
