(* ===== verification/Calendar.v ===== *)
(** * UTC days

    Instants are milliseconds since the epoch, as [Date.now()] gives them, and
    the program keys its daily counters by the first ten characters of
    [toISOString()] ([Demand.iso_day] of the day number).  Two instants of the
    years 1970 to 9999 have the same key exactly when they fall on the same
    day: a round trip through the Gregorian calendar and the printed digits. *)

From Stdlib Require Import Ascii.
From stdpp Require Import pretty.
From S2P Require Import Prelude Print Prompt Demand.

Module Calendar.
Import Prompt Demand.
Local Open Scope Z_scope.

Definition DAY_MS : Z := 86400000.

(** [new Date(ms).toISOString().slice(0, 10)]: [utcDayOf] of the limiters,
    [utcDay] of db/src/repos/usage.ts. *)
Definition utcDayOf (ms : Z) : string := iso_day (ms / DAY_MS).

(** The instants of the years 1970 to 9999. *)
Definition instant (ms : Z) : Prop := 0 <= ms < 253402300800000.

(** ** Digits read back *)

Lemma digit_value_char x : (x < 10)%N -> digit_value (pretty_N_char x) = Z.of_N x.
Proof.
  intros H. assert (x = 0 \/ x = 1 \/ x = 2 \/ x = 3 \/ x = 4 \/ x = 5 \/ x = 6 \/ x = 7 \/ x = 8 \/ x = 9)%N as Hx by lia.
  by decompose [or] Hx; subst.
Qed.

Lemma value_pretty_go x s : digits_value 0 (pretty_N_go x s) = digits_value (Z.of_N x) s.
Proof.
  revert s. induction (N.lt_wf_0 x) as [x _ IH]; intros s.
  destruct (N.eq_0_gt_0_cases x) as [->|Hx]; [by rewrite pretty_N_go_0|].
  rewrite pretty_N_go_step, IH by (done || by apply N.div_lt). simpl.
  rewrite digit_value_char by (apply N.mod_lt; lia). f_equal.
  rewrite N2Z.inj_div, N2Z.inj_mod. pose proof (Z.div_mod (Z.of_N x) 10). lia.
Qed.

Lemma value_show n : 0 <= n -> digits_value 0 (Print.show_Z n) = n.
Proof.
  intros Hn. destruct n as [|p|p]; [done| |lia]. change (digits_value 0 (pretty (N.pos p)) = Z.pos p).
  unfold pretty, pretty_N. destruct (decide _); [done|]. by rewrite value_pretty_go.
Qed.

Definition all_digits (s : string) : Prop := forall r, digit_run (s +:+ String "-"%char r) = (s, String "-"%char r).

Lemma all_digits_cons c s : is_digit c = true -> all_digits s -> all_digits (String c s).
Proof. intros Hc Hs r. simpl. by rewrite Hc, Hs. Qed.

Lemma all_digits_pretty_go x s : all_digits s -> all_digits (pretty_N_go x s).
Proof.
  revert s. induction (N.lt_wf_0 x) as [x _ IH]; intros s Hs.
  destruct (N.eq_0_gt_0_cases x) as [->|Hx]; [by rewrite pretty_N_go_0|].
  rewrite pretty_N_go_step by done. apply IH; [by apply N.div_lt|]. apply all_digits_cons; [|done].
  unfold pretty_N_char. by repeat case_match.
Qed.

Lemma all_digits_show n : 0 <= n -> all_digits (Print.show_Z n).
Proof.
  intros Hn. destruct n as [|p|p]; [done| |lia]. intros r.
  change (digit_run (pretty (N.pos p) +:+ String "-"%char r) = (pretty (N.pos p), String "-"%char r)).
  unfold pretty, pretty_N. destruct (decide _); [done|]. by apply all_digits_pretty_go.
Qed.

Lemma pad_start_ind (P : string -> Prop) k s : P s -> (forall t, P t -> P (String "0"%char t)) -> P (pad_start k s).
Proof. intros Hs Hc. unfold pad_start. induction (k - String.length s)%nat; auto. Qed.

(** A padded number reads back, and stops at the next dash. *)
Lemma digits_read k n : 0 <= n -> digits_value 0 (digits k n) = n /\ all_digits (digits k n).
Proof.
  intros Hn. unfold digits. apply pad_start_ind.
  - split; [by apply value_show|by apply all_digits_show].
  - intros t [Hv Hd]. split; [done|by apply all_digits_cons].
Qed.

Lemma digits_dash_inj k n n' r r' :
  0 <= n -> 0 <= n' -> digits k n +:+ String "-"%char r = digits k n' +:+ String "-"%char r' -> n = n' /\ r = r'.
Proof.
  intros Hn Hn' E. destruct (digits_read k n Hn) as [V D], (digits_read k n' Hn') as [V' D'].
  specialize (D r). rewrite E, D' in D. simplify_eq. split; [congruence|done].
Qed.

Lemma digits_inj k n n' : 0 <= n -> 0 <= n' -> digits k n = digits k n' -> n = n'.
Proof. intros Hn Hn' E. rewrite <- (proj1 (digits_read k n Hn)), E. by apply digits_read. Qed.

(** ** The calendar *)

(** The day of a date: the inverse of [civil]. *)
Definition day_of_civil (d : Z * Z * Z) : Z :=
  let '(y, m, d) := d in
  let y := if m <=? 2 then y - 1 else y in
  let mp := if m <=? 2 then m + 9 else m - 3 in
  let yoe := y - y / 400 * 400 in
  y / 400 * 146097 + (365 * yoe + yoe / 4 - yoe / 100) + (153 * mp + 2) / 5 + d - 1 - 719468.

Lemma year_of_era doe : 0 <= doe < 146097 ->
  let yoe := (doe - doe / 1460 + doe / 36524 - doe / 146096) / 365 in
  0 <= yoe < 400 /\ 0 <= doe - (365 * yoe + yoe / 4 - yoe / 100) <= 365.
Proof. cbv zeta. intros. split; Z.to_euclidean_division_equations; lia. Qed.

Lemma month_of_year doy : 0 <= doy <= 365 ->
  let mp := (5 * doy + 2) / 153 in 0 <= mp < 12 /\ 1 <= doy - (153 * mp + 2) / 5 + 1 <= 31.
Proof. cbv zeta. intros. split; Z.to_euclidean_division_equations; lia. Qed.

Lemma civil_spec days : -719468 <= days ->
  day_of_civil (civil days) = days /\
  let '(y, m, d) := civil days in 1 <= m <= 12 /\ 1 <= d <= 31 /\ 0 <= y /\ (days < 2932897 -> y <= 9999).
Proof.
  intros Hd. unfold civil. cbv zeta. set (z := days + 719468). assert (z = days + 719468) as Ez by done.
  pose proof (Z.div_mod z 146097 ltac:(lia)) as Hz. pose proof (Z.mod_pos_bound z 146097 ltac:(lia)).
  pose proof (Z.div_pos z 146097 ltac:(lia) ltac:(lia)) as He. set (era := z / 146097) in *.
  set (doe := z - era * 146097). assert (doe = z - era * 146097) as Edoe by done.
  assert (0 <= doe < 146097) as Hdoe by lia.
  destruct (year_of_era doe Hdoe) as [Hy Hdoy]. cbv zeta in Hdoy.
  set (yoe := (doe - doe / 1460 + doe / 36524 - doe / 146096) / 365) in *.
  set (doy := doe - (365 * yoe + yoe / 4 - yoe / 100)) in *.
  destruct (month_of_year doy Hdoy) as [Hm Hday]. cbv zeta in Hday. set (mp := (5 * doy + 2) / 153) in *.
  assert (forall y, 0 <= y < 400 -> (y + era * 400) / 400 = era) as Hera by (intros; rewrite Z.div_add, (Z.div_small y) by lia; lia).
  split.
  - unfold day_of_civil. destruct (Z.ltb_spec mp 10).
    + destruct (Z.leb_spec (mp + 3) 2); [lia|]. rewrite Z.add_0_r, Hera by done.
      replace (yoe + era * 400 - era * 400) with yoe by lia. replace (mp + 3 - 3) with mp by lia. lia.
    + destruct (Z.leb_spec (mp - 9) 2); [|lia]. rewrite Z.add_simpl_r, Hera by done.
      replace (yoe + era * 400 - era * 400) with yoe by lia. replace (mp - 9 + 9) with mp by lia. lia.
  - destruct (Z.ltb_spec mp 10); [destruct (Z.leb_spec (mp + 3) 2)|destruct (Z.leb_spec (mp - 9) 2)]; try lia.
    repeat split; try lia. intros. destruct (Z.le_gt_cases (yoe + era * 400 + 1) 9999); [done|exfalso].
    assert (yoe = 399) as Ey by lia.
    assert (doy <= 305) by (unfold doy; rewrite Ey; change (399 / 4) with 99; change (399 / 100) with 3; lia).
    assert (mp < 10); [|lia]. apply Z.div_lt_upper_bound; lia.
Qed.

(** Within the years 1970 to 9999 the printed day determines the day. *)
Lemma iso_day_inj a b : 0 <= a < 2932897 -> 0 <= b < 2932897 -> iso_day a = iso_day b -> a = b.
Proof.
  intros Ha Hb. destruct (civil_spec a ltac:(lia)) as [Ra Ba], (civil_spec b ltac:(lia)) as [Rb Bb].
  unfold iso_day. destruct (civil a) as [[ya ma] da], (civil b) as [[yb mb] db].
  destruct Ba as (? & ? & ? & Hya), Bb as (? & ? & ? & Hyb). specialize (Hya ltac:(lia)). specialize (Hyb ltac:(lia)).
  rewrite (proj2 (Z.leb_le 0 ya)), (proj2 (Z.leb_le ya 9999)), (proj2 (Z.leb_le 0 yb)), (proj2 (Z.leb_le yb 9999)) by lia.
  simpl andb. cbv iota. intros E.
  apply digits_dash_inj in E as [-> E]; [|lia..]. apply digits_dash_inj in E as [-> E]; [|lia..].
  apply digits_inj in E as ->; [|lia..]. congruence.
Qed.

Lemma utcDayOf_eq a b : instant a -> instant b -> utcDayOf a = utcDayOf b <-> a / DAY_MS = b / DAY_MS.
Proof.
  unfold instant, utcDayOf, DAY_MS. intros Ha Hb. split; [|congruence].
  apply iso_day_inj; (split; [apply Z.div_pos; lia|apply Z.div_lt_upper_bound; lia]).
Qed.

(** Days do not come back: between two instants of one day lies only that
    day. *)
Lemma utcDayOf_between a b c :
  instant a -> instant c -> a <= b <= c -> utcDayOf a = utcDayOf c -> utcDayOf b = utcDayOf a.
Proof.
  intros Ha Hc Hb E. assert (instant b) by (unfold instant in *; lia).
  rewrite utcDayOf_eq in * by done. unfold DAY_MS in *.
  pose proof (Z.div_le_mono a b 86400000). pose proof (Z.div_le_mono b c 86400000). lia.
Qed.

End Calendar.
