(* ===== verification/Limits.v ===== *)
(** * Rate limiting: server/src/middleware/ratelimit.ts, redis-rate-limiter.ts, security/serving-routes.ts

    The token bucket with its daily cap, in its two implementations (the
    process-local map and the Lua script over a Redis hash), and the request
    hook that charges a request to its api key and then to its organization.
    The hook is written against the store interface, a class with the two
    stores as instances.

    Limits are integer columns; a clock reading is an integer of milliseconds;
    the bucket holds JavaScript numbers.  Parameters: the api-key query, the
    hash function, and the conversions between numbers and text of Redis. *)

From stdpp Require Import gmap strings.
From S2P Require Import Prelude Number Print Prompt Calendar.

Module Limits.
Import Num Prompt Calendar.
Local Open Scope Z_scope.

(** ** Configuration *)

Module RateLimitConfig.
Record t := mk { rps : Z; dailyCap : Z; maxBodyKb : Z }.
End RateLimitConfig.

Definition DEFAULT_RATE_LIMIT : RateLimitConfig.t := RateLimitConfig.mk 10 200000 1024.

Definition ORG_LIMIT_MULTIPLIER : Z := 10.
Definition ORG_BUCKET_PREFIX : string := "org:".

Definition orgRateLimitConfig (cfg : RateLimitConfig.t) : RateLimitConfig.t :=
  RateLimitConfig.mk (RateLimitConfig.rps cfg * ORG_LIMIT_MULTIPLIER)
    (RateLimitConfig.dailyCap cfg * ORG_LIMIT_MULTIPLIER) (RateLimitConfig.maxBodyKb cfg).

(** The columns of [api_keys] the limiter reads. *)
Module ApiKeyRow.
Record t := mk { id : string; orgId : string; rateRps : option Z; dailyCap : option Z; maxBodyKb : option Z }.
End ApiKeyRow.

Definition rateLimitConfigForKey (key : ApiKeyRow.t) : RateLimitConfig.t :=
  RateLimitConfig.mk (default (RateLimitConfig.rps DEFAULT_RATE_LIMIT) (ApiKeyRow.rateRps key))
    (default (RateLimitConfig.dailyCap DEFAULT_RATE_LIMIT) (ApiKeyRow.dailyCap key))
    (default (RateLimitConfig.maxBodyKb DEFAULT_RATE_LIMIT) (ApiKeyRow.maxBodyKb key)).

Inductive LimitReason := rate | daily_cap.

Inductive RateLimitVerdict :=
| Allowed (remaining resetEpochSec : number)
| Limited (reason : LimitReason) (retryAfterSec resetEpochSec : number).

Definition allowed (v : RateLimitVerdict) : bool := match v with Allowed _ _ => true | Limited _ _ _ => false end.

(** [interface RateLimiterStore]: [None] when the store's promise rejects. *)
Class RateLimiterStore (S : Type) :=
  consume : S -> string -> RateLimitConfig.t -> Z -> option (S * RateLimitVerdict).

(** The calls a store serves, one after the other: each [consume] is atomic. *)
Module Call.
Record t := mk { bucket : string; cfg : RateLimitConfig.t; at_ : Z }.
End Call.

Fixpoint run {S : Type} `{RateLimiterStore S} (st : S) (cs : list Call.t) : option (S * list (Call.t * RateLimitVerdict)) :=
  match cs with
  | [] => Some (st, [])
  | c :: cs =>
      '(st, v) ← consume st (Call.bucket c) (Call.cfg c) (Call.at_ c);
      '(st, h) ← run st cs;
      Some (st, (c, v) :: h)
  end.

(** The requests a history admits on a bucket. *)
Definition admitted (k : string) (h : list (Call.t * RateLimitVerdict)) : list (Call.t * RateLimitVerdict) :=
  List.filter (fun cv => bool_decide (Call.bucket cv.1 = k) && allowed cv.2) h.

(** ** The in-memory store *)

Module BucketState.
Record t := mk { tokens : number; lastRefillMs : number; day : string; dayUsed : number }.
End BucketState.

Definition secondsToUtcMidnight (ms : Z) : number :=
  let midnight := (ms / DAY_MS + 1) * DAY_MS in
  max one (ceil (div (sub (of_Z midnight) (of_Z ms)) (of_Z 1000))).

Definition epochSec (nowMs : Z) : number := floor (div (of_Z nowMs) (of_Z 1000)).

Definition freshBucket (cfg : RateLimitConfig.t) (nowMs : Z) : BucketState.t :=
  BucketState.mk (of_Z (RateLimitConfig.rps cfg)) (of_Z nowMs) (utcDayOf nowMs) zero.

(** The continuous refill, capped at the capacity. *)
Definition refill (b : BucketState.t) (rps : Z) (nowMs : Z) : number :=
  let elapsedSec := max zero (div (sub (of_Z nowMs) (BucketState.lastRefillMs b)) (of_Z 1000)) in
  min (of_Z rps) (add (BucketState.tokens b) (mul elapsedSec (of_Z rps))).

(** One call on a bucket: refill, roll the day over, check, take. *)
Definition consumeBucket (b : BucketState.t) (cfg : RateLimitConfig.t) (nowMs : Z) : BucketState.t * RateLimitVerdict :=
  let rps := RateLimitConfig.rps cfg in
  let tokens := refill b rps nowMs in
  let today := utcDayOf nowMs in
  let dayUsed := if bool_decide (BucketState.day b = today) then BucketState.dayUsed b else zero in
  if geb dayUsed (of_Z (RateLimitConfig.dailyCap cfg)) then
    let retryAfterSec := secondsToUtcMidnight nowMs in
    (BucketState.mk tokens (of_Z nowMs) today dayUsed,
     Limited daily_cap retryAfterSec (add (epochSec nowMs) retryAfterSec))
  else if ltb tokens one then
    let retryAfterSec := max one (ceil (div (sub one tokens) (of_Z rps))) in
    (BucketState.mk tokens (of_Z nowMs) today dayUsed,
     Limited rate retryAfterSec (add (epochSec nowMs) retryAfterSec))
  else
    let tokens := sub tokens one in
    let refillSec := ceil (div (sub (of_Z rps) tokens) (of_Z rps)) in
    (BucketState.mk tokens (of_Z nowMs) today (add dayUsed one),
     Allowed (floor tokens) (add (epochSec nowMs) refillSec)).

Abbreviation Buckets := (gmap string BucketState.t).

Definition consumeMemory (buckets : Buckets) (keyId : string) (cfg : RateLimitConfig.t) (nowMs : Z) :
    Buckets * RateLimitVerdict :=
  let b := default (freshBucket cfg nowMs) (buckets !! keyId) in
  let '(b, verdict) := consumeBucket b cfg nowMs in
  (<[keyId := b]> buckets, verdict).

#[export] Instance InMemoryRateLimiterStore : RateLimiterStore Buckets :=
  fun buckets keyId cfg nowMs => Some (consumeMemory buckets keyId cfg nowMs).

(** ** The Redis store *)

Definition BUCKET_TTL_SEC : Z := 2 * 24 * 60 * 60.
Definition PREFIX : string := "rl:".

(** The four fields of a bucket's hash, as Redis keeps them: text. *)
Module LuaHash.
Record t := mk { tokens : string; lastRefillMs : string; day : string; dayUsed : string }.
End LuaHash.

(** A hash and the instant its [EXPIRE] sets. *)
Abbreviation Redis := (gmap string (LuaHash.t * Z)).

(** The positional reply of the script. *)
Module LuaReply.
Record t := mk { allowed : Z; remaining : number; resetEpochSec : number; retryAfterSec : number; reason : string }.
End LuaReply.

Section Redis.

(** [String(n)] of ioredis for an argument, the text Redis stores for a Lua
    number, and Lua's [tonumber] of either. *)
Context (argv : number -> string) (tostring : number -> string) (tonumber : string -> option number).

(** [HMGET]: an expired hash is no hash. *)
Definition hmget (r : Redis) (key : string) (clock : Z) : option LuaHash.t :=
  match r !! key with
  | Some (h, expires) => if clock <? expires then Some h else None
  | None => None
  end.

(** [CONSUME_LUA], run at [clock]; [None] is a Lua error (arithmetic on nil). *)
Definition CONSUME_LUA (r : Redis) (clock : Z) (key : string) (a1 a2 a3 today a5 a6 : string) :
    option (Redis * LuaReply.t) :=
  rps ← tonumber a1; dailyCap ← tonumber a2; nowMs ← tonumber a3; ttl ← tonumber a5;
  let b := hmget r key clock in
  '(tokens, lastRefillMs, day, dayUsed) ←
    match b ≫= fun h => tonumber (LuaHash.tokens h) with
    | None => Some (rps, nowMs, today, zero)
    | Some tokens =>
        h ← b; lastRefillMs ← tonumber (LuaHash.lastRefillMs h); dayUsed ← tonumber (LuaHash.dayUsed h);
        Some (tokens, lastRefillMs, LuaHash.day h, dayUsed)
    end;
  let elapsedSec := max zero (div (sub nowMs lastRefillMs) (of_Z 1000)) in
  let tokens := min rps (add tokens (mul elapsedSec rps)) in
  let dayUsed := if bool_decide (day = today) then dayUsed else zero in
  let hset tokens dayUsed : Redis :=
    <[key := (LuaHash.mk (tostring tokens) (tostring nowMs) today (tostring dayUsed),
              clock + 1000 * (units ttl / 2 ^ 1074))]> r in
  if geb dayUsed dailyCap then
    retry ← tonumber a6;
    Some (hset tokens dayUsed,
          LuaReply.mk 0 zero (add (floor (div nowMs (of_Z 1000))) retry) retry "daily_cap")
  else if ltb tokens one then
    let retry := max one (ceil (div (sub one tokens) rps)) in
    Some (hset tokens dayUsed,
          LuaReply.mk 0 zero (add (floor (div nowMs (of_Z 1000))) retry) retry "rate")
  else
    let tokens := sub tokens one in
    let dayUsed := add dayUsed one in
    let refill := ceil (div (sub rps tokens) rps) in
    Some (hset tokens dayUsed,
          LuaReply.mk 1 (floor tokens) (add (floor (div nowMs (of_Z 1000))) refill) zero "ok").

Definition verdictOf (raw : LuaReply.t) : RateLimitVerdict :=
  if LuaReply.allowed raw =? 1 then Allowed (LuaReply.remaining raw) (LuaReply.resetEpochSec raw)
  else Limited (if bool_decide (LuaReply.reason raw = "daily_cap"%string) then daily_cap else rate)
         (LuaReply.retryAfterSec raw) (LuaReply.resetEpochSec raw).

(** The replica's clock and the clock of Redis are one. *)
Definition RedisRateLimiterStore : RateLimiterStore Redis := fun redis keyId cfg nowMs =>
  '(redis, raw) ← CONSUME_LUA redis nowMs (PREFIX +:+ keyId)
      (argv (of_Z (RateLimitConfig.rps cfg))) (argv (of_Z (RateLimitConfig.dailyCap cfg))) (argv (of_Z nowMs))
      (utcDayOf nowMs) (argv (of_Z BUCKET_TTL_SEC)) (argv (secondsToUtcMidnight nowMs));
  Some (redis, verdictOf raw).

End Redis.

(** ** The request hook *)

Definition SERVING_ROUTES : list string := ["/v1/chat/completions"; "/v1/completions"; "/v1/embeddings"].

Definition isServingRoute (url : option string) : bool :=
  match url with Some u => bool_decide (u ∈ SERVING_ROUTES) | None => false end.

(** [/^Bearer\s+(.+)$/i] on the trimmed header; a header holds no line break. *)
Definition bearerToken (authorization : option string) : option string :=
  match authorization with
  | None | Some EmptyString => None
  | Some header =>
      match trim header with
      | String b (String e (String a (String r (String e' (String r' rest))))) =>
          if bool_decide (toLowerCase (String b (String e (String a (String r (String e' (String r' EmptyString)))))) = "bearer")
          then match rest with
               | String c _ =>
                   if is_space c then
                     let token := trim (drop_spaces rest) in
                     if bool_decide (token = EmptyString) then None else Some token
                   else None
               | EmptyString => None
               end
          else None
      | _ => None
      end
  end.

(** [Number(header ?? 0)] of a content length, which the HTTP parser accepts
    as decimal digits only. *)
Definition headerNumber (header : option string) : number :=
  match header with
  | None => zero
  | Some h => match digit_run (trim h) with (d, EmptyString) => of_Z (digits_value 0 d) | _ => NaN end
  end.

Module HookRequest.
Record t := mk { method : string; url : option string; authorization : option string; contentLength : option string }.
End HookRequest.

Module RejectionRow.
Record t := mk { orgId : string; apiKeyId : string; status : string }.
End RejectionRow.

Module Reply.
Record t := mk { code : Z; retryAfter : option number; message : string; type_ : string; error_code : string }.
End Reply.

(** What the hook leaves: the headers it set, the rejection rows it tried to
    insert (a failed insert is only a warning), and its reply, if it replied. *)
Module HookOutcome.
Record t := mk { headers : list (string * number); logged : list RejectionRow.t; reply : option Reply.t }.
End HookOutcome.

(** The hook suspends at each [await store.consume]; other requests run
    meanwhile. *)
Inductive Hook :=
| Done (o : HookOutcome.t)
| Ask (bucket : string) (cfg : RateLimitConfig.t) (k : RateLimitVerdict -> Hook).

Definition pass (headers : list (string * number)) : Hook := Done (HookOutcome.mk headers [] None).

Definition refuse (key : ApiKeyRow.t) (headers : list (string * number)) (status : string) (reply : Reply.t) : Hook :=
  Done (HookOutcome.mk headers [RejectionRow.mk (ApiKeyRow.orgId key) (ApiKeyRow.id key) status] (Some reply)).

Definition limited (retryAfterSec : number) (message : string) : Reply.t :=
  Reply.mk 429 (Some retryAfterSec) message "rate_limit_exceeded" "rate_limit_exceeded".

Definition remaining (v : RateLimitVerdict) : number := match v with Allowed r _ => r | Limited _ _ _ => zero end.
Definition resetEpochSec (v : RateLimitVerdict) : number := match v with Allowed _ t | Limited _ _ t => t end.

Definition verdictHeaders (v : RateLimitVerdict) : list (string * number) :=
  [("x-ratelimit-remaining-requests", remaining v); ("x-ratelimit-reset", resetEpochSec v)]%string.

Definition orgHook (key : ApiKeyRow.t) (cfg : RateLimitConfig.t) (headers : list (string * number)) : Hook :=
  let orgCfg := orgRateLimitConfig cfg in
  Ask (ORG_BUCKET_PREFIX +:+ ApiKeyRow.orgId key) orgCfg (fun v =>
    match v with
    | Allowed _ _ => pass headers
    | Limited reason retryAfterSec _ =>
        refuse key headers "rate_limited" (limited retryAfterSec
          match reason with
          | daily_cap => "daily request cap of " +:+ Print.show_Z (RateLimitConfig.dailyCap orgCfg)
              +:+ " reached for this ORGANIZATION (across all of its api keys) — retry after UTC midnight"
          | rate => "rate limit of " +:+ Print.show_Z (RateLimitConfig.rps orgCfg)
              +:+ " requests/sec reached for this ORGANIZATION (across all of its api keys)"
          end)
    end).

Definition keyHook (key : ApiKeyRow.t) (cfg : RateLimitConfig.t) : Hook :=
  Ask (ApiKeyRow.id key) cfg (fun v =>
    match v with
    | Allowed _ _ => orgHook key cfg (verdictHeaders v)
    | Limited reason retryAfterSec _ =>
        refuse key (verdictHeaders v) "rate_limited" (limited retryAfterSec
          match reason with
          | daily_cap => "daily request cap of " +:+ Print.show_Z (RateLimitConfig.dailyCap cfg)
              +:+ " reached for this api key — retry after UTC midnight"
          | rate => "rate limit of " +:+ Print.show_Z (RateLimitConfig.rps cfg) +:+ " requests/sec reached for this api key"
          end)
    end).

Section Hook.

Context (sha256 : string -> string) (getApiKeyByKeyHash : string -> option ApiKeyRow.t).

Definition hookKeyOf (req : HookRequest.t) : option ApiKeyRow.t :=
  if negb (bool_decide (HookRequest.method req = "POST"%string)) || negb (isServingRoute (HookRequest.url req)) then None
  else token ← bearerToken (HookRequest.authorization req); getApiKeyByKeyHash (sha256 token).

Definition onRequest (req : HookRequest.t) : Hook :=
  match hookKeyOf req with
  | None => pass []
  | Some key =>
      let cfg := rateLimitConfigForKey key in
      let contentLength := headerNumber (HookRequest.contentLength req) in
      if is_finite contentLength && gtb contentLength (mul (of_Z (RateLimitConfig.maxBodyKb cfg)) (of_Z 1024)) then
        refuse key [] "payload_too_large"
          (Reply.mk 413 None ("request body exceeds this key's limit of " +:+ Print.show_Z (RateLimitConfig.maxBodyKb cfg) +:+ " KiB")
             "invalid_request_error" "request_too_large")
      else keyHook key cfg
  end.

End Hook.

End Limits.
