(* ===== verification/LimitsBucket.v ===== *)
(** * The token bucket: rate bound, retry advice, and the two stores

    What the refill of [Limits.refill] computes in binary64, the bound it puts
    on the admitted requests of any window of calls, what the advised
    [Retry-After] is worth, and the refinement of the in-memory store by the
    Redis one, whose hashes expire. *)

From stdpp Require Import gmap strings.
From S2P Require Import Prelude Number Calendar Limits.

Module LimitsBucket.
Import Num Calendar Limits.
Local Open Scope Z_scope.

(** A configuration as keys.ts admits it, or ten times that for an
    organization. *)
Definition config_ok (cfg : RateLimitConfig.t) : Prop :=
  1 <= RateLimitConfig.rps cfg <= 2 ^ 14 /\ 1 <= RateLimitConfig.dailyCap cfg < 2 ^ 52.

(** A bucket last touched at the instant [last], with [n] requests counted. *)
Record bucket_ok (b : BucketState.t) (last n : Z) : Prop := {
  ok_instant : instant last;
  ok_refilled : BucketState.lastRefillMs b = of_Z last;
  ok_day : BucketState.day b = utcDayOf last;
  ok_tokens : fin (BucketState.tokens b) = true;
  ok_range : 0 <= units (BucketState.tokens b) <= 2 ^ 14 * 2 ^ 1074;
  ok_used : counts (BucketState.dayUsed b) n;
  ok_count : 0 <= n < 2 ^ 52;
}.

Lemma instant_exact ms : instant ms -> 0 <= ms < 2 ^ 53.
Proof. unfold instant. lia. Qed.

Lemma rps_exact cfg : config_ok cfg -> 0 < RateLimitConfig.rps cfg < 2 ^ 53.
Proof. intros []. lia. Qed.

Lemma one_unit : 0 < 2 ^ 1074.
Proof. by apply Z.pow_pos_nonneg. Qed.

(** ** The refill *)

Lemma max_zero_pos x : ltb zero x = true -> max zero x = x.
Proof. intros H. unfold max. destruct x as [| [] | |]; try done; simpl orb; cbv iota; by rewrite H. Qed.

Lemma fin_zero x : fin x = true -> units x = 0 -> exists s, x = S754_zero s.
Proof.
  intros F U. destruct x as [s| | |s m e]; try done; [by exists s|].
  apply fin_spec, bounded_spec in F as (? & _). pose proof (mag_pos m e). change umin with (-1074) in *.
  destruct s; simpl in U; lia.
Qed.

Lemma elapsed_same last : instant last -> max zero (div (sub (of_Z last) (of_Z last)) (of_Z 1000)) = zero.
Proof.
  intros Hl. destruct (of_Z_exact last (instant_exact _ Hl)) as [F _].
  pose proof (sub_rounds _ _ F F) as Hr. rewrite Z.sub_diag in Hr.
  destruct (rounds_exact _ _ zero Hr eq_refl eq_refl) as [F0 U0].
  destruct (fin_zero _ F0 U0) as [s ->]. by destruct s.
Qed.

(** The double of a small dyadic number, against a quotient of integers. *)
Lemma quotient_pos n d : 0 < n < 2 ^ 53 -> 0 < d < 2 ^ 53 -> ltb zero (div (of_Z n) (of_Z d)) = true.
Proof.
  intros Hn Hd. destruct (div_of_Z n d Hn Hd) as [_ Hb _].
  apply (ltb_leb_trans _ tiny); [done|]. apply Hb; [done|]. change (units tiny) with 1.
  assert (2 ^ 53 <= 2 ^ 1074) by (apply Z.pow_le_mono_r; lia). nia.
Qed.

Lemma elapsed_later last now :
  instant last -> instant now -> last < now ->
  max zero (div (sub (of_Z now) (of_Z last)) (of_Z 1000)) = div (of_Z (now - last)) (of_Z 1000).
Proof.
  intros Hl%instant_exact Hn%instant_exact H. rewrite sub_of_Z by lia. apply max_zero_pos, quotient_pos; lia.
Qed.

Lemma min_cap c x :
  fin c = true -> 0 < units c -> real x = true -> leb zero x = true ->
  fin (min c x) = true /\ 0 <= units (min c x) <= units c /\
  (fin x = true -> units (min c x) <= units x) /\ (leb c x = true -> min c x = c).
Proof.
  intros Fc Uc Rx Hx. pose proof (proj2 (leb_nan _ _ Hx)) as Nx. pose proof (fin_not_nan _ Fc) as Nc.
  assert (min c x = if ltb x c then x else c) as ->.
  { unfold min. rewrite Nx, Nc. by destruct c, x. }
  destruct (ltb x c) eqn:E.
  - assert (fin x = true) as Fx.
    { destruct (real_cases x Rx) as [|[[] ->]]; [done|done|]. by apply fin_spec in Fc; destruct c as [[]| | |[] ? ?]. }
    rewrite fin_ltb, Z.ltb_lt in E by done. rewrite fin_leb, Z.leb_le in Hx by done.
    repeat split; try done; try lia. intros Hc. rewrite fin_leb, Z.leb_le in Hc by done. lia.
  - split; [done|]. split; [lia|]. split; [|done]. intros Fx. rewrite fin_ltb, Z.ltb_ge in E by done. lia.
Qed.

(** A second or more fills the bucket. *)
Lemma quotient_second n : 1000 <= n < 2 ^ 53 ->
  fin (div (of_Z n) (of_Z 1000)) = true /\ 2 ^ 1074 <= units (div (of_Z n) (of_Z 1000)).
Proof.
  intros Hn. destruct (div_of_Z n 1000) as [Hr Hb Ha]; [lia..|]. pose proof one_unit.
  specialize (Hb one eq_refl). rewrite units_one in Hb. specialize (Hb ltac:(nia)).
  destruct (of_Z_exact n ltac:(lia)) as [Fn Un]. specialize (Ha _ Fn). rewrite Un in Ha. specialize (Ha ltac:(nia)).
  destruct (real_cases _ Hr) as [F|[[] E]]; [|by rewrite E in Hb|by rewrite E in Ha; apply fin_spec in Fn; destruct (of_Z n) as [[]| | |[] ? ?]].
  split; [done|]. by rewrite fin_leb, units_one, Z.leb_le in Hb.
Qed.

Lemma refill_full t r n :
  fin t = true -> 0 <= units t -> 0 < r < 2 ^ 53 -> 1000 <= n < 2 ^ 53 ->
  min (of_Z r) (add t (mul (div (of_Z n) (of_Z 1000)) (of_Z r))) = of_Z r.
Proof.
  intros Ft Ut Hr Hn. destruct (quotient_second n Hn) as [Fe Ue]. set (e := div (of_Z n) (of_Z 1000)) in *.
  destruct (of_Z_exact r ltac:(lia)) as [Fr Ur]. pose proof one_unit.
  assert (2 ^ 1014 <= 2 ^ 1074) by (apply Z.pow_le_mono_r; lia).
  destruct (mul_of_Z_rounds e r Fe ltac:(lia) Hr) as [Rp Bp _]. set (p := mul e (of_Z r)) in *.
  specialize (Bp _ Fr). rewrite Ur in Bp. specialize (Bp ltac:(nia)).
  assert (real (add t p) = true /\ leb (of_Z r) (add t p) = true) as [Rx Lx].
  { destruct (real_cases _ Rp) as [Fp|[[] E]].
    - destruct (add_rounds t p Ft Fp) as [Rx Bx _]. split; [done|]. apply (leb_trans _ p); [done|]. apply Bx; [done|lia].
    - rewrite E in Bp. apply fin_spec in Fr. by destruct (of_Z r) as [[]| | |[] ? ?].
    - rewrite E in *. apply fin_spec in Ft. destruct t as [[]| | |[] ? ?]; done. }
  apply min_cap; try done; [nia|]. apply (leb_trans _ (of_Z r)); [|done].
  rewrite fin_leb, Ur, Z.leb_le by done. simpl. nia.
Qed.

(** Less than a second: the three roundings lose less than [2^-34] of a
    request. *)
Lemma quotient_part n : 0 < n < 1000 ->
  let e := div (of_Z n) (of_Z 1000) in
  fin e = true /\ 2 ^ 1014 <= units e /\ 1000 * units e <= n * 2 ^ 1074 + 1000 * 2 ^ 1022.
Proof.
  intros Hn e. destruct (div_of_Z n 1000) as [Hr Hb Ha]; [lia..|]. fold e in Hr, Hb, Ha.
  destruct (double_exists 1 (-60)) as (y & Fy & Uy); [lia..|]. specialize (Hb y Fy). rewrite Uy in Hb.
  specialize (Hb ltac:(lia)).
  set (k := - (- (n * 2 ^ 52) / 1000)). assert (0 <= k < 2 ^ 53 /\ n * 2 ^ 52 <= 1000 * k < n * 2 ^ 52 + 1000) as [Hk Hk'].
  { unfold k. pose proof (Z.div_mod (- (n * 2 ^ 52)) 1000 ltac:(lia)).
    pose proof (Z.mod_pos_bound (- (n * 2 ^ 52)) 1000 ltac:(lia)). lia. }
  destruct (double_exists k (-52)) as (z & Fz & Uz); [lia..|]. specialize (Ha z Fz). rewrite Uz in Ha.
  specialize (Ha ltac:(lia)).
  destruct (real_cases _ Hr) as [F|[[] E]];
    [|by rewrite E in Hb; apply fin_spec in Fy; destruct y as [[]| | |[] ? ?]
     |by rewrite E in Ha; apply fin_spec in Fz; destruct z as [[]| | |[] ? ?]].
  rewrite fin_leb, Z.leb_le in Ha, Hb by done. split; [done|]. split; lia.
Qed.

Lemma refill_part t r n :
  fin t = true -> 0 <= units t <= 2 ^ 14 * 2 ^ 1074 -> 1 <= r <= 2 ^ 14 -> 0 < n < 1000 ->
  let x := add t (mul (div (of_Z n) (of_Z 1000)) (of_Z r)) in
  fin x = true /\ 0 <= units x /\ 1000 * units x <= 1000 * units t + n * r * 2 ^ 1074 + 3000 * 2 ^ 1038.
Proof.
  intros Ft Ut Hr Hn x. destruct (quotient_part n Hn) as (Fe & Le & Ue). set (e := div (of_Z n) (of_Z 1000)) in *.
  pose proof (mul_of_Z_rounds e r Fe Le ltac:(lia)) as Rp. set (p := mul e (of_Z r)) in *.
  assert (1000 * (units e * r) <= n * r * 2 ^ 1074 + 1000 * 2 ^ 1036) as Uer by nia.
  destruct (rounds_grid _ _ (-36) Rp) as [Fp Up]; [nia|lia|nia|].
  destruct (rounds_grid _ _ (-36) (add_rounds t p Ft Fp)) as [Fx Ux]; [lia|lia|nia|].
  split; [done|]. split; [apply Ux|]. change (-36 + 1074) with 1038 in *. fold x in Ux. lia.
Qed.

(** What a refill gives. *)
Lemma refill_spec b r last n now :
  bucket_ok b last n -> instant now -> last <= now -> 1 <= r <= 2 ^ 14 ->
  let t := refill b r now in
  fin t = true /\ 0 <= units t <= r * 2 ^ 1074 /\
  1000 * units t <= 1000 * units (BucketState.tokens b) + (now - last) * r * 2 ^ 1074 + 3000 * 2 ^ 1038 /\
  (last + 1000 <= now -> t = of_Z r).
Proof.
  intros [Hi Hl _ Ft Ut _ _] Hn Hle Hr. cbv zeta. destruct (of_Z_exact r ltac:(lia)) as [Fr Ur].
  set (t := refill b r now). assert (t = refill b r now) as Et by done.
  unfold refill in Et. rewrite Hl in Et. clearbody t. cbv zeta in Et. pose proof one_unit. assert (0 < 2 ^ 1038) by (by apply Z.pow_pos_nonneg).
  destruct (Z.lt_ge_cases (now - last) 1000) as [Hp|Hp].
  - assert (exists x, t = min (of_Z r) x /\ fin x = true /\ 0 <= units x /\
      1000 * units x <= 1000 * units (BucketState.tokens b) + (now - last) * r * 2 ^ 1074 + 3000 * 2 ^ 1038)
      as (x & -> & Fx & Px & Ux); [|clear Et].
    { eexists. split; [exact Et|]. destruct (Z.eq_dec last now) as [<-|].
      - rewrite elapsed_same by done. destruct (of_Z_pos r ltac:(lia)) as (m & e & -> & _ & _).
        change (mul zero (S754_finite false m e)) with zero.
        pose proof (add_rounds _ zero Ft eq_refl) as Rx. rewrite Z.add_0_r in Rx.
        destruct (rounds_exact _ _ _ Rx Ft eq_refl) as [-> ->]. lia.
      - rewrite elapsed_later by (done || lia). apply refill_part; done || lia. }
    destruct (min_cap (of_Z r) x) as (F & U & L & _); [done|nia|by apply fin_real|by rewrite fin_leb, Z.leb_le|].
    specialize (L Fx). split; [done|]. split; [lia|]. split; lia.
  - assert (t = of_Z r) as ->.
    { rewrite Et, elapsed_later by (done || lia). apply refill_full; try done; try lia.
      pose proof (instant_exact _ Hi). pose proof (instant_exact _ Hn). lia. }
    split; [done|]. split; [lia|]. split; [nia|done].
Qed.

(** ** One call *)

Lemma shr_nonneg m l e n : 0 <= m -> 0 <= shr_m (fst (shr (shr_record_of_loc m l) e n)).
Proof.
  intros Hm. destruct (Z.le_gt_cases 0 n).
  - destruct (shr_spec m l e n Hm ltac:(done)) as (r & E & Em & _). rewrite E. simpl. rewrite Em. apply Z.div_pos; [done|].
    by apply Z.pow_pos_nonneg.
  - rewrite shr_neg by lia. by destruct l as [|[]].
Qed.

Lemma round_aux_not_nan s m e l : 0 <= m -> is_nan (binary_round_aux prec emax s m e l) = false.
Proof.
  intros Hm. unfold binary_round_aux, shr_fexp.
  pose proof (shr_nonneg m l e (fexp prec emax (Zdigits2 m + e) - e) Hm) as H1.
  destruct (shr (shr_record_of_loc m l) _ _) as [r e']. simpl in H1.
  assert (0 <= round_nearest_even (shr_m r) (loc_of_shr_record r)) as H2.
  { destruct (round_nearest_even_spec (shr_m r) (loc_of_shr_record r)) as [E|[E _]]; lia. }
  pose proof (shr_nonneg _ loc_Exact e'
    (fexp prec emax (Zdigits2 (round_nearest_even (shr_m r) (loc_of_shr_record r)) + e') - e') H2) as H3.
  destruct (shr (shr_record_of_loc (round_nearest_even _ _) _) _ _) as [r' e'']. simpl in H3.
  destruct (shr_m r'); [done| |lia]. by destruct (e'' <=? emax - prec).
Qed.

Lemma div_not_nan a w : fin a = true -> 0 < w < 2 ^ 53 -> is_nan (div a (of_Z w)) = false.
Proof.
  intros Fa Hw. destruct (of_Z_pos w Hw) as (m & e & -> & _ & _). destruct a as [| | |s ma ea]; try done.
  unfold div, SFdiv, SFdiv_core_binary. cbv zeta.
  set (m' := match ea - e - _ with Z0 => _ | Z.pos _ => _ | Z.neg _ => 0 end).
  assert (0 <= m') as Hm'.
  { unfold m'. destruct (ea - e - _) as [|p|p]; try lia. apply Z.shiftl_nonneg. lia. }
  clearbody m'. pose proof (Z_div_mod m' (Z.pos m) ltac:(lia)) as Hq.
  destruct (Z.div_eucl m' (Z.pos m)) as [q r]. apply round_aux_not_nan. nia.
Qed.

Lemma max_one_left x : is_nan x = false -> leb one (max one x) = true.
Proof.
  intros Hx. unfold max. change (is_nan one) with false. rewrite Hx. simpl orb. cbv iota.
  assert (forall y : number, leb one (if ltb one x then x else one) = true) as H.
  { intros _. destruct (ltb one x) eqn:E; [by apply ltb_leb|done]. }
  destruct x; try done; apply (H one).
Qed.

Lemma ceil_not_nan x : is_nan x = false -> is_nan (ceil x) = false.
Proof.
  destruct x as [| | |s m e]; intros; try done. simpl. eapply real_not_nan, rounds_real, of_Z_rounds.
Qed.

(** The requests already counted in the day of [now]. *)
Definition carried (last n now : Z) : Z := if bool_decide (utcDayOf last = utcDayOf now) then n else 0.

Section Call.

Context (b : BucketState.t) (cfg : RateLimitConfig.t) (last n now : Z).

Let t : number := refill b (RateLimitConfig.rps cfg) now.
Let m : Z := carried last n now.

(** The three ways a call ends. *)
Inductive call_spec : BucketState.t * RateLimitVerdict -> Prop :=
| call_capped b' reset :
    RateLimitConfig.dailyCap cfg <= m -> bucket_ok b' now m -> BucketState.tokens b' = t ->
    call_spec (b', Limited daily_cap (secondsToUtcMidnight now) reset)
| call_slowed b' retry reset :
    m < RateLimitConfig.dailyCap cfg -> units t < 2 ^ 1074 -> leb one retry = true ->
    bucket_ok b' now m -> BucketState.tokens b' = t -> call_spec (b', Limited rate retry reset)
| call_taken b' remaining reset :
    m < RateLimitConfig.dailyCap cfg -> 2 ^ 1074 <= units t -> bucket_ok b' now (m + 1) ->
    units (BucketState.tokens b') = units t - 2 ^ 1074 -> call_spec (b', Allowed remaining reset).

Lemma consumeBucket_spec :
  bucket_ok b last n -> config_ok cfg -> instant now -> last <= now -> call_spec (consumeBucket b cfg now).
Proof.
  intros Hb [Hr Hc] Hn Hle. destruct (refill_spec b _ last n now Hb Hn Hle Hr) as (Ft & Ut & _ & _). fold t in Ft, Ut.
  destruct Hb as [Hi Hl Hd _ _ Hu Hc0]. pose proof one_unit.
  assert (units t <= 2 ^ 14 * 2 ^ 1074) by nia.
  unfold consumeBucket. cbv zeta. fold t. rewrite Hd.
  assert (counts (if bool_decide (utcDayOf last = utcDayOf now) then BucketState.dayUsed b else zero) m /\ 0 <= m < 2 ^ 52)
    as [Hm Hm0].
  { unfold m, carried. case_bool_decide; [done|]. split; [apply counts_zero|lia]. }
  set (u := if bool_decide _ then BucketState.dayUsed b else zero) in *. clearbody u.
  rewrite (counts_geb u m) by (done || lia). destruct (Z.leb_spec (RateLimitConfig.dailyCap cfg) m).
  - apply call_capped; [done| |done]. split; simpl; done || lia.
  - rewrite fin_ltb, units_one by done. destruct (Z.ltb_spec (units t) (2 ^ 1074)).
    + apply call_slowed; [done|done| |split; simpl; done || lia|done].
      apply max_one_left, ceil_not_nan, div_not_nan; [|lia].
      pose proof (sub_rounds one t eq_refl Ft) as Rs. rewrite units_one in Rs.
      apply (rounds_grid _ _ 0) in Rs; [tauto|lia..].
    + destruct (sub_one_exact t Ft) as [Fs Us]; [lia|].
      apply call_taken; [done|done| |done]. split; simpl; try done; try lia. by apply counts_succ; [|lia|lia].
Qed.

End Call.

(** ** The store *)

Definition store_ok (st : Buckets) (now : Z) : Prop :=
  forall k b, st !! k = Some b -> exists last n, bucket_ok b last n /\ last <= now.

Lemma store_ok_empty now : store_ok ∅ now.
Proof. intros k b H. by rewrite lookup_empty in H. Qed.

Lemma fresh_ok cfg now : config_ok cfg -> instant now -> bucket_ok (freshBucket cfg now) now 0.
Proof.
  intros [Hr _] Hn. destruct (of_Z_exact (RateLimitConfig.rps cfg) ltac:(lia)) as [F U]. pose proof one_unit.
  split; simpl; done || lia || (rewrite U; nia).
Qed.

Lemma call_result b cfg last n now b' v :
  call_spec b cfg last n now (b', v) -> exists n', bucket_ok b' now n'.
Proof. inversion 1; subst; eauto. Qed.

Lemma call_tokens b cfg last n now b' v :
  call_spec b cfg last n now (b', v) ->
  units (BucketState.tokens b') =
    units (refill b (RateLimitConfig.rps cfg) now) - (if allowed v then 2 ^ 1074 else 0).
Proof. inversion 1 as [? ? ? ? E|? ? ? ? ? ? ? E|? ? ? ? ? ? E]; subst; simpl; rewrite E; lia. Qed.

Lemma consumeMemory_ok st k cfg now :
  store_ok st now -> config_ok cfg -> instant now ->
  exists b last n b' v, default (freshBucket cfg now) (st !! k) = b /\ bucket_ok b last n /\ last <= now /\
    call_spec b cfg last n now (b', v) /\ consumeMemory st k cfg now = (<[k := b']> st, v) /\
    store_ok (<[k := b']> st) now.
Proof.
  intros Hst Hc Hn. set (b := default (freshBucket cfg now) (st !! k)).
  assert (exists last n, bucket_ok b last n /\ last <= now) as (last & n & Hb & Hle).
  { unfold b. destruct (st !! k) as [b0|] eqn:E; [by apply (Hst k)|]. exists now, 0. split; [by apply fresh_ok|lia]. }
  pose proof (consumeBucket_spec b cfg last n now Hb Hc Hn Hle) as Hs.
  unfold consumeMemory. fold b. destruct (consumeBucket b cfg now) as [b' v].
  exists b, last, n, b', v. do 5 (split; [done|]). intros k' b0. rewrite lookup_insert_Some.
  intros [[<- <-]|[_ H]]; [|by apply (Hst k')].
  destruct (call_result _ _ _ _ _ _ _ Hs) as [n' Hb']. exists now, n'. split; [done|lia].
Qed.

Lemma consumeMemory_store_ok st k cfg now :
  store_ok st now -> config_ok cfg -> instant now -> store_ok (consumeMemory st k cfg now).1 now.
Proof.
  intros Hst Hc Hi. destruct (consumeMemory_ok st k cfg now Hst Hc Hi) as (b & last & n & b' & v & _ & _ & _ & _ & E & Hok).
  by rewrite E.
Qed.

Lemma store_ok_mono st t t' : store_ok st t -> t <= t' -> store_ok st t'.
Proof. intros H Hle k b Hk. destruct (H k b Hk) as (last & n & Hb & ?). exists last, n. split; [done|lia]. Qed.

(** A bucket knows its last call and its count. *)
Lemma bucket_ok_inj b last n last' n' : bucket_ok b last n -> bucket_ok b last' n' -> last = last' /\ n = n'.
Proof.
  intros [Hi Hl _ _ _ [_ Hu] _] [Hi' Hl' _ _ _ [_ Hu'] _]. pose proof (instant_exact _ Hi). pose proof (instant_exact _ Hi').
  rewrite Hl in Hl'. rewrite Hu in Hu'. pose proof one_unit. split; [|nia].
  pose proof (of_Z_order last last' ltac:(lia) ltac:(lia)) as L1. pose proof (of_Z_order last' last ltac:(lia) ltac:(lia)) as L2.
  rewrite Hl', leb_refl in L1, L2 by (by apply fin_not_nan, of_Z_fin). lia.
Qed.

(** A sequence of calls whose clock does not run back. *)
Fixpoint calls_ok (from : Z) (cs : list Call.t) : Prop :=
  match cs with
  | [] => True
  | c :: cs => from <= Call.at_ c /\ instant (Call.at_ c) /\ config_ok (Call.cfg c) /\ calls_ok (Call.at_ c) cs
  end.

Lemma calls_ok_mono t t' cs : calls_ok t cs -> t' <= t -> calls_ok t' cs.
Proof. destruct cs as [|c cs]; simpl; [done|]. intros [? H] ?. split; [lia|exact H]. Qed.

(** The in-memory store answers every call, one bucket step at a time. *)
Lemma serve_cons st c cs from res :
  store_ok st from -> calls_ok from (c :: cs) -> run st (c :: cs) = Some res ->
  exists b last n b' v h, default (freshBucket (Call.cfg c) (Call.at_ c)) (st !! Call.bucket c) = b /\
    bucket_ok b last n /\ last <= Call.at_ c /\ call_spec b (Call.cfg c) last n (Call.at_ c) (b', v) /\
    store_ok (<[Call.bucket c := b']> st) (Call.at_ c) /\
    run (<[Call.bucket c := b']> st) cs = Some (res.1, h) /\ res.2 = (c, v) :: h.
Proof.
  intros Hst (Hle & Hi & Hc & _) H.
  destruct (consumeMemory_ok st (Call.bucket c) (Call.cfg c) (Call.at_ c) (store_ok_mono _ _ _ Hst Hle) Hc Hi)
    as (b & last & n & b' & v & Eb & Hb & Hl & Hs & E & Hok).
  simpl in H. unfold consume, InMemoryRateLimiterStore in H. simpl in H. rewrite E in H. simpl in H.
  destruct (run (<[Call.bucket c := b']> st) cs) as [[st' h]|] eqn:Er; [|done]. injection H as <-.
  exists b, last, n, b', v, h. repeat (split; [done|]). done.
Qed.

Lemma calls_ok_app cs cs' from :
  calls_ok from (cs ++ cs') -> calls_ok from cs /\ calls_ok (foldl (fun _ c => Call.at_ c) from cs) cs'.
Proof.
  revert from. induction cs as [|c cs IH]; intros from; simpl; [done|].
  intros (? & ? & ? & H). destruct (IH _ H). repeat (split; [done|]). done.
Qed.

Lemma run_store_ok cs : forall st from st' h,
  store_ok st from -> calls_ok from cs -> run st cs = Some (st', h) ->
  store_ok st' (foldl (fun _ c => Call.at_ c) from cs).
Proof.
  induction cs as [|c cs IH]; intros st from st' h Hst Hcs H; [by simplify_eq/=|].
  destruct (serve_cons st c cs from _ Hst Hcs H) as (b & last & n & b' & v & h' & _ & _ & _ & _ & Hok & Hr & _).
  apply (IH _ _ _ _ Hok (proj2 (proj2 (proj2 Hcs))) Hr).
Qed.

(** ** The rate of any window *)

Section Window.

Context (k : string) (r t1 : Z).

(** Every call on the bucket [k] uses the rate [r], and none comes after
    [t1]. *)
Definition on_rate (cs : list Call.t) : Prop :=
  forall c, c ∈ cs -> Call.at_ c <= t1 /\ (Call.bucket c = k -> RateLimitConfig.rps (Call.cfg c) = r).

Lemma admitted_cons c v h :
  Z.of_nat (length (admitted k ((c, v) :: h))) =
  (if bool_decide (Call.bucket c = k) && allowed v then 1 else 0) + Z.of_nat (length (admitted k h)).
Proof. unfold admitted. cbn [List.filter fst snd]. destruct (_ && _); simpl length; lia. Qed.

(** Spending: what a bucket admits from now on is covered by its tokens and the
    time left. *)
Lemma spent_from cs : forall st from st' h b last n,
  store_ok st from -> calls_ok from cs -> on_rate cs -> run st cs = Some (st', h) ->
  st !! k = Some b -> bucket_ok b last n -> last <= from -> from <= t1 -> 1 <= r ->
  1000 * 2 ^ 1074 * Z.of_nat (length (admitted k h)) <=
    1000 * units (BucketState.tokens b) + (t1 - last) * r * 2 ^ 1074 + Z.of_nat (length cs) * (3000 * 2 ^ 1038).
Proof.
  induction cs as [|c cs IH]; intros st from st' h b last n Hst Hcs Hon H Hk Hb Hl Ht Hr.
  - simplify_eq/=. pose proof (ok_range _ _ _ Hb) as [Hp _]. pose proof one_unit as HU.
    set (U := 2 ^ 1074) in *. clearbody U. assert (0 <= (t1 - last) * (r * U)) by (apply Z.mul_nonneg_nonneg; nia). lia.
  - destruct (serve_cons st c cs from _ Hst Hcs H) as (b0 & last0 & n0 & b' & v & h' & Eb & Hb0 & Hl0 & Hs & Hok & Hrun & Eh).
    simpl in Eh, Hrun. subst h. destruct Hcs as (Hle & Hi & Hc & Hcs).
    destruct (Hon c) as [Hat Hrate]; [by left|]. rewrite admitted_cons. cbn [length].
    assert (on_rate cs) as Hon' by (intros c' ?; apply Hon; by right). pose proof one_unit.
    assert (0 < 2 ^ 1038) by (by apply Z.pow_pos_nonneg).
    destruct (decide (Call.bucket c = k)) as [Ek|Ek].
    + rewrite bool_decide_eq_true_2, andb_true_l by done. specialize (Hrate Ek).
      rewrite Ek, Hk in Eb. simpl in Eb. subst b0.
      destruct (call_result _ _ _ _ _ _ _ Hs) as [n' Hb'].
      destruct (refill_spec b r last n (Call.at_ c) Hb Hi) as (_ & _ & Hu & _); [lia|destruct Hc; lia|].
      rewrite <- Hrate in Hu at 1.
      specialize (IH _ _ _ _ b' (Call.at_ c) n' Hok Hcs Hon' Hrun).
      rewrite Ek, lookup_insert_eq in IH. specialize (IH eq_refl Hb' ltac:(lia) Hat Hr).
      pose proof (call_tokens _ _ _ _ _ _ _ Hs) as Et.
      rewrite Et in IH. clear - IH Hu. revert IH Hu. generalize (2 ^ 1074) (2 ^ 1038). intros U V IH Hu.
      destruct (allowed v); lia.
    + rewrite bool_decide_eq_false_2, andb_false_l by done.
      specialize (IH _ _ _ _ b last n Hok Hcs Hon' Hrun). rewrite lookup_insert_ne in IH by done.
      specialize (IH Hk Hb ltac:(lia) Hat Hr). clear - IH H1. revert IH H1. generalize (2 ^ 1074) (2 ^ 1038). intros. lia.
Qed.

(** Whatever the bucket holds, its first call in the window caps it. *)
Lemma spent_window t0 cs : forall st from st' h,
  store_ok st from -> calls_ok from cs -> on_rate cs -> run st cs = Some (st', h) ->
  t0 <= from <= t1 -> 1 <= r ->
  1000 * 2 ^ 1074 * Z.of_nat (length (admitted k h)) <=
    r * (1000 + (t1 - t0)) * 2 ^ 1074 + Z.of_nat (length cs) * (3000 * 2 ^ 1038).
Proof.
  induction cs as [|c cs IH]; intros st from st' h Hst Hcs Hon H Ht Hr.
  - simplify_eq/=. pose proof one_unit as HU. revert HU. generalize (2 ^ 1074). intros U HU.
    assert (0 <= (1000 + (t1 - t0)) * (r * U)) by (apply Z.mul_nonneg_nonneg; nia). lia.
  - destruct (serve_cons st c cs from _ Hst Hcs H) as (b0 & last0 & n0 & b' & v & h' & Eb & Hb0 & Hl0 & Hs & Hok & Hrun & Eh).
    simpl in Eh, Hrun. subst h. destruct Hcs as (Hle & Hi & Hc & Hcs).
    destruct (Hon c) as [Hat Hrate]; [by left|]. rewrite admitted_cons. cbn [length].
    assert (on_rate cs) as Hon' by (intros c' ?; apply Hon; by right).
    assert (0 < 2 ^ 1038) as HV by (by apply Z.pow_pos_nonneg). pose proof one_unit as HU.
    destruct (decide (Call.bucket c = k)) as [Ek|Ek].
    + rewrite bool_decide_eq_true_2, andb_true_l by done. specialize (Hrate Ek).
      destruct (call_result _ _ _ _ _ _ _ Hs) as [n' Hb'].
      destruct (refill_spec b0 (RateLimitConfig.rps (Call.cfg c)) last0 n0 (Call.at_ c) Hb0 Hi Hl0) as (_ & [_ Hu] & _);
        [destruct Hc; lia|].
      assert (1000 * 2 ^ 1074 * Z.of_nat (length (admitted k h')) <=
        1000 * units (BucketState.tokens b') + (t1 - Call.at_ c) * r * 2 ^ 1074 + Z.of_nat (length cs) * (3000 * 2 ^ 1038))
        as Hrest.
      { apply (spent_from cs _ (Call.at_ c) st' h' b' (Call.at_ c) n' Hok Hcs Hon' Hrun); try done.
        by rewrite Ek, lookup_insert_eq. }
      pose proof (call_tokens _ _ _ _ _ _ _ Hs) as Et.
      rewrite Et in Hrest. rewrite Hrate in *. assert (0 <= (Call.at_ c - t0) * r) as Hd by nia.
      clear - Hrest Hu Hd HU HV. revert Hrest Hu HU HV. generalize (2 ^ 1074) (2 ^ 1038). intros U V Hrest Hu HU HV.
      assert (0 <= (Call.at_ c - t0) * r * U) by (by apply Z.mul_nonneg_nonneg; [|lia]).
      destruct (allowed v); lia.
    + rewrite bool_decide_eq_false_2, andb_false_l by done.
      specialize (IH _ _ _ _ Hok Hcs Hon' Hrun ltac:(lia) Hr). clear - IH HV. revert IH HV.
      generalize (2 ^ 1074) (2 ^ 1038). intros. lia.
Qed.

End Window.

(** The token bucket limits the rate of every window of calls: starting
    from any store earlier calls left, with whatever other buckets are served
    in between, the calls of the instants [t0] to [t1] on a bucket whose limit
    is [r] requests per second admit at most [r + r (t1 - t0) / 1000] requests.
    The binary64 roundings of the refills cost nothing up to sixteen million
    calls. *)
Theorem rate_window pre cs k r t0 t1 st h0 st' h :
  calls_ok 0 (pre ++ cs) -> run (∅ : Buckets) pre = Some (st, h0) -> run st cs = Some (st', h) ->
  (forall c, c ∈ cs -> t0 <= Call.at_ c <= t1 /\ (Call.bucket c = k -> RateLimitConfig.rps (Call.cfg c) = r)) ->
  1 <= r -> t0 <= t1 -> Z.of_nat (length cs) <= 2 ^ 24 ->
  1000 * Z.of_nat (length (admitted k h)) <= r * (1000 + (t1 - t0)).
Proof.
  intros Hcs Hpre Hrun Hwin Hr Ht Hlen. destruct (decide (cs = [])) as [->|Hne]; [simplify_eq/=; nia|].
  destruct (calls_ok_app pre cs 0 Hcs) as [Hp Hc].
  pose proof (run_store_ok _ _ _ _ _ (store_ok_empty 0) Hp Hpre) as Hst.
  set (from := foldl (fun _ c => Call.at_ c) 0 pre) in *.
  assert (exists from', store_ok st from' /\ calls_ok from' cs /\ t0 <= from' <= t1) as (from' & Hst' & Hc' & Hf).
  { destruct cs as [|c cs]; [by simplify_eq/=|].
    exists (Call.at_ c). destruct (Hwin c) as [? _]; [by left|]. destruct Hc as [? Hc].
    split; [by eapply store_ok_mono|]. split; [|done]. split; [lia|done]. }
  assert (on_rate k r t1 cs) as Hon by (intros c Hin; destruct (Hwin c Hin) as [? ?]; split; [lia|done]).
  pose proof (spent_window k r t1 t0 cs _ _ _ _ Hst' Hc' Hon Hrun Hf Hr) as Hs. pose proof one_unit.
  assert (Z.of_nat (length cs) * (3000 * 2 ^ 1038) < 2 ^ 1074) as He.
  { change (2 ^ 1074) with (2 ^ 36 * 2 ^ 1038). assert (0 < 2 ^ 1038) by (by apply Z.pow_pos_nonneg).
    revert H0. generalize (2 ^ 1038). intros V HV. nia. }
  clear - Hs He H. revert Hs He H. generalize (2 ^ 1038). generalize (2 ^ 1074). intros U V Hs He HU.
  enough (1000 * Z.of_nat (length (admitted k h)) < r * (1000 + (t1 - t0)) + 1) by lia.
  apply (Z.mul_lt_mono_pos_r U); lia.
Qed.

(** ** The advice *)

Lemma max_one_right x : is_nan x = false -> leb x (max one x) = true.
Proof.
  intros Hx. unfold max. change (is_nan one) with false. rewrite Hx. simpl orb. cbv iota.
  assert (leb x (if ltb one x then x else one) = true) as H.
  { destruct (ltb one x) eqn:E; [by apply leb_refl|]. by apply not_ltb_leb. }
  by destruct x.
Qed.

(** A whole number of seconds that is not less than the ceiling of [n / 1000]
    covers [n] milliseconds. *)
Lemma ceil_seconds n s : 0 < n < 2 ^ 40 -> 0 <= s < 2 ^ 31 ->
  leb (ceil (div (of_Z n) (of_Z 1000))) (of_Z s) = true -> n <= 1000 * s.
Proof.
  intros Hn Hs H. destruct (Z.le_gt_cases n (1000 * s)) as [|Hlt]; [done|exfalso].
  destruct (div_of_Z n 1000) as [Hr Hb Ha]; [lia..|]. pose proof one_unit as HU.
  destruct (double_exists (s * 2 ^ 20 + 1) (-20)) as (y & Fy & Uy); [lia..|].
  specialize (Hb y Fy). rewrite Uy in Hb. specialize (Hb ltac:(lia)).
  destruct (of_Z_exact n ltac:(lia)) as [Fn Un]. specialize (Ha _ Fn). rewrite Un in Ha. specialize (Ha ltac:(lia)).
  destruct (real_cases _ Hr) as [F|[[] E]];
    [|by rewrite E in Hb; apply fin_spec in Fy; destruct y as [[]| | |[] ? ?]
     |by rewrite E in Ha; apply fin_spec in Fn; destruct (of_Z n) as [[]| | |[] ? ?]].
  rewrite fin_leb, Z.leb_le in Ha, Hb by done. rewrite Uy in Hb. rewrite Un in Ha.
  set (d := div (of_Z n) (of_Z 1000)) in *. set (k := - (- units d / 2 ^ 1074)).
  assert (s + 1 <= k <= n) as Hk.
  { unfold k. pose proof (Z.div_mod (- units d) (2 ^ 1074) ltac:(lia)).
    pose proof (Z.mod_pos_bound (- units d) (2 ^ 1074) ltac:(lia)).
    change (-20 + 1074) with 1054 in Hb. change (2 ^ 1074) with (2 ^ 20 * 2 ^ 1054) in *.
    assert (0 < 2 ^ 1054) as HV by (by apply Z.pow_pos_nonneg). revert HV Hb Ha H0 H1. generalize (2 ^ 1054). clear. intros V HV Hb Ha H0 H1. nia. }
  assert (ceil d = of_Z k) as Ec.
  { destruct d as [sd| | |sd m e]; try done. simpl in Hb. lia. }
  rewrite Ec, of_Z_order, Z.leb_le in H by lia. lia.
Qed.

(** Waiting out [secondsToUtcMidnight] reaches the next day. *)
Lemma midnight_reached now s : instant now -> 0 <= s < 2 ^ 31 ->
  leb (secondsToUtcMidnight now) (of_Z s) = true -> (now / DAY_MS + 1) * DAY_MS <= now + 1000 * s /\ 1 <= s.
Proof.
  intros Hi Hs H. unfold secondsToUtcMidnight in H.
  pose proof (Z.div_mod now DAY_MS ltac:(done)) as Hd. pose proof (Z.mod_pos_bound now DAY_MS ltac:(done)) as Hm.
  set (M := (now / DAY_MS + 1) * DAY_MS) in *. unfold instant in Hi.
  assert (0 < M - now <= 86400000) as Hn by (unfold M, DAY_MS in *; lia).
  rewrite sub_of_Z in H by lia.
  assert (is_nan (ceil (div (of_Z (M - now)) (of_Z 1000))) = false) as Hnan.
  { apply ceil_not_nan, real_not_nan, quotient_real with (n := M - now) (d := 1000). apply div_of_Z; lia. }
  split.
  - enough (M - now <= 1000 * s) by lia. apply ceil_seconds; [lia|lia|]. eapply leb_trans; [|exact H]. by apply max_one_right.
  - assert (leb (of_Z 1) (of_Z s) = true) as H1 by (eapply leb_trans; [|exact H]; by apply max_one_left).
    rewrite of_Z_order, Z.leb_le in H1 by lia. done.
Qed.

(** C19. The [Retry-After] of a refusal is honoured: whichever of the two limits
    refused a call, a caller that waits at least the advised number of seconds
    and is the next on the bucket is admitted, under any configuration of that time
    whose daily cap was not lowered. *)
Theorem retry_after_honoured st k cfg now st1 reason retry reset s cfg' now' :
  store_ok st now -> config_ok cfg -> instant now ->
  consumeMemory st k cfg now = (st1, Limited reason retry reset) ->
  0 <= s < 2 ^ 31 -> leb retry (of_Z s) = true ->
  config_ok cfg' -> RateLimitConfig.dailyCap cfg <= RateLimitConfig.dailyCap cfg' ->
  instant now' -> now + 1000 * s <= now' ->
  allowed (consumeMemory st1 k cfg' now').2 = true.
Proof.
  intros Hst Hc Hi H Hs Hret Hc' Hcap Hi' Hle.
  destruct (consumeMemory_ok st k cfg now Hst Hc Hi) as (b & last & n & b1 & v & _ & Hb & Hl & Hcall & E & Hok).
  rewrite E in H. injection H as <- ->.
  assert (exists m, bucket_ok b1 now m /\ 1 <= s /\ carried now m now' < RateLimitConfig.dailyCap cfg') as (m & Hb1 & H1 & Hm).
  { inversion Hcall as [? ? Hcd Hb1 _|? ? ? Hcd _ H1 Hb1 _|]; subst; eexists; (split; [exact Hb1|]).
    - destruct (midnight_reached now s Hi Hs Hret) as [Hmid ?]. split; [done|]. unfold carried.
      rewrite bool_decide_eq_false_2; [destruct Hc'; lia|]. rewrite utcDayOf_eq by done.
      apply Z.lt_neq. apply Z.lt_le_trans with (now / DAY_MS + 1); [lia|].
      apply Z.div_le_lower_bound; [done|]. lia.
    - assert (leb (of_Z 1) (of_Z s) = true) as Hs1 by (by eapply leb_trans).
      rewrite of_Z_order, Z.leb_le in Hs1 by lia. split; [done|]. unfold carried at 1.
      destruct Hc'. case_bool_decide; [lia|lia]. }
  assert (store_ok (<[k := b1]> st) now') as Hst1 by (eapply store_ok_mono; [exact Hok|lia]).
  unfold consumeMemory. rewrite lookup_insert_eq. simpl default.
  pose proof (consumeBucket_spec b1 cfg' now m now' Hb1 Hc' Hi' ltac:(lia)) as Hnext.
  destruct (refill_spec b1 (RateLimitConfig.rps cfg') now m now' Hb1 Hi' ltac:(lia) ltac:(destruct Hc'; lia))
    as (_ & _ & _ & Hfull). specialize (Hfull ltac:(lia)).
  destruct (consumeBucket b1 cfg' now') as [b2 v2].
  inversion Hnext as [? ? Hcd|? ? ? _ Hlow|]; subst; simpl; try done; [lia|].
  rewrite Hfull in Hlow. destruct Hc'. destruct (of_Z_exact (RateLimitConfig.rps cfg') ltac:(lia)) as [_ U].
  rewrite U in Hlow. pose proof one_unit. nia.
Qed.

(** ** Witnesses *)

Definition T0 : Z := 1790000000000.

(** Four requests in half a second on a key of two per second: three pass. *)
Definition hurried : list Call.t :=
  map (fun t => Call.mk "k" (RateLimitConfig.mk 2 100 1024) (T0 + t)) [0; 1; 2; 500].

Lemma hurried_ok from : from <= T0 -> calls_ok from hurried.
Proof. intros H. simpl. unfold instant, config_ok. simpl. unfold T0 in *. repeat split; done || lia. Qed.

Lemma rate_window_witness :
  exists st h, run (∅ : Buckets) hurried = Some (st, h) /\ length (admitted "k" h) = 3%nat /\
    1000 * Z.of_nat (length (admitted "k" h)) <= 2 * (1000 + (T0 + 500 - T0)).
Proof.
  destruct (run (∅ : Buckets) hurried) as [[st h]|] eqn:E; [|by vm_compute in E]. exists st, h.
  split; [done|]. split.
  - assert (option_map (fun p => length (admitted "k" p.2)) (run (∅ : Buckets) hurried) = Some 3%nat) as H by (by vm_compute).
    rewrite E in H. simpl in H. congruence.
  - eapply (rate_window [] hurried "k" 2 T0 (T0 + 500) ∅ []); [by apply hurried_ok|done|exact E| |done|done|done].
    intros c Hin. apply list_elem_of_In in Hin.
    destruct Hin as [<-|[<-|[<-|[<-|[]]]]]; simpl; unfold T0; (split; [lia|done]).
Defined.

Lemma retry_after_honoured_witness :
  let cfg := RateLimitConfig.mk 1 100 1024 in
  let st := (consumeMemory ∅ "k" cfg T0).1 in
  allowed (consumeMemory st "k" cfg T0).2 = false /\
  allowed (consumeMemory (consumeMemory st "k" cfg T0).1 "k" cfg (T0 + 1000)).2 = true.
Proof.
  intros cfg st. assert (config_ok cfg) as Hc by (unfold config_ok; simpl; lia).
  assert (match (consumeMemory st "k" cfg T0).2 with Limited rate r _ => leb r (of_Z 1) | _ => false end = true) as H
    by (vm_compute; reflexivity).
  assert (store_ok st T0) as Hst by (apply consumeMemory_store_ok; [apply store_ok_empty|exact Hc|unfold instant, T0; lia]).
  clearbody st cfg. destruct (consumeMemory st "k" cfg T0) as [st1 v] eqn:E. cbn [fst snd] in *.
  destruct v as [|[] r t]; [discriminate| |discriminate]. split; [reflexivity|].
  eapply (retry_after_honoured st "k" cfg T0 st1 rate r t 1 cfg (T0 + 1000));
    first [exact Hst|exact Hc|exact E|exact H|unfold instant, T0; lia|lia].
Defined.

End LimitsBucket.
