(* ===== verification/LimitsStores.v ===== *)
(** * The two stores are one limiter

    [RedisRateLimiterStore] refines [InMemoryRateLimiterStore]: on every
    sequence of calls the script returns the verdicts of the in-memory store,
    although its hashes expire two days after their last touch.  The texts of
    Redis are parameters: numbers must read back. *)

From stdpp Require Import gmap strings.
From S2P Require Import Prelude Number Print Prompt Calendar Limits LimitsBucket.

Module LimitsStores.
Import Num Prompt Calendar Limits LimitsBucket.
Local Open Scope Z_scope.

(** The numbers a bucket holds: zero or positive. *)
Definition plain (x : number) : Prop := x = zero \/ (fin x = true /\ 0 < units x).

Lemma plain_of_Z z : 0 <= z < 2 ^ 53 -> plain (of_Z z).
Proof.
  intros Hz. destruct (Z.eq_dec z 0) as [->|]; [by left|right]. destruct (of_Z_exact z Hz) as [F ->].
  pose proof one_unit. split; [done|lia].
Qed.

Lemma plain_add a b : plain a -> plain b -> fin (add a b) = true -> plain (add a b).
Proof.
  intros [->|[Fa Ua]] [->|[Fb Ub]] F; [by left|..]; right; (split; [done|]).
  - pose proof (add_rounds zero b eq_refl Fb) as R. destruct (rounds_exact _ _ _ R Fb eq_refl) as [_ ->]. simpl. lia.
  - pose proof (add_rounds a zero Fa eq_refl) as R. rewrite Z.add_0_r in R.
    destruct (rounds_exact _ _ _ R Fa eq_refl) as [_ ->]. lia.
  - pose proof (rounds_sign _ _ (add_rounds a b Fa Fb)) as S. rewrite (proj2 (Z.compare_gt_iff _ _)) in S by lia.
    destruct (add a b) as [| | |[] m e]; try done. simpl. apply fin_spec, bounded_spec in F as [? _].
    apply mag_pos. change umin with (-1074). lia.
Qed.

(** The refill of a bucket that was just made. *)
Lemma refill_fresh cfg now : config_ok cfg -> instant now ->
  refill (freshBucket cfg now) (RateLimitConfig.rps cfg) now = of_Z (RateLimitConfig.rps cfg).
Proof.
  intros [Hr _] Hi. unfold refill. simpl. rewrite elapsed_same by done.
  destruct (of_Z_exact (RateLimitConfig.rps cfg) ltac:(lia)) as [F U]. pose proof one_unit.
  destruct (of_Z_pos (RateLimitConfig.rps cfg) ltac:(lia)) as (m & e & E & _ & _).
  assert (mul zero (of_Z (RateLimitConfig.rps cfg)) = zero) as -> by (by rewrite E).
  pose proof (add_rounds _ zero F eq_refl) as R. rewrite Z.add_0_r in R.
  destruct (rounds_exact _ _ _ R F eq_refl) as [Fx Ux].
  assert (add (of_Z (RateLimitConfig.rps cfg)) zero = of_Z (RateLimitConfig.rps cfg)) as ->.
  { apply units_inj; [done|done|congruence|]. rewrite Ux, U. nia. }
  apply min_cap; [done|nia|by apply fin_real| |by apply leb_refl, fin_not_nan].
  rewrite fin_leb, U, Z.leb_le by done. simpl. nia.
Qed.

(** Two days after its last call a bucket behaves as a new one. *)
Lemma expired_fresh b cfg last n now :
  bucket_ok b last n -> config_ok cfg -> instant now -> last + 1000 * BUCKET_TTL_SEC <= now ->
  consumeBucket b cfg now = consumeBucket (freshBucket cfg now) cfg now.
Proof.
  intros Hb Hc Hi Hle. change (1000 * BUCKET_TTL_SEC) with (2 * DAY_MS) in Hle.
  destruct (refill_spec b (RateLimitConfig.rps cfg) last n now Hb Hi) as (_ & _ & _ & Hfull);
    [unfold DAY_MS in Hle; lia|destruct Hc; lia|]. specialize (Hfull ltac:(unfold DAY_MS in Hle; lia)).
  assert (BucketState.day b <> utcDayOf now) as Hday.
  { rewrite (ok_day _ _ _ Hb), utcDayOf_eq by (done || apply Hb). apply Z.lt_neq.
    apply Z.lt_le_trans with (last / DAY_MS + 2); [lia|]. apply Z.div_le_lower_bound; [done|].
    pose proof (Z.mul_div_le last DAY_MS ltac:(done)). lia. }
  unfold consumeBucket. rewrite Hfull, refill_fresh by done. cbn [BucketState.day BucketState.dayUsed freshBucket].
  by rewrite (bool_decide_eq_false_2 _ Hday), bool_decide_eq_true_2.
Qed.

Lemma plain_fin x : plain x -> fin x = true.
Proof. by intros [->|[? _]]. Qed.

Lemma plain_min c x : plain c -> 0 < units c -> plain x -> plain (min c x).
Proof.
  intros Hc Uc Hx. assert (min c x = if ltb x c then x else c) as ->; [|by destruct (ltb x c)].
  unfold min. rewrite (fin_not_nan c), (fin_not_nan x) by (by apply plain_fin). by destruct c, x.
Qed.

Lemma refill_plain b r last n now :
  bucket_ok b last n -> plain (BucketState.tokens b) -> instant now -> last <= now -> 1 <= r <= 2 ^ 14 ->
  plain (refill b r now).
Proof.
  intros Hb Hp Hi Hle Hr. pose proof (plain_of_Z r ltac:(lia)) as Pr.
  destruct (of_Z_exact r ltac:(lia)) as [Fr Ur]. pose proof one_unit.
  destruct (refill_spec b r last n now Hb Hi Hle Hr) as (_ & _ & _ & Hfull).
  destruct (Z.le_gt_cases (last + 1000) now) as [Hs|Hs]; [by rewrite Hfull|].
  unfold refill. rewrite (ok_refilled _ _ _ Hb). apply plain_min; [done|nia|].
  destruct (Z.eq_dec last now) as [->|Hne].
  - rewrite elapsed_same by done. destruct (of_Z_pos r ltac:(lia)) as (m & e & -> & _ & _).
    change (mul zero (S754_finite false m e)) with zero. apply plain_add; [done|by left|].
    pose proof (add_rounds _ zero (plain_fin _ Hp) eq_refl) as R. rewrite Z.add_0_r in R.
    by destruct (rounds_exact _ _ _ R (plain_fin _ Hp) eq_refl).
  - rewrite elapsed_later by (done || lia || apply Hb).
    destruct (quotient_part (now - last) ltac:(lia)) as (Fe & Le & Ue).
    destruct (refill_part (BucketState.tokens b) r (now - last)) as (Fx & _); [apply Hb|apply Hb|done|lia|].
    apply plain_add; [done| |done]. right.
    assert (0 < 2 ^ 1014) by (by apply Z.pow_pos_nonneg). set (q := div _ _) in *.
    pose proof (mul_of_Z_rounds q r Fe Le ltac:(lia)) as R.
    assert (fin (mul q (of_Z r)) = true) as Fp by (apply (rounds_grid _ _ (-36)) in R; [tauto|nia|lia|nia]).
    split; [done|]. pose proof (rounds_sign _ _ R) as S. rewrite (proj2 (Z.compare_gt_iff _ _)) in S by nia.
    destruct (mul q (of_Z r)) as [| | |[] m e]; try done. simpl. apply fin_spec, bounded_spec in Fp as [? _].
    apply mag_pos. change umin with (-1074). lia.
Qed.

Definition bucket_plain (b : BucketState.t) : Prop := plain (BucketState.tokens b) /\ plain (BucketState.dayUsed b).

Lemma sub_one_plain t : plain t -> 2 ^ 1074 <= units t < 2 ^ 1127 -> plain (sub t one).
Proof.
  intros Ht Hu. destruct (sub_one_exact t (plain_fin _ Ht) Hu) as [F U].
  destruct (Z.eq_dec (units t) (2 ^ 1074)) as [E|]; [left|right; split; [done|lia]].
  assert (t = one) as ->; [|done]. apply units_inj; [by apply plain_fin|done|by rewrite units_one|]. pose proof one_unit. lia.
Qed.

Lemma counts_plain x n : counts x n -> 0 < n -> plain x.
Proof. intros [F U] Hn. right. split; [done|]. rewrite U. pose proof one_unit. nia. Qed.

Lemma consume_plain b cfg last n now :
  bucket_ok b last n -> bucket_plain b -> config_ok cfg -> instant now -> last <= now ->
  bucket_plain (consumeBucket b cfg now).1.
Proof.
  intros Hb [Ht Hu] Hc Hi Hle. pose proof (consumeBucket_spec b cfg last n now Hb Hc Hi Hle) as Hs.
  pose proof (refill_plain b (RateLimitConfig.rps cfg) last n now Hb Ht Hi Hle ltac:(destruct Hc; lia)) as Hr.
  destruct (refill_spec b (RateLimitConfig.rps cfg) last n now Hb Hi Hle ltac:(destruct Hc; lia)) as (_ & Ur & _).
  assert (plain (if bool_decide (BucketState.day b = utcDayOf now) then BucketState.dayUsed b else zero)) as Hd
    by (case_bool_decide; [done|by left]).
  unfold consumeBucket in *. cbv zeta in *. set (u := if bool_decide _ then _ else zero) in *. clearbody u.
  destruct (geb u _); [by split|]. destruct (ltb _ one); [by split|].
  inversion Hs as [| |? ? ? Hm Hone Hb' _]; subst. split; simpl.
  - apply sub_one_plain; [done|]. destruct Hc. pose proof one_unit. change (2 ^ 1127) with (2 ^ 53 * 2 ^ 1074). nia.
  - apply (counts_plain _ (carried last n now + 1)); [apply (ok_used _ _ _ Hb')|].
    unfold carried. pose proof (ok_count _ _ _ Hb). case_bool_decide; lia.
Qed.

(** ** The script *)

Section Redis.

Context (argv : number -> string) (tostring : number -> string) (tonumber : string -> option number).

(** Zero and the positive doubles read back: ioredis prints an argument, and
    Redis a Lua number, with the seventeen digits that determine it. *)
Context (read_arg : forall x, plain x -> tonumber (argv x) = Some x)
        (read_stored : forall x, plain x -> tonumber (tostring x) = Some x).

Definition hash_of (b : BucketState.t) : LuaHash.t :=
  LuaHash.mk (tostring (BucketState.tokens b)) (tostring (BucketState.lastRefillMs b))
    (BucketState.day b) (tostring (BucketState.dayUsed b)).

(** What the script sees of a bucket: its hash, unless it is missing. *)
Definition seen (r : Redis) (key : string) (cfg : RateLimitConfig.t) (now : Z) (b : BucketState.t) : Prop :=
  (hmget r key now = Some (hash_of b) /\ bucket_plain b /\ exists last, BucketState.lastRefillMs b = of_Z last /\ instant last)
  \/ (hmget r key now = None /\ b = freshBucket cfg now).

Lemma secondsToUtcMidnight_plain now : instant now -> plain (secondsToUtcMidnight now).
Proof.
  intros Hi. unfold secondsToUtcMidnight. pose proof (Z.div_mod now DAY_MS ltac:(done)).
  pose proof (Z.mod_pos_bound now DAY_MS ltac:(done)). unfold instant in Hi.
  rewrite sub_of_Z by (unfold DAY_MS in *; lia). set (n := _ - now).
  assert (0 < n <= 86400000) as Hn by (unfold n, DAY_MS in *; lia). clearbody n.
  assert (exists k, 0 <= k < 2 ^ 53 /\ ceil (div (of_Z n) (of_Z 1000)) = of_Z k) as (k & Hk & ->).
  { pose proof (quotient_pos n 1000 ltac:(lia) ltac:(lia)) as Hq. destruct (div_of_Z n 1000) as [Hr _ Ha]; [lia..|].
    destruct (of_Z_exact n ltac:(lia)) as [Fn Un]. specialize (Ha _ Fn). rewrite Un in Ha. specialize (Ha ltac:(pose proof one_unit; nia)).
    destruct (real_cases _ Hr) as [F|[[] E]];
      [|by rewrite E in Hq|by rewrite E in Ha; apply fin_spec in Fn; destruct (of_Z n) as [[]| | |[] ? ?]].
    rewrite fin_leb, Un, Z.leb_le in Ha by done. set (d := div (of_Z n) (of_Z 1000)) in *.
    rewrite fin_ltb, Z.ltb_lt in Hq by done. simpl in Hq.
    destruct d as [sd| | |sd m e]; try done. exists (- (- units (S754_finite sd m e) / 2 ^ 1074)). split; [|done].
    pose proof one_unit. split.
    - enough (- units (S754_finite sd m e) / 2 ^ 1074 < 1) by lia. apply Z.div_lt_upper_bound; lia.
    - enough (- n <= - units (S754_finite sd m e) / 2 ^ 1074) by lia. apply Z.div_le_lower_bound; lia. }
  destruct (of_Z_exact k Hk) as [F U]. unfold max. change (is_nan one) with false.
  rewrite (fin_not_nan _ F). simpl orb. cbv iota. pose proof (plain_of_Z k Hk).
  assert (plain one) by (right; by rewrite units_one).
  assert (plain (if ltb one (of_Z k) then of_Z k else one)) by (by destruct (ltb one (of_Z k))).
  by destruct (of_Z k).
Qed.

Lemma some_bind {A B} (f : A -> option B) x : Some x ≫= f = f x.
Proof. done. Qed.

(** One run of the script is one call on the bucket it sees. *)
Lemma script_step r key cfg now b :
  config_ok cfg -> instant now -> seen r key cfg now b ->
  exists raw, CONSUME_LUA tostring tonumber r now key
      (argv (of_Z (RateLimitConfig.rps cfg))) (argv (of_Z (RateLimitConfig.dailyCap cfg))) (argv (of_Z now))
      (utcDayOf now) (argv (of_Z BUCKET_TTL_SEC)) (argv (secondsToUtcMidnight now)) =
    Some (<[key := (hash_of (consumeBucket b cfg now).1, now + 1000 * BUCKET_TTL_SEC)]> r, raw) /\
    verdictOf raw = (consumeBucket b cfg now).2.
Proof.
  intros [Hr Hc] Hi Hseen. pose proof (instant_exact _ Hi).
  unfold CONSUME_LUA. rewrite !read_arg by ((by apply secondsToUtcMidnight_plain) || (apply plain_of_Z; unfold BUCKET_TTL_SEC; lia)).
  do 4 rewrite some_bind. cbv beta.
  assert (units (of_Z BUCKET_TTL_SEC) / 2 ^ 1074 = BUCKET_TTL_SEC) as -> by (by vm_compute).
  match goal with |- context [mbind _ ?x] =>
    assert (x = Some (BucketState.tokens b, BucketState.lastRefillMs b, BucketState.day b, BucketState.dayUsed b)) as -> end.
  { destruct Hseen as [(-> & [Pt Pu] & last & El & Hl)|[-> ->]];
      [|cbn [freshBucket BucketState.tokens BucketState.lastRefillMs BucketState.day BucketState.dayUsed]; reflexivity].
    rewrite some_bind. cbn [hash_of LuaHash.tokens LuaHash.lastRefillMs LuaHash.dayUsed].
    rewrite read_stored by done. cbv iota. rewrite some_bind, El. cbn [hash_of LuaHash.lastRefillMs LuaHash.dayUsed]. rewrite El, !read_stored by (done || apply plain_of_Z, instant_exact, Hl). done. }
  rewrite some_bind. unfold consumeBucket. cbv beta iota zeta. fold (refill b (RateLimitConfig.rps cfg) now).
  set (u := if bool_decide _ then BucketState.dayUsed b else zero). clearbody u.
  destruct (geb u _); [|destruct (ltb _ one)]; unfold hash_of;
    cbn [fst snd BucketState.tokens BucketState.lastRefillMs BucketState.day BucketState.dayUsed];
    eexists; (split; [reflexivity|]); reflexivity.
Qed.

(** The in-memory bucket of a key and the hash of the prefixed key, whose
    expiry is two days after the last call. *)
Definition related (st : Buckets) (r : Redis) : Prop :=
  forall k, match st !! k with
  | Some b => exists last n, bucket_ok b last n /\ bucket_plain b /\
      r !! (PREFIX +:+ k) = Some (hash_of b, last + 1000 * BUCKET_TTL_SEC)
  | None => r !! (PREFIX +:+ k) = None
  end.

Lemma related_insert st r k b last n :
  related st r -> bucket_ok b last n -> bucket_plain b ->
  related (<[k := b]> st) (<[PREFIX +:+ k := (hash_of b, last + 1000 * BUCKET_TTL_SEC)]> r).
Proof.
  intros Hr Hb Hp k'. destruct (decide (k = k')) as [<-|Hne].
  - rewrite !lookup_insert_eq. by exists last, n.
  - rewrite lookup_insert_ne by done. rewrite lookup_insert_ne; [apply Hr|].
    intros E. by apply Hne, (inj (String.append PREFIX)).
Qed.

(** One call of the script is one call of the in-memory store. *)
Lemma redis_step st r k cfg now from :
  related st r -> store_ok st from -> from <= now -> config_ok cfg -> instant now ->
  exists r', RedisRateLimiterStore argv tostring tonumber r k cfg now = Some (r', (consumeMemory st k cfg now).2) /\
    related (consumeMemory st k cfg now).1 r'.
Proof.
  intros Hr Hst Hle Hc Hi. set (b := default (freshBucket cfg now) (st !! k)).
  assert (exists b0 last n, seen r (PREFIX +:+ k) cfg now b0 /\ bucket_ok b0 last n /\ bucket_plain b0 /\ last <= now /\
    consumeBucket b0 cfg now = consumeBucket b cfg now) as (b0 & last & n & Hseen & Hb & Hp & Hl & E).
  { pose proof (fresh_ok cfg now Hc Hi) as Hf.
    assert (bucket_plain (freshBucket cfg now)) as Hfp by (split; [apply plain_of_Z; pose proof (rps_exact cfg Hc); lia|by left]).
    specialize (Hr k). destruct (st !! k) as [b1|] eqn:Ek; simpl in b.
    - destruct Hr as (last & n & Hb & Hp & Er). destruct (Hst k b1 Ek) as (last' & n' & Hb' & Hl').
      destruct (bucket_ok_inj _ _ _ _ _ Hb Hb') as [<- _].
      destruct (Z.lt_ge_cases now (last + 1000 * BUCKET_TTL_SEC)) as [Hlive|Hdead].
      + exists b1, last, n. split; [|split; [done|split; [done|split; [lia|done]]]].
        left. unfold hmget. rewrite Er, (proj2 (Z.ltb_lt _ _)) by done. split; [done|]. split; [done|].
        exists last. split; apply Hb.
      + exists (freshBucket cfg now), now, 0. split; [|split; [done|split; [done|split; [lia|]]]].
        * right. unfold hmget. by rewrite Er, (proj2 (Z.ltb_ge _ _)).
        * symmetry. by apply (expired_fresh b1 cfg last n).
    - exists (freshBucket cfg now), now, 0. split; [|split; [done|split; [done|split; [lia|done]]]].
      right. unfold hmget. by rewrite Hr. }
  destruct (script_step r (PREFIX +:+ k) cfg now b0 Hc Hi Hseen) as (raw & Es & Ev).
  unfold RedisRateLimiterStore. rewrite Es, some_bind. cbn [fst snd]. rewrite Ev, E.
  pose proof (consume_plain b0 cfg last n now Hb Hp Hc Hi Hl) as Hp'. rewrite E in Hp'.
  pose proof (consumeBucket_spec b0 cfg last n now Hb Hc Hi Hl) as Hs. rewrite E in Hs.
  unfold consumeMemory. fold b. destruct (consumeBucket b cfg now) as [b' v].
  destruct (call_result _ _ _ _ _ _ _ Hs) as [n' Hb'].
  eexists. split; [reflexivity|]. by apply (related_insert _ _ _ _ _ n').
Qed.

Lemma run_step {S : Type} `{RateLimiterStore S} (st : S) c cs st1 v :
  consume st (Call.bucket c) (Call.cfg c) (Call.at_ c) = Some (st1, v) ->
  run st (c :: cs) = '(st2, h) ← run st1 cs; Some (st2, (c, v) :: h).
Proof. intros E. simpl. by rewrite E. Qed.

Lemma redis_run cs : forall st r from,
  related st r -> store_ok st from -> calls_ok from cs ->
  exists st' r' h, run st cs = Some (st', h) /\
    @run Redis (RedisRateLimiterStore argv tostring tonumber) r cs = Some (r', h).
Proof.
  induction cs as [|c cs IH]; intros st r from Hr Hst Hcs; [by exists st, r, []|].
  destruct Hcs as (Hle & Hi & Hc & Hcs).
  destruct (redis_step st r (Call.bucket c) (Call.cfg c) (Call.at_ c) from Hr Hst Hle Hc Hi) as (r1 & E1 & Hr1).
  destruct (consumeMemory_ok st (Call.bucket c) (Call.cfg c) (Call.at_ c)) as (b & last & n & b' & v & _ & _ & _ & _ & Em & Hok);
    [by eapply store_ok_mono|done|done|]. rewrite Em in E1, Hr1. simpl in E1, Hr1.
  destruct (IH _ _ _ Hr1 Hok Hcs) as (st' & r' & h & Hm & Hd).
  exists st', r', ((c, v) :: h). split.
  - rewrite (run_step st c cs (<[Call.bucket c := b']> st) v); [by rewrite Hm|]. by rewrite <- Em.
  - rewrite (run_step r c cs r1 v E1). by rewrite Hd.
Qed.

(** C20. The Redis store refines the in-memory one: both answer every call of a
    sequence whose clock does not run back, on any keys and under any
    configurations, with the same verdict, headers and retry advice included;
    the expiry of idle hashes is never seen. *)
Theorem redis_refines_memory cs :
  calls_ok 0 cs ->
  exists st r h, run (∅ : Buckets) cs = Some (st, h) /\
    @run Redis (RedisRateLimiterStore argv tostring tonumber) ∅ cs = Some (r, h).
Proof.
  intros Hcs. apply (redis_run cs ∅ ∅ 0); [|apply store_ok_empty|done].
  intros k. by rewrite !lookup_empty.
Qed.

End Redis.

(** ** Two replicas with skewed clocks

    The refill trusts the caller's clock, and [lastRefillMs] follows it
    backwards.  Two replicas of one Redis whose clocks differ by a second, and
    which serve a key in turn, refill the bucket at every second request: at
    ten requests per second nothing is ever limited, however fast the requests
    come. *)
Definition SKEW : Z := 1790000000000.

Definition skewed (cfg : RateLimitConfig.t) (n : nat) : list Call.t :=
  concat (repeat [Call.mk "key" cfg (SKEW + 1000); Call.mk "key" cfg SKEW] n).

(** Between two rounds the bucket holds eight tokens. *)
Definition between_rounds (used : number) : BucketState.t := BucketState.mk (of_Z 8) (of_Z SKEW) (utcDayOf SKEW) used.

Lemma skewed_same_day : utcDayOf (SKEW + 1000) = utcDayOf SKEW.
Proof. apply utcDayOf_eq; done. Qed.

Lemma consume_take b cfg now r used :
  RateLimitConfig.rps cfg = 10 -> BucketState.day b = utcDayOf now -> BucketState.dayUsed b = used ->
  geb used (of_Z (RateLimitConfig.dailyCap cfg)) = false -> refill b 10 now = r -> ltb r one = false ->
  allowed (consumeBucket b cfg now).2 = true /\
  (consumeBucket b cfg now).1 = BucketState.mk (sub r one) (of_Z now) (utcDayOf now) (add used one).
Proof.
  intros Hr Hd Hu Hg Hf Hl. unfold consumeBucket. rewrite Hr, Hd, Hu, Hf. cbv zeta.
  by rewrite bool_decide_eq_true_2, Hg, Hl.
Qed.

Lemma skewed_round used cfg m :
  RateLimitConfig.rps cfg = 10 -> counts used m -> 0 <= m -> m + 2 <= RateLimitConfig.dailyCap cfg < 2 ^ 52 ->
  let '(b1, v1) := consumeBucket (between_rounds used) cfg (SKEW + 1000) in
  let '(b2, v2) := consumeBucket b1 cfg SKEW in
  allowed v1 = true /\ allowed v2 = true /\ b2 = between_rounds (add (add used one) one).
Proof.
  intros Hr Hu Hm Hc. pose proof (counts_succ _ _ Hu Hm ltac:(lia)) as Hu1.
  pose proof (counts_geb used m (RateLimitConfig.dailyCap cfg) Hu ltac:(lia)) as G0.
  pose proof (counts_geb _ _ (RateLimitConfig.dailyCap cfg) Hu1 ltac:(lia)) as G1.
  rewrite (proj2 (Z.leb_gt _ _)) in G0 by lia. rewrite (proj2 (Z.leb_gt _ _)) in G1 by lia.
  destruct (consume_take (between_rounds used) cfg (SKEW + 1000) (of_Z 10) used) as [V1 B1];
    [done|by rewrite skewed_same_day|done|done|by vm_compute|by vm_compute|].
  destruct (consumeBucket (between_rounds used) cfg (SKEW + 1000)) as [b1 v1]. simpl in V1, B1. subst b1.
  destruct (consume_take (BucketState.mk (sub (of_Z 10) one) (of_Z (SKEW + 1000)) (utcDayOf (SKEW + 1000)) (add used one))
    cfg SKEW (of_Z 9) (add used one)) as [V2 B2];
    [done|apply skewed_same_day|done|done|by vm_compute|by vm_compute|].
  destruct (consumeBucket _ cfg SKEW) as [b2 v2]. simpl in V2, B2. subst b2. split; [done|]. split; [done|].
  unfold between_rounds. by f_equal.
Qed.

#[local] Opaque utcDayOf.

Lemma skewed_rounds cfg n : RateLimitConfig.rps cfg = 10 -> forall (st : Buckets) used m,
  st !! "key"%string = Some (between_rounds used) ->
  counts used m -> 0 <= m -> m + 2 * Z.of_nat n <= RateLimitConfig.dailyCap cfg < 2 ^ 52 ->
  exists st' h, run st (skewed cfg n) = Some (st', h) /\ length h = (2 * n)%nat /\ Forall (fun cv => allowed cv.2 = true) h.
Proof.
  intros Hr. induction n as [|n IH]; intros st used m Ek Hu Hm Hc; [by exists st, []|].
  pose proof (skewed_round used cfg m Hr Hu Hm ltac:(lia)) as Hround.
  destruct (consumeBucket (between_rounds used) cfg (SKEW + 1000)) as [b1 v1] eqn:E1.
  destruct (consumeBucket b1 cfg SKEW) as [b2 v2] eqn:E2. destruct Hround as (V1 & V2 & ->).
  set (st1 := <["key"%string := b1]> st). set (u := add (add used one) one) in *. set (st2 := <["key"%string := between_rounds u]> st1).
  destruct (IH st2 u (m + 1 + 1)) as (st' & h & Hrun & Hlen & Hall);
    [by unfold st2; rewrite lookup_insert_eq|by apply counts_succ; [apply counts_succ; [done|lia|lia]|lia|lia]|lia|lia|].
  exists st'. eexists. change (skewed cfg (S n)) with
    (Call.mk "key" cfg (SKEW + 1000) :: Call.mk "key" cfg SKEW :: skewed cfg n).
  rewrite (run_step st _ _ st1 v1); [|unfold consume, InMemoryRateLimiterStore, consumeMemory; simpl; by rewrite Ek; simpl; rewrite E1].
  rewrite (run_step st1 _ _ st2 v2);
    [|unfold consume, InMemoryRateLimiterStore, consumeMemory; simpl; unfold st1; by rewrite lookup_insert_eq; simpl; rewrite E2].
  rewrite Hrun. split; [reflexivity|]. split; [simpl; lia|]. by repeat constructor.
Qed.

(** A key of ten requests per second, served in turn by replicas a second
    apart: every request is admitted, up to the daily cap, all within the one
    second. *)
Theorem skewed_replicas_unlimited cfg n :
  RateLimitConfig.rps cfg = 10 -> 2 * Z.of_nat n + 2 <= RateLimitConfig.dailyCap cfg < 2 ^ 52 ->
  exists st h, run (∅ : Buckets) (skewed cfg (S n)) = Some (st, h) /\ length h = (2 * S n)%nat /\
    Forall (fun cv => allowed cv.2 = true) h.
Proof.
  intros Hr Hc. set (st0 := <["key"%string := between_rounds zero]> (∅ : Buckets)).
  destruct (skewed_rounds cfg (S n) Hr st0 zero 0) as (st & h & Hrun & Hlen & Hall);
    [by unfold st0; rewrite lookup_insert_eq|apply counts_zero|done|lia|].
  assert (consumeMemory ∅ "key" cfg (SKEW + 1000) = consumeMemory st0 "key" cfg (SKEW + 1000)) as E.
  { unfold consumeMemory, st0. rewrite lookup_empty, lookup_insert_eq. simpl default.
    assert (consumeBucket (freshBucket cfg (SKEW + 1000)) cfg (SKEW + 1000) =
      consumeBucket (between_rounds zero) cfg (SKEW + 1000)) as ->.
    { unfold consumeBucket, freshBucket. rewrite Hr. cbv zeta. cbn [BucketState.day BucketState.dayUsed between_rounds].
      assert (refill (BucketState.mk (of_Z 10) (of_Z (SKEW + 1000)) (utcDayOf (SKEW + 1000)) zero) 10 (SKEW + 1000) = of_Z 10)
        as -> by (by vm_compute).
      assert (refill (between_rounds zero) 10 (SKEW + 1000) = of_Z 10) as -> by (by vm_compute).
      by rewrite skewed_same_day. }
    destruct (consumeBucket _ cfg _) as [b v]. by rewrite insert_insert_eq. }
  exists st, h. split; [|done]. rewrite <- Hrun. simpl. unfold consume, InMemoryRateLimiterStore. by rewrite E.
Qed.

(** ** Witness

    A text for numbers that reads back: the decimal digits of the value in
    units of [2^-1074]. *)
Definition toText (x : number) : string := Print.show_Z (units x).
Definition ofText (s : string) : option number := Some (binary_normalize prec emax (digits_value 0 s) (-1074) false).

Lemma ofText_toText x : plain x -> ofText (toText x) = Some x.
Proof.
  unfold ofText, toText. intros [->|[F U]]; [done|]. rewrite value_show by lia. f_equal.
  pose proof (binary_normalize_rounds (units x) (-1074) false ltac:(done)) as R.
  change (-1074 - umin) with 0 in R. rewrite Z.mul_1_r in R.
  destruct (rounds_exact _ _ x R F eq_refl) as [Fz Uz]. apply units_inj; [done|done|done|lia].
Qed.

Lemma redis_refines_memory_witness :
  exists st r h, run (∅ : Buckets) hurried = Some (st, h) /\
    @run Redis (RedisRateLimiterStore toText toText ofText) ∅ hurried = Some (r, h).
Proof. exact (redis_refines_memory toText toText ofText ofText_toText ofText_toText hurried (hurried_ok 0 ltac:(done))). Defined.

End LimitsStores.
