(* ===== verification/LimitsSafe.v ===== *)
(** * The daily caps, whatever the interleaving

    The in-memory bucket counts the admitted requests of its UTC day, so no
    bucket admits more than its cap in a day; and every request the hook lets
    through was admitted by its organization's bucket.  The second part runs
    any number of hooks, each suspended at its two store calls, in any order. *)

From stdpp Require Import gmap strings.
From S2P Require Import Prelude Number Prompt Calendar Limits LimitsBucket.

Module LimitsSafe.
Import Num Prompt Calendar Limits LimitsBucket.
Local Open Scope Z_scope.

(** The requests a history admits on the bucket [k] in the day [d]. *)
Definition used (k d : string) (h : list (Call.t * RateLimitVerdict)) : Z :=
  Z.of_nat (length (List.filter (fun cv => bool_decide (utcDayOf (Call.at_ cv.1) = d)) (admitted k h))).

Lemma used_cons k d c v h :
  used k d ((c, v) :: h) =
  (if bool_decide (Call.bucket c = k) && allowed v && bool_decide (utcDayOf (Call.at_ c) = d) then 1 else 0) + used k d h.
Proof.
  unfold used, admitted. cbn [List.filter fst snd]. destruct (bool_decide (Call.bucket c = k) && allowed v); [|done].
  cbn [List.filter fst]. destruct (bool_decide (utcDayOf _ = d)); simpl andb; cbv iota; simpl length; lia.
Qed.

Section Day.

Context (k d : string) (C : Z).

(** Every configuration the bucket [k] is called with caps the day at [C]. *)
Definition capped (cs : list Call.t) : Prop :=
  forall c, c ∈ cs -> Call.bucket c = k -> RateLimitConfig.dailyCap (Call.cfg c) <= C.

(** The requests of day [d] the bucket has counted. *)
Definition counted (st : Buckets) (m : Z) : Prop :=
  match st !! k with
  | Some b => exists last n, bucket_ok b last n /\ m = if bool_decide (utcDayOf last = d) then n else 0
  | None => m = 0
  end.

(** Once its day is over, a bucket admits nothing of it. *)
Lemma day_over cs : forall st from st' h last,
  run st cs = Some (st', h) -> calls_ok from cs -> instant last -> last <= from ->
  utcDayOf last = d -> instant from -> utcDayOf from <> d -> used k d h = 0.
Proof.
  induction cs as [|c cs IH]; intros st from st' h last H Hcs Hl Hle Hd Hi Hne; [by simplify_eq/=|].
  destruct Hcs as (Hf & Hi' & Hc & Hcs). simpl in H.
  destruct (consumeMemory st (Call.bucket c) (Call.cfg c) (Call.at_ c)) as [st1 v].
  destruct (run st1 cs) as [[st2 h']|] eqn:Er; [|done]. injection H as <- <-.
  assert (utcDayOf (Call.at_ c) <> d) as Hne'.
  { intros E. apply Hne. rewrite <- Hd. apply (utcDayOf_between last from (Call.at_ c)); [done|done|lia|congruence]. }
  rewrite used_cons, (bool_decide_eq_false_2 _ Hne'), andb_false_r.
  by rewrite (IH _ _ _ _ last Er Hcs Hl ltac:(lia) Hd Hi' Hne').
Qed.

(** A call on the bucket finds the count of its day, or leaves a past day. *)
Lemma counted_carried st m c b last n :
  instant (Call.at_ c) -> config_ok (Call.cfg c) -> Call.bucket c = k ->
  default (freshBucket (Call.cfg c) (Call.at_ c)) (st !! Call.bucket c) = b -> bucket_ok b last n ->
  last <= Call.at_ c -> counted st m ->
  (utcDayOf (Call.at_ c) = d -> m = carried last n (Call.at_ c)) /\
  (utcDayOf (Call.at_ c) <> d -> m = 0 \/ (utcDayOf last = d /\ instant last /\ last <= Call.at_ c)).
Proof.
  intros Hi Hc -> Eb Hb Hle Hm. unfold counted in Hm. unfold carried. destruct (st !! k) as [b0|]; simpl in Eb; subst.
  - destruct Hm as (last' & n' & Hb' & ->). destruct (bucket_ok_inj _ _ _ _ _ Hb Hb') as [<- <-].
    split; [by intros ->|]. intros _. case_bool_decide; [right|by left]. by destruct Hb.
  - destruct (bucket_ok_inj _ _ _ _ _ Hb (fresh_ok _ _ Hc Hi)) as [-> ->].
    split; [by case_bool_decide|by left].
Qed.

Lemma used_from cs : forall st from st' h m,
  store_ok st from -> calls_ok from cs -> capped cs -> run st cs = Some (st', h) ->
  counted st m -> 0 <= m <= C -> used k d h + m <= C.
Proof.
  induction cs as [|c cs IH]; intros st from st' h m Hst Hcs Hcap H Hm HC; [simplify_eq/=; unfold used; simpl; lia|].
  destruct (serve_cons st c cs from _ Hst Hcs H) as (b & last & n & b' & v & h' & Eb & Hb & Hl & Hs & Hok & Hrun & Eh).
  simpl in Eh, Hrun. subst h. destruct Hcs as (Hle & Hi & Hc & Hcs).
  assert (capped cs) as Hcap' by (intros c' ?; apply Hcap; by right). rewrite used_cons.
  destruct (decide (Call.bucket c = k)) as [Ek|Ek].
  - rewrite (bool_decide_eq_true_2 _ Ek), andb_true_l. specialize (Hcap c ltac:(left) Ek).
    assert (forall n', bucket_ok b' (Call.at_ c) n' ->
      counted (<[Call.bucket c := b']> st) (if bool_decide (utcDayOf (Call.at_ c) = d) then n' else 0)) as Hnew.
    { intros n' Hb'. unfold counted. rewrite Ek, lookup_insert_eq. by exists (Call.at_ c), n'. }
    destruct (counted_carried st m c b last n Hi Hc Ek Eb Hb Hl Hm) as [Hd Hother].
    destruct (decide (utcDayOf (Call.at_ c) = d)) as [Ed|Ed].
    + rewrite (bool_decide_eq_true_2 _ Ed), andb_true_r. rewrite (bool_decide_eq_true_2 _ Ed) in Hnew.
      specialize (Hd Ed). subst m.
      inversion Hs as [? ? _ Hb' _|? ? ? _ _ _ Hb' _|? ? ? Hlt _ Hb' _]; subst; simpl allowed; cbv iota;
        specialize (IH _ _ _ _ _ Hok Hcs Hcap' Hrun (Hnew _ Hb')); lia.
    + rewrite (bool_decide_eq_false_2 _ Ed), andb_false_r. rewrite (bool_decide_eq_false_2 _ Ed) in Hnew.
      destruct (call_result _ _ _ _ _ _ _ Hs) as [n' Hb']. specialize (Hnew n' Hb').
      destruct (Hother Ed) as [->|(Hlast & Hil & Hle')]; [apply (IH _ _ _ _ 0 Hok Hcs Hcap' Hrun Hnew); lia|].
      rewrite (day_over cs _ _ _ _ last Hrun Hcs Hil Hle' Hlast Hi Ed). lia.
  - rewrite (bool_decide_eq_false_2 _ Ek), !andb_false_l.
    apply (IH _ _ _ _ m Hok Hcs Hcap' Hrun); [|done]. unfold counted in *. by rewrite lookup_insert_ne.
Qed.

End Day.

(** C17. No bucket of the in-memory store admits more requests in one UTC day
    than the largest daily cap it is called with, in any sequence of calls on
    any buckets whose clock does not run back. *)
Theorem daily_cap_holds cs k d C st h :
  calls_ok 0 cs -> run (∅ : Buckets) cs = Some (st, h) -> capped k C cs -> 0 <= C -> used k d h <= C.
Proof.
  intros Hcs Hrun Hcap HC.
  pose proof (used_from k d C cs ∅ 0 st h 0 (store_ok_empty 0) Hcs Hcap Hrun) as H.
  rewrite Z.add_0_r in H. apply H; [|lia]. unfold counted. by rewrite lookup_empty.
Qed.

(** ** Interleaved requests *)

Lemma run_snoc cs c : forall (st st1 st2 : Buckets) h v,
  run st cs = Some (st1, h) -> consumeMemory st1 (Call.bucket c) (Call.cfg c) (Call.at_ c) = (st2, v) ->
  run st (cs ++ [c]) = Some (st2, h ++ [(c, v)]).
Proof.
  induction cs as [|c0 cs IH]; intros st st1 st2 h v H E.
  - simplify_eq/=. unfold consume, InMemoryRateLimiterStore. by rewrite E.
  - simpl in H |- *. unfold consume, InMemoryRateLimiterStore in *. simpl in H |- *.
    destruct (consumeMemory st _ _ _) as [st' v']. destruct (run st' cs) as [[st3 h']|] eqn:Er; [|done].
    simplify_eq/=. by rewrite (IH _ _ _ _ _ Er E).
Qed.

Lemma used_snoc k d h cv :
  used k d (h ++ [cv]) = used k d h + used k d [cv].
Proof. unfold used, admitted. rewrite !List.filter_app, length_app. lia. Qed.

Lemma calls_ok_snoc cs c from :
  calls_ok from cs -> foldl (fun _ c => Call.at_ c) from cs <= Call.at_ c -> instant (Call.at_ c) ->
  config_ok (Call.cfg c) -> calls_ok from (cs ++ [c]).
Proof.
  revert from. induction cs as [|c0 cs IH]; intros from; simpl; [done|].
  intros (? & ? & ? & H) ? ? ?. split; [done|]. split; [done|]. split; [done|]. by apply IH.
Qed.

Lemma filter_insert {A} (f : A -> bool) l i x y :
  l !! i = Some x -> f x = false ->
  length (List.filter f (<[i := y]> l)) = (length (List.filter f l) + if f y then 1 else 0)%nat.
Proof.
  intros Hi Hx. rewrite <- (take_drop_middle l i x Hi) at 2. rewrite insert_take_drop by (by eapply lookup_lt_Some).
  rewrite !List.filter_app, !length_app. simpl. rewrite Hx. destruct (f y); simpl; lia.
Qed.

(** A request in flight: the key its token resolved to, where its hook stands,
    and the clock of its last store call. *)
Module Live.
Record t := mk { key : option ApiKeyRow.t; hook : Hook; last : Z }.
End Live.

(** The history of store calls is kept for the statements only. *)
Module Sys.
Record t := mk { store : Buckets; clock : Z; live : list Live.t; history : list (Call.t * RateLimitVerdict) }.
End Sys.

Section System.

Context (sha256 : string -> string) (getApiKeyByKeyHash : string -> option ApiKeyRow.t).

Definition start : Sys.t := Sys.mk ∅ 0 [] [].

Inductive step (s : Sys.t) : Sys.t -> Prop :=
| arrive req :
    step s (Sys.mk (Sys.store s) (Sys.clock s)
      (Sys.live s ++ [Live.mk (hookKeyOf sha256 getApiKeyByKeyHash req) (onRequest sha256 getApiKeyByKeyHash req) (Sys.clock s)])
      (Sys.history s))
| resume i l b cfg k now st v :
    Sys.live s !! i = Some l -> Live.hook l = Ask b cfg k -> Sys.clock s <= now -> instant now ->
    consume (Sys.store s) b cfg now = Some (st, v) ->
    step s (Sys.mk st now (<[i := Live.mk (Live.key l) (k v) now]> (Sys.live s)) (Sys.history s ++ [(Call.mk b cfg now, v)])).

Inductive reachable : Sys.t -> Prop :=
| reachable_start : reachable start
| reachable_step s s' : reachable s -> step s s' -> reachable s'.

Definition passed (h : Hook) : bool := match h with Done o => bool_decide (HookOutcome.reply o = None) | Ask _ _ _ => false end.

(** The requests of the organization [o] let through in the day [d]. *)
Definition served_in (o d : string) (l : Live.t) : bool :=
  passed (Live.hook l) && bool_decide (ApiKeyRow.orgId <$> Live.key l = Some o) && bool_decide (utcDayOf (Live.last l) = d).

Definition served (o d : string) (s : Sys.t) : nat := length (List.filter (served_in o d) (Sys.live s)).

(** The limits keys.ts admits, and key ids that are not organization buckets. *)
Definition key_ok (key : ApiKeyRow.t) : Prop :=
  1 <= RateLimitConfig.rps (rateLimitConfigForKey key) <= 1000 /\
  1 <= RateLimitConfig.dailyCap (rateLimitConfigForKey key) <= 50000000 /\
  forall o, ApiKeyRow.id key <> (ORG_BUCKET_PREFIX +:+ o)%string.

Context (keys_ok : forall hash key, getApiKeyByKeyHash hash = Some key -> key_ok key).

(** Where the hook of a request with a known key can stand. *)
Inductive hook_at (key : ApiKeyRow.t) : Hook -> Prop :=
| at_key : hook_at key (keyHook key (rateLimitConfigForKey key))
| at_org headers : hook_at key (orgHook key (rateLimitConfigForKey key) headers)
| at_pass headers : hook_at key (pass headers)
| at_refusal headers status reply : hook_at key (refuse key headers status reply).

Definition live_ok (l : Live.t) : Prop :=
  match Live.key l with
  | None => exists o, Live.hook l = Done o
  | Some key => (exists hash, getApiKeyByKeyHash hash = Some key) /\ hook_at key (Live.hook l)
  end.

Lemma arrive_ok req clock :
  live_ok (Live.mk (hookKeyOf sha256 getApiKeyByKeyHash req) (onRequest sha256 getApiKeyByKeyHash req) clock) /\
  forall o d, served_in o d (Live.mk (hookKeyOf sha256 getApiKeyByKeyHash req) (onRequest sha256 getApiKeyByKeyHash req) clock) = false.
Proof.
  unfold live_ok, served_in, onRequest. cbn [Live.key Live.hook Live.last].
  destruct (hookKeyOf _ _ req) as [key|] eqn:E.
  - assert (exists hash, getApiKeyByKeyHash hash = Some key) as Hk.
    { unfold hookKeyOf in E. destruct (_ || _); [done|].
      destruct (bearerToken _) as [tok|]; [|done]. by exists (sha256 tok). }
    cbv zeta. destruct (_ && _); (split; [split; [done|constructor]|]); done.
  - split; [by eexists|]. intros o d. simpl fmap. by rewrite andb_false_r.
Qed.

(** What the answer to a store call makes of a hook. *)
Lemma hook_answer key b cfg k v :
  hook_at key (Ask b cfg k) ->
  hook_at key (k v) /\
  ((b = ApiKeyRow.id key /\ cfg = rateLimitConfigForKey key /\ passed (k v) = false) \/
   (b = (ORG_BUCKET_PREFIX +:+ ApiKeyRow.orgId key)%string /\ cfg = orgRateLimitConfig (rateLimitConfigForKey key) /\
    passed (k v) = allowed v)).
Proof.
  inversion 1; subst; simpl.
  - split; [destruct v; constructor|]. left. by destruct v.
  - split; [destruct v; constructor|]. right. by destruct v.
Qed.

(** The traffic is a run of the store, within the caps of the keys. *)
Record sys_ok (o : string) (C : Z) (s : Sys.t) : Prop := {
  ok_run : run (∅ : Buckets) (map fst (Sys.history s)) = Some (Sys.store s, Sys.history s);
  ok_calls : calls_ok 0 (map fst (Sys.history s));
  ok_clock : foldl (fun _ c => Call.at_ c) 0 (map fst (Sys.history s)) <= Sys.clock s;
  ok_live : Forall live_ok (Sys.live s);
  ok_capped : capped (ORG_BUCKET_PREFIX +:+ o) (10 * C) (map fst (Sys.history s));
  ok_served d : Z.of_nat (served o d s) <= used (ORG_BUCKET_PREFIX +:+ o) d (Sys.history s);
}.

Lemma hook_config key b cfg k : (exists hash, getApiKeyByKeyHash hash = Some key) -> hook_at key (Ask b cfg k) -> config_ok cfg.
Proof.
  intros [hash Hk] H. destruct (keys_ok hash key Hk) as (Hr & Hc & _).
  destruct (hook_answer key b cfg k (Allowed zero zero) H) as [_ [(_ & -> & _)|(_ & -> & _)]]; unfold config_ok;
    [|unfold orgRateLimitConfig, ORG_LIMIT_MULTIPLIER; cbn [RateLimitConfig.rps RateLimitConfig.dailyCap]]; lia.
Qed.

Lemma sys_step_ok o C s s' :
  (forall hash key, getApiKeyByKeyHash hash = Some key -> ApiKeyRow.orgId key = o ->
    RateLimitConfig.dailyCap (rateLimitConfigForKey key) <= C) ->
  sys_ok o C s -> step s s' -> sys_ok o C s'.
Proof.
  intros HC [Hrun Hcalls Hclock Hlive Hcap Hserved] Hstep.
  destruct Hstep as [req|i l b cfg k now st v Hi Hh Hle Hn Hcons].
  - destruct (arrive_ok req (Sys.clock s)) as [Hl Hs]. split; simpl; try done.
    + apply Forall_app. split; [done|]. by repeat constructor.
    + intros d. unfold served. simpl Sys.live. rewrite List.filter_app. cbn [List.filter]. rewrite Hs, app_nil_r. apply Hserved.
  - assert (live_ok l) as Hl by (by eapply Forall_lookup_1).
    unfold live_ok in Hl. destruct (Live.key l) as [key|] eqn:Ek; [|by destruct Hl as [? Hl]; rewrite Hl in Hh].
    destruct Hl as [Hk Hat]. rewrite Hh in Hat. pose proof (hook_config key b cfg k Hk Hat) as Hc.
    destruct (hook_answer key b cfg k v Hat) as [Hat' Hwhere].
    unfold consume, InMemoryRateLimiterStore in Hcons. injection Hcons as Hcons.
    split; simpl; rewrite ?map_app; simpl map.
    + by apply (run_snoc _ (Call.mk b cfg now) _ (Sys.store s)).
    + apply calls_ok_snoc; simpl; done || lia.
    + rewrite foldl_app. simpl. lia.
    + apply Forall_insert; [done|]. split; [done|exact Hat'].
    + intros c [Hc'|Hc']%elem_of_app; [by apply Hcap|]. apply list_elem_of_singleton in Hc' as ->.
      simpl. intros Eb. destruct Hk as [hash Hk]. destruct (keys_ok hash key Hk) as (_ & _ & Hid).
      destruct Hwhere as [(-> & _)|(-> & -> & _)]; [by destruct (Hid o)|].
      apply (inj (String.append ORG_BUCKET_PREFIX)) in Eb. specialize (HC hash key Hk Eb).
      unfold orgRateLimitConfig, ORG_LIMIT_MULTIPLIER. cbn [Call.cfg RateLimitConfig.dailyCap]. lia.
    + intros d. unfold served. simpl Sys.live.
      rewrite (filter_insert _ _ _ l) by (done || by unfold served_in; rewrite Hh). specialize (Hserved d). unfold served in Hserved.
      rewrite used_snoc. unfold served_in at 2. cbn [Live.hook Live.key Live.last fmap option_fmap option_map].
      assert (0 <= used (ORG_BUCKET_PREFIX +:+ o) d [(Call.mk b cfg now, v)]) by (unfold used; lia).
      destruct Hwhere as [(_ & _ & ->)|(-> & -> & ->)]; [simpl andb; cbv iota; lia|].
      rewrite used_cons. simpl Call.bucket. simpl Call.at_. change (used _ d []) with 0 in *.
      destruct (decide (ApiKeyRow.orgId key = o)) as [->|Hne].
      * rewrite (bool_decide_eq_true_2 (Some o = _)), (bool_decide_eq_true_2 (_ +:+ _ = _)) by done.
        destruct (allowed v), (bool_decide (utcDayOf now = d)); simpl; lia.
      * rewrite (bool_decide_eq_false_2 (Some _ = Some o)) by congruence. rewrite andb_false_r. simpl andb. cbv iota.
        destruct (bool_decide (_ +:+ _ = _) && _ && _); lia.
Qed.

(** C18. The organization ceiling holds under every interleaving: whatever
    requests arrive with whatever keys, and however their hooks take turns at
    the store, the requests of one organization let through in one UTC day are
    at most ten times the largest daily cap among its keys, however many keys
    it has. *)
Theorem org_ceiling o C d s :
  (forall hash key, getApiKeyByKeyHash hash = Some key -> ApiKeyRow.orgId key = o ->
    RateLimitConfig.dailyCap (rateLimitConfigForKey key) <= C) ->
  0 <= C -> reachable s -> Z.of_nat (served o d s) <= 10 * C.
Proof.
  intros HC H0 Hs. assert (sys_ok o C s) as [Hrun Hcalls _ _ Hcap Hserved].
  { induction Hs as [|s s' _ IH Hstep]; [|by eapply sys_step_ok].
    split; simpl; try done; try lia. by intros c ?%elem_of_nil. }
  pose proof (used_from (ORG_BUCKET_PREFIX +:+ o) d (10 * C) _ ∅ 0 _ _ 0 (store_ok_empty 0) Hcalls Hcap Hrun) as H.
  rewrite Z.add_0_r in H. etrans; [apply Hserved|]. apply H; [|lia]. unfold counted. by rewrite lookup_empty.
Qed.

(** The [i]-th request takes its turn at the store. *)
Definition turn (i : nat) (now : Z) (s : Sys.t) : Sys.t :=
  match Sys.live s !! i with
  | Some (Live.mk key (Ask b cfg k) _) =>
      let '(st, v) := consumeMemory (Sys.store s) b cfg now in
      Sys.mk st now (<[i := Live.mk key (k v) now]> (Sys.live s)) (Sys.history s ++ [(Call.mk b cfg now, v)])
  | _ => s
  end.

Lemma turn_reachable i now s : reachable s -> Sys.clock s <= now -> instant now -> reachable (turn i now s).
Proof.
  intros Hs Hle Hi. unfold turn. destruct (Sys.live s !! i) as [[key [o|b cfg k] last]|] eqn:E; try done.
  destruct (consumeMemory (Sys.store s) b cfg now) as [st v] eqn:Em.
  eapply reachable_step; [exact Hs|].
  apply (resume s i (Live.mk key (Ask b cfg k) last) b cfg k now st v); try done.
  unfold consume, InMemoryRateLimiterStore. by rewrite Em.
Qed.

End System.

(** ** The ceiling is the calling key's

    The organization's bucket is charged under ten times the limits of the key
    that calls, so a key with a small cap is refused for what its siblings
    used, before its own first request. *)
Theorem small_key_refused st key now b last n headers :
  st !! (ORG_BUCKET_PREFIX +:+ ApiKeyRow.orgId key)%string = Some b -> bucket_ok b last n ->
  config_ok (orgRateLimitConfig (rateLimitConfigForKey key)) ->
  instant now -> last <= now -> utcDayOf last = utcDayOf now ->
  10 * RateLimitConfig.dailyCap (rateLimitConfigForKey key) <= n ->
  match orgHook key (rateLimitConfigForKey key) headers with
  | Ask bucket cfg k => exists retry reset, (consumeMemory st bucket cfg now).2 = Limited daily_cap retry reset /\
      passed (k (consumeMemory st bucket cfg now).2) = false
  | Done _ => False
  end.
Proof.
  intros Hk Hb Hc Hi Hle Hday Hn. unfold orgHook. cbv zeta. unfold consumeMemory. rewrite Hk. cbn [default from_option id].
  pose proof (consumeBucket_spec b _ last n now Hb Hc Hi Hle) as Hs. destruct (consumeBucket b _ now) as [b' v].
  cbn [snd].
  inversion Hs as [? reset _ _ _|? ? ? Hlt _ _ _ _|? ? ? Hlt _ _ _]; subst; [by eexists _, reset|..];
    exfalso; unfold carried in Hlt; rewrite (bool_decide_eq_true_2 _ Hday) in Hlt; cbn [orgRateLimitConfig RateLimitConfig.dailyCap] in Hlt;
    unfold ORG_LIMIT_MULTIPLIER in Hlt; lia.
Qed.

(** ** Witnesses *)

Definition T0 : Z := 1790000000000.
Definition burst (n : nat) (cfg : RateLimitConfig.t) : list Call.t := repeat (Call.mk "k" cfg T0) n.

Definition history_of (cs : list Call.t) : list (Call.t * RateLimitVerdict) :=
  match run (∅ : Buckets) cs with Some (_, h) => h | None => [] end.

Lemma daily_cap_holds_witness :
  used "k" (utcDayOf T0) (history_of (burst 4 (RateLimitConfig.mk 10 3 1024))) = 3 /\
  used "k" (utcDayOf T0) (history_of (burst 4 (RateLimitConfig.mk 10 3 1024))) <= 3.
Proof.
  split; [by vm_compute|].
  destruct (run (∅ : Buckets) (burst 4 (RateLimitConfig.mk 10 3 1024))) as [[st h]|] eqn:E; [|by vm_compute in E].
  unfold history_of. rewrite E. eapply daily_cap_holds; [|exact E| |done].
  - simpl. unfold instant, config_ok. simpl. unfold T0. repeat split; done || lia.
  - intros c Hin _. apply list_elem_of_In, repeat_spec in Hin as ->. done.
Defined.

Lemma org_ceiling_witness :
  let key := ApiKeyRow.mk "k1" "acme" (Some 5) (Some 3) None in
  let db := fun _ : string => Some key in
  let req := HookRequest.mk "POST" (Some "/v1/embeddings"%string) (Some "Bearer t"%string) None in
  exists s, reachable id db s /\ served "acme" (utcDayOf T0) s = 1%nat /\ Z.of_nat (served "acme" (utcDayOf T0) s) <= 10 * 3.
Proof.
  intros key db req. assert (exists s, reachable id db s /\ served "acme" (utcDayOf T0) s = 1%nat) as (s & Hs & Hn).
  { pose proof (reachable_step id db _ _ (reachable_start id db) (arrive id db _ req)) as H0.
    pose proof (turn_reachable id db 0 T0 _ H0 ltac:(done) ltac:(done)) as H1.
    pose proof (turn_reachable id db 0 T0 _ H1 ltac:(by vm_compute) ltac:(done)) as H2.
    eexists. split; [exact H2|by vm_compute]. }
  exists s. split; [done|]. split; [done|]. apply (org_ceiling id db) with (C := 3); [|..|exact Hs]; try done.
  - intros hash k [= <-]. unfold key_ok. repeat split; done.
  - intros hash k [= <-] _. done.
Defined.

End LimitsSafe.
