(* ===== verification/Stats.v ===== *)
(** * Statistics: core/src/stats.ts

    The seeded generator, the nearest-rank quantile, the percentile bootstrap
    and the Jeffreys interval behind every verdict of the program.  The
    generator works on 32-bit integers, written out as such; everything else
    is binary64.  [Math.log], [Math.exp] and [Math.sin], whose accuracy the
    language leaves open, and sha256 are parameters. *)

From S2P Require Import Prelude Number JsSort Print Prompt.

Module Stats.
Import Num Sort Print.
Local Open Scope Z_scope.

(** ** 32-bit integers *)

Definition ToUint32 (z : Z) : Z := z mod 2 ^ 32.
Definition ToInt32 (z : Z) : Z := let u := z mod 2 ^ 32 in if u <? 2 ^ 31 then u else u - 2 ^ 32.

Definition imul (a b : Z) : Z := ToInt32 (a * b).
Definition xor32 (a b : Z) : Z := ToInt32 (Z.lxor (ToInt32 a) (ToInt32 b)).
Definition or32 (a b : Z) : Z := ToInt32 (Z.lor (ToInt32 a) (ToInt32 b)).
(** [a >>> k]. *)
Definition ushr (a k : Z) : Z := Z.shiftr (ToUint32 a) k.

(** One call of the generator [mulberry32] returns: its next state, and the
    numerator of the value over [2^32]. *)
Definition mulberry32_next (a : Z) : Z * Z :=
  let a := ToInt32 (a + 0x6d2b79f5) in
  let t := imul (xor32 a (ushr a 15)) (or32 1 a) in
  let t := xor32 (t + imul (xor32 t (ushr t 7)) (or32 61 t)) t in
  (a, ToUint32 (xor32 t (ushr t 14))).

Definition rand (a : Z) : Z * number :=
  let '(a, u) := mulberry32_next a in (a, div (of_Z u) (of_Z 4294967296)).

(** [mulberry32(seed)]: the state of a new generator. *)
Definition mulberry32 (seed : Z) : Z := ToUint32 seed.

Definition BOOTSTRAP_RESAMPLES : Z := 1000.

(** The integer a whole number denotes. *)
Definition whole (x : number) : Z := units x / 2 ^ 1074.

(** [xs[i]]: [None] is undefined. *)
Definition at_ {A} (xs : list A) (i : Z) : option A := if i <? 0 then None else nth_error xs (Z.to_nat i).

Definition ascending (l : list number) : list number := sort (asc id) l.

Definition sum (l : list number) : number := fold_left add l zero.
Definition count {A} (l : list A) : number := of_Z (Z.of_nat (length l)).

Definition quantile_rank (n : nat) (p : number) : number :=
  max one (ceil (mul (div p (of_Z 100)) (of_Z (Z.of_nat n)))).

Definition quantileNearestRank (values : list number) (p : number) : option number :=
  match values with
  | [] => Some zero
  | _ =>
      let sorted := ascending values in
      at_ sorted (whole (min (count sorted) (quantile_rank (length sorted) p)) - 1)
  end.

(** ** The bootstrap *)

(** [Math.floor(rand() * n)]. *)
Definition draw (n : nat) (s : Z) : Z * Z :=
  let '(s, u) := rand s in (s, whole (floor (mul u (of_Z (Z.of_nat n))))).

(** One resample of [k] draws. *)
Fixpoint resample {A} (values : list A) (k : nat) (s : Z) : Z * list (option A) :=
  match k with
  | O => (s, [])
  | S k =>
      let '(s, i) := draw (length values) s in
      let '(s, l) := resample values k s in
      (s, at_ values i :: l)
  end.

(** [r] resamples, each through [f]. *)
Fixpoint resamples {A B} (values : list A) (f : list (option A) -> B) (r : nat) (s : Z) : list B :=
  match r with
  | O => []
  | S r => let '(s, buf) := resample values (length values) s in f buf :: resamples values f r s
  end.

(** The two percentiles of the sorted statistics. *)
Definition lo_index (alpha : number) (r : Z) : Z :=
  whole (max zero (floor (mul (div alpha (of_Z 2)) (sub (of_Z r) one)))).
Definition hi_index (alpha : number) (r : Z) : Z :=
  whole (min (sub (of_Z r) one) (ceil (mul (sub one (div alpha (of_Z 2))) (sub (of_Z r) one)))).

Definition percentiles (stats : list number) (alpha : number) (r : Z) : option (number * number) :=
  let stats := ascending stats in
  lo ← at_ stats (lo_index alpha r); hi ← at_ stats (hi_index alpha r); Some (lo, hi).

Definition ALPHA : number := lit 5 2.

(** [undefined] enters arithmetic as NaN. *)
Definition or_nan (o : option number) : number := default NaN o.

Definition bootstrapCi (values : list number) (stat : list number -> number) (seed : Z) (r : Z) (alpha : number) :
    option (number * (number * number)) :=
  let stats := resamples values (fun buf => stat (map or_nan buf)) (Z.to_nat r) (mulberry32 seed) in
  ci ← percentiles stats alpha r; Some (stat values, ci).

Definition mean_of (xs : list number) : number := div (sum xs) (count xs).

Definition bootstrapMeanCi (values : list number) (seed : Z) (r : Z) (alpha : number) :
    option (number * (number * number)) :=
  bootstrapCi values mean_of seed r alpha.

(** ** The Jeffreys interval *)

Section Stats.

Context (mathLog mathExp mathSin : number -> number) (sha256 : string -> string).

Definition PI : number := decimal 3141592653589793116 (-18).

Definition LANCZOS : list number :=
  [decimal 6765203681218851 (-13); opp (decimal 12591392167224028 (-13)); decimal 77132342877765313 (-14);
   opp (decimal 17661502916214059 (-14)); decimal 12507343278686905 (-15); opp (decimal 13857109526572012 (-17));
   decimal 99843695780195716 (-22); decimal 15056327351493116 (-23)].

Fixpoint lanczos_sum (g : list number) (i : Z) (x a : number) : number :=
  match g with
  | [] => a
  | c :: g => lanczos_sum g (i + 1) x (add a (div c (add (add x (of_Z i)) one)))
  end.

Definition logGamma_direct (z : number) : number :=
  let x := sub z one in
  let a := lanczos_sum LANCZOS 0 x (decimal 99999999999980993 (-17)) in
  let t := add x (lit 75 1) in
  add (sub (add (mul (lit 5 1) (mathLog (mul (of_Z 2) PI))) (mul (add x (lit 5 1)) (mathLog t))) t) (mathLog a).

(** The reflection calls back with [1 - z > 0.5], never twice. *)
Definition logGamma (z : number) : number :=
  if ltb z (lit 5 1) then sub (mathLog (div PI (mathSin (mul PI z)))) (logGamma_direct (sub one z))
  else logGamma_direct z.

Definition TINY : number := decimal 1 (-30).
Definition clip (d : number) : number := if ltb (abs d) TINY then TINY else d.

Fixpoint lentz (fuel : nat) (m x a b c d h : number) : number :=
  match fuel with
  | O => h
  | S fuel =>
      let qab := add a b in let qap := add a one in let qam := sub a one in
      let m2 := mul (of_Z 2) m in
      let aa := div (mul (mul m (sub b m)) x) (mul (add qam m2) (add a m2)) in
      let d := div one (clip (add one (mul aa d))) in
      let c := clip (add one (div aa c)) in
      let h := mul h (mul d c) in
      let aa := div (mul (mul (opp (add a m)) (add qab m)) x) (mul (add a m2) (add qap m2)) in
      let d := div one (clip (add one (mul aa d))) in
      let c := clip (add one (div aa c)) in
      let del := mul d c in
      let h := mul h del in
      if ltb (abs (sub del one)) (decimal 3 (-15)) then h else lentz fuel (add m one) x a b c d h
  end.

Definition betaContinuedFraction (x a b : number) : number :=
  let d := div one (clip (sub one (div (mul (add a b) x) (add a one)))) in
  lentz 300 one x a b one d d.

Definition regularizedIncompleteBeta (x a b : number) : number :=
  if leb x zero then zero
  else if geb x one then one
  else
    let lnFront := add (add (sub (sub (logGamma (add a b)) (logGamma a)) (logGamma b)) (mul a (mathLog x)))
                     (mul b (mathLog (sub one x))) in
    let front := mathExp lnFront in
    if ltb x (div (add a one) (add (add a b) (of_Z 2))) then div (mul front (betaContinuedFraction x a b)) a
    else sub one (div (mul front (betaContinuedFraction (sub one x) b a)) b).

Fixpoint bisect (fuel : nat) (p a b lo hi : number) : number * number :=
  match fuel with
  | O => (lo, hi)
  | S fuel =>
      let mid := div (add lo hi) (of_Z 2) in
      if ltb (regularizedIncompleteBeta mid a b) p then bisect fuel p a b mid hi else bisect fuel p a b lo mid
  end.

Definition betaInvCdf (p a b : number) : number :=
  if leb p zero then zero
  else if geb p one then one
  else let '(lo, hi) := bisect 90 p a b zero one in div (add lo hi) (of_Z 2).

Definition clamp (q : number) : number := min one (max zero q).

Definition jeffreysCi (scores : list number) : number * number :=
  match scores with
  | [] => (zero, one)
  | _ =>
      let n := count scores in
      let s := fold_left (fun acc q => add acc (clamp q)) scores zero in
      let a := add s (lit 5 1) in
      let b := add (sub n s) (lit 5 1) in
      (if leb s zero then zero else betaInvCdf (lit 25 3) a b,
       if geb s n then one else betaInvCdf (lit 975 3) a b)
  end.

(** [JSON.stringify] of an array of numbers. *)
Definition json_number (x : number) : string := if is_finite x then to_string x else "null".
Definition json_numbers (l : list number) : string := "[" +:+ Prompt.join "," (map json_number l) +:+ "]".

(** [parseInt(hex, 16) >>> 0] of the first eight digits. *)
Definition hex_value (c : Ascii.ascii) : Z :=
  let k := Z.of_N (Ascii.N_of_ascii c) in if k <? 58 then k - 48 else k - 87.
Fixpoint hex_number (acc : Z) (s : string) : Z :=
  match s with EmptyString => acc | String c s => hex_number (16 * acc + hex_value c) s end.
Definition seedFromString (s : string) : Z := ToUint32 (hex_number 0 (String.substring 0 8 (sha256 s))).

Definition qualityIntervalCi (scores : list number) : option (number * number) :=
  match scores with
  | [] => Some (zero, one)
  | _ =>
      let n := count scores in
      let clamped := map clamp scores in
      if forallb (fun q => eqb q zero || eqb q one) clamped then Some (jeffreysCi clamped)
      else
        let m := div (sum clamped) n in
        if existsb (fun q => gtb (abs (sub q m)) (lit 1 9)) clamped then
          let seed := seedFromString ("quality|" +:+ to_string n +:+ "|" +:+ sha256 (json_numbers clamped)) in
          '(_, (lo, hi)) ← bootstrapMeanCi clamped seed BOOTSTRAP_RESAMPLES ALPHA;
          Some (max zero lo, min one hi)
        else Some (jeffreysCi clamped)
  end.

(** A JavaScript Map from group to its scores, in order of first appearance. *)
Fixpoint add_to_group (g : string) (x : number) (m : list (string * list number)) : list (string * list number) :=
  match m with
  | [] => [(g, [x])]
  | (g', xs) :: m => if String.eqb g g' then (g', xs ++ [x]) :: m else (g', xs) :: add_to_group g x m
  end.

Definition by_group (scores : list number) (groups : list string) : list (string * list number) :=
  fold_left (fun m gx => add_to_group gx.1 gx.2 m) (combine groups scores) [].

Definition pooled_mean (picked : list (option (list number))) : number :=
  let xs := map clamp (concat (map (default []) picked)) in
  match xs with [] => zero | _ => div (sum xs) (count xs) end.

Inductive CiResult :=
| Interval (lo hi : number)
| LengthMismatch (scores groups : nat).

Definition clusteredQualityCi (scores : list number) (groups : list string) (r : Z) (alpha : number) :
    option CiResult :=
  if negb (length scores =? length groups)%nat then Some (LengthMismatch (length scores) (length groups))
  else
    let '(jLo, jHi) := jeffreysCi scores in
    match scores with
    | [] => Some (Interval jLo jHi)
    | _ =>
        let byGroup := by_group scores groups in
        let clusters := map snd byGroup in
        if (length clusters =? length scores)%nat then Some (Interval jLo jHi)
        else
          let seed := seedFromString ("clustered|" +:+ to_string (count scores) +:+ "|"
            +:+ Prompt.join "," (sort String.compare (map fst byGroup)) +:+ "|" +:+ sha256 (json_numbers scores)) in
          '(bLo, bHi) ← percentiles (resamples clusters pooled_mean (Z.to_nat r) (mulberry32 seed)) alpha r;
          Some (Interval (min jLo bLo) (max jHi bHi))
    end.

End Stats.

End Stats.
