(* ===== verification/StatsSpec.v ===== *)
(** * What the statistics promise: core/src/stats.ts

    The quantile is an order statistic; a resample never reads outside its
    sample; the intervals of scores exist, are ordered and stay in [0, 1],
    whatever the accuracy of [Math.log], [Math.exp] and [Math.sin]. *)

From S2P Require Import Prelude Number Rounding JsSort Stats.

Module StatsSpec.
Import Num Rounding Sort Stats.
Local Open Scope Z_scope.

Lemma unit_pos : 0 < 2 ^ 1074.
Proof. by apply Z.pow_pos_nonneg. Qed.

Lemma counts_of_Z z : 0 <= z < 2 ^ 53 -> counts (of_Z z) z.
Proof. apply of_Z_exact. Qed.

Lemma whole_counts x n : counts x n -> whole x = n.
Proof. intros [_ U]. unfold whole. rewrite U. apply Z.div_mul. pose proof unit_pos. lia. Qed.

(** [Math.floor] and [Math.ceil] of a number that is not negative. *)
Lemma floor_counts x : fin x = true -> 0 <= units x < 2 ^ 53 * 2 ^ 1074 -> counts (floor x) (units x / 2 ^ 1074).
Proof.
  intros Fx Hx. pose proof unit_pos as P. destruct x as [| | |s m e]; try done. cbn [floor].
  apply counts_of_Z. split; [apply Z.div_pos; lia|]. apply Z.div_lt_upper_bound; [done|]. lia.
Qed.

Lemma whole_of_Z z : 0 <= z < 2 ^ 53 -> whole (of_Z z) = z.
Proof. intros. by apply whole_counts, counts_of_Z. Qed.

Lemma ceil_whole x : fin x = true -> 0 < units x -> ceil x = of_Z (- (- units x / 2 ^ 1074)).
Proof. intros Fx Hx. by destruct x as [| | |s m e]. Qed.

Lemma ceil_bounds u n : (n - 1) * 2 ^ 1074 < u <= n * 2 ^ 1074 -> - (- u / 2 ^ 1074) = n.
Proof.
  pose proof unit_pos as P. revert P. generalize (2 ^ 1074). intros U HU Hu.
  pose proof (Z.div_mod (- u) U ltac:(lia)). pose proof (Z.mod_pos_bound (- u) U ltac:(lia)). nia.
Qed.

Lemma min_below a b : ltb b a = true -> min a b = b.
Proof.
  intros H. destruct (ltb_nan _ _ H) as [Hb Ha]. unfold min. rewrite H, Ha, Hb. destruct a, b; done.
Qed.

Lemma max_above a b : ltb a b = true -> max a b = b.
Proof.
  intros H. destruct (ltb_nan _ _ H) as [Ha Hb]. unfold max. rewrite H, Ha, Hb. destruct a, b; done.
Qed.

Lemma min_self a : min a a = a.
Proof. unfold min. destruct a as [s| | |s m e]; cbn [is_nan orb]; rewrite ?ltb_irrefl, ?orb_diag; done. Qed.

(** ** Resamples *)

Lemma uint32_range z : 0 <= ToUint32 z < 2 ^ 32.
Proof. by apply Z.mod_pos_bound. Qed.

#[local] Opaque ToUint32 imul xor32 or32 ushr ToInt32.

Lemma mulberry32_range s : 0 <= (mulberry32_next s).2 < 2 ^ 32.
Proof.
  unfold mulberry32_next. set (a := ToInt32 _). set (t := imul _ _). set (t' := xor32 _ t). apply uint32_range.
Qed.

(** A value of the generator is at most [1 - 2^-32]. *)
Lemma rand_below s : fin (rand s).2 = true /\ 0 <= units (rand s).2 <= (2 ^ 32 - 1) * 2 ^ (-32 + 1074).
Proof.
  unfold rand. pose proof (mulberry32_range s) as Hu. destruct (mulberry32_next s) as [s' u]. cbn [snd] in *.
  destruct (of_Z_exact u ltac:(lia)) as [Fu Uu], (of_Z_exact 4294967296 ltac:(lia)) as [Fd Ud].
  destruct (double_exists (2 ^ 32 - 1) (-32)) as (y & Fy & Uy); [lia..|].
  assert (4294967296 * 2 ^ (-32 + 1074) = 2 ^ 1074) as E by done.
  pose proof (div_near _ _ Fu Fd) as Hd. rewrite Uu, Ud in Hd. rewrite <- Uy.
  apply (near_between _ _ _ zero y (Hd ltac:(pose proof unit_pos; lia))); [done..|]. cbn [units zero]. rewrite Uy. clear - Hu E.
  assert (0 < 2 ^ (-32 + 1074)) as P by (by apply Z.pow_pos_nonneg). revert E P.
  generalize (2 ^ (-32 + 1074)), (2 ^ 1074). intros V U <- HV. nia.
Qed.

Lemma scaled_index r w :
  fin r = true -> 0 <= units r <= (2 ^ 32 - 1) * 2 ^ (-32 + 1074) -> 1 <= w < 2 ^ 21 ->
  0 <= whole (floor (mul r (of_Z w))) < w.
Proof.
  intros Fr Hr Hw. destruct (of_Z_exact w ltac:(lia)) as [Fw Uw].
  destruct (double_exists (w * 2 ^ 32 - 1) (-32)) as (t & Ft & Ut); [lia..|].
  assert (4294967296 * 2 ^ (-32 + 1074) = 2 ^ 1074) as E by done.
  assert (0 < 2 ^ (-32 + 1074)) as P by (by apply Z.pow_pos_nonneg).
  pose proof (mul_near _ _ Fr Fw) as Hm. rewrite Uw in Hm.
  destruct (near_between _ _ _ zero t Hm) as [Fm HM]; [done..| |].
  { cbn [units zero]. rewrite Ut. clear - Hr P E Hw. revert Hr P E. generalize (units r), (2 ^ (-32 + 1074)), (2 ^ 1074).
    intros R V U HR HV <-. split; [apply Z.mul_nonneg_nonneg; lia|].
    assert (R * w <= (w * 2 ^ 32 - 1) * V) as H.
    { transitivity ((2 ^ 32 - 1) * V * w); [apply Z.mul_le_mono_nonneg_r; lia|nia]. }
    replace (R * (w * (4294967296 * V))) with (R * w * (4294967296 * V)) by ring.
    apply Z.mul_le_mono_nonneg_r; [lia|done]. }
  cbn [units zero] in HM. rewrite Ut in HM. rewrite (whole_counts _ (units (mul r (of_Z w)) / 2 ^ 1074)); [|apply floor_counts; [done|]].
  - split; [apply Z.div_pos; pose proof unit_pos; lia|]. apply Z.div_lt_upper_bound; [by apply unit_pos|].
    clear - HM E P Hw. revert HM E P. generalize (2 ^ (-32 + 1074)), (2 ^ 1074), (units (mul r (of_Z w))). intros V U X. nia.
  - clear - HM E P Hw. revert HM E P. generalize (2 ^ (-32 + 1074)), (2 ^ 1074), (units (mul r (of_Z w))). intros V U X. nia.
Qed.

(** [Math.floor(rand() * n)] is an index of [n] values. *)
Lemma draw_index n s : (0 < n)%nat -> Z.of_nat n < 2 ^ 21 -> 0 <= (draw n s).2 < Z.of_nat n.
Proof.
  intros Hn Hb. unfold draw. destruct (rand_below s) as [F H]. destruct (rand s) as [s' u].
  apply scaled_index; [done|done|lia].
Qed.

Lemma at_lookup {A} (l : list A) i : 0 <= i < Z.of_nat (length l) -> exists x, at_ l i = Some x /\ x ∈ l.
Proof.
  intros Hi. unfold at_. rewrite (proj2 (Z.ltb_ge _ _)) by lia.
  destruct (nth_error l (Z.to_nat i)) as [x|] eqn:E.
  - exists x. split; [done|]. apply list_elem_of_In. by eapply nth_error_In.
  - apply nth_error_None in E. lia.
Qed.

(** Every draw of a resample is a value of the sample. *)
Lemma resample_within {A} (l : list A) k : forall s,
  l <> [] -> Z.of_nat (length l) < 2 ^ 21 ->
  length (resample l k s).2 = k /\ Forall (fun o => exists x, o = Some x /\ x ∈ l) (resample l k s).2.
Proof.
  induction k as [|k IH]; intros s Hl Hn; [done|]. cbn [resample].
  pose proof (draw_index (length l) s ltac:(destruct l; [done|simpl; lia]) Hn) as Hi.
  destruct (draw (length l) s) as [s' i]. cbn [snd] in Hi. specialize (IH s' Hl Hn).
  destruct (resample l k s') as [s'' r]. cbn [snd] in *. destruct IH as [Hlen Hall]. split; [simpl; by rewrite Hlen|].
  constructor; [by apply at_lookup|done].
Qed.

Lemma resamples_all {A B} (P : B -> Prop) (l : list A) (f : list (option A) -> B) r : forall s,
  l <> [] -> Z.of_nat (length l) < 2 ^ 21 ->
  (forall buf, length buf = length l -> Forall (fun o => exists x, o = Some x /\ x ∈ l) buf -> P (f buf)) ->
  length (resamples l f r s) = r /\ Forall P (resamples l f r s).
Proof.
  induction r as [|r IH]; intros s Hl Hn Hf; [done|]. cbn [resamples].
  pose proof (resample_within l (length l) s Hl Hn) as Hr. destruct (resample l (length l) s) as [s' buf].
  cbn [snd] in Hr. destruct (IH s' Hl Hn Hf) as [Hlen Hall]. split; [simpl; by rewrite Hlen|].
  destruct Hr. constructor; [by apply Hf|done].
Qed.

(** ** Sorted samples *)

Lemma ascending_sorted l : Forall (fun x => real x = true) l -> StronglySorted (fun x y => leb x y = true) (ascending l).
Proof.
  intros Hl. unfold ascending.
  pose proof (sort_sorted (fun a => real (id a) = true) (asc id) l Hl) as Hs.
  assert (Forall (fun x => real x = true) (sort (asc id) l)) as Hr by by rewrite (sort_perm (asc id) l).
  induction Hs as [|x k Hs IH Hx]; constructor; inversion Hr as [|? ? Hrx Hrk]; subst; [by apply IH|].
  rewrite Forall_forall in *. intros y Hy. apply (asc_le id); auto.
Qed.

Lemma at_sorted l i j x y :
  StronglySorted (fun x y => leb x y = true) l -> Forall (fun x => real x = true) l ->
  at_ l i = Some x -> at_ l j = Some y -> i <= j -> leb x y = true.
Proof.
  unfold at_. destruct (Z.ltb_spec i 0) as [|Hi]; [done|]. destruct (Z.ltb_spec j 0) as [|Hj]; [done|].
  intros Hs Hr Hx Hy Hij. rewrite <- (Z2Nat.id i), <- (Z2Nat.id j), <- Nat2Z.inj_le in Hij by done.
  revert Hx Hy Hij. generalize (Z.to_nat i), (Z.to_nat j). clear Hi Hj i j.
  induction Hs as [|a l Hs IH Ha]; intros [|i] [|j]; simpl; intros Hx Hy Hij; try done; try lia;
    inversion Hr as [|? ? Hra Hrl]; subst.
  - simplify_eq. by apply leb_refl, real_not_nan.
  - simplify_eq. rewrite Forall_forall in Ha. apply Ha, list_elem_of_In. by eapply nth_error_In.
  - apply (IH Hrl i j); [done|done|lia].
Qed.

Lemma at_elem {A} (l : list A) i x : at_ l i = Some x -> x ∈ l.
Proof. unfold at_. destruct (i <? 0); [done|]. intros H. apply list_elem_of_In. by eapply nth_error_In. Qed.

(** [p] percent rounds so that the rank of a quantile is exact. *)
Definition exact_percent (p : Z) : Prop :=
  let c := div (of_Z p) (of_Z 100) in
  fin c = true /\ units c * 100 <= p * 2 ^ 1074 <= (units c + 2 ^ 1022) * 100 /\ 0 < p <= 100.

Lemma quantile_rank_exact n p : (0 < n)%nat -> Z.of_nat n < 2 ^ 40 -> exact_percent p ->
  exists k, quantile_rank n (of_Z p) = of_Z k /\ 1 <= k <= Z.of_nat n /\ 100 * (k - 1) < p * Z.of_nat n <= 100 * k.
Proof.
  intros Hn Hb (Fc & Hc & Hp). unfold quantile_rank. set (c := div (of_Z p) (of_Z 100)) in *. clearbody c.
  assert (1 <= Z.of_nat n) as H1 by lia. clear Hn. set (w := Z.of_nat n) in *. clearbody w.
  set (k := - (- (p * w) / 100)). assert (100 * (k - 1) < p * w <= 100 * k) as Hk.
  { unfold k. pose proof (Z.div_mod (- (p * w)) 100 ltac:(lia)). pose proof (Z.mod_pos_bound (- (p * w)) 100 ltac:(lia)). lia. }
  clearbody k. assert (1 <= k <= w) as Hkw by nia. exists k. split; [|done].
  destruct (of_Z_exact w ltac:(lia)) as [Fw Uw], (of_Z_exact k ltac:(lia)) as [Fk Uk].
  destruct (double_exists (128 * (k - 1) + 1) (-7)) as (t & Ft & Ut); [lia..|].
  pose proof (mul_near c (of_Z w) Fc Fw) as Hm. rewrite Uw in Hm.
  pose proof unit_pos as P. assert (2 ^ 1074 = 2 ^ 52 * 2 ^ 1022) as E by (by rewrite <- Z.pow_add_r).
  assert (2 ^ 1074 = 2 ^ 7 * 2 ^ (-7 + 1074)) as E7 by (by rewrite <- Z.pow_add_r).
  assert (0 < 2 ^ 1022) as P2 by (by apply Z.pow_pos_nonneg).
  destruct (near_between _ _ _ t (of_Z k) Hm) as [Fm HM]; [done..| |].
  - rewrite Ut, Uk. clear - Hc Hk P P2 E E7 Hp H1 Hb. revert Hc P P2 E E7.
    generalize (units c), (2 ^ 1074), (2 ^ 1022), (2 ^ (-7 + 1074)). intros C U V W HC HU HV EV EW.
    assert ((128 * (k - 1) + 1) * W <= C * w /\ C * w <= k * U) as [Hlo Hhi].
    { split.
      - apply (Z.mul_le_mono_pos_l _ _ (100 * 128)); [lia|].
        assert (100 * V * w <= 2 ^ 47 * V) by nia. assert (100 * (k - 1) + 1 <= p * w) by lia.
        assert ((100 * (k - 1) + 1) * U <= p * w * U) by nia. nia.
      - nia. }
    split; [|nia]. replace (C * (w * U)) with (C * w * U) by ring. apply Z.mul_le_mono_nonneg_r; lia.
  - rewrite Ut, Uk in HM. rewrite ceil_whole; [|done|nia].
    rewrite (ceil_bounds _ k).
    + destruct (decide (k = 1)) as [->|]; [by vm_compute|]. apply max_above.
      rewrite fin_ltb, Uk, units_one by done. apply Z.ltb_lt. revert P. generalize (2 ^ 1074). intros. nia.
    + split; [|lia]. revert HM P E7. generalize (units (mul c (of_Z w))), (2 ^ 1074), (2 ^ (-7 + 1074)). intros. nia.
Qed.

Lemma exact_50 : exact_percent 50.
Proof. by vm_compute. Qed.

Lemma exact_95 : exact_percent 95.
Proof. by vm_compute. Qed.

(** How many values are at or below, and strictly below, the [i]-th. *)
Lemma sorted_counts l i x :
  StronglySorted (fun x y => leb x y = true) l -> Forall (fun x => real x = true) l -> nth_error l i = Some x ->
  (S i <= length (List.filter (fun v => leb v x) l))%nat /\ (length (List.filter (fun v => ltb v x) l) <= i)%nat.
Proof.
  intros Hs. revert i. induction Hs as [|a l Hs IH Ha]; intros [|i] Hr Hx; simpl in Hx; try done;
    inversion Hr as [|? ? Hra Hrl]; subst; cbn [List.filter].
  - simplify_eq. rewrite leb_refl, ltb_irrefl by (by apply real_not_nan). simpl. split; [lia|].
    enough (List.filter (fun v => ltb v x) l = []) as -> by done. apply filter_none. forall_elim.
    intros y Hy. by apply leb_not_ltb, Ha.
  - destruct (IH i Hrl Hx) as [H1 H2]. rewrite Forall_forall in Ha.
    rewrite (Ha x) by (apply list_elem_of_In; by eapply nth_error_In). destruct (ltb a x); simpl; lia.
Qed.

Lemma filter_perm {A} (f : A -> bool) l k : l ≡ₚ k -> length (List.filter f l) = length (List.filter f k).
Proof.
  induction 1 as [|x l k _ IH|x y l|l k m _ IH1 _ IH2]; simpl; try done.
  - destruct (f x); simpl; by rewrite IH.
  - by destruct (f x), (f y).
  - by rewrite IH1.
Qed.

(** The median and the 95th percentile are order statistics, those of
    Postgres's [percentile_disc]: a value of the sample with at least
    [p] percent of the values at or below it and less than [p] percent strictly
    below.  The binary64 rank [ceil(p / 100 * n)] is exact. *)
Theorem quantile_order_statistic values p :
  values <> [] -> Z.of_nat (length values) < 2 ^ 40 -> Forall (fun x => real x = true) values -> p = 50 \/ p = 95 ->
  exists x, quantileNearestRank values (of_Z p) = Some x /\ x ∈ values /\
    p * Z.of_nat (length values) <= 100 * Z.of_nat (length (List.filter (fun v => leb v x) values)) /\
    100 * Z.of_nat (length (List.filter (fun v => ltb v x) values)) < p * Z.of_nat (length values).
Proof.
  intros Hne Hb Hr Hp.
  assert (exact_percent p) as Hx by (destruct Hp as [->| ->]; [apply exact_50|apply exact_95]).
  assert (0 < length values)%nat as Hn by (destruct values; [done|simpl; lia]).
  destruct (quantile_rank_exact (length values) p Hn Hb Hx) as (k & Ek & Hk & Hpk).
  assert (length (ascending values) = length values) as El by apply sort_length.
  assert (quantileNearestRank values (of_Z p) = at_ (ascending values) (k - 1)) as ->.
  { unfold quantileNearestRank. destruct values as [|v vs] eqn:Ev; [done|]. rewrite <- Ev in *. unfold count. rewrite El, Ek.
    f_equal. f_equal. rewrite <- (whole_of_Z k) at 2 by lia. f_equal.
    destruct (of_Z_exact k ltac:(lia)) as [Fk Uk], (of_Z_exact (Z.of_nat (length values)) ltac:(lia)) as [Fn Un].
    destruct (decide (k = Z.of_nat (length values))) as [->|]; [apply min_self|].
    apply min_below. rewrite fin_ltb, Uk, Un by done. apply Z.ltb_lt. pose proof unit_pos as P. revert P.
    generalize (2 ^ 1074). intros. nia. }
  destruct (at_lookup (ascending values) (k - 1) ltac:(lia)) as (x & E & Hin). exists x. split; [done|].
  split; [by apply (elem_of_sort (asc id))|].
  unfold at_ in E. rewrite (proj2 (Z.ltb_ge _ _)) in E by lia.
  destruct (sorted_counts (ascending values) (Z.to_nat (k - 1)) x) as [H1 H2];
    [by apply ascending_sorted|by unfold ascending; rewrite (sort_perm (asc id) values)|exact E|].
  rewrite !(filter_perm _ _ _ (sort_perm (asc id) values)) in *. lia.
Qed.

(** ** Percentiles of the bootstrap *)

Lemma ceil_counts x n : fin x = true -> (n - 1) * 2 ^ 1074 < units x <= n * 2 ^ 1074 -> 0 <= n < 2 ^ 53 -> counts (ceil x) n.
Proof.
  intros Fx Hx Hn. pose proof unit_pos as P. destruct x as [| | |s m e]; try done.
  - split; [done|]. cbn [ceil units] in *. assert (n = 0) as ->; [|done].
    revert P Hx. generalize (2 ^ 1074). intros. nia.
  - cbn [ceil]. rewrite (ceil_bounds _ n Hx). by apply counts_of_Z.
Qed.

Lemma counts_ltb a b m n : counts a m -> counts b n -> ltb a b = (m <? n).
Proof.
  intros [Fa Ua] [Fb Ub]. rewrite fin_ltb, Ua, Ub by done. pose proof unit_pos as P. revert P.
  generalize (2 ^ 1074). intros U P. destruct (Z.ltb_spec m n); [apply Z.ltb_lt|apply Z.ltb_ge]; nia.
Qed.

Lemma min_units a b : fin a = true -> fin b = true -> fin (min a b) = true /\ units (min a b) = Z.min (units a) (units b).
Proof.
  intros Fa Fb. unfold min. rewrite (fin_not_nan a), (fin_not_nan b), fin_ltb by done. cbn [orb].
  destruct (Z.ltb_spec (units b) (units a)), a, b; try done; simpl units in *;
    split; try done; rewrite ?Z.min_l, ?Z.min_r by lia; done.
Qed.

Lemma max_units a b : fin a = true -> fin b = true -> fin (max a b) = true /\ units (max a b) = Z.max (units a) (units b).
Proof.
  intros Fa Fb. unfold max. rewrite (fin_not_nan a), (fin_not_nan b), fin_ltb by done. cbn [orb].
  destruct (Z.ltb_spec (units a) (units b)), a, b; try done; simpl units in *;
    split; try done; rewrite ?Z.max_l, ?Z.max_r by lia; done.
Qed.

(** Floors and ceilings on both sides of the middle. *)
Lemma between_indices U V X Y r :
  0 < U -> U = 2 * V -> 1 <= r -> 0 <= X <= (r - 1) * V -> (r - 1) * V <= Y <= (r - 1) * U ->
  (- (- Y / U) - 1) * U < Y <= - (- Y / U) * U /\ X / U <= - (- Y / U) <= r - 1 /\ 0 <= X / U <= r - 1.
Proof.
  intros HU HV Hr HX HY.
  pose proof (Z.div_mod X U ltac:(lia)). pose proof (Z.mod_pos_bound X U ltac:(lia)).
  pose proof (Z.div_mod (- Y) U ltac:(lia)). pose proof (Z.mod_pos_bound (- Y) U ltac:(lia)).
  set (x := X / U) in *. set (y := - (- Y / U)). assert (- Y / U = - y) as Ey by (unfold y; lia). rewrite Ey in *.
  clearbody x y. assert ((y - 1) * U < Y <= y * U) as Hy by lia. split; [done|].
  assert (x * U <= X) as Hx by lia.
  assert (x <= y) by (apply (Z.mul_le_mono_pos_r _ _ U); lia).
  assert (y - 1 < r - 1) by (apply (Z.mul_lt_mono_pos_r U); lia).
  assert (-1 < x) by (apply (Z.mul_lt_mono_pos_r U); lia). lia.
Qed.

(** The two percentile indices of [r] resamples are indices, in order. *)
Lemma percentile_indices alpha r :
  unital alpha -> 1 <= r < 2 ^ 31 -> 0 <= lo_index alpha r <= hi_index alpha r /\ hi_index alpha r < r.
Proof.
  intros [Fa Ha] Hr. pose proof unit_pos as P.
  assert (counts (sub (of_Z r) one) (r - 1)) as [Fn Un].
  { destruct (decide (r = 1)) as [->|]; [by vm_compute|]. unfold one. rewrite sub_of_Z by lia. apply counts_of_Z. lia. }
  destruct (double_exists 1 (-1)) as (t & Ft & Ut), (double_exists (r - 1) (-1)) as (h & Fh & Uh); [lia..|].
  assert (2 ^ 1074 = 2 * 2 ^ (-1 + 1074)) as E by done.
  assert (0 < 2 ^ (-1 + 1074)) as P' by (by apply Z.pow_pos_nonneg).
  destruct (of_Z_exact 2 ltac:(lia)) as [F2 U2].
  pose proof (div_near alpha (of_Z 2) Fa F2 ltac:(lia)) as Hd. rewrite U2 in Hd.
  destruct (near_between _ _ _ zero t Hd) as [Fq Hq]; [done..| |].
  { rewrite Ut. cbn [units zero]. revert Ha P E P'. generalize (2 ^ 1074), (2 ^ (-1 + 1074)). intros. nia. }
  set (q := div alpha (of_Z 2)) in *. unfold lo_index, hi_index. fold q. clearbody q.
  destruct (near_between _ _ _ t one (rounds_near _ _ (sub_rounds one q eq_refl Fq))) as [Fc Hc]; [done..| |].
  { rewrite Ut, units_one in *. cbn [units zero] in Hq. lia. }
  set (c := sub one q) in *. clearbody c. set (m := sub (of_Z r) one) in *. clearbody m.
  rewrite Ut in Hq, Hc. rewrite units_one in Hc. cbn [units zero] in Hq.
  pose proof (mul_near q m Fq Fn) as Hl. pose proof (mul_near c m Fc Fn) as Hh. rewrite Un in Hl, Hh.
  destruct (near_between _ _ _ zero h Hl) as [FL HL]; [done..| |].
  { rewrite Uh. cbn [units zero]. revert Hq P E P'. generalize (2 ^ 1074), (2 ^ (-1 + 1074)). intros U V Hq P E P'.
    split; [nia|]. replace (units q * ((r - 1) * U)) with (units q * (r - 1) * U) by ring. apply Z.mul_le_mono_nonneg_r; nia. }
  destruct (near_between _ _ _ h m Hh) as [FH HH]; [done..| |].
  { rewrite Uh, Un. revert Hc P E P'. generalize (2 ^ 1074), (2 ^ (-1 + 1074)). intros U V Hc P E P'.
    rewrite (Z.mul_comm (units c)). split; [|apply Z.mul_le_mono_nonneg_l; [nia|lia]].
    replace ((r - 1) * V * U) with ((r - 1) * U * V) by ring. apply Z.mul_le_mono_nonneg_l; [nia|lia]. }
  rewrite Uh in HL, HH. rewrite Un in HH. cbn [units zero] in HL.
  assert (units (mul q m) < 2 ^ 53 * 2 ^ 1074) as HL2.
  { eapply Z.le_lt_trans; [apply HL|]. revert P E P'. generalize (2 ^ 1074), (2 ^ (-1 + 1074)). intros. nia. }
  destruct (floor_counts (mul q m) FL ltac:(lia)) as [Fl Ul].
  set (k := - (- units (mul c m) / 2 ^ 1074)).
  assert ((k - 1) * 2 ^ 1074 < units (mul c m) <= k * 2 ^ 1074 /\ units (mul q m) / 2 ^ 1074 <= k <= r - 1 /\
    0 <= units (mul q m) / 2 ^ 1074 <= r - 1) as (Hk & Hkr & Hkq).
  { unfold k. clear - P HL HH Hr E P'. revert P HL HH E P'. generalize (2 ^ 1074), (2 ^ (-1 + 1074)), (units (mul q m)), (units (mul c m)).
    intros U V X Y P HX HY E P'. apply between_indices with V; [done|done|lia|done|done]. }
  destruct (ceil_counts (mul c m) k FH Hk ltac:(lia)) as [Fk Uk].
  destruct (max_units zero (floor (mul q m)) eq_refl Fl) as [_ Emax].
  destruct (min_units m (ceil (mul c m)) Fn Fk) as [_ Emin].
  unfold whole. rewrite Emax, Emin, Ul, Un, Uk. cbn [units zero].
  rewrite Z.max_r by (apply Z.mul_nonneg_nonneg; lia). rewrite Z.min_r by (apply Z.mul_le_mono_nonneg_r; lia).
  rewrite !Z.div_mul by lia. lia.
Qed.

Lemma percentiles_some stats alpha r :
  unital alpha -> 1 <= r < 2 ^ 31 -> length stats = Z.to_nat r -> Forall (fun x => real x = true) stats ->
  exists lo hi, percentiles stats alpha r = Some (lo, hi) /\ lo ∈ stats /\ hi ∈ stats /\ leb lo hi = true.
Proof.
  intros Ha Hr Hl Hs. destruct (percentile_indices alpha r Ha Hr) as [Hi Hj].
  assert (length (ascending stats) = length stats) as El by apply sort_length.
  assert (r = Z.of_nat (length (ascending stats))) as Er by lia. unfold percentiles.
  destruct (at_lookup (ascending stats) (lo_index alpha r)) as (lo & E1 & I1); [lia|].
  destruct (at_lookup (ascending stats) (hi_index alpha r)) as (hi & E2 & I2); [lia|].
  exists lo, hi. rewrite E1. cbn. rewrite E2. split; [done|].
  split; [by apply (elem_of_sort (asc id))|]. split; [by apply (elem_of_sort (asc id))|].
  apply (at_sorted (ascending stats) (lo_index alpha r) (hi_index alpha r)); [by apply ascending_sorted| |done|done|lia].
  unfold ascending. by rewrite (sort_perm (asc id) stats).
Qed.

(** ** Intervals of scores *)

Lemma clamp_unital q : real q = true -> unital (clamp q).
Proof.
  intros Hq. unfold clamp. pose proof unit_pos. destruct (real_cases q Hq) as [F|[[] ->]].
  - destruct (max_units zero q eq_refl F) as [Fm Um]. destruct (min_units one (max zero q) eq_refl Fm) as [Fu Uu].
    split; [done|]. rewrite Uu, Um, units_one. cbn [units zero]. lia.
  - by vm_compute.
  - by vm_compute.
Qed.

Lemma clamps_unital l : Forall (fun q => real q = true) l -> Forall unital (map clamp l).
Proof. intros Hl. apply Forall_map. eapply Forall_impl; [exact Hl|]. intros q. apply clamp_unital. Qed.

Lemma unital_fin a : unital a -> fin a = true.
Proof. by intros []. Qed.

Lemma unital_real a : unital a -> real a = true.
Proof. intros [F _]. by apply fin_real. Qed.

Lemma or_nan_within buf l : Forall (fun o => exists x, o = Some x /\ x ∈ l) buf -> Forall unital l -> Forall unital (map or_nan buf).
Proof.
  intros Hb Hl. apply Forall_map. eapply Forall_impl; [exact Hb|]. intros o (x & -> & Hx). rewrite Forall_forall in Hl. by apply Hl.
Qed.

Lemma mean_of_unital l : l <> [] -> Z.of_nat (length l) < 2 ^ 53 -> Forall unital l -> unital (mean_of l).
Proof. apply mean_unital. Qed.

(** The bootstrap of a mean of scores gives an interval of scores. *)
Lemma bootstrap_unital l seed r alpha :
  l <> [] -> Z.of_nat (length l) < 2 ^ 21 -> Forall unital l -> unital alpha -> 1 <= r < 2 ^ 31 ->
  exists m lo hi, bootstrapMeanCi l seed r alpha = Some (m, (lo, hi)) /\ unital lo /\ unital hi /\ leb lo hi = true.
Proof.
  intros Hne Hl Hu Ha Hr. unfold bootstrapMeanCi, bootstrapCi.
  destruct (resamples_all unital l (fun buf => mean_of (map or_nan buf)) (Z.to_nat r) (mulberry32 seed) Hne Hl) as [Hlen Hall].
  { intros buf Hlb Hb. apply mean_of_unital; [|rewrite length_map; lia|by eapply or_nan_within].
    intros E. apply (f_equal length) in E. rewrite length_map, Hlb in E. by destruct l. }
  destruct (percentiles_some _ alpha r Ha Hr Hlen) as (lo & hi & -> & Ilo & Ihi & Hle).
  { eapply Forall_impl; [exact Hall|]. apply unital_real. }
  rewrite Forall_forall in Hall. cbn. eexists _, lo, hi. split; [done|]. auto.
Qed.

Section Jeffreys.

Context (mathLog mathExp mathSin : number -> number).

Abbreviation bisect := (bisect mathLog mathExp mathSin).
Abbreviation betaInvCdf := (betaInvCdf mathLog mathExp mathSin).
Abbreviation jeffreysCi := (jeffreysCi mathLog mathExp mathSin).

(** The bisection keeps an interval of scores and never leaves it. *)
Lemma bisect_within fuel p a b : forall lo hi,
  unital lo -> unital hi -> units lo <= units hi ->
  let '(lo', hi') := bisect fuel p a b lo hi in
  unital lo' /\ unital hi' /\ units lo <= units lo' <= units hi' /\ units hi' <= units hi.
Proof.
  induction fuel as [|fuel IH]; intros lo hi Hlo Hhi Hle; cbn [Stats.bisect]; [by split_and!; try lia|].
  destruct (midpoint lo hi Hlo Hhi Hle) as [Fm Hm]. set (mid := div (add lo hi) (of_Z 2)) in *.
  assert (unital mid) as Hmid by (destruct Hlo, Hhi; split; [done|lia]).
  destruct (ltb _ p).
  - specialize (IH mid hi Hmid Hhi ltac:(lia)). destruct (bisect fuel p a b mid hi) as [lo' hi'].
    destruct IH as (? & ? & ? & ?). split_and!; try done; lia.
  - specialize (IH lo mid Hlo Hmid ltac:(lia)). destruct (bisect fuel p a b lo mid) as [lo' hi'].
    destruct IH as (? & ? & ? & ?). split_and!; try done; lia.
Qed.

(** Two searches take the same path until the first midpoint whose value
    separates them: the order of the results is that of the probabilities,
    whatever the function bisected. *)
Lemma bisect_mono fuel p q a b : forall lo hi,
  leb p q = true -> unital lo -> unital hi -> units lo <= units hi ->
  let '(lo1, hi1) := bisect fuel p a b lo hi in
  let '(lo2, hi2) := bisect fuel q a b lo hi in
  units (div (add lo1 hi1) (of_Z 2)) <= units (div (add lo2 hi2) (of_Z 2)).
Proof.
  induction fuel as [|fuel IH]; intros lo hi Hpq Hlo Hhi Hle; cbn [Stats.bisect]; [lia|].
  destruct (midpoint lo hi Hlo Hhi Hle) as [Fm Hm]. set (mid := div (add lo hi) (of_Z 2)) in *.
  assert (unital mid) as Hmid by (destruct Hlo, Hhi; split; [done|lia]).
  set (I := regularizedIncompleteBeta mathLog mathExp mathSin mid a b).
  destruct (ltb I p) eqn:Ep.
  - rewrite (ltb_leb_trans _ _ _ Ep Hpq). apply IH; [done..|lia].
  - destruct (ltb I q) eqn:Eq; [|apply IH; [done..|lia]].
    pose proof (bisect_within fuel p a b lo mid Hlo Hmid ltac:(lia)) as B1.
    pose proof (bisect_within fuel q a b mid hi Hmid Hhi ltac:(lia)) as B2.
    destruct (bisect fuel p a b lo mid) as [lo1 hi1]. destruct (bisect fuel q a b mid hi) as [lo2 hi2].
    destruct B1 as (U1 & V1 & L1 & R1), B2 as (U2 & V2 & L2 & R2).
    destruct (midpoint lo1 hi1 U1 V1 ltac:(lia)) as [_ M1]. destruct (midpoint lo2 hi2 U2 V2 ltac:(lia)) as [_ M2]. lia.
Qed.

Lemma betaInvCdf_unital p a b : unital (betaInvCdf p a b).
Proof.
  unfold Stats.betaInvCdf. destruct (leb p zero); [apply unital_zero|]. destruct (geb p one); [apply unital_one|].
  pose proof (bisect_within 90 p a b zero one unital_zero unital_one) as B.
  destruct (bisect 90 p a b zero one) as [lo hi]. destruct B as (Hlo & Hhi & Hle & _); [by apply unital_one|].
  destruct (midpoint lo hi Hlo Hhi ltac:(lia)) as [F H]. destruct Hlo, Hhi. split; [done|lia].
Qed.

Lemma betaInvCdf_mono p q a b :
  leb p zero = false -> geb q one = false -> leb p q = true -> leb (betaInvCdf p a b) (betaInvCdf q a b) = true.
Proof.
  intros Hp Hq Hpq. pose proof (betaInvCdf_unital p a b) as [F1 _]. pose proof (betaInvCdf_unital q a b) as [F2 _].
  rewrite fin_leb by done. apply Z.leb_le. unfold Stats.betaInvCdf. rewrite Hp, Hq.
  destruct (leb q zero) eqn:Eq.
  { rewrite (leb_trans _ _ _ Hpq Eq) in Hp. done. }
  destruct (geb p one) eqn:Ep.
  { unfold geb in *. change (SFleb one p) with (leb one p) in Ep. change (SFleb one q) with (leb one q) in Hq.
    by rewrite (leb_trans _ _ _ Ep Hpq) in Hq. }
  pose proof (bisect_mono 90 p q a b zero one Hpq unital_zero unital_one) as B.
  destruct (bisect 90 p a b zero one) as [lo1 hi1], (bisect 90 q a b zero one) as [lo2 hi2].
  apply B. by apply unital_one.
Qed.

Lemma jeffreys_interval l lo hi : jeffreysCi l = (lo, hi) -> unital lo /\ unital hi /\ leb lo hi = true.
Proof.
  unfold Stats.jeffreysCi. destruct l as [|q l]; [intros [= <- <-]; split_and!; [apply unital_zero|apply unital_one|done]|].
  set (s := fold_left _ _ _). set (n := count _). cbv zeta. intros [= <- <-].
  set (a := add s (lit 5 1)). set (b := add (sub n s) (lit 5 1)).
  assert (forall p, unital (betaInvCdf p a b)) as HB by (intros; apply betaInvCdf_unital).
  assert (leb (betaInvCdf (lit 25 3) a b) (betaInvCdf (lit 975 3) a b) = true) as HM by (by apply betaInvCdf_mono).
  specialize (HB (lit 25 3)) as H1. specialize (HB (lit 975 3)) as H2.
  revert H1 H2 HM. generalize (betaInvCdf (lit 25 3) a b), (betaInvCdf (lit 975 3) a b). intros x y H1 H2 HM.
  apply unital_bounds in H1 as B1, H2 as B2.
  destruct (leb s zero), (geb s n); (split; [|split]); auto using unital_zero, unital_one; tauto.
Qed.

(** ** The exported intervals *)

Context (sha256 : string -> string).

Abbreviation qualityIntervalCi := (qualityIntervalCi mathLog mathExp mathSin sha256).
Abbreviation clusteredQualityCi := (clusteredQualityCi mathLog mathExp mathSin sha256).

(** The interval of a quality mean always exists, is ordered and lies in
    [0, 1], for any scores other than NaN, infinite ones included, and whatever
    the mathematical functions of the platform return: no resample reads outside
    the sample, and the bisection of the Jeffreys interval is monotone without
    assuming that its distribution function is. *)
Theorem quality_interval scores :
  Forall (fun q => real q = true) scores -> Z.of_nat (length scores) < 2 ^ 21 ->
  exists lo hi, qualityIntervalCi scores = Some (lo, hi) /\ leb zero lo = true /\ leb lo hi = true /\ leb hi one = true.
Proof.
  intros Hs Hn. pose proof (clamps_unital scores Hs) as Hc.
  assert (forall l, exists lo hi, Some (jeffreysCi l) = Some (lo, hi) /\ leb zero lo = true /\ leb lo hi = true /\ leb hi one = true) as HJ.
  { intros l. destruct (jeffreysCi l) as [lo hi] eqn:E. exists lo, hi. apply jeffreys_interval in E as (Hlo & Hhi & Hle).
    apply unital_bounds in Hlo, Hhi. tauto. }
  unfold Stats.qualityIntervalCi. destruct scores as [|q l] eqn:El; [by exists zero, one|]. rewrite <- El in *.
  destruct (forallb _ _); [apply HJ|]. destruct (existsb _ _); [|apply HJ].
  cbv zeta. set (seed := seedFromString _ _).
  destruct (bootstrap_unital (map clamp scores) seed BOOTSTRAP_RESAMPLES ALPHA) as
    (m & lo & hi & -> & Hlo & Hhi & Hle); [by rewrite El|by rewrite length_map|done|by vm_compute|done|].
  cbn [mbind option_bind]. destruct Hlo as [Fl Hl], Hhi as [Fh Hh]. destruct (max_units zero lo eq_refl Fl) as [F1 U1], (min_units one hi eq_refl Fh) as [F2 U2].
  eexists _, _. split; [done|]. rewrite fin_leb, Z.leb_le in Hle by done.
  rewrite !fin_leb, !Z.leb_le, U1, U2, units_one by done.  cbn [units zero]. lia.
Qed.

Lemma add_to_group_perm g x m : concat (map snd (add_to_group g x m)) ≡ₚ x :: concat (map snd m).
Proof.
  induction m as [|[g' xs] m IH]; [done|]. cbn [add_to_group]. destruct (String.eqb g g'); cbn [map snd concat].
  - rewrite <- app_assoc. symmetry. apply (Permutation_middle xs (concat (map snd m)) x).
  - rewrite IH. by rewrite Permutation_middle.
Qed.

(** Grouping keeps every score. *)
Lemma by_group_perm scores groups :
  length scores = length groups -> concat (map snd (by_group scores groups)) ≡ₚ scores.
Proof.
  unfold by_group. intros Hl. enough (forall m, concat (map snd (fold_left (fun m gx => add_to_group gx.1 gx.2 m) (combine groups scores) m))
    ≡ₚ scores ++ concat (map snd m)) as H by (rewrite H; cbn; by rewrite app_nil_r).
  revert groups Hl. induction scores as [|x scores IH]; intros [|g groups] Hl m; try done. injection Hl as Hl.
  cbn [combine fold_left fst snd]. rewrite (IH groups Hl), add_to_group_perm. by rewrite <- Permutation_middle.
Qed.

Lemma by_group_length scores groups : (length (by_group scores groups) <= length scores)%nat.
Proof.
  unfold by_group. enough (forall m, (length (fold_left (fun m gx => add_to_group gx.1 gx.2 m) (combine groups scores) m)
    <= length scores + length m)%nat) as H by (specialize (H []); simpl in H; lia).
  revert groups. induction scores as [|x scores IH]; intros [|g groups] m; cbn [combine fold_left fst snd length]; try lia.
  etrans; [apply IH|]. enough (length (add_to_group g x m) <= S (length m))%nat by lia.
  induction m as [|[g' xs] m IHm]; [done|]. cbn [add_to_group]. destruct (String.eqb g g'); cbn [length]; lia.
Qed.

(** A pooled mean of whole groups is a score. *)
Lemma pooled_unital (ls : list (list number)) buf :
  Forall (fun q => real q = true) (concat ls) -> Z.of_nat (length (concat ls)) < 2 ^ 21 -> Z.of_nat (length buf) < 2 ^ 21 ->
  Forall (fun o => exists x, o = Some x /\ x ∈ ls) buf -> unital (pooled_mean buf).
Proof.
  intros Hr Hn Hb Hbuf. unfold pooled_mean. set (xs := concat (map (default []) buf)).
  assert (Forall (fun q => real q = true) xs /\ Z.of_nat (length xs) <= Z.of_nat (length buf) * 2 ^ 21) as [Hx Hlen].
  { subst xs. clear Hb. induction Hbuf as [|o buf (x & -> & Hx) _ [IH1 IH2]]; [done|]. cbn [map concat default from_option].
    apply list_elem_of_split in Hx as (l1 & l2 & El). rewrite El, concat_app in Hr, Hn. cbn [concat] in Hr, Hn.
    rewrite !length_app in *. rewrite !Forall_app in *. cbn [length]. unfold id in *. split; [tauto|lia]. }
  pose proof (clamps_unital xs Hx) as Hc. destruct (map clamp xs) as [|y ys] eqn:E; [apply unital_zero|]. rewrite <- E in *.
  apply mean_of_unital; [by rewrite E|rewrite length_map; lia|done].
Qed.

(** C23. The clustered interval of scores labelled one by one exists and contains
    the Jeffreys interval, within [0, 1]: resampling groups only widens.  It is
    the Jeffreys interval itself when every score is a group of its own. *)
Theorem clustered_interval scores groups r alpha :
  Forall (fun q => real q = true) scores -> Z.of_nat (length scores) < 2 ^ 21 -> length scores = length groups ->
  unital alpha -> 1 <= r < 2 ^ 31 ->
  exists lo hi, clusteredQualityCi scores groups r alpha = Some (Interval lo hi) /\
    leb zero lo = true /\ leb lo (jeffreysCi scores).1 = true /\ leb (jeffreysCi scores).2 hi = true /\ leb hi one = true /\
    leb (jeffreysCi scores).1 (jeffreysCi scores).2 = true /\
    (length (by_group scores groups) = length scores -> (lo, hi) = jeffreysCi scores).
Proof.
  intros Hs Hn Hl Ha Hr. unfold Stats.clusteredQualityCi. rewrite Hl, Nat.eqb_refl. cbn [negb].
  destruct (jeffreysCi scores) as [jl jh] eqn:EJ. destruct (jeffreys_interval _ _ _ EJ) as (Hjl & Hjh & Hj).
  pose proof (unital_bounds _ Hjl) as [Jl1 Jl2]. pose proof (unital_bounds _ Hjh) as [Jh1 Jh2]. cbn [fst snd].
  pose proof (leb_refl jl ltac:(by apply fin_not_nan, unital_fin)) as Rl.
  pose proof (leb_refl jh ltac:(by apply fin_not_nan, unital_fin)) as Rh.
  destruct scores as [|q scores'] eqn:El; [by exists jl, jh|]. rewrite <- El in *. rewrite length_map, <- Hl.
  destruct (Nat.eqb_spec (length (by_group scores groups)) (length scores)) as [E|Ne]; [by exists jl, jh|].
  cbv zeta. set (seed := seedFromString _ _). pose proof (by_group_perm scores groups Hl) as Hp.
  pose proof (by_group_length scores groups) as Hg. set (cl := map snd (by_group scores groups)) in *.
  assert (length cl = length (by_group scores groups)) as Ecl by apply length_map.
  destruct (resamples_all unital cl pooled_mean (Z.to_nat r) (mulberry32 seed)) as [Hlen Hall].
  { intros E0. rewrite E0 in Hp. symmetry in Hp. apply Permutation_nil_r in Hp. by rewrite El in Hp. }
  { lia. }
  { intros buf Hb Hbuf. apply (pooled_unital cl); [by rewrite Hp|by rewrite Hp|lia|done]. }
  destruct (percentiles_some _ alpha r Ha Hr Hlen) as (lo & hi & -> & Ilo & Ihi & Hle).
  { eapply Forall_impl; [exact Hall|]. apply unital_real. }
  rewrite Forall_forall in Hall. apply Hall in Ilo as [Fl Hlo], Ihi as [Fh Hhi]. cbn [mbind option_bind].
  destruct Hjl as [F1 H1], Hjh as [F2 H2]. destruct (min_units jl lo F1 Fl) as [F3 U3], (max_units jh hi F2 Fh) as [F4 U4].
  eexists _, _. split; [done|]. rewrite fin_leb, Z.leb_le in Hj by done.
  rewrite !fin_leb, !Z.leb_le, U3, U4, units_one by done. cbn [units zero].
  split_and!; try lia; done.
Qed.

(** A score without a label is refused, and only that. *)
Theorem unlabelled_scores_refused scores groups r alpha n m :
  clusteredQualityCi scores groups r alpha = Some (LengthMismatch n m) <->
  n = length scores /\ m = length groups /\ length scores <> length groups.
Proof.
  unfold Stats.clusteredQualityCi. destruct (Nat.eqb_spec (length scores) (length groups)) as [E|E]; cbn [negb].
  - split; [|tauto]. destruct (jeffreysCi scores) as [jl jh]. destruct scores; [done|]. destruct (_ =? _)%nat; [done|].
    by destruct (percentiles _ _ _) as [[]|].
  - split; [intros [= <- <-]; done|]. by intros (-> & -> & _).
Qed.

End Jeffreys.

(** ** Concrete inputs *)

(** Constant functions in place of the mathematical ones and of sha256. *)
Definition flat (x : number) : number := one.
Definition digest (s : string) : string := "0123456789abcdef".

Definition some_scores : list number := [one; lit 9 1; lit 85 2; zero].

Example quality_interval_witness :
  Forall (fun q => real q = true) some_scores /\
  exists lo hi, Stats.qualityIntervalCi flat flat flat digest some_scores = Some (lo, hi) /\
    leb zero lo = true /\ leb lo hi = true /\ leb hi one = true.
Proof.
  assert (Forall (fun q => real q = true) some_scores) as H by (repeat constructor).
  split; [exact H|]. apply quality_interval; [exact H|reflexivity].
Defined.

Example clustered_interval_witness :
  exists lo hi, Stats.clusteredQualityCi flat flat flat digest some_scores ["a"; "b"; "a"; "b"]%string 20 ALPHA = Some (Interval lo hi) /\
    leb lo (Stats.jeffreysCi flat flat flat some_scores).1 = true.
Proof.
  destruct (clustered_interval flat flat flat digest some_scores ["a"; "b"; "a"; "b"]%string 20 ALPHA) as (lo & hi & E & _ & H & _);
    [repeat constructor|reflexivity|reflexivity|by vm_compute|lia|].
  exists lo, hi. split; [exact E|exact H].
Defined.

Example quantile_order_statistic_witness :
  exists x, quantileNearestRank some_scores (of_Z 95) = Some x /\ x ∈ some_scores.
Proof.
  destruct (quantile_order_statistic some_scores 95) as (x & E & H & _);
    [discriminate|reflexivity|repeat constructor|by right|].
  exists x. split; [exact E|exact H].
Defined.

(** A percentage is expected: at 0.95 the quantile of ten values is the least. *)
Example quantile_of_fraction :
  quantileNearestRank (map of_Z [50; 60; 70; 80; 90; 100; 110; 120; 130; 400]) (lit 95 2) = Some (of_Z 50) /\
  quantileNearestRank (map of_Z [50; 60; 70; 80; 90; 100; 110; 120; 130; 400]) (of_Z 95) = Some (of_Z 400).
Proof. by vm_compute. Qed.

(** The first value of [mulberry32(42)]. *)
Example mulberry32_42 : (mulberry32_next (mulberry32 42)).2 = 2581720956.
Proof. by vm_compute. Qed.

End StatsSpec.
