(* ===== verification/Evidence.v ===== *)
(** * Evidence: harness/src/aggregate.ts, pareto/src/outcome-evidence.ts, pareto/src/shadow-evidence.ts

    What is computed from recorded observations: the aggregate of a strategy's
    eval cells, the block of a cluster's customer outcomes, and the challengers
    seen by shadow traffic.  An [option] result is [None] where the code would
    read past the end of an array, which the theorems exclude. *)

From S2P Require Import Prelude Number Rounding JsSort Types Print Stats StatsSpec.

Module Evidence.
Import Num Rounding Sort Print Stats.

(** A Set of strings in order of first appearance: [[...new Set(l)]]. *)
Definition distinct (l : list string) : list string :=
  fold_left (fun acc x => if bool_decide (x ∈ acc) then acc else acc ++ [x]) l [].

(** ** Eval results (core/src/types.ts)

    The confidence, the scorer's own usage and the tenant, which the
    aggregation does not read, are left out. *)

Module LatencyMs.
Record t := mk { p50 : number; p95 : number; mean : number }.
End LatencyMs.

Module EvalResult.
Record t := mk {
  runId : string;
  itemId : string;
  clusterId : ClusterId;
  strategyHash : string;
  strategyConfig : StrategyConfig;
  quality : number;
  scorer : string;
  instrument : option Instrument;
  judgeAgreement : option number;
  usage : Usage.t;
  latencyMs : LatencyMs.t;
  modelVersions : list (string * string);
  pricesVersion : string;
  providerMode : option ProviderMode;
  cacheKey : string;
  createdAt : string;
}.
End EvalResult.

(** ** Records of the three files

    A list of outcome rows is in insertion order, so their creation times are
    left out.  [SuccessBlock] is the block of a rate and of a mean. *)

Module SliceStat.
Record t := mk { name : string; n : nat; quality : number; ci : number * number; half : number }.
End SliceStat.

Module OutcomeRowLike.
Record t := mk {
  requestId : string;
  clusterId : option string;
  strategyHash : option string;
  success : option bool;
  score : option number;
  human : option string;
}.
End OutcomeRowLike.

Module Signals.
Record t := mk { success : option bool; score : option number; human : option string }.
End Signals.

Module SuccessBlock.
Record t := mk { n : number; rate : number; ci : number * number }.
End SuccessBlock.

Module HumanBlock.
Record t := mk { accepted : nat; edited : nat; rejected : nat; regenerated : nat }.
End HumanBlock.

Module ClusterOutcomeEvidence.
Record t := mk {
  windowDays : Z;
  requests : nat;
  success : option SuccessBlock.t;
  score : option SuccessBlock.t;
  human : option HumanBlock.t;
  otherStrategyRequests : nat;
}.
End ClusterOutcomeEvidence.

Module ShadowRowLike.
Record t := mk {
  clusterId : string;
  candidateHash : string;
  candidateModel : string;
  quality : option number;
  costUsd : number;
  latencyMs : number;
}.
End ShadowRowLike.

Module ShadowObserved.
Record t := mk { n : nat; quality : number; qualityCi : number * number }.
End ShadowObserved.

Module PrimaryQuality.
Record t := mk { clusterId : option string; strategyHash : string; quality : number }.
End PrimaryQuality.

Module ServedCost.
Record t := mk { clusterId : string; meanCostUsd : number; requests : number }.
End ServedCost.

Module ShadowEvidenceInputs.
Record t := mk {
  shadowRows : list ShadowRowLike.t;
  primaryQualities : list PrimaryQuality.t;
  servedCosts : list ServedCost.t;
}.
End ShadowEvidenceInputs.

Module ShadowChallenger.
Record t := mk {
  strategyHash : string;
  model : string;
  samples : nat;
  costPer1K : number;
  latencyP95 : option number;
  qualifies : bool;
  reason : string;
  observed : ShadowObserved.t;
}.
End ShadowChallenger.

Module ClusterShadowEvidence.
Record t := mk {
  windowDays : Z;
  servingObserved : option ShadowObserved.t;
  servingMeasuredCostPer1K : option number;
  challengers : list ShadowChallenger.t;
}.
End ClusterShadowEvidence.

Section Evidence.

Context (mathLog mathExp mathSin : number -> number) (sha256 : string -> string).

Abbreviation jeffreysCi := (jeffreysCi mathLog mathExp mathSin).
Abbreviation qualityIntervalCi := (qualityIntervalCi mathLog mathExp mathSin sha256).

(** ** aggregate.ts *)

Definition mean (values : list number) : number :=
  match values with [] => zero | _ => div (sum values) (count values) end.

Definition half_width (m : number) (ci : number * number) : number := max (sub m ci.1) (sub ci.2 m).

(** The scores of each slice, in order of first appearance. *)
Definition bySlice (sliceOf : option (string -> option string)) (results : list EvalResult.t) : list (string * list number) :=
  match sliceOf with
  | None => []
  | Some sliceOf =>
      fold_left (fun m r =>
        match sliceOf (EvalResult.itemId r) with
        | None => m
        | Some s => add_to_group s (EvalResult.quality r) m
        end) results []
  end.

Definition sliceStat (slice : string * list number) : option SliceStat.t :=
  let '(name, qs) := slice in
  ci ← qualityIntervalCi qs;
  let m := mean qs in
  Some (SliceStat.mk name (length qs) m ci (half_width m ci)).

(** [sliceStats.reduce((a, b) => (b.quality < a.quality ? b : a))]. *)
Definition weakestOf (l : list SliceStat.t) : option SliceStat.t :=
  match l with
  | [] => None
  | a :: l => Some (fold_left (fun a b => if ltb (SliceStat.quality b) (SliceStat.quality a) then b else a) l a)
  end.

(** The statistics of the slices, when there are at least two. *)
Definition sliceStats (sliceOf : option (string -> option string)) (results : list EvalResult.t) : option (list SliceStat.t) :=
  let slices := bySlice sliceOf results in
  if (2 <=? length slices)%nat then mapM sliceStat slices else Some [].

(** The point's quality and its interval. *)
Definition pointQuality (stats : list SliceStat.t) (results : list EvalResult.t) : option (number * (number * number)) :=
  match weakestOf stats with
  | Some w => Some (SliceStat.quality w, SliceStat.ci w)
  | None => let qualities := map EvalResult.quality results in qCi ← qualityIntervalCi qualities; Some (mean qualities, qCi)
  end.

Definition latencySeed (clusterId strategyHash : string) (latencies : list number) : Z :=
  seedFromString sha256 ("latency|" +:+ clusterId +:+ "|" +:+ strategyHash +:+ "|" +:+ to_string (count latencies)
    +:+ "|" +:+ sha256 (json_numbers latencies)).

Definition p95_of (xs : list number) : number := or_nan (quantileNearestRank xs (of_Z 95)).

(** The cell's instrument, derived from the scorer when the row names none. *)
Definition effectiveInstrument (r : EvalResult.t) : Instrument :=
  match EvalResult.instrument r with
  | Some i => i
  | None => if bool_decide (EvalResult.scorer r = "tool-call"%string) then tools_instrument else default_instrument
  end.

(** The mode every row agrees on. *)
Definition agreedMode (results : list EvalResult.t) : option ProviderMode :=
  match results with
  | [] => None
  | r :: _ =>
      m ← EvalResult.providerMode r;
      if forallb (fun r => bool_decide (EvalResult.providerMode r = Some m)) results then Some m else None
  end.

Definition aggregateResults (clusterId : ClusterId) (strategyHash : string) (strategyConfig : StrategyConfig)
    (results : list EvalResult.t) (pricesVersion : string) (providerMode : option ProviderMode)
    (sliceOf : option (string -> option string)) : option StrategyAggregate.t :=
  let n := count results in
  let latencies := map (fun r => Usage.latencyMs (EvalResult.usage r)) results in
  stats ← sliceStats sliceOf results;
  '(qMean, qCi) ← pointQuality stats results;
  let qHalf := match results with [] => zero | _ => half_width qMean qCi end in
  let seed := latencySeed clusterId strategyHash latencies in
  latencyCi ← match results with
              | [] => Some None
              | _ => '(_, ci) ← bootstrapCi latencies p95_of seed BOOTSTRAP_RESAMPLES ALPHA; Some (Some ci)
              end;
  latencyP50 ← quantileNearestRank latencies (of_Z 50);
  latencyP95 ← quantileNearestRank latencies (of_Z 95);
  let evidence :=
    match results with
    | [] => None
    | _ =>
        Some (FrontierPointEvidence.mk (map EvalResult.cacheKey results) (distinct (map EvalResult.runId results)) n
          (if forallb (fun r => bool_decide (effectiveInstrument r = tools_instrument)) results then Some true else None)
          qHalf (Some qCi) (Some n) latencyCi (Some (of_Z seed)) None None
          (Some (Tokens.mk (mean (map (fun r => Usage.inputTokens (EvalResult.usage r)) results))
                           (mean (map (fun r => Usage.outputTokens (EvalResult.usage r)) results))))
          (match weakestOf stats with
           | Some _ => Some (map (fun s => (SliceStat.name s,
                        Slice.mk (of_Z (Z.of_nat (SliceStat.n s))) (SliceStat.quality s) (SliceStat.half s))) stats)
           | None => None
           end) None None None)
    end in
  Some (StrategyAggregate.mk clusterId strategyHash strategyConfig qMean qHalf
    (match results with [] => None | _ => Some qCi end) n
    (mul (mean (map (fun r => Usage.costUsd (EvalResult.usage r)) results)) (of_Z 1000)) latencyP50 latencyP95 pricesVersion
    (match providerMode with Some m => Some m | None => agreedMode results end) evidence).

(** ** outcome-evidence.ts *)

Definition OUTCOME_EVIDENCE_WINDOW_DAYS : Z := 30.

Definition no_signals : Signals.t := Signals.mk None None None.

(** What a later row overwrites. *)
Definition newer_of {A} (cur new : option A) : option A := match new with Some _ => new | None => cur end.

Definition signal_step (cur : Signals.t) (r : OutcomeRowLike.t) : Signals.t :=
  Signals.mk (newer_of (Signals.success cur) (OutcomeRowLike.success r))
    (newer_of (Signals.score cur) (OutcomeRowLike.score r)) (newer_of (Signals.human cur) (OutcomeRowLike.human r)).

(** The Map, as a list of pairs in order of insertion. *)
Fixpoint update_request (r : OutcomeRowLike.t) (m : list (string * Signals.t)) : list (string * Signals.t) :=
  match m with
  | [] => [(OutcomeRowLike.requestId r, signal_step no_signals r)]
  | (k, cur) :: m =>
      if bool_decide (k = OutcomeRowLike.requestId r) then (k, signal_step cur r) :: m else (k, cur) :: update_request r m
  end.

Definition latestSignals (rows : list OutcomeRowLike.t) : list (string * Signals.t) :=
  fold_left (fun m r => update_request r m) rows [].

Definition bit (b : bool) : number := if b then one else zero.

Definition block (scores : list number) : option SuccessBlock.t :=
  match scores with
  | [] => None
  | _ => Some (SuccessBlock.mk (count scores) (div (sum scores) (count scores)) (jeffreysCi scores))
  end.

Definition tally (label : string) (l : list string) : nat := length (List.filter (String.eqb label) l).

Definition clusterOutcomeEvidence (rows : list OutcomeRowLike.t) (clusterId servingHash : string) :
    option ClusterOutcomeEvidence.t :=
  let inCluster := List.filter (fun r => bool_decide (OutcomeRowLike.clusterId r = Some clusterId)) rows in
  match inCluster with
  | [] => None
  | _ =>
      let serving r := bool_decide (OutcomeRowLike.strategyHash r = Some servingHash) in
      let others := distinct (map OutcomeRowLike.requestId (List.filter (fun r => negb (serving r)) inCluster)) in
      let byRequest := latestSignals (List.filter serving inCluster) in
      let humans := omap (fun e => Signals.human e.2) byRequest in
      Some (ClusterOutcomeEvidence.mk OUTCOME_EVIDENCE_WINDOW_DAYS (length byRequest)
        (block (map bit (omap (fun e => Signals.success e.2) byRequest)))
        (block (omap (fun e => Signals.score e.2) byRequest))
        (match humans with
         | [] => None
         | _ => Some (HumanBlock.mk (tally "accepted" humans) (tally "edited" humans) (tally "rejected" humans)
                        (tally "regenerated" humans))
         end)
        (length others))
  end.

(** ** shadow-evidence.ts *)

Definition SHADOW_EVIDENCE_WINDOW_DAYS : Z := 30.
Definition SHADOW_QUALIFY_MIN_N : Z := 30.

Definition observed (scores : list number) : option ShadowObserved.t :=
  match scores with
  | [] => None
  | _ => Some (ShadowObserved.mk (length scores) (div (sum scores) (count scores)) (jeffreysCi scores))
  end.

Definition no_scores : ShadowObserved.t := ShadowObserved.mk 0 zero (zero, one).

(** The Map from candidate to its rows, in order of first appearance. *)
Fixpoint add_candidate (r : ShadowRowLike.t) (m : list (string * list ShadowRowLike.t)) : list (string * list ShadowRowLike.t) :=
  match m with
  | [] => [(ShadowRowLike.candidateHash r, [r])]
  | (h, group) :: m =>
      if bool_decide (h = ShadowRowLike.candidateHash r) then (h, group ++ [r]) :: m else (h, group) :: add_candidate r m
  end.

Definition byCandidate (servingHash : string) (rows : list ShadowRowLike.t) : list (string * list ShadowRowLike.t) :=
  fold_left (fun m r => if bool_decide (ShadowRowLike.candidateHash r = servingHash) then m else add_candidate r m) rows [].

(** The verdict and the words for it. *)
Definition qualification (obs : ShadowObserved.t) (costPer1K : number) (clusterFloor serving : option number) : bool * string :=
  let lower := (ShadowObserved.qualityCi obs).1 in
  if (Z.of_nat (ShadowObserved.n obs) <? SHADOW_QUALIFY_MIN_N)%Z then
    (false, show_Z (Z.of_nat (ShadowObserved.n obs)) +:+ " of " +:+ show_Z SHADOW_QUALIFY_MIN_N +:+ " scored samples")
  else match clusterFloor with
  | None => (false, "policy has no quality floor — floor qualification undefined")
  | Some floor =>
      if ltb lower floor then
        (false, "quality lower bound " +:+ toFixed 3 lower +:+ " below the " +:+ toFixed 2 floor +:+ " floor")
      else match serving with
      | None => (false, "no measured serving cost in the window to compare against")
      | Some serving =>
          if geb costPer1K serving then
            (false, "not cheaper: $" +:+ toFixed 4 costPer1K +:+ "/1K vs serving's measured $" +:+ toFixed 4 serving +:+ "/1K")
          else
            (true, "lower bound " +:+ toFixed 3 lower +:+ " ≥ " +:+ toFixed 2 floor +:+ " floor on "
              +:+ show_Z (Z.of_nat (ShadowObserved.n obs)) +:+ " of your requests · measured $" +:+ toFixed 4 costPer1K
              +:+ " vs $" +:+ toFixed 4 serving +:+ " /1K")
      end
  end.

Definition challenger (clusterFloor serving : option number) (candidate : string * list ShadowRowLike.t) : ShadowChallenger.t :=
  let '(hash, samples) := candidate in
  let obs := default no_scores (observed (omap ShadowRowLike.quality samples)) in
  let costPer1K := mul (div (fold_left (fun s r => add s (ShadowRowLike.costUsd r)) samples zero) (count samples)) (of_Z 1000) in
  let '(qualifies, reason) := qualification obs costPer1K clusterFloor serving in
  ShadowChallenger.mk hash (default "" (ShadowRowLike.candidateModel <$> head samples)) (length samples) costPer1K
    (quantileNearestRank (map ShadowRowLike.latencyMs samples) (lit 95 2)) qualifies reason obs.

Definition challenger_order `{!Collation} : ShadowChallenger.t -> ShadowChallenger.t -> comparison :=
  then_by (then_by (desc (fun c => bit (ShadowChallenger.qualifies c))) (asc ShadowChallenger.costPer1K))
    (by_string ShadowChallenger.strategyHash).

Definition clusterShadowEvidence `{!Collation} (inputs : ShadowEvidenceInputs.t) (clusterId servingHash : string)
    (clusterFloor : option number) : option ClusterShadowEvidence.t :=
  let rows := List.filter (fun r => bool_decide (ShadowRowLike.clusterId r = clusterId)) (ShadowEvidenceInputs.shadowRows inputs) in
  let primaryScores := map PrimaryQuality.quality
    (List.filter (fun s => bool_decide (PrimaryQuality.clusterId s = Some clusterId)
                           && bool_decide (PrimaryQuality.strategyHash s = servingHash))
       (ShadowEvidenceInputs.primaryQualities inputs)) in
  match rows, primaryScores with
  | [], [] => None
  | _, _ =>
      let cost := find (fun c => bool_decide (ServedCost.clusterId c = clusterId)) (ShadowEvidenceInputs.servedCosts inputs) in
      let servingMeasuredCostPer1K := (fun c => mul (ServedCost.meanCostUsd c) (of_Z 1000)) <$> cost in
      Some (ClusterShadowEvidence.mk SHADOW_EVIDENCE_WINDOW_DAYS (observed primaryScores) servingMeasuredCostPer1K
        (sort challenger_order (map (challenger clusterFloor servingMeasuredCostPer1K) (byCandidate servingHash rows))))
  end.

End Evidence.

End Evidence.
