(* ===== verification/EvidenceSpec.v ===== *)
(** * What evidence promises: harness/src/aggregate.ts, pareto/src/outcome-evidence.ts, pareto/src/shadow-evidence.ts

    Aggregates exist and their numbers are those of the cells; a boundary
    suite's point is its weakest slice; the latest signal of a request is the
    one counted; a challenger qualifies on its lower bound and its cost. *)

From S2P Require Import Prelude Number Rounding JsSort Types Print Stats StatsSpec Evidence.

Module EvidenceSpec.
Import Num Rounding Sort Stats StatsSpec Evidence.

Section Spec.

Context (mathLog mathExp mathSin : number -> number) (sha256 : string -> string).

Abbreviation qualityIntervalCi := (qualityIntervalCi mathLog mathExp mathSin sha256).
Abbreviation aggregateResults := (aggregateResults mathLog mathExp mathSin sha256).
Abbreviation sliceStat := (sliceStat mathLog mathExp mathSin sha256).

(** ** Aggregates *)

(** The bootstrap of any real statistic of a real sample has its interval. *)
Lemma bootstrap_some (stat : list number -> number) l seed :
  l <> [] -> (Z.of_nat (length l) < 2 ^ 21)%Z -> Forall (fun x => real x = true) l ->
  (forall buf, length buf = length l -> Forall (fun x => real x = true) buf -> real (stat buf) = true) ->
  exists lo hi, bootstrapCi l stat seed BOOTSTRAP_RESAMPLES ALPHA = Some (stat l, (lo, hi)) /\ leb lo hi = true.
Proof.
  intros Hne Hl Hr Hstat. unfold bootstrapCi.
  destruct (resamples_all (fun x => real x = true) l (fun buf => stat (map or_nan buf)) (Z.to_nat BOOTSTRAP_RESAMPLES)
    (mulberry32 seed) Hne Hl) as [Hlen Hall].
  { intros buf Hb Hbuf. apply Hstat; [by rewrite length_map|]. apply Forall_map. eapply Forall_impl; [exact Hbuf|].
    intros o (x & -> & Hx). rewrite Forall_forall in Hr. by apply Hr. }
  destruct (percentiles_some _ ALPHA BOOTSTRAP_RESAMPLES ltac:(by vm_compute) ltac:(done) Hlen Hall) as (lo & hi & -> & _ & _ & Hle).
  by exists lo, hi.
Qed.

(** [x] is the order statistic of rank [ceil(p / 100 * n)] of [l]. *)
Definition order_statistic (p : Z) (l : list number) (x : number) : Prop :=
  x ∈ l /\ (p * Z.of_nat (length l) <= 100 * Z.of_nat (length (List.filter (fun v => leb v x) l)) /\
  100 * Z.of_nat (length (List.filter (fun v => ltb v x) l)) < p * Z.of_nat (length l))%Z.

Lemma p95_real l : l <> [] -> (Z.of_nat (length l) < 2 ^ 21)%Z -> Forall (fun x => real x = true) l -> real (p95_of l) = true.
Proof.
  intros Hne Hl Hr. destruct (quantile_order_statistic l 95) as (x & E & Hx & _); [done|lia|done|by right|].
  unfold p95_of. rewrite E. rewrite Forall_forall in Hr. by apply Hr.
Qed.

Lemma mean_score l : (Z.of_nat (length l) < 2 ^ 53)%Z -> Forall unital l -> unital (mean l).
Proof. intros Hl Hu. unfold mean. destruct l as [|x l]; [apply unital_zero|]. by apply mean_unital. Qed.

Lemma forall_real l : Forall unital l -> Forall (fun x => real x = true) l.
Proof. intros H. eapply Forall_impl; [exact H|]. apply unital_real. Qed.

(** Every score of a slice is the score of one of its cells. *)
Lemma bySlice_scores (P : number -> Prop) sliceOf rs :
  Forall P (map EvalResult.quality rs) ->
  Forall P (concat (map snd (bySlice sliceOf rs))) /\ (length (concat (map snd (bySlice sliceOf rs))) <= length rs)%nat.
Proof.
  unfold bySlice. destruct sliceOf as [sliceOf|]; [|simpl; split; [done|lia]].
  set (f := fun m r => _). intros HP.
  enough (forall m, Forall P (concat (map snd m)) ->
    Forall P (concat (map snd (fold_left f rs m))) /\
    (length (concat (map snd (fold_left f rs m))) <= length rs + length (concat (map snd m)))%nat) as H.
  { specialize (H []). simpl in H. rewrite Nat.add_0_r in H. by apply H. }
  induction rs as [|r rs IH]; intros m Hm; cbn [fold_left length]; [split; [done|lia]|].
  inversion HP as [|? ? Hq HP']; subst. destruct (sliceOf (EvalResult.itemId r)) as [g|] eqn:Eg.
  - assert (f m r = add_to_group g (EvalResult.quality r) m) as -> by (unfold f; by rewrite Eg).
    destruct (IH HP' (add_to_group g (EvalResult.quality r) m)) as [H1 H2].
    { rewrite add_to_group_perm. by constructor. }
    split; [done|]. rewrite add_to_group_perm in H2. simpl in H2. lia.
  - assert (f m r = m) as -> by (unfold f; by rewrite Eg).
    destruct (IH HP' m Hm) as [H1 H2]. split; [done|lia].
Qed.

Lemma slice_scores (P : number -> Prop) sliceOf rs name qs :
  Forall P (map EvalResult.quality rs) -> (name, qs) ∈ bySlice sliceOf rs -> Forall P qs /\ (length qs <= length rs)%nat.
Proof.
  intros HP Hin. destruct (bySlice_scores P sliceOf rs HP) as [H1 H2].
  apply list_elem_of_split in Hin as (l1 & l2 & E). rewrite E, map_app, concat_app in H1, H2.
  cbn [map snd concat] in H1, H2. rewrite !Forall_app in H1. rewrite !length_app in H2. split; [tauto|lia].
Qed.

Lemma weakestOf_spec l : l <> [] -> Forall (fun s => real (SliceStat.quality s) = true) l ->
  exists w, weakestOf l = Some w /\ w ∈ l /\ forall s, s ∈ l -> leb (SliceStat.quality w) (SliceStat.quality s) = true.
Proof.
  intros Hne Hr. destruct l as [|a l]; [done|]. cbn [weakestOf]. clear Hne. eexists. split; [done|].
  revert a Hr. induction l as [|b l IH]; intros a Hr; cbn [fold_left].
  - split; [left|]. intros s ->%list_elem_of_singleton. inversion Hr; subst. by apply leb_refl, real_not_nan.
  - inversion Hr as [|? ? Ha Hr']; subst. inversion Hr' as [|? ? Hb Hr'']; subst.
    apply real_not_nan in Ha as Na, Hb as Nb.
    destruct (ltb (SliceStat.quality b) (SliceStat.quality a)) eqn:E.
    + destruct (IH b Hr') as [Hin Hle]. split; [by right|]. intros s [->|Hs]%elem_of_cons; [|by apply Hle].
      apply ltb_leb in E. by eapply leb_trans; [apply Hle; left|].
    + destruct (IH a) as [Hin Hle]; [by constructor|]. split; [set_solver|].
      intros s [->|[->|Hs]%elem_of_cons]%elem_of_cons; [apply Hle; left| |apply Hle; by right].
      eapply leb_trans; [apply Hle; left|]. by apply not_ltb_leb.
Qed.

(** Cells as the harness records them: normalized scores and real latencies,
    fewer than two million of them. *)
Definition cells_ok (rs : list EvalResult.t) : Prop :=
  Forall unital (map EvalResult.quality rs) /\
  Forall (fun x => real x = true) (map (fun r => Usage.latencyMs (EvalResult.usage r)) rs) /\
  (Z.of_nat (length rs) < 2 ^ 21)%Z.

Lemma sliceStat_each sliceOf rs : cells_ok rs ->
  exists l, mapM sliceStat (bySlice sliceOf rs) = Some l /\
    Forall2 (fun slice s => SliceStat.name s = slice.1 /\ SliceStat.n s = length slice.2 /\
      SliceStat.quality s = mean slice.2 /\ qualityIntervalCi slice.2 = Some (SliceStat.ci s) /\
      unital (SliceStat.quality s)) (bySlice sliceOf rs) l.
Proof.
  intros (Hq & _ & Hn). assert (Forall (fun slice => is_Some (sliceStat slice)) (bySlice sliceOf rs)) as Hs.
  { apply Forall_forall. intros [name qs] Hin. destruct (slice_scores unital _ _ _ _ Hq Hin) as [Hu Hlen].
    destruct (quality_interval mathLog mathExp mathSin sha256 qs (forall_real _ Hu)) as (lo & hi & E & _); [lia|].
    unfold Evidence.sliceStat. rewrite E. by eexists. }
  apply mapM_is_Some in Hs as [l El]. exists l. split; [done|]. apply mapM_Some in El.
  assert (Forall (fun slice => unital (mean slice.2)) (bySlice sliceOf rs)) as Hu.
  { apply Forall_forall. intros [name qs] Hin. destruct (slice_scores unital _ _ _ _ Hq Hin) as [Hu Hlen].
    apply mean_score; [simpl; lia|done]. }
  clear Hq Hn. induction El as [|[name qs] s slices l E _ IH]; [constructor|].
  inversion Hu as [|? ? Hu1 Hu2]; subst. constructor; [|by apply IH].
  unfold Evidence.sliceStat in E. destruct (qualityIntervalCi qs) as [ci|] eqn:Eci; [|done]. by injection E as <-.
Qed.

Lemma sliceStats_some sliceOf rs : cells_ok rs ->
  exists l, sliceStats mathLog mathExp mathSin sha256 sliceOf rs = Some l /\
    (l = [] /\ (length (bySlice sliceOf rs) < 2)%nat \/
     (2 <= length l)%nat /\ Forall2 (fun slice s => SliceStat.name s = slice.1 /\ SliceStat.n s = length slice.2 /\
      SliceStat.quality s = mean slice.2 /\ qualityIntervalCi slice.2 = Some (SliceStat.ci s) /\
      unital (SliceStat.quality s)) (bySlice sliceOf rs) l).
Proof.
  intros Hok. destruct (sliceStat_each sliceOf rs Hok) as (l & El & Hl). unfold Evidence.sliceStats.
  destruct (Nat.leb_spec 2 (length (bySlice sliceOf rs))) as [Hlen|Hlen].
  - exists l. split; [done|]. right. split; [|done]. by rewrite <- (Forall2_length _ _ _ Hl).
  - exists []. split; [done|]. by left.
Qed.

Lemma interval_of l lo hi : Forall unital l -> (Z.of_nat (length l) < 2 ^ 21)%Z -> qualityIntervalCi l = Some (lo, hi) ->
  leb zero lo = true /\ leb lo hi = true /\ leb hi one = true.
Proof.
  intros Hu Hl E. destruct (quality_interval mathLog mathExp mathSin sha256 l (forall_real _ Hu) Hl) as (lo' & hi' & E' & H).
  rewrite E in E'. by injection E' as <- <-.
Qed.

Lemma pointQuality_some sliceOf rs : cells_ok rs ->
  exists stats q lo hi, sliceStats mathLog mathExp mathSin sha256 sliceOf rs = Some stats /\
    pointQuality mathLog mathExp mathSin sha256 stats rs = Some (q, (lo, hi)) /\ unital q /\
    leb zero lo = true /\ leb lo hi = true /\ leb hi one = true.
Proof.
  intros Hok. destruct (sliceStats_some sliceOf rs Hok) as (stats & Es & Hs). exists stats.
  destruct Hok as (Hq & _ & Hn). unfold pointQuality. destruct Hs as [[-> _]|[Hlen Hs]].
  - cbn [weakestOf]. assert (length (map EvalResult.quality rs) = length rs) as El by apply length_map.
    destruct (quality_interval mathLog mathExp mathSin sha256 _ (forall_real _ Hq)) as (lo & hi & E & H); [by rewrite El|].
    rewrite E. exists (mean (map EvalResult.quality rs)), lo, hi. split; [done|]. split; [done|].
    split; [|tauto]. apply mean_score; [rewrite El; lia|done].
  - destruct (weakestOf_spec stats) as (w & Ew & Hw & _).
    + intros ->. simpl in Hlen. lia.
    + apply Forall_forall. intros s Hin. apply list_elem_of_lookup in Hin as [i Hi].
      destruct (Forall2_lookup_r _ _ _ _ _ Hs Hi) as (sl & _ & _ & _ & _ & _ & Hu). by apply unital_real.
    + rewrite Ew. apply list_elem_of_lookup in Hw as [i Hi].
      destruct (Forall2_lookup_r _ _ _ _ _ Hs Hi) as ([name qs] & Hsl & _ & _ & _ & E & Hu). cbn [snd] in E.
      destruct (SliceStat.ci w) as [lo hi] eqn:Eci. exists (SliceStat.quality w), lo, hi.
      split; [done|]. split; [done|]. split; [done|].
      destruct (slice_scores unital sliceOf rs name qs Hq) as [Hu2 Hlen2]; [by eapply list_elem_of_lookup_2|].
      apply (interval_of qs); [done|lia|done].
Qed.

Lemma agreedMode_spec rs m : agreedMode rs = Some m <-> rs <> [] /\ forall r, r ∈ rs -> EvalResult.providerMode r = Some m.
Proof.
  unfold agreedMode. destruct rs as [|r rs]; [split; [done|]; by intros []|].
  destruct (EvalResult.providerMode r) as [m'|] eqn:Em; cbn [mbind option_bind].
  - destruct (forallb _ _) eqn:E.
    + rewrite forallb_forall in E. split.
      * intros [= <-]. split; [done|]. intros q Hq%list_elem_of_In. by apply E, bool_decide_eq_true in Hq.
      * intros [_ H]. specialize (H r ltac:(left)). congruence.
    + split; [done|]. intros [_ H]. assert (m' = m) as -> by (specialize (H r ltac:(left)); congruence).
      assert (forallb (fun r => bool_decide (EvalResult.providerMode r = Some m)) (r :: rs) = true); [|congruence].
      apply forallb_forall. intros q Hq%list_elem_of_In. apply bool_decide_eq_true. by apply H.
  - split; [done|]. intros [_ H]. specialize (H r ltac:(left)). congruence.
Qed.

Lemma nonempty_match {A B} (l : list A) (x y : B) : l <> [] -> match l with [] => x | _ :: _ => y end = y.
Proof. by destruct l. Qed.

(** Everything the aggregate is assembled from is there. *)
Lemma aggregate_parts clusterId hash rs sliceOf :
  cells_ok rs -> rs <> [] ->
  let latencies := map (fun r => Usage.latencyMs (EvalResult.usage r)) rs in
  exists stats q lo hi l h x50 x95, sliceStats mathLog mathExp mathSin sha256 sliceOf rs = Some stats /\
    pointQuality mathLog mathExp mathSin sha256 stats rs = Some (q, (lo, hi)) /\
    bootstrapCi latencies p95_of (latencySeed sha256 clusterId hash latencies) BOOTSTRAP_RESAMPLES ALPHA =
      Some (p95_of latencies, (l, h)) /\
    quantileNearestRank latencies (of_Z 50) = Some x50 /\ quantileNearestRank latencies (of_Z 95) = Some x95 /\
    (unital q /\ leb zero lo = true /\ leb lo hi = true /\ leb hi one = true /\ leb l h = true /\
     order_statistic 50 latencies x50 /\ order_statistic 95 latencies x95).
Proof.
  intros Hok Hne latencies. destruct (pointQuality_some sliceOf rs Hok) as (stats & q & lo & hi & Es & Ep & Hu & H1 & H2 & H3).
  destruct Hok as (Hq & Hl & Hn). assert (length latencies = length rs) as El by apply length_map.
  assert (latencies <> []) as Hnl by (intros E; apply (f_equal length) in E; rewrite El in E; by destruct rs).
  destruct (bootstrap_some p95_of latencies (latencySeed sha256 clusterId hash latencies)) as (l & h & Eb & Hle);
    [done|by rewrite El|done|intros buf Hb Hr; apply p95_real; [|lia|done]; intros ->; by destruct latencies|].
  destruct (quantile_order_statistic latencies 50) as (x50 & E50 & S50); [done|lia|done|by left|].
  destruct (quantile_order_statistic latencies 95) as (x95 & E95 & S95); [done|lia|done|by right|].
  exists stats, q, lo, hi, l, h, x50, x95.
  exact (conj Es (conj Ep (conj Eb (conj E50 (conj E95 (conj Hu (conj H1 (conj H2 (conj H3 (conj Hle (conj S50 S95))))))))))).
Qed.

Lemma aggregate_some clusterId hash config rs pricesVersion mode sliceOf :
  cells_ok rs -> rs <> [] -> is_Some (aggregateResults clusterId hash config rs pricesVersion mode sliceOf).
Proof.
  intros Hok Hne. destruct (aggregate_parts clusterId hash rs sliceOf Hok Hne) as (stats & q & lo & hi & l & h & x50 & x95 & Es & Ep & Eb & E50 & E95 & _).
  unfold Evidence.aggregateResults. rewrite Es. cbn [mbind option_bind]. rewrite Ep. cbn [mbind option_bind].
  repeat rewrite (nonempty_match rs) by exact Hne. rewrite Eb. cbn [mbind option_bind]. rewrite E50. cbn [mbind option_bind].
  rewrite E95. cbn [mbind option_bind]. eexists. reflexivity.
Qed.


(** A boundary suite's point is its weakest slice: with two slices or more
    the quality is the least of the slices' means, the interval is that
    slice's, and the evidence names every slice. *)
Theorem weakest_slice clusterId hash config rs pricesVersion mode sliceOf a :
  cells_ok rs -> (2 <= length (bySlice sliceOf rs))%nat ->
  aggregateResults clusterId hash config rs pricesVersion mode sliceOf = Some a ->
  (exists name qs, (name, qs) ∈ bySlice sliceOf rs /\ StrategyAggregate.qualityMean a = mean qs /\
     StrategyAggregate.qualityCi a = qualityIntervalCi qs) /\
  (forall name qs, (name, qs) ∈ bySlice sliceOf rs -> leb (StrategyAggregate.qualityMean a) (mean qs) = true) /\
  exists ev ss, StrategyAggregate.evidence a = Some ev /\ FrontierPointEvidence.slices ev = Some ss /\
    map fst ss = map fst (bySlice sliceOf rs).
Proof.
  intros Hok Hlen E. destruct (sliceStats_some sliceOf rs Hok) as (stats & Es & [[_ ?]|[Hl Hs]]); [lia|].
  destruct (weakestOf_spec stats) as (w & Ew & Hw & Hmin).
  { intros ->. simpl in Hl. lia. }
  { apply Forall_forall. intros s Hin. apply list_elem_of_lookup in Hin as [i Hi].
    destruct (Forall2_lookup_r _ _ _ _ _ Hs Hi) as (sl & _ & _ & _ & _ & _ & Hu). by apply unital_real. }
  unfold Evidence.aggregateResults, pointQuality in E. rewrite Es in E. cbn [mbind option_bind] in E. rewrite Ew in E.
  cbn [mbind option_bind] in E. assert (rs <> []) as Hne by (intros ->; destruct sliceOf; simpl in Hlen; lia).
  repeat rewrite (nonempty_match rs) in E by exact Hne.
  destruct (bootstrapCi _ _ _ _ _) as [[? ci]|]; [|done]. cbn [mbind option_bind] in E.
  destruct (quantileNearestRank _ (of_Z 50)) as [x|]; [|done]. destruct (quantileNearestRank _ (of_Z 95)) as [y|]; [|done].
  cbn [mbind option_bind] in E. repeat rewrite (nonempty_match rs) in E by exact Hne. injection E as <-.
  cbn [StrategyAggregate.qualityCi StrategyAggregate.qualityMean StrategyAggregate.evidence]. split; [|split].
  - apply list_elem_of_lookup in Hw as [i Hi]. destruct (Forall2_lookup_r _ _ _ _ _ Hs Hi) as ([name qs] & Hin & _ & _ & Eq & Eci & _).
    exists name, qs. split; [by eapply list_elem_of_lookup_2|]. by split.
  - intros name qs Hin. apply list_elem_of_lookup in Hin as [i Hi]. destruct (Forall2_lookup_l _ _ _ _ _ Hs Hi) as (st & Hst & _ & _ & Eq & _).
    cbn [snd] in Eq. rewrite <- Eq. apply Hmin. by eapply list_elem_of_lookup_2.
  - eexists _, _. split; [done|]. cbn [FrontierPointEvidence.slices]. split; [done|]. rewrite map_map. cbn [fst].
    clear - Hs. induction Hs as [|sl s slices l (En & _) _ IH]; [done|]. cbn [map]. by rewrite En, IH.
Qed.

End Spec.

(** ** Customer outcomes *)

Abbreviation row := OutcomeRowLike.t.

(** The rows of a request, and the latest signal among them. *)
Definition rows_of (q : string) (rows : list row) : list row :=
  List.filter (fun r => bool_decide (OutcomeRowLike.requestId r = q)) rows.

Definition latest {A} (f : row -> option A) (q : string) (rows : list row) : option A := last (omap f (rows_of q rows)).

Definition signals_of (rows : list row) (q : string) : string * Signals.t :=
  (q, Signals.mk (latest OutcomeRowLike.success q rows) (latest OutcomeRowLike.score q rows) (latest OutcomeRowLike.human q rows)).

Lemma distinct_snoc l x : distinct (l ++ [x]) = if bool_decide (x ∈ distinct l) then distinct l else distinct l ++ [x].
Proof. unfold distinct. by rewrite fold_left_app. Qed.

Lemma elem_of_distinct l x : x ∈ distinct l <-> x ∈ l.
Proof.
  induction l as [|y l IH] using rev_ind; [done|]. rewrite distinct_snoc. case_bool_decide as E; set_solver.
Qed.

Lemma distinct_NoDup l : NoDup (distinct l).
Proof.
  induction l as [|y l IH] using rev_ind; [constructor|]. rewrite distinct_snoc. case_bool_decide as E; [done|].
  apply NoDup_app. split; [done|]. split; [|apply NoDup_singleton]. intros x Hx ->%list_elem_of_singleton. done.
Qed.

Lemma latest_snoc {A} (f : row -> option A) q rows r :
  latest f q (rows ++ [r]) =
    if bool_decide (OutcomeRowLike.requestId r = q) then newer_of (latest f q rows) (f r) else latest f q rows.
Proof.
  unfold latest, rows_of. rewrite List.filter_app. cbn [List.filter]. case_bool_decide; rewrite omap_app; cbn [omap list_omap].
  - destruct (f r) as [x|]; cbn [newer_of]; [by rewrite last_snoc|by rewrite app_nil_r].
  - by rewrite app_nil_r.
Qed.

Lemma latest_absent {A} (f : row -> option A) q rows : q ∉ map OutcomeRowLike.requestId rows -> latest f q rows = None.
Proof.
  intros Hq. unfold latest, rows_of. replace (List.filter _ rows) with (@nil row); [done|]. symmetry. apply filter_none.
  intros r Hr. case_bool_decide as E; [|done]. destruct Hq. rewrite <- E. by apply (list_elem_of_fmap_2 OutcomeRowLike.requestId).
Qed.

(** A row updates the entry of its request, or adds one. *)
Lemma update_request_old r l (g : string -> Signals.t) :
  NoDup l -> OutcomeRowLike.requestId r ∈ l ->
  update_request r (map (fun q => (q, g q)) l) =
    map (fun q => (q, if bool_decide (OutcomeRowLike.requestId r = q) then signal_step (g q) r else g q)) l.
Proof.
  induction l as [|q l IH]; [by intros _ ?%elem_of_nil|]. intros [Hq Hd]%NoDup_cons Hin. cbn [map update_request].
  case_bool_decide as E.
  - subst q. rewrite bool_decide_eq_true_2 by done. f_equal. apply map_ext_in. intros a Ha%list_elem_of_In.
    rewrite bool_decide_eq_false_2; [done|]. by intros <-.
  - rewrite bool_decide_eq_false_2 by congruence. f_equal. apply IH; [done|].
    apply elem_of_cons in Hin as [?|]; [congruence|done].
Qed.

Lemma update_request_new r (m : list (string * Signals.t)) :
  OutcomeRowLike.requestId r ∉ map fst m -> update_request r m = m ++ [(OutcomeRowLike.requestId r, signal_step no_signals r)].
Proof.
  induction m as [|[k cur] m IH]; [done|]. cbn [map fst update_request]. intros Hn.
  rewrite bool_decide_eq_false_2 by set_solver. rewrite IH by set_solver. done.
Qed.

(** The Map after all rows: each request once, with its latest signals. *)
Lemma latestSignals_spec rows : latestSignals rows = map (signals_of rows) (distinct (map OutcomeRowLike.requestId rows)).
Proof.
  induction rows as [|r rows IH] using rev_ind; [done|]. unfold latestSignals in *. rewrite fold_left_app. cbn [fold_left].
  rewrite IH, map_app. cbn [map]. rewrite distinct_snoc. case_bool_decide as E.
  - unfold signals_of at 1. rewrite update_request_old; [|apply distinct_NoDup|done]. apply map_ext. intros q.
    unfold signals_of, signal_step. rewrite !latest_snoc. cbn [Signals.success Signals.score Signals.human]. by case_bool_decide.
  - rewrite update_request_new by (rewrite map_map; by rewrite map_id). rewrite map_app. cbn [map]. f_equal.
    + apply map_ext_in. intros q Hq%list_elem_of_In. unfold signals_of. rewrite !latest_snoc.
      rewrite bool_decide_eq_false_2; [done|]. by intros <-.
    + unfold signals_of, signal_step. rewrite !latest_snoc, bool_decide_eq_true_2 by done.
      rewrite elem_of_distinct in E. rewrite !latest_absent by done. done.
Qed.

Section Outcomes.

Context (mathLog mathExp mathSin : number -> number).

(** The latest signal of a request wins: the block of a cluster counts every
    request of the serving strategy once per kind of signal, with the last
    verdict, score and human reaction its rows give, however often they were
    posted or corrected, and the requests of other strategies apart. *)
Theorem latest_signal_wins rows clusterId servingHash ev :
  clusterOutcomeEvidence mathLog mathExp mathSin rows clusterId servingHash = Some ev ->
  let mine := List.filter (fun r => bool_decide (OutcomeRowLike.clusterId r = Some clusterId)
    && bool_decide (OutcomeRowLike.strategyHash r = Some servingHash)) rows in
  let others := List.filter (fun r => bool_decide (OutcomeRowLike.clusterId r = Some clusterId)
    && negb (bool_decide (OutcomeRowLike.strategyHash r = Some servingHash))) rows in
  let requests := distinct (map OutcomeRowLike.requestId mine) in
  let verdicts := omap (fun q => latest OutcomeRowLike.success q mine) requests in
  let scores := omap (fun q => latest OutcomeRowLike.score q mine) requests in
  NoDup requests /\ ClusterOutcomeEvidence.requests ev = length requests /\
  ClusterOutcomeEvidence.success ev = block mathLog mathExp mathSin (map bit verdicts) /\
  ClusterOutcomeEvidence.score ev = block mathLog mathExp mathSin scores /\
  (forall b, ClusterOutcomeEvidence.human ev = Some b -> HumanBlock.accepted b =
     length (List.filter (fun q => bool_decide (latest OutcomeRowLike.human q mine = Some "accepted"%string)) requests)) /\
  ClusterOutcomeEvidence.otherStrategyRequests ev = length (distinct (map OutcomeRowLike.requestId others)).
Proof.
  unfold clusterOutcomeEvidence. intros E. cbv zeta.
  set (c := fun r => bool_decide (OutcomeRowLike.clusterId r = Some clusterId)) in *.
  set (h := fun r => bool_decide (OutcomeRowLike.strategyHash r = Some servingHash)) in *.
  assert (forall g : row -> bool, List.filter (fun r => c r && g r) rows = List.filter g (List.filter c rows)) as Hf.
  { intros g. clear E. induction rows as [|r rows IH]; [done|]. cbn [List.filter]. destruct (c r); cbn [andb List.filter]; by rewrite IH. }
  change (List.filter (fun r => bool_decide (OutcomeRowLike.clusterId r = Some clusterId)
    && bool_decide (OutcomeRowLike.strategyHash r = Some servingHash)) rows) with (List.filter (fun r => c r && h r) rows).
  change (List.filter (fun r => bool_decide (OutcomeRowLike.clusterId r = Some clusterId)
    && negb (bool_decide (OutcomeRowLike.strategyHash r = Some servingHash))) rows) with (List.filter (fun r => c r && negb (h r)) rows).
  rewrite (Hf h), (Hf (fun r => negb (h r))). destruct (List.filter c rows) as [|r0 l0]; [done|]. set (l := r0 :: l0) in *.
  clearbody l. injection E as <-. cbn [ClusterOutcomeEvidence.requests ClusterOutcomeEvidence.success ClusterOutcomeEvidence.score
    ClusterOutcomeEvidence.human ClusterOutcomeEvidence.otherStrategyRequests].
  set (mine := List.filter h l). rewrite !latestSignals_spec.
  assert (forall {A} (f : string * Signals.t -> option A) L,
    omap f (map (signals_of mine) L) = omap (fun q => f (signals_of mine q)) L) as Ho.
  { intros A f L. induction L as [|q L IH]; [done|]. cbn [map omap list_omap]. by rewrite IH. }
  rewrite !Ho, length_map. split; [apply distinct_NoDup|]. split; [done|]. split; [done|]. split; [done|]. split; [|done].
  intros b Hb. destruct (omap _ _) eqn:E in Hb; [done|]. injection Hb as <-. cbn [HumanBlock.accepted]. rewrite <- E. clear E.
  generalize (distinct (map OutcomeRowLike.requestId mine)). intros L. induction L as [|q L IH]; [done|].
  cbn [omap list_omap List.filter]. cbn [signals_of snd Signals.human]. unfold tally in *.
  destruct (latest OutcomeRowLike.human q mine) as [x|]; [|rewrite bool_decide_eq_false_2 by done; exact IH].
  cbn [List.filter]. destruct (String.eqb_spec "accepted" x) as [<-|Hx].
  - rewrite bool_decide_eq_true_2 by done. cbn [length]. f_equal. exact IH.
  - rewrite bool_decide_eq_false_2 by congruence. exact IH.
Qed.

End Outcomes.

(** ** Shadow challengers *)

Definition rows_by (rows : list ShadowRowLike.t) (h : string) : list ShadowRowLike.t :=
  List.filter (fun r => bool_decide (ShadowRowLike.candidateHash r = h)) rows.

Definition rivals (servingHash : string) (rows : list ShadowRowLike.t) : list string :=
  distinct (List.filter (fun h => negb (bool_decide (h = servingHash))) (map ShadowRowLike.candidateHash rows)).

Lemma rows_by_snoc rows r h :
  rows_by (rows ++ [r]) h = if bool_decide (ShadowRowLike.candidateHash r = h) then rows_by rows h ++ [r] else rows_by rows h.
Proof. unfold rows_by. rewrite List.filter_app. cbn [List.filter]. case_bool_decide; [done|by rewrite app_nil_r]. Qed.

Lemma add_candidate_old r l (g : string -> list ShadowRowLike.t) :
  NoDup l -> ShadowRowLike.candidateHash r ∈ l ->
  add_candidate r (map (fun h => (h, g h)) l) =
    map (fun h => (h, if bool_decide (ShadowRowLike.candidateHash r = h) then g h ++ [r] else g h)) l.
Proof.
  induction l as [|h l IH]; [by intros _ ?%elem_of_nil|]. intros [Hh Hd]%NoDup_cons Hin. cbn [map add_candidate].
  case_bool_decide as E.
  - subst h. rewrite bool_decide_eq_true_2 by done. f_equal. apply map_ext_in. intros a Ha%list_elem_of_In.
    rewrite bool_decide_eq_false_2; [done|]. by intros <-.
  - rewrite bool_decide_eq_false_2 by congruence. f_equal. apply IH; [done|]. apply elem_of_cons in Hin as [?|]; [congruence|done].
Qed.

Lemma add_candidate_new r (m : list (string * list ShadowRowLike.t)) :
  ShadowRowLike.candidateHash r ∉ map fst m -> add_candidate r m = m ++ [(ShadowRowLike.candidateHash r, [r])].
Proof.
  induction m as [|[h g] m IH]; [done|]. cbn [map fst add_candidate]. intros Hn.
  rewrite bool_decide_eq_false_2 by set_solver. rewrite IH by set_solver. done.
Qed.

Lemma byCandidate_spec servingHash rows :
  byCandidate servingHash rows = map (fun h => (h, rows_by rows h)) (rivals servingHash rows).
Proof.
  induction rows as [|r rows IH] using rev_ind; [done|]. unfold byCandidate, rivals in *. rewrite fold_left_app, IH.
  cbn [fold_left]. rewrite map_app, List.filter_app. cbn [map List.filter]. case_bool_decide as Es; cbn [negb].
  - rewrite app_nil_r. apply map_ext_in. intros h Hh%list_elem_of_In. rewrite elem_of_distinct in Hh. rewrite rows_by_snoc.
    rewrite bool_decide_eq_false_2; [done|]. intros <-. apply list_elem_of_In, filter_In in Hh as [_ Hh].
    by rewrite bool_decide_eq_true_2 in Hh.
  - rewrite distinct_snoc. case_bool_decide as E.
    + rewrite add_candidate_old; [|apply distinct_NoDup|done]. apply map_ext. intros h. rewrite rows_by_snoc. by case_bool_decide.
    + rewrite add_candidate_new by (rewrite map_map; by rewrite map_id). rewrite map_app. cbn [map]. f_equal.
      * apply map_ext_in. intros h Hh%list_elem_of_In. rewrite rows_by_snoc, bool_decide_eq_false_2; [done|]. by intros <-.
      * rewrite rows_by_snoc, bool_decide_eq_true_2 by done. do 2 f_equal. unfold rows_by. rewrite filter_none; [done|].
        intros q Hq. apply bool_decide_eq_false. intros Eq. apply E, elem_of_distinct, list_elem_of_In, filter_In.
        split; [|by rewrite bool_decide_eq_false_2]. rewrite <- Eq. apply list_elem_of_In.
        by apply (list_elem_of_fmap_2 ShadowRowLike.candidateHash).
Qed.

Lemma qualification_true obs cost clusterFloor serving :
  (qualification obs cost clusterFloor serving).1 = true <->
  (30 <= ShadowObserved.n obs)%nat /\ exists floor s, clusterFloor = Some floor /\ serving = Some s /\
    ltb (ShadowObserved.qualityCi obs).1 floor = false /\ geb cost s = false.
Proof.
  unfold qualification, SHADOW_QUALIFY_MIN_N. destruct (Z.ltb_spec (Z.of_nat (ShadowObserved.n obs)) 30).
  { split; [done|]. intros [? _]. lia. }
  destruct clusterFloor as [floor|]; [|split; [done|]; intros (_ & ? & ? & ? & _); done].
  destruct (ltb _ floor) eqn:E1; [split; [done|]; intros (_ & ? & ? & ? & _ & ? & _); congruence|].
  destruct serving as [s|]; [|split; [done|]; intros (_ & ? & ? & _ & ? & _); done].
  destruct (geb cost s) eqn:E2; cbn [fst].
  - split; [done|]. intros (_ & ? & ? & _ & ? & _ & ?). congruence.
  - split; [|done]. intros _. split; [lia|]. by exists floor, s.
Qed.

(** Once sorted with what qualifies first, a list splits where it stops. *)
Lemma sorted_split {A} (c : A -> A -> comparison) (f : A -> bool) l :
  StronglySorted (le c) l -> (forall x y, x ∈ l -> y ∈ l -> le c x y -> f y = true -> f x = true) ->
  exists p n, l = p ++ n /\ Forall (fun x => f x = true) p /\ Forall (fun x => f x = false) n.
Proof.
  induction 1 as [|x l Hs IH Hx]; intros Hf; [by exists [], []|].
  destruct IH as (p & n & El & Hp & Hn). { intros y z Hy Hz. apply Hf; by right. }
  destruct (f x) eqn:E; [exists (x :: p), n; rewrite El; split; [done|]; by split; [constructor|]|].
  exists [], (x :: l). split; [done|]. split; [constructor|]. constructor; [done|].
  apply Forall_forall. intros y Hy. destruct (f y) eqn:Ey; [|done]. rewrite Forall_forall in Hx.
  rewrite <- E. symmetry. apply (Hf x y); [left|by right|by apply Hx|done].
Qed.

Section Shadow.

Context (mathLog mathExp mathSin : number -> number).

(** The challengers of a cluster are the other strategies its shadow rows name,
    each with all its rows; one qualifies exactly when thirty of its rows are
    scored, the lower bound of its interval is not below the floor and its
    measured cost is below the measured serving cost; and those that qualify
    come first. *)
Theorem challengers_qualify `{!Collation} inputs clusterId servingHash clusterFloor ev :
  clusterShadowEvidence mathLog mathExp mathSin inputs clusterId servingHash clusterFloor = Some ev ->
  let rows := List.filter (fun r => bool_decide (ShadowRowLike.clusterId r = clusterId)) (ShadowEvidenceInputs.shadowRows inputs) in
  let cs := ClusterShadowEvidence.challengers ev in
  map ShadowChallenger.strategyHash cs ≡ₚ rivals servingHash rows /\
  Forall (fun c => let mine := rows_by rows (ShadowChallenger.strategyHash c) in
    ShadowChallenger.samples c = length mine /\
    ShadowObserved.n (ShadowChallenger.observed c) = length (omap ShadowRowLike.quality mine) /\
    (ShadowChallenger.qualifies c = true <->
      (30 <= length (omap ShadowRowLike.quality mine))%nat /\
      exists floor s, clusterFloor = Some floor /\ ClusterShadowEvidence.servingMeasuredCostPer1K ev = Some s /\
        ltb (Stats.jeffreysCi mathLog mathExp mathSin (omap ShadowRowLike.quality mine)).1 floor = false /\
        geb (ShadowChallenger.costPer1K c) s = false)) cs /\
  (Forall (fun c => real (ShadowChallenger.costPer1K c) = true) cs ->
    exists q u, cs = q ++ u /\ Forall (fun c => ShadowChallenger.qualifies c = true) q /\
      Forall (fun c => ShadowChallenger.qualifies c = false) u).
Proof.
  intros E. cbv zeta. unfold clusterShadowEvidence in E. cbv zeta in E.
  set (rows := List.filter _ (ShadowEvidenceInputs.shadowRows inputs)) in *.
  set (prim := map PrimaryQuality.quality _) in *.
  set (serving := _ <$> find _ _) in *.
  set (cs := sort challenger_order (map (challenger mathLog mathExp mathSin clusterFloor serving) (byCandidate servingHash rows))) in *.
  assert (ClusterShadowEvidence.challengers ev = cs /\ ClusterShadowEvidence.servingMeasuredCostPer1K ev = serving) as [-> ->].
  { destruct rows, prim; [done|..]; by injection E as <-. }
  clear E. clearbody serving. clear prim.
  assert (forall h g, ShadowChallenger.strategyHash (challenger mathLog mathExp mathSin clusterFloor serving (h, g)) = h) as Hh.
  { intros h g. unfold challenger. by destruct (qualification _ _ _ _). }
  split; [|split].
  - unfold cs. rewrite (sort_perm challenger_order), byCandidate_spec, !map_map.
    rewrite (map_ext _ id) by (intros; apply Hh). by rewrite map_id.
  - apply Forall_forall. intros c Hc. unfold cs in Hc. rewrite (elem_of_sort challenger_order) in Hc.
    apply list_elem_of_fmap in Hc as ([h g] & -> & Hin). rewrite Hh. rewrite byCandidate_spec in Hin.
    apply list_elem_of_fmap in Hin as (h' & [= -> ->] & Hin). set (mine := rows_by rows h').
    unfold challenger. set (cost := mul _ _). set (obs := default no_scores _).
    assert (ShadowObserved.n obs = length (omap ShadowRowLike.quality mine) /\
      ((30 <= ShadowObserved.n obs)%nat -> ShadowObserved.qualityCi obs =
        Stats.jeffreysCi mathLog mathExp mathSin (omap ShadowRowLike.quality mine))) as [Hn Hci].
    { unfold obs. destruct (omap ShadowRowLike.quality mine) as [|x l]; cbn; [split; [done|lia]|done]. }
    pose proof (qualification_true obs cost clusterFloor serving) as Hq.
    destruct (qualification obs cost clusterFloor serving) as [q reason]. cbn [fst] in Hq.
    cbn [ShadowChallenger.samples ShadowChallenger.observed ShadowChallenger.qualifies ShadowChallenger.costPer1K].
    split; [done|]. split; [done|]. rewrite Hq, Hn. split.
    + intros (H1 & fl & s & ? & ? & ? & ?). split; [done|]. exists fl, s. rewrite <- Hci by lia. done.
    + intros (H1 & fl & s & ? & ? & Hl & ?). split; [done|]. exists fl, s. rewrite Hci by lia. done.
  - intros Hcost. apply (sorted_split challenger_order).
    + apply (sort_sorted (fun c => real (ShadowChallenger.costPer1K c) = true)).
      * apply consistent_then; [apply consistent_then|apply consistent_string]; [|apply consistent_asc].
        apply (consistent_weaken (fun a => real (bit (ShadowChallenger.qualifies a)) = true)); [|apply consistent_desc].
        intros c _. by destruct (ShadowChallenger.qualifies c).
      * unfold cs in Hcost. by rewrite (sort_perm challenger_order) in Hcost.
    + intros x y _ _ Hle Hy. apply then_by_le in Hle as [Hle _]. apply then_by_le in Hle as [Hle _].
      assert (forall b, real (bit b) = true) as Hb by (by intros []).
      apply (desc_le (fun c => bit (ShadowChallenger.qualifies c))) in Hle; [|apply Hb|apply Hb]. rewrite Hy in Hle.
      by destruct (ShadowChallenger.qualifies x).
Qed.

End Shadow.

(** ** Concrete inputs *)

Definition cell (item run : string) (q lat : number) (i : option Instrument) : EvalResult.t :=
  EvalResult.mk run item "boundary" "s1" (single "m") q "exact" i None (Usage.mk (of_Z 100) (of_Z 20) (lit 1 3) lat None)
    (LatencyMs.mk lat lat lat) [] "p1" (Some live) ("key-" +:+ item) "2026-09-08T00:00:00Z".

Definition some_cells : list EvalResult.t :=
  [cell "a1" "r1" one (of_Z 900) None; cell "b1" "r1" (lit 5 1) (of_Z 1200) (Some tools_instrument);
   cell "a2" "r2" (lit 75 2) (of_Z 700) None; cell "b2" "r1" one (of_Z 950) None].

Definition slice_of (item : string) : option string := Some (if String.prefix "a" item then "alpha" else "beta")%string.

Lemma some_cells_ok : cells_ok some_cells.
Proof. split; [|split; [|done]]; repeat constructor; by vm_compute. Qed.


Example weakest_slice_witness :
  exists a, aggregateResults flat flat flat digest "boundary" "s1" (single "m") some_cells "p1" None (Some slice_of) = Some a /\
    exists name qs, (name, qs) ∈ bySlice (Some slice_of) some_cells /\ StrategyAggregate.qualityMean a = mean qs.
Proof.
  destruct (aggregate_some flat flat flat digest "boundary" "s1" (single "m") some_cells "p1" None (Some slice_of) some_cells_ok)
    as [a E]; [discriminate|].
  exists a. split; [exact E|].
  destruct (weakest_slice flat flat flat digest "boundary" "s1" (single "m") some_cells "p1" None (Some slice_of) a some_cells_ok)
    as ((name & qs & Hin & Hq & _) & _); [by vm_compute; lia|exact E|].
  exists name, qs. split; [exact Hin|exact Hq].
Defined.

(** Two posts about one request, and one of another strategy. *)
Definition some_outcomes : list OutcomeRowLike.t :=
  [OutcomeRowLike.mk "q1" (Some "code-gen") (Some "s1") (Some false) None (Some "edited");
   OutcomeRowLike.mk "q2" (Some "code-gen") (Some "s2") (Some true) None None;
   OutcomeRowLike.mk "q1" (Some "code-gen") (Some "s1") (Some true) (Some (lit 9 1)) None]%string.

Example latest_signal_wins_witness :
  exists ev, clusterOutcomeEvidence flat flat flat some_outcomes "code-gen" "s1" = Some ev /\
    ClusterOutcomeEvidence.success ev = block flat flat flat [one].
Proof.
  eexists. split; [reflexivity|].
  destruct (latest_signal_wins flat flat flat some_outcomes "code-gen" "s1" _ eq_refl) as (_ & _ & H & _). exact H.
Defined.

Definition shadow_row (candidate : string) (q : option number) (lat : Z) : ShadowRowLike.t :=
  ShadowRowLike.mk "code-gen" candidate candidate q (lit 1 3) (of_Z lat).

Definition some_shadows : ShadowEvidenceInputs.t :=
  ShadowEvidenceInputs.mk (repeat (shadow_row "s2" (Some one) 800) 30 ++ [shadow_row "s1" None 500])
    [] [ServedCost.mk "code-gen" (lit 1 2) (of_Z 100)].

Example challengers_qualify_witness :
  exists ev, clusterShadowEvidence flat flat flat some_shadows "code-gen" "s1" (Some (lit 8 1)) = Some ev /\
    map ShadowChallenger.strategyHash (ClusterShadowEvidence.challengers ev) ≡ₚ ["s2"].
Proof.
  assert (is_Some (clusterShadowEvidence flat flat flat some_shadows "code-gen" "s1" (Some (lit 8 1)))) as [ev E]
    by (vm_compute; eexists; reflexivity).
  exists ev. split; [exact E|].
  destruct (challengers_qualify flat flat flat some_shadows "code-gen" "s1" (Some (lit 8 1)) ev E) as [H _].
  etrans; [exact H|]. reflexivity.
Defined.

(** The latency a challenger reports as its 95th percentile is the least of its
    samples: the percentile is passed as a fraction. *)
Theorem shadow_p95_is_least :
  ShadowChallenger.latencyP95 (challenger flat flat flat None None
    ("s2", map (shadow_row "s2" None) [900; 800; 7000; 650; 9000; 720; 810; 905; 1100; 30000]))%Z = Some (of_Z 650).
Proof. by vm_compute. Qed.

End EvidenceSpec.
