(* ===== verification/Recompute.v ===== *)
(** * Recomputation of frontiers: pareto/src/recompute.ts

    When a model lands: the plan of strategies to measure, the version of the
    merged price table, the aggregates of the measured cells and the new
    frontier of each cluster, saved and compared with the previous one.

    The table of eval results is the list of its rows in the order the database
    returns them; the aggregates are those of [Evidence], the frontier is that
    of [Dominance], and it is saved through [Store]. *)

From Stdlib Require Import Ascii.
From S2P Require Import Prelude Number JsSort Types Print Prompt Program Dominance Diff Store Stats Evidence Shape.

Module Recompute.
Import Num Sort Dominance Evidence.

(** ** The price table and the plan *)

Definition EVAL_JOB : string := "eval".
Definition RECOMPUTE_FRONTIER_JOB : string := "recompute-frontier".
Definition RECOMPUTE_PLAN_CAP : nat := 6.

Definition totalPer1M (e : PriceEntry.t) : number := add (PriceEntry.inputPer1M e) (PriceEntry.outputPer1M e).

(** [entries.reduce(f)]: it throws ([None]) on the empty array. *)
Definition reduce {A} (f : A -> A -> A) (l : list A) : option A :=
  match l with [] => None | x :: l => Some (fold_left f l x) end.

Definition cheaper (a b : PriceEntry.t) : PriceEntry.t := if leb (totalPer1M a) (totalPer1M b) then a else b.
Definition pricier (a b : PriceEntry.t) : PriceEntry.t := if geb (totalPer1M a) (totalPer1M b) then a else b.

Definition classAlias (prices : PriceTable.t) (preferred : string) (fallback : list PriceEntry.t -> option PriceEntry.t) : option string :=
  match find (fun e => bool_decide (PriceEntry.alias e = preferred)) (PriceTable.entries prices) with
  | Some hit => Some (PriceEntry.alias hit)
  | None => PriceEntry.alias <$> fallback (PriceTable.entries prices)
  end.

Definition below_07 : option (option number) := Some (Some (lit 7 1)).

Definition planRecompute (newModel : PriceEntry.t) (prices : PriceTable.t) : option (list StrategyConfig) :=
  cheap ← classAlias prices "cheap-class" (reduce cheaper);
  frontier ← classAlias prices "frontier-class" (reduce pricier);
  judge ← classAlias prices "judge-class" (reduce pricier);
  let alias := PriceEntry.alias newModel in
  Some (take RECOMPUTE_PLAN_CAP
    [single alias;
     cascade [CascadeStage.mk alias below_07; CascadeStage.mk frontier None] self_report_calibrated;
     cascade [CascadeStage.mk cheap below_07; CascadeStage.mk alias None] self_report_calibrated;
     best_of_n alias 3 (JudgeConfig.mk judge None);
     draft_verify alias frontier]).

Definition is_hex (c : Ascii.ascii) : bool := Prompt.is_digit c || Prompt.between 97 102 c.

Fixpoint all_chars (p : Ascii.ascii -> bool) (s : string) : bool :=
  match s with EmptyString => true | String c s => p c && all_chars p s end.

(** [/\+r[0-9a-f]{10}$/] at the start of [s]. *)
Definition rolling_suffix (s : string) : bool :=
  match s with
  | String p (String r digits) =>
      Ascii.eqb p "+"%char && Ascii.eqb r "r"%char && (String.length digits =? 10)%nat && all_chars is_hex digits
  | _ => false
  end.

(** [s.replace(/\+r[0-9a-f]{10}$/, '')]: the first match is removed. *)
Fixpoint strip_rolling (s : string) : string :=
  match s with
  | EmptyString => EmptyString
  | String c s' => if rolling_suffix s then EmptyString else String c (strip_rolling s')
  end.

Definition provider_name (p : ProviderId) : string :=
  match p with
  | anthropic => "anthropic" | openai => "openai" | google => "google" | openrouter => "openrouter" | mock_provider => "mock"
  end.

(** The arguments of [aggregatesFromEvalResults].  Of a row of [evalResults],
    the confidence and the scorer's own usage, which nothing here reads, are
    left out. *)
Module SuiteItem.
Record t := mk { id : string; slice : option string }.
End SuiteItem.

Module EvalResultRow.
Record t := mk {
  cacheKey : string;
  runId : string;
  itemId : string;
  clusterId : string;
  strategyHash : string;
  strategyConfig : StrategyConfig;
  quality : number;
  scorer : string;
  instrument : string;
  judgeAgreement : option number;
  usage : Usage.t;
  latencyMs : LatencyMs.t;
  modelVersions : list (string * string);
  pricesVersion : string;
  providerMode : string;
  orgId : option string;
  stale : bool;
  createdAt : string;
}.
End EvalResultRow.

Module AggregateOpts.
Record t := mk {
  includeStale : bool;
  orgId : option string;
  providerMode : option ProviderMode;
  instrument : option Instrument;
  items : option (list SuiteItem.t);
}.
End AggregateOpts.

Definition instrument_name (i : Instrument) : string :=
  match i with default_instrument => "default" | tools_instrument => "tools" | vision => "vision" | audio => "audio" end.

Definition mode_name (m : ProviderMode) : string := match m with mock => "mock" | live => "live" end.

Section Recompute.

Context (mathLog mathExp mathSin : number -> number) (sha256 : string -> string) (strategyHash : StrategyConfig -> string).
Context `{!Collation}.

Definition nextPricesVersion (baseVersion : string) (entry : PriceEntry.t) : string :=
  let digest := String.substring 0 10 (sha256 (baseVersion +:+ "|" +:+ PriceEntry.alias entry +:+ "|"
    +:+ provider_name (PriceEntry.provider entry) +:+ "|" +:+ PriceEntry.model entry +:+ "|"
    +:+ Print.to_string (PriceEntry.inputPer1M entry) +:+ "|" +:+ Print.to_string (PriceEntry.outputPer1M entry))) in
  strip_rolling baseVersion +:+ "+r" +:+ digest.

(** [today]: the date of the clock. *)
Definition mergePriceEntry (base : PriceTable.t) (newModel : PriceEntry.t) (today : string) : PriceTable.t :=
  PriceTable.mk (nextPricesVersion (PriceTable.version base) newModel) today
    (List.filter (fun e => negb (bool_decide (PriceEntry.alias e = PriceEntry.alias newModel))) (PriceTable.entries base) ++ [newModel]).

Definition carriedPointToAggregate (p : FrontierPoint.t) (pricesVersion : string) : StrategyAggregate.t :=
  StrategyAggregate.mk (FrontierPoint.clusterId p) (FrontierPoint.strategyHash p) (FrontierPoint.strategyConfig p)
    (FrontierPoint.quality p) zero None zero (FrontierPoint.costPer1K p) (FrontierPoint.latencyP95 p) (FrontierPoint.latencyP95 p)
    pricesVersion (FrontierPoint.providerMode p) (FrontierPoint.evidence p).

(** ** Aggregates of the eval cells *)

Definition sliced (opts : AggregateOpts.t) : bool :=
  match AggregateOpts.items opts with
  | None => false
  | Some items => existsb (fun i => bool_decide (SuiteItem.slice i <> None)) items
  end.

Definition suite_items (opts : AggregateOpts.t) : list SuiteItem.t := default [] (AggregateOpts.items opts).

Definition parentIds (opts : AggregateOpts.t) : list string :=
  if sliced opts then distinct (omap SuiteItem.slice (suite_items opts)) else [].

Definition sliceOf (opts : AggregateOpts.t) : option (string -> option string) :=
  if sliced opts
  then Some (fun id => find (fun i => bool_decide (SuiteItem.id i = id)) (suite_items opts) ≫= SuiteItem.slice)
  else None.

(** The WHERE clause. *)
Definition selected (clusterId : string) (hashes : list string) (pricesVersion : string) (opts : AggregateOpts.t)
    (r : EvalResultRow.t) : bool :=
  (if sliced opts
   then bool_decide (EvalResultRow.clusterId r ∈ clusterId :: parentIds opts)
        && bool_decide (EvalResultRow.itemId r ∈ map SuiteItem.id (suite_items opts))
   else bool_decide (EvalResultRow.clusterId r = clusterId))
  && bool_decide (EvalResultRow.strategyHash r ∈ hashes)
  && bool_decide (EvalResultRow.pricesVersion r = pricesVersion)
  && bool_decide (EvalResultRow.instrument r = instrument_name (default default_instrument (AggregateOpts.instrument opts)))
  && bool_decide (EvalResultRow.orgId r = AggregateOpts.orgId opts)
  && match AggregateOpts.providerMode opts with None => true | Some m => bool_decide (EvalResultRow.providerMode r = mode_name m) end
  && (AggregateOpts.includeStale opts || negb (EvalResultRow.stale r)).

(** [r] replaces [cur] as the row of its item. *)
Definition better (clusterId : string) (r cur : EvalResultRow.t) : bool :=
  (bool_decide (EvalResultRow.clusterId r = clusterId) && negb (bool_decide (EvalResultRow.clusterId cur = clusterId)))
  || (bool_decide (EvalResultRow.clusterId r = EvalResultRow.clusterId cur)
      && match String.compare (EvalResultRow.createdAt r) (EvalResultRow.createdAt cur) with Gt => true | _ => false end).

(** The Map from item to its best row, in order of first appearance. *)
Fixpoint keep_better (clusterId : string) (r : EvalResultRow.t) (best : list EvalResultRow.t) : list EvalResultRow.t :=
  match best with
  | [] => [r]
  | cur :: best =>
      if bool_decide (EvalResultRow.itemId cur = EvalResultRow.itemId r)
      then (if better clusterId r cur then r else cur) :: best
      else cur :: keep_better clusterId r best
  end.

Definition dedupe (clusterId : string) (opts : AggregateOpts.t) (group : list EvalResultRow.t) : list EvalResultRow.t :=
  if sliced opts then fold_left (fun best r => keep_better clusterId r best) group [] else group.

Definition to_result (r : EvalResultRow.t) : EvalResult.t :=
  EvalResult.mk (EvalResultRow.runId r) (EvalResultRow.itemId r) (EvalResultRow.clusterId r) (EvalResultRow.strategyHash r)
    (EvalResultRow.strategyConfig r) (EvalResultRow.quality r) (EvalResultRow.scorer r)
    (find (fun i => bool_decide (EvalResultRow.instrument r = instrument_name i)) [default_instrument; tools_instrument; vision; audio])
    (EvalResultRow.judgeAgreement r) (EvalResultRow.usage r) (EvalResultRow.latencyMs r) (EvalResultRow.modelVersions r)
    (EvalResultRow.pricesVersion r)
    (find (fun m => bool_decide (EvalResultRow.providerMode r = mode_name m)) [mock; live])
    (EvalResultRow.cacheKey r) (EvalResultRow.createdAt r).

(** The rows behind one strategy's aggregate. *)
Definition group_of (rows : list EvalResultRow.t) (clusterId : string) (opts : AggregateOpts.t) (sh : string) : list EvalResultRow.t :=
  dedupe clusterId opts (List.filter (fun r => bool_decide (EvalResultRow.strategyHash r = sh)) rows).

(** [None]: an aggregate could not be computed. *)
Fixpoint aggregate_each (rows : list EvalResultRow.t) (clusterId : string) (strategies : list StrategyConfig)
    (pricesVersion : string) (opts : AggregateOpts.t) : option (list StrategyAggregate.t) :=
  match strategies with
  | [] => Some []
  | strategy :: strategies =>
      let sh := strategyHash strategy in
      match group_of rows clusterId opts sh with
      | [] => aggregate_each rows clusterId strategies pricesVersion opts
      | group =>
          a ← aggregateResults mathLog mathExp mathSin sha256 clusterId sh strategy (map to_result group) pricesVersion None (sliceOf opts);
          out ← aggregate_each rows clusterId strategies pricesVersion opts;
          Some (a :: out)
      end
  end.

Definition aggregatesFromEvalResults (table : list EvalResultRow.t) (clusterId : string) (strategies : list StrategyConfig)
    (pricesVersion : string) (opts : AggregateOpts.t) : option (list StrategyAggregate.t) :=
  match map strategyHash strategies with
  | [] => Some []
  | hashes => aggregate_each (List.filter (selected clusterId hashes pricesVersion opts) table) clusterId strategies pricesVersion opts
  end.

Definition hasLiveEvidence (table : list EvalResultRow.t) (clusterId orgId : string) : bool :=
  existsb (fun r => bool_decide (EvalResultRow.clusterId r = clusterId) && bool_decide (EvalResultRow.orgId r = Some orgId)
                    && bool_decide (EvalResultRow.providerMode r = "live") && negb (EvalResultRow.stale r)) table.

(** ** The jobs *)

Definition emptyFrontier (clusterId pricesVersion now : string) : Frontier.t :=
  Frontier.mk "fr-none" clusterId 0 None manual [] pricesVersion None now None.

(** The candidates of a cluster: the points carried over, then the fresh
    aggregates. *)
Definition candidates (prev : option Frontier.t) (fresh : list StrategyAggregate.t) (pricesVersion : string) : list StrategyAggregate.t :=
  let freshHashes := map StrategyAggregate.strategyHash fresh in
  map (fun p => carriedPointToAggregate p pricesVersion)
    (List.filter (fun p => negb (bool_decide (FrontierPoint.strategyHash p ∈ freshHashes)))
       (default [] (Frontier.points <$> prev))) ++ fresh.

Definition loadPlatform (db : Store.PotionDb) (clusterId : string) : option Frontier.t :=
  Store.loadCurrentFrontier db clusterId None default_instrument None.

Definition save_args (clusterId : string) (points : list FrontierPoint.t) (pricesVersion : string) : Store.SaveArgs.t :=
  Store.SaveArgs.mk clusterId points new_model pricesVersion (Store.SaveFrontierOpts.mk None None None).

(** One turn of the loop of the recompute job; [None] rejects the job.
    [ids] are the identifiers and clock readings of the saver's attempts. *)
Definition recomputeCluster (db : Store.PotionDb) (table : list EvalResultRow.t) (strategies : list StrategyConfig)
    (pricesVersion : string) (includeStale : bool) (ids : nat -> string * string) (now clusterId : string) :
    option (Store.PotionDb * (Frontier.t * FrontierDiff.t)) :=
  let prev := loadPlatform db clusterId in
  fresh ← aggregatesFromEvalResults table clusterId strategies pricesVersion (AggregateOpts.mk includeStale None None None None);
  let points := computeFrontier (candidates prev fresh pricesVersion) in
  '(db, saved) ← Store.saveFrontier db (save_args clusterId points pricesVersion) ids;
  Some (db, (saved, Diff.diffFrontiers (default (emptyFrontier clusterId pricesVersion now) prev) saved)).

Fixpoint recomputeFrontier (db : Store.PotionDb) (table : list EvalResultRow.t) (strategies : list StrategyConfig)
    (pricesVersion : string) (includeStale : bool) (ids : string -> nat -> string * string) (now : string)
    (clusterIds : list string) : option (Store.PotionDb * list (Frontier.t * FrontierDiff.t)) :=
  match clusterIds with
  | [] => Some (db, [])
  | c :: clusterIds =>
      '(db, out) ← recomputeCluster db table strategies pricesVersion includeStale (ids c) now c;
      '(db, outs) ← recomputeFrontier db table strategies pricesVersion includeStale ids now clusterIds;
      Some (db, out :: outs)
  end.

End Recompute.

(** What [runRecompute] enqueues, in order. *)
Inductive RecomputeJob :=
| EvalJob (suiteIds : list string) (strategies : list StrategyConfig) (budgetCapUsd : number)
| RecomputeFrontierJob (clusterIds : list string) (strategies : list StrategyConfig) (pricesVersion : string) (includeStale : bool).

Definition runRecompute (sha256 : string -> string) (base : PriceTable.t) (newModel : PriceEntry.t) (today : string)
    (clusterIds : list string) (budgetCapUsd : option number) (includeStale : option bool) : option (list RecomputeJob) :=
  let merged := mergePriceEntry sha256 base newModel today in
  plan ← planRecompute newModel merged;
  Some (map (fun c => EvalJob [c] plan (default (of_Z 25) budgetCapUsd)) clusterIds
        ++ [RecomputeFrontierJob clusterIds plan (PriceTable.version merged) (bool_decide (includeStale = Some true))]).

End Recompute.
