(* ===== verification/RecomputeSpec.v ===== *)
(** * What a recompute promises: pareto/src/recompute.ts

    The plan names listed models, versions stay bounded, the cells behind an
    aggregate are in scope and counted once, and no point of the previous
    frontier disappears without a candidate that replaces it. *)

From Stdlib Require Import Ascii.
From S2P Require Import Prelude Number JsSort Types Fixtures Print Prompt Program Dominance Diff Store Stats StatsSpec Evidence EvidenceSpec Recompute.

Module RecomputeSpec.
Import Num Sort Dominance Stats Evidence EvidenceSpec Recompute.

(** ** The plan *)

Definition aliases (prices : PriceTable.t) : list string := map PriceEntry.alias (PriceTable.entries prices).

Lemma reduce_elem {A} (f : A -> A -> A) l x :
  (forall a b, f a b = a \/ f a b = b) -> reduce f l = Some x -> x ∈ l.
Proof.
  intros Hf. destruct l as [|y l]; [done|]. cbn [reduce]. intros [= <-]. revert y. induction l as [|z l IH]; intros y; [left|].
  cbn [fold_left]. destruct (Hf y z) as [-> | ->]; specialize (IH y) as H1; specialize (IH z) as H2; set_solver.
Qed.

Lemma reduce_some {A} (f : A -> A -> A) l : l <> [] -> is_Some (reduce f l).
Proof. by destruct l. Qed.

Lemma classAlias_some prices preferred f : PriceTable.entries prices <> [] ->
  (forall a b, f a b = a \/ f a b = b) ->
  exists m, classAlias prices preferred (reduce f) = Some m /\ m ∈ aliases prices.
Proof.
  intros Hne Hf. unfold classAlias. destruct (find _ _) as [e|] eqn:E.
  - apply find_some in E as [Hin _]. exists (PriceEntry.alias e). split; [done|].
    apply (list_elem_of_fmap_2 PriceEntry.alias), list_elem_of_In, Hin.
  - destruct (reduce_some f _ Hne) as [e Ee]. rewrite Ee. exists (PriceEntry.alias e). split; [done|].
    apply (list_elem_of_fmap_2 PriceEntry.alias), (reduce_elem f); done.
Qed.

Lemma cheaper_picks a b : cheaper a b = a \/ cheaper a b = b.
Proof. unfold cheaper. case_match; auto. Qed.

Lemma pricier_picks a b : pricier a b = a \/ pricier a b = b.
Proof. unfold pricier. case_match; auto. Qed.

(** The models a strategy calls, its judge included. *)
Definition called (s : StrategyConfig) : list string :=
  Program.strategyModels s ++ match s with best_of_n _ _ j => [JudgeConfig.model j] | _ => [] end.

(** The plan for a new model exists, is within its cap, measures the new model
    in every entry, and calls only models of the merged price table; no two
    entries of the merged table with the new model's alias remain. *)
Theorem plan_listed sha256 base newModel today :
  let merged := mergePriceEntry sha256 base newModel today in
  exists plan, planRecompute newModel merged = Some plan /\ (length plan <= RECOMPUTE_PLAN_CAP)%nat /\
    Forall (fun s => PriceEntry.alias newModel ∈ called s /\ Forall (fun m => m ∈ aliases merged) (called s)) plan /\
    List.filter (fun e => bool_decide (PriceEntry.alias e = PriceEntry.alias newModel)) (PriceTable.entries merged) = [newModel].
Proof.
  intros merged. assert (PriceTable.entries merged <> []) as Hne by (simpl; by destruct (List.filter _ _)).
  destruct (classAlias_some merged "cheap-class" cheaper Hne cheaper_picks) as (cheap & E1 & H1).
  destruct (classAlias_some merged "frontier-class" pricier Hne pricier_picks) as (frontier & E2 & H2).
  destruct (classAlias_some merged "judge-class" pricier Hne pricier_picks) as (judge & E3 & H3).
  unfold planRecompute. rewrite E1, E2, E3. cbn [mbind option_bind]. eexists. split; [done|].
  assert (PriceEntry.alias newModel ∈ aliases merged) as H0.
  { unfold aliases. simpl. rewrite map_app. apply elem_of_app. right. left. }
  split; [simpl; unfold RECOMPUTE_PLAN_CAP; lia|]. split.
  - simpl. repeat constructor; unfold called; simpl; try set_solver; repeat constructor; done.
  - simpl. rewrite List.filter_app. cbn [List.filter]. rewrite bool_decide_eq_true_2 by done.
    rewrite filter_none; [done|]. intros e He. apply list_elem_of_In, filter_In in He as [_ He].
    by apply negb_true_iff in He.
Qed.

(** ** Versions *)

Lemma strip_length s : (String.length (strip_rolling s) <= String.length s)%nat.
Proof. induction s as [|c s IH]; simpl; [done|]. case_match; simpl; lia. Qed.

Lemma rolling_length s : rolling_suffix s = true -> String.length s = 12%nat.
Proof.
  destruct s as [|p [|r digits]]; try done. cbn [rolling_suffix]. intros H. bool_prop.
  match goal with H : (_ =? 10)%nat = true |- _ => apply Nat.eqb_eq in H end. simpl. lia.
Qed.

Lemma length_app_string (s t : string) : String.length (s +:+ t) = (String.length s + String.length t)%nat.
Proof. induction s as [|c s IH]; simpl; [done|]. by rewrite IH. Qed.

Lemma strip_suffix h d : rolling_suffix d = true -> strip_rolling (h +:+ d) = h.
Proof.
  intros Hd. induction h as [|c h IH].
  - destruct d as [|p d]; [done|]. change (EmptyString +:+ String p d) with (String p d). cbn [strip_rolling]. by rewrite Hd.
  - change (String c h +:+ d) with (String c (h +:+ d)). cbn [strip_rolling].
    destruct (rolling_suffix (String c (h +:+ d))) eqn:E; [|by rewrite IH].
    apply rolling_length in E, Hd. simpl in E. rewrite length_app_string in E. lia.
Qed.

Lemma substring_hex n s : (n <= String.length s)%nat -> all_chars is_hex s = true ->
  String.length (String.substring 0 n s) = n /\ all_chars is_hex (String.substring 0 n s) = true.
Proof.
  revert s. induction n as [|n IH]; intros [|c s]; simpl; try done; [lia|]. intros Hl H. bool_prop.
  destruct (IH s) as [-> ->]; [lia|done|]. split; [done|]. by rewrite andb_true_r.
Qed.

Section Versions.

Context (sha256 : string -> string).
Hypothesis sha256_hex : forall s, String.length (sha256 s) = 64%nat /\ all_chars is_hex (sha256 s) = true.

Lemma next_version v e : exists d, rolling_suffix d = true /\ nextPricesVersion sha256 v e = strip_rolling v +:+ d.
Proof.
  unfold nextPricesVersion. set (x := v +:+ _). destruct (sha256_hex x) as [Hl Hh].
  destruct (substring_hex 10 (sha256 x)) as [Hl' Hh']; [lia|done|].
  exists ("+r" +:+ String.substring 0 10 (sha256 x)). split; [|done].
  change ("+r" +:+ ?t) with (String "+" (String "r" t)). cbn [rolling_suffix]. by rewrite Hl', Hh'.
Qed.

(** However many models are added or re-priced, the version of the price table
    stays the original one, less a suffix of its own, and one rolling segment
    of twelve characters. *)
Theorem prices_version_bounded v entries :
  entries <> [] ->
  exists d, rolling_suffix d = true /\ fold_left (nextPricesVersion sha256) entries v = strip_rolling v +:+ d /\
    (String.length (fold_left (nextPricesVersion sha256) entries v) <= String.length v + 12)%nat.
Proof.
  intros Hne. induction entries as [|e entries IH] using rev_ind; [done|]. rewrite fold_left_app. cbn [fold_left].
  destruct (next_version (fold_left (nextPricesVersion sha256) entries v) e) as (d & Hd & ->). exists d. split; [done|].
  assert (strip_rolling (fold_left (nextPricesVersion sha256) entries v) = strip_rolling v) as ->.
  { destruct entries as [|e' entries']; [done|]. destruct IH as (d' & Hd' & -> & _); [done|]. by apply strip_suffix. }
  split; [done|]. rewrite length_app_string, (rolling_length d Hd). pose proof (strip_length v). lia.
Qed.

End Versions.

(** ** The cells of an aggregate *)

Section Cells.

Context (mathLog mathExp mathSin : number -> number) (sha256 : string -> string) (strategyHash : StrategyConfig -> string).

Abbreviation aggregateResults := (aggregateResults mathLog mathExp mathSin sha256).
Abbreviation aggregatesFromEvalResults := (aggregatesFromEvalResults mathLog mathExp mathSin sha256 strategyHash).

Lemma aggregate_evidence c h s rs v m so a : rs <> [] -> aggregateResults c h s rs v m so = Some a ->
  StrategyAggregate.strategyHash a = h /\ StrategyAggregate.clusterId a = c /\ StrategyAggregate.pricesVersion a = v /\
  exists ev, StrategyAggregate.evidence a = Some ev /\ FrontierPointEvidence.cacheKeys ev = map EvalResult.cacheKey rs.
Proof.
  intros Hne. unfold Evidence.aggregateResults.
  destruct (sliceStats _ _ _ _ _ _) as [stats|]; [|done]. cbn [mbind option_bind].
  destruct (pointQuality _ _ _ _ _ _) as [[q ci]|]; [|done]. cbn [mbind option_bind].
  destruct (match rs with [] => Some None | _ :: _ => _ end) as [lci|]; [|done]. cbn [mbind option_bind].
  destruct (quantileNearestRank _ (of_Z 50)) as [x|]; [|done]. cbn [mbind option_bind].
  destruct (quantileNearestRank _ (of_Z 95)) as [y|]; [|done]. cbn [mbind option_bind]. intros [= <-].
  cbn [StrategyAggregate.strategyHash StrategyAggregate.clusterId StrategyAggregate.evidence StrategyAggregate.pricesVersion].
  split; [reflexivity|]. split; [reflexivity|]. split; [reflexivity|].
  destruct rs as [|r rs']; [by destruct Hne|]. eexists. split; reflexivity.
Qed.

Lemma keep_better_in c r best x : x ∈ keep_better c r best -> x = r \/ x ∈ best.
Proof.
  induction best as [|cur best IH]; cbn [keep_better]; [set_solver|]. case_bool_decide; [|set_solver].
  destruct (better c r cur); set_solver.
Qed.

Lemma keep_better_items c r best :
  map EvalResultRow.itemId (keep_better c r best) =
    (if bool_decide (EvalResultRow.itemId r ∈ map EvalResultRow.itemId best) then map EvalResultRow.itemId best
     else map EvalResultRow.itemId best ++ [EvalResultRow.itemId r]).
Proof.
  induction best as [|cur best IH]; [done|]. cbn [keep_better map].
  destruct (decide (EvalResultRow.itemId cur = EvalResultRow.itemId r)) as [E|E].
  - rewrite (bool_decide_eq_true_2 _ E), (bool_decide_eq_true_2 (_ ∈ _)) by (rewrite E; left). cbn [map].
    destruct (better c r cur); by rewrite ?E.
  - rewrite (bool_decide_eq_false_2 _ E). cbn [map]. rewrite IH. case_bool_decide as E1; case_bool_decide as E2; try done.
    + destruct E2. by right.
    + apply elem_of_cons in E2 as [E2|E2]; [by destruct E|done].
Qed.

(** One row per item, all from the group. *)
Lemma dedupe_sliced c opts group : sliced opts = true ->
  NoDup (map EvalResultRow.itemId (Recompute.dedupe c opts group)) /\
  (forall r, r ∈ Recompute.dedupe c opts group -> r ∈ group) /\
  (forall i, i ∈ map EvalResultRow.itemId (Recompute.dedupe c opts group) <-> i ∈ map EvalResultRow.itemId group).
Proof.
  intros Hs. unfold Recompute.dedupe. rewrite Hs. induction group as [|r group IH] using rev_ind; [split; [constructor|done]|].
  rewrite fold_left_app. cbn [fold_left]. destruct IH as (Hn & Hin & Hi). set (best := fold_left _ group []) in *.
  rewrite keep_better_items. split; [|split].
  - case_bool_decide as E; [done|]. apply NoDup_app. split; [done|]. split; [|apply NoDup_singleton].
    intros x Hx ->%list_elem_of_singleton. done.
  - intros x [->|Hx]%keep_better_in; set_solver.
  - intros i. rewrite map_app. case_bool_decide as E; set_solver.
Qed.

(** The row an item keeps is never beaten by another of its rows, when times
    order the rows of a cluster. *)
Lemma deduped_in c opts group r : r ∈ Recompute.dedupe c opts group -> r ∈ group.
Proof.
  unfold Recompute.dedupe. destruct (sliced opts) eqn:E; [|done]. intros Hr.
  apply (dedupe_sliced c opts group E). unfold Recompute.dedupe. by rewrite E.
Qed.

Definition chosen (i : string) (best : list EvalResultRow.t) : option EvalResultRow.t :=
  find (fun r => bool_decide (EvalResultRow.itemId r = i)) best.

Lemma chosen_keep c i r best :
  chosen i (keep_better c r best) =
    if bool_decide (EvalResultRow.itemId r = i)
    then Some (match chosen i best with None => r | Some cur => if better c r cur then r else cur end)
    else chosen i best.
Proof.
  unfold chosen. induction best as [|cur best IH]; cbn [keep_better find].
  - by case_bool_decide.
  - destruct (decide (EvalResultRow.itemId cur = EvalResultRow.itemId r)) as [E1|E1].
    + rewrite (bool_decide_eq_true_2 _ E1). destruct (decide (EvalResultRow.itemId r = i)) as [E2|E2].
      * rewrite (bool_decide_eq_true_2 _ E2), (bool_decide_eq_true_2 (EvalResultRow.itemId cur = i)) by congruence.
        destruct (better c r cur); cbn [find]; by rewrite bool_decide_eq_true_2 by congruence.
      * rewrite (bool_decide_eq_false_2 _ E2), (bool_decide_eq_false_2 (EvalResultRow.itemId cur = i)) by congruence.
        destruct (better c r cur); cbn [find]; by rewrite bool_decide_eq_false_2 by congruence.
    + rewrite (bool_decide_eq_false_2 _ E1). cbn [find]. rewrite IH.
      destruct (decide (EvalResultRow.itemId cur = i)) as [E3|E3].
      * rewrite (bool_decide_eq_true_2 _ E3), (bool_decide_eq_false_2 (EvalResultRow.itemId r = i)) by congruence. done.
      * by rewrite (bool_decide_eq_false_2 _ E3).
Qed.

Lemma compare_same (s : string) : String.compare s s = Eq.
Proof. pose proof (String.compare_antisym s s) as H. by destruct (String.compare s s). Qed.

(** The boundary cluster's newest row wins over those of its parents. *)
Lemma chosen_own c i group q : q ∈ group -> EvalResultRow.itemId q = i -> EvalResultRow.clusterId q = c ->
  exists r, chosen i (fold_left (fun best r => keep_better c r best) group []) = Some r /\ EvalResultRow.clusterId r = c /\
    String.compare (EvalResultRow.createdAt q) (EvalResultRow.createdAt r) <> Gt.
Proof.
  revert q. induction group as [|x group IH] using rev_ind; intros q; [by intros ?%elem_of_nil|].
  rewrite fold_left_app. cbn [fold_left]. intros Hq Hi Hc. rewrite chosen_keep.
  apply elem_of_app in Hq as [Hq|Hq%list_elem_of_singleton].
  - destruct (IH q Hq Hi Hc) as (r & -> & Hr & Hle). case_bool_decide; [|by exists r]. eexists. split; [done|].
    destruct (better c x r) eqn:E; [|done]. unfold better in E. rewrite (bool_decide_eq_true_2 _ Hr), andb_false_r in E. cbn [orb] in E.
    apply andb_prop in E as [E1%bool_decide_eq_true E2]. split; [congruence|].
    eapply string_compare_trans; [exact Hle|]. rewrite String.compare_antisym. revert E2. destruct (String.compare (EvalResultRow.createdAt x) (EvalResultRow.createdAt r)); done.
  - subst x. rewrite bool_decide_eq_true_2 by done. eexists. split; [done|].
    destruct (chosen i _) as [r|]; [|split; [done|]; by rewrite compare_same].
    unfold better. rewrite (bool_decide_eq_true_2 _ Hc). case_bool_decide as E1; cbn [negb andb orb].
    + rewrite bool_decide_eq_true_2 by congruence. cbn [andb].
      destruct (String.compare (EvalResultRow.createdAt q) (EvalResultRow.createdAt r)) eqn:E2; [by rewrite E2..|].
      split; [done|]. by rewrite compare_same.
    + split; [done|]. by rewrite compare_same.
Qed.

Lemma chosen_unique best r : NoDup (map EvalResultRow.itemId best) -> r ∈ best -> chosen (EvalResultRow.itemId r) best = Some r.
Proof.
  intros Hn Hr. unfold chosen. destruct (find _ best) as [x|] eqn:E.
  - apply find_some in E as [Hx%list_elem_of_In Ex%bool_decide_eq_true]. f_equal. by apply (NoDup_key_inj EvalResultRow.itemId best).
  - apply list_elem_of_In in Hr. apply (find_none _ _ E) in Hr. by rewrite bool_decide_eq_true_2 in Hr.
Qed.

Lemma dedupe_own c opts group r q : sliced opts = true ->
  r ∈ Recompute.dedupe c opts group -> q ∈ group -> EvalResultRow.itemId q = EvalResultRow.itemId r ->
  EvalResultRow.clusterId q = c -> EvalResultRow.clusterId r = c /\
    String.compare (EvalResultRow.createdAt q) (EvalResultRow.createdAt r) <> Gt.
Proof.
  intros Hs Hr Hq Hi Hc. destruct (dedupe_sliced c opts group Hs) as (Hn & _ & _).
  pose proof (chosen_unique _ _ Hn Hr) as E. unfold Recompute.dedupe in E. rewrite Hs in E.
  destruct (chosen_own c _ group q Hq Hi Hc) as (r' & E' & H). rewrite E in E'. by injection E' as <-.
Qed.

Lemma elem_of_each rows c ss v opts out a :
  aggregate_each mathLog mathExp mathSin sha256 strategyHash rows c ss v opts = Some out -> a ∈ out ->
  exists s, s ∈ ss /\ group_of rows c opts (strategyHash s) <> [] /\
    aggregateResults c (strategyHash s) s (map to_result (group_of rows c opts (strategyHash s))) v None (sliceOf opts) = Some a.
Proof.
  revert out. induction ss as [|s ss IH]; intros out; cbn [aggregate_each]; [by intros [= <-] ?%elem_of_nil|].
  destruct (group_of rows c opts (strategyHash s)) as [|r g] eqn:Eg.
  - intros E Ha. destruct (IH out E Ha) as (s' & ? & ?). exists s'. split; [by right|done].
  - rewrite <- Eg. destruct (aggregateResults _ _ _ _ _ _ _) as [a0|] eqn:E0; [|done]. cbn [mbind option_bind].
    destruct (aggregate_each _ _ _ _ _ _ _ _ _ _) as [o|] eqn:Eo; [|done]. cbn [mbind option_bind]. intros [= <-].
    intros [->|Ha]%elem_of_cons.
    + exists s. split; [left|]. split; [by rewrite Eg|done].
    + destruct (IH o eq_refl Ha) as (s' & ? & ?). exists s'. split; [by right|done].
Qed.

(** What is aggregated is in scope and counted once: every cell an aggregate
    cites is a row of the asked strategy, price version, instrument and tenant
    (the platform's rows for a platform recompute), of the asked provider mode
    and not stale unless asked for; of a boundary suite it is the only cell of
    its item, and if the boundary cluster measured the item itself, its newest
    own row. *)
Theorem cells_in_scope table c ss v opts out a :
  aggregatesFromEvalResults table c ss v opts = Some out -> a ∈ out ->
  exists rows ev, StrategyAggregate.evidence a = Some ev /\ FrontierPointEvidence.cacheKeys ev = map EvalResultRow.cacheKey rows /\
    rows <> [] /\ StrategyAggregate.strategyHash a ∈ map strategyHash ss /\
    Forall (fun r => r ∈ table /\ EvalResultRow.strategyHash r = StrategyAggregate.strategyHash a /\
      EvalResultRow.pricesVersion r = v /\ EvalResultRow.orgId r = AggregateOpts.orgId opts /\
      EvalResultRow.instrument r = instrument_name (default default_instrument (AggregateOpts.instrument opts)) /\
      (forall m, AggregateOpts.providerMode opts = Some m -> EvalResultRow.providerMode r = mode_name m) /\
      (AggregateOpts.includeStale opts = false -> EvalResultRow.stale r = false) /\
      (sliced opts = false -> EvalResultRow.clusterId r = c)) rows /\
    (sliced opts = true -> NoDup (map EvalResultRow.itemId rows) /\
      forall r q, r ∈ rows -> q ∈ table -> selected c (map strategyHash ss) v opts q = true ->
        EvalResultRow.strategyHash q = EvalResultRow.strategyHash r -> EvalResultRow.itemId q = EvalResultRow.itemId r ->
        EvalResultRow.clusterId q = c ->
        EvalResultRow.clusterId r = c /\ String.compare (EvalResultRow.createdAt q) (EvalResultRow.createdAt r) <> Gt).
Proof.
  intros E Ha. unfold Recompute.aggregatesFromEvalResults in E.
  destruct (map strategyHash ss) as [|h hs] eqn:Eh; [injection E as <-; by apply elem_of_nil in Ha|]. rewrite <- Eh in *.
  destruct (elem_of_each _ _ _ _ _ _ _ E Ha) as (s & Hs & Hne & Ea). clear E.
  set (sel := selected c (map strategyHash ss) v opts) in *. set (sh := strategyHash s) in *.
  set (rows := group_of (List.filter sel table) c opts sh) in *.
  destruct (aggregate_evidence _ _ _ _ _ _ _ _ ltac:(intros E0; apply Hne; by apply map_eq_nil in E0) Ea) as (Hh & _ & _ & ev & Hev & Hk).
  exists rows, ev. split; [done|]. split; [by rewrite Hk, map_map|]. split; [done|].
  split; [rewrite Hh; by apply (list_elem_of_fmap_2 strategyHash)|].
  assert (forall r, r ∈ rows -> r ∈ table /\ sel r = true /\ EvalResultRow.strategyHash r = sh) as Hrow.
  { intros r Hr. apply deduped_in, list_elem_of_In, filter_In in Hr as [Hr Er%bool_decide_eq_true].
    apply filter_In in Hr as [Hr Esel]. split; [by apply list_elem_of_In|done]. }
  split.
  - apply Forall_forall. intros r Hr. destruct (Hrow r Hr) as (Hin & Hsel & Hsh). split; [done|]. split; [congruence|].
    unfold sel, selected in Hsel. rewrite !andb_true_iff in Hsel. destruct Hsel as ((((((H1 & H2) & H3) & H4) & H5) & H6) & H7).
    apply bool_decide_eq_true in H3, H4, H5. split; [done|]. split; [done|]. split; [done|]. split; [|split].
    + intros m Em. rewrite Em in H6. by apply bool_decide_eq_true in H6.
    + intros Em. rewrite Em in H7. by apply negb_true_iff in H7.
    + intros Em. rewrite Em in H1. by apply bool_decide_eq_true in H1.
  - intros Hsl. destruct (dedupe_sliced c opts (List.filter (fun r => bool_decide (EvalResultRow.strategyHash r = sh)) (List.filter sel table)) Hsl)
      as (Hn & _ & _). split; [exact Hn|]. intros r q Hr Hq Hsel Hqs Hqi Hqc. destruct (Hrow r Hr) as (_ & _ & Hsh).
    eapply (dedupe_own c opts _ r q Hsl Hr); [|done|done].
    apply list_elem_of_In, filter_In. split; [|apply bool_decide_eq_true; congruence]. apply filter_In.
    split; [by apply list_elem_of_In|done].
Qed.

End Cells.

(** ** The new frontier *)

Section Frontier.

Context (mathLog mathExp mathSin : number -> number) (sha256 : string -> string) (strategyHash : StrategyConfig -> string).
Context `{!Collation}.

Lemma carried_point p v : aggregateToPoint (carriedPointToAggregate p v) = p.
Proof. by destruct p. Qed.

(** The candidates are the fresh aggregates and the previous points of other
    strategies, as they were. *)
Lemma candidates_spec prev fresh v p :
  (exists a, a ∈ candidates prev fresh v /\ p = aggregateToPoint a) <->
  (exists a, a ∈ fresh /\ p = aggregateToPoint a) \/
  (exists f, prev = Some f /\ p ∈ Frontier.points f /\ hash p ∉ map StrategyAggregate.strategyHash fresh).
Proof.
  unfold candidates. split.
  - intros (a & [Ha|Ha]%elem_of_app & ->); [right|left; by exists a].
    apply list_elem_of_fmap in Ha as (q & -> & Hq). rewrite carried_point. apply list_elem_of_In, filter_In in Hq as [Hq Hh].
    apply negb_true_iff, bool_decide_eq_false in Hh. destruct prev as [f|]; [|done]. exists f. split; [done|].
    split; [by apply list_elem_of_In|done].
  - intros [(a & Ha & ->)|(f & -> & Hp & Hh)]; [exists a; split; [apply elem_of_app; by right|done]|].
    exists (carriedPointToAggregate p v). split; [|by rewrite carried_point]. apply elem_of_app. left.
    apply (list_elem_of_fmap_2 (fun p => carriedPointToAggregate p v)), list_elem_of_In, filter_In.
    split; [by apply list_elem_of_In|]. by apply negb_true_iff, bool_decide_eq_false.
Qed.

Lemma elem_of_candidates prev fresh v p :
  p ∈ Dominance.dedupe (sort byCostThenHash (map aggregateToPoint (candidates prev fresh v))) ->
  (exists a, a ∈ fresh /\ p = aggregateToPoint a) \/
  (exists f, prev = Some f /\ p ∈ Frontier.points f /\ hash p ∉ map StrategyAggregate.strategyHash fresh).
Proof. intros Hp. by apply (candidates_spec prev fresh v), deduped_from_aggs. Qed.

(** A previous point that was not measured again stays, or some candidate
    dominates it or has its coordinates. *)
Lemma carried_kept f fresh v p :
  NoDup (map hash (Frontier.points f)) -> p ∈ Frontier.points f -> hash p ∉ map StrategyAggregate.strategyHash fresh ->
  p ∈ computeFrontier (candidates (Some f) fresh v) \/
  exists q, (dominates q p = true \/ sameCoordinates q p = true) /\
    ((exists a, a ∈ fresh /\ q = aggregateToPoint a) \/ q ∈ Frontier.points f).
Proof.
  intros Hn Hp Hh. set (pool := map aggregateToPoint (candidates (Some f) fresh v)).
  assert (p ∈ sort byCostThenHash pool) as Hin.
  { apply elem_of_sort. destruct (proj2 (candidates_spec (Some f) fresh v p)) as (a & Ha & E); [right; by exists f|].
    rewrite E. by apply (list_elem_of_fmap_2 aggregateToPoint). }
  assert (forall q, q ∈ Dominance.dedupe (sort byCostThenHash pool) ->
    (exists a, a ∈ fresh /\ q = aggregateToPoint a) \/ q ∈ Frontier.points f) as Hfrom.
  { intros q [?|(f' & [= <-] & ? & _)]%elem_of_candidates; auto. }
  assert (p ∈ Dominance.dedupe (sort byCostThenHash pool) \/
    exists q, q ∈ Dominance.dedupe (sort byCostThenHash pool) /\ sameCoordinates q p = true) as [Hd|(q & Hq & E)].
  { destruct (dedupe_complete _ _ Hin) as [|(k & Hk & [E|E])]; [by left| |right; by exists k]. left.
    apply elem_of_candidates in Hk as Hk'. destruct Hk' as [(a & Ha & ->)|(f' & [= <-] & Hkf & _)].
    - destruct Hh. rewrite <- E. by apply (list_elem_of_fmap_2 StrategyAggregate.strategyHash).
    - assert (k = p) as <- by (by apply (NoDup_key_inj hash (Frontier.points f))). done. }
  - destruct (isDominated p (Dominance.dedupe (sort byCostThenHash pool))) as [q|] eqn:E.
    + apply List.find_some in E as [Hq%list_elem_of_In E]. right. exists q. split; [by left|]. by apply Hfrom.
    + left. apply elem_of_frontier. split; [done|]. by apply isDominated_none.
  - right. exists q. split; [by right|]. by apply Hfrom.
Qed.

Lemma save_loop_first d a ids fuel : forall k d' f,
  Store.save_loop d a ids fuel k = Some (d', f) ->
  exists n, f = Store.next_frontier a (Store.read_latest d a) (ids n).1 (ids n).2 /\ Store.insertFrontier d f = Some d'.
Proof.
  induction fuel as [|fuel IH]; intros k d' f; cbn [Store.save_loop]; [done|].
  destruct (Store.insertFrontier d _) as [d1|] eqn:E; [|apply IH]. intros [= <- <-]. by exists k.
Qed.


End Frontier.

(** ** Concrete inputs *)

Definition hex64 (s : string) : string := "0123456789abcdef0123456789abcdef0123456789abcdef0123456789abcdef".

Example prices_version_bounded_witness :
  exists d, fold_left (nextPricesVersion hex64) (PriceTable.entries Fixtures.prices) "2026-09+r0000000000" = "2026-09" +:+ d.
Proof.
  destruct (prices_version_bounded hex64 (fun s => conj eq_refl eq_refl) "2026-09+r0000000000" (PriceTable.entries Fixtures.prices))
    as (d & _ & E & _); [discriminate|].
  exists d. exact E.
Defined.

Definition hash_of (s : StrategyConfig) : string := match s with single m => m | _ => "other" end.

Definition row (key item cluster created : string) : EvalResultRow.t :=
  EvalResultRow.mk key "r1" item cluster "cheap" (single "cheap") one "exact" "default" None
    (Usage.mk (of_Z 100) (of_Z 20) (lit 1 3) (of_Z 900) None) (LatencyMs.mk (of_Z 900) (of_Z 900) (of_Z 900)) [] "p1" "live"
    None false created.

Definition one_cell : list EvalResultRow.t := [row "k1" "i1" "code-gen" "2026-09-01"].
Definition plain_opts : AggregateOpts.t := AggregateOpts.mk false None None None None.

Lemma one_cell_ok : cells_ok (map to_result one_cell).
Proof. split; [|split; [|done]]; repeat constructor; by vm_compute. Qed.

Lemma aggregate_one mL mE mS sha hash rows cid s pv opts group a :
  group_of rows cid opts (hash s) = group -> group <> [] ->
  aggregateResults mL mE mS sha cid (hash s) s (map to_result group) pv None (sliceOf opts) = Some a ->
  aggregate_each mL mE mS sha hash rows cid [s] pv opts = Some [a].
Proof.
  intros G Hne E. cbn [aggregate_each]. rewrite G. destruct group as [|g group]; [done|]. rewrite E. reflexivity.
Qed.

Lemma one_aggregate :
  exists a, aggregatesFromEvalResults StatsSpec.flat StatsSpec.flat StatsSpec.flat StatsSpec.digest hash_of one_cell "code-gen" [single "cheap"] "p1" plain_opts = Some [a].
Proof.
  destruct (aggregate_some StatsSpec.flat StatsSpec.flat StatsSpec.flat StatsSpec.digest "code-gen" (hash_of (single "cheap")) (single "cheap") (map to_result one_cell) "p1" None (sliceOf plain_opts)
    one_cell_ok) as [a E]; [discriminate|].
  exists a. unfold aggregatesFromEvalResults. cbn [map].
  refine (aggregate_one _ _ _ _ _ _ _ _ _ _ one_cell _ _ _ E); [by vm_compute|discriminate].
Qed.

Example cells_in_scope_witness :
  exists out a, aggregatesFromEvalResults StatsSpec.flat StatsSpec.flat StatsSpec.flat StatsSpec.digest hash_of one_cell "code-gen" [single "cheap"] "p1" plain_opts = Some out /\
    a ∈ out /\ exists rows, rows <> [] /\ Forall (fun r => r ∈ one_cell) rows.
Proof.
  destruct one_aggregate as [a E]. assert (a ∈ [a]) as Ha by left. exists [a], a. split; [exact E|]. split; [exact Ha|].
  destruct (cells_in_scope StatsSpec.flat StatsSpec.flat StatsSpec.flat StatsSpec.digest hash_of one_cell "code-gen" [single "cheap"] "p1" plain_opts _ _ E Ha)
    as (rows & ev & _ & _ & Hne & _ & Hrows & _).
  exists rows. split; [exact Hne|]. eapply Forall_impl; [exact Hrows|]. intros r Hr. exact (proj1 Hr).
Defined.

Definition some_ids (n : nat) : string * string := ("a", "2026-09-02").

Lemma one_recompute :
  exists db saved diff, recomputeCluster StatsSpec.flat StatsSpec.flat StatsSpec.flat StatsSpec.digest hash_of Store.empty_db one_cell [single "cheap"] "p1" false some_ids
      "2026-09-02" "code-gen" = Some (db, (saved, diff)).
Proof.
  destruct one_aggregate as [a E]. unfold recomputeCluster. change (AggregateOpts.mk false None None None None) with plain_opts. rewrite E.
  cbn [mbind option_bind]. unfold Store.saveFrontier. cbn [Store.save_loop Store.SAVE_RETRIES]. unfold Store.insertFrontier at 1.
  cbn [existsb Store.frontiers Store.empty_db]. cbn [mbind option_bind]. eexists _, _, _. reflexivity.
Qed.


(** Of an item two parent suites measured, the first row read is kept, not the
    newest: rows of different parents are never compared by time. *)
Definition boundary_opts : AggregateOpts.t :=
  AggregateOpts.mk false None None None (Some [SuiteItem.mk "i1" (Some "alpha"); SuiteItem.mk "i2" (Some "beta")])%string.

Theorem older_parent_kept :
  Recompute.dedupe "boundary" boundary_opts [row "k1" "i1" "alpha" "2026-09-01"; row "k2" "i1" "beta" "2026-09-05"] =
    [row "k1" "i1" "alpha" "2026-09-01"].
Proof. by vm_compute. Qed.

End RecomputeSpec.
