(* ===== verification/JobGuard.v ===== *)
(** * Job deliveries: db/src/repos/job-executions.ts and the delivery guard of workers/src/suite-verify-job.ts

    Queues deliver a job again after a failure or a lost worker, to handlers
    that spend money.  The guard claims the job in a table before the handler's
    body runs.  The table is a map from job id to row; a delivery is a machine
    that sends one statement at a time, and the statements of all deliveries,
    failed connections and lost workers included, interleave freely.  A handler
    called without a delivery runs unguarded and is not seen here. *)

From S2P Require Import Prelude Print Queue.

Module JobGuard.
Import Print.

(** ** Data *)

Module JobError.
Record t := mk { name : string; message : string; stack : option string }.
End JobError.

(** What the column [result] holds: what a body returned, or the error of one
    that threw. *)
Inductive Stored (V : Type) :=
| value (v : V)
| failure (e : JobError.t) (at_ : Z).
Arguments value {V} v.
Arguments failure {V} e at_.

Module JobExecutionRow.
Record t (V : Type) := mk {
  jobId : string;
  jobKind : string;
  orgId : option string;
  attempt : nat;
  claimedAt : Z;
  completedAt : option Z;
  result : option (Stored V);
  outcome : option string;
}.
Arguments mk {V}.
Arguments jobId {V}.
Arguments jobKind {V}.
Arguments orgId {V}.
Arguments attempt {V}.
Arguments claimedAt {V}.
Arguments completedAt {V}.
Arguments result {V}.
Arguments outcome {V}.
End JobExecutionRow.

Module ClaimInput.
Record t := mk { jobId : string; jobKind : string; orgId : option string; attempt : nat }.
End ClaimInput.

Inductive JobClaim (V : Type) :=
| proceed
| already_completed (result : option (Stored V)) (outcome : option string)
| refuse_incomplete.
Arguments proceed {V}.
Arguments already_completed {V} result outcome.
Arguments refuse_incomplete {V}.

Module AlertEvent.
Record t := mk {
  orgId : string;
  event : string;
  jobKind : string;
  scope : string;
  failuresLast24h : nat;
  lastJobId : string;
  lastError : string;
  narrative : string;
}.
End AlertEvent.

Definition PLATFORM_OPS_ORG_ID : string := "org_platform_ops".
Definition JOB_FAILURE_ALERT_AT : nat := 3.
Definition JOB_FAILURE_WINDOW_MS : Z := 24 * 3600 * 1000.

Section JobGuard.

Context {V : Type}.

Abbreviation Row := (JobExecutionRow.t V).
Abbreviation Ledger := (gmap string Row).

(** ** The statements of job-executions.ts *)

(** The insert of [claimJobExecution], which does nothing on a conflict; the
    boolean says that a row was inserted. *)
Definition insertClaim (input : ClaimInput.t) (now : Z) (db : Ledger) : Ledger * bool :=
  let job := ClaimInput.jobId input in
  match db !! job with
  | Some _ => (db, false)
  | None =>
      (<[job := JobExecutionRow.mk job (ClaimInput.jobKind input) (ClaimInput.orgId input) (ClaimInput.attempt input)
                  now None None None]> db, true)
  end.

(** The select of [claimJobExecution] after a conflict; [None] where it finds
    no row and the code dereferences [undefined]. *)
Definition readClaim (job : string) (db : Ledger) : option (JobClaim V) :=
  (fun row => match JobExecutionRow.completedAt row with
              | Some _ => already_completed (JobExecutionRow.result row) (JobExecutionRow.outcome row)
              | None => refuse_incomplete
              end) <$> db !! job.

Definition claimJobExecution (input : ClaimInput.t) (now : Z) (db : Ledger) : Ledger * option (JobClaim V) :=
  let '(db, inserted) := insertClaim input now db in
  (db, if inserted then Some proceed else readClaim (ClaimInput.jobId input) db).

Definition completeJobExecution (job : string) (result : option V) (outcome : string) (now : Z) (db : Ledger) : Ledger :=
  alter (fun row => JobExecutionRow.mk (JobExecutionRow.jobId row) (JobExecutionRow.jobKind row) (JobExecutionRow.orgId row)
                      (JobExecutionRow.attempt row) (JobExecutionRow.claimedAt row) (Some now) (value <$> result) (Some outcome)) job db.

Definition clipped (e : JobError.t) : JobError.t :=
  JobError.mk (JobError.name e) (String.substring 0 2000 (JobError.message e))
    (s ← JobError.stack e; if String.eqb s "" then None else Some (String.substring 0 4000 s)).

Definition failJobExecution (job : string) (e : JobError.t) (now : Z) (db : Ledger) : Ledger :=
  alter (fun row => JobExecutionRow.mk (JobExecutionRow.jobId row) (JobExecutionRow.jobKind row) (JobExecutionRow.orgId row)
                      (JobExecutionRow.attempt row) (JobExecutionRow.claimedAt row) (JobExecutionRow.completedAt row)
                      (Some (failure (clipped e) now)) (Some "failed"%string)) job db.

Definition recent_failure (kind : string) (org : option string) (since : Z) (row : Row) : bool :=
  bool_decide (JobExecutionRow.jobKind row = kind) && bool_decide (JobExecutionRow.orgId row = org)
  && bool_decide (JobExecutionRow.outcome row = Some "failed"%string) && (since <? JobExecutionRow.claimedAt row)%Z.

Definition countRecentJobFailures (kind : string) (org : option string) (since : Z) (db : Ledger) : nat :=
  length (List.filter (fun kv => recent_failure kind org since kv.2) (map_to_list db)).

(** ** The guard *)

Inductive Outcome :=
| Returned (result : option (Stored V))
| Refused
| Threw (e : JobError.t)
| RowVanished
| DbError.

(** Where a delivery is: the statement it has sent, or its body running;
    [lost] with its worker. *)
Inductive phase :=
| inserting
| reading
| running
| completing (result : option V)
| recording (e : JobError.t)
| counting (e : JobError.t)
| settled (o : Outcome)
| lost.

Record delivery := Delivery { claim_of : ClaimInput.t; at_phase : phase }.

(** [started] and [returned] record the bodies that were started and what they
    returned; [forgotten] the jobs whose rows an organization's deletion
    removed. *)
Record state := State {
  ledger : Ledger;
  deliveries : gmap nat delivery;
  alerts : list AlertEvent.t;
  started : list (string * nat);
  returned : list (string * nat * option V);
  forgotten : list string;
}.

Definition init (db : Ledger) : state := State db ∅ [] [] [] [].

Definition put (n : nat) (input : ClaimInput.t) (p : phase) (db : Ledger) (s : state) : state :=
  State db (<[n := Delivery input p]> (deliveries s)) (alerts s) (started s) (returned s) (forgotten s).

(** [alertOnRepeatedFailure] once the count is known. *)
Definition failure_alert (input : ClaimInput.t) (e : JobError.t) (failures : nat) : list AlertEvent.t :=
  if negb (failures =? JOB_FAILURE_ALERT_AT)%nat then []
  else
    let kind := ClaimInput.jobKind input in
    let org := ClaimInput.orgId input in
    [AlertEvent.mk (default PLATFORM_OPS_ORG_ID org) "job_failed" kind (default "platform"%string org) failures
       (ClaimInput.jobId input) (String.substring 0 500 (JobError.message e))
       ("'" +:+ kind +:+ "' has failed " +:+ show_Z (Z.of_nat failures) +:+ " times in the last 24 hours"
        +:+ match org with Some o => " for " +:+ o | None => " at platform scope"%string end
        +:+ ". Latest: " +:+ String.substring 0 200 (JobError.message e)
        +:+ ". Further failures in this window are recorded on job_executions but not re-alerted.")].

(** The database answers the statement delivery [n] has sent. *)
Definition answer (n : nat) (now : Z) (s : state) : option state :=
  d ← deliveries s !! n;
  let input := claim_of d in
  let job := ClaimInput.jobId input in
  match at_phase d with
  | inserting =>
      let '(db, inserted) := insertClaim input now (ledger s) in
      Some (if inserted
            then State db (<[n := Delivery input running]> (deliveries s)) (alerts s) ((job, n) :: started s) (returned s) (forgotten s)
            else put n input reading db s)
  | reading =>
      Some (put n input (settled (match readClaim job (ledger s) with
                                  | None => RowVanished
                                  | Some (already_completed result _) => Returned result
                                  | Some _ => Refused
                                  end)) (ledger s) s)
  | completing result =>
      Some (put n input (settled (Returned (value <$> result))) (completeJobExecution job result "ok" now (ledger s)) s)
  | recording e => Some (put n input (counting e) (failJobExecution job e now (ledger s)) s)
  | counting e =>
      let failures := countRecentJobFailures (ClaimInput.jobKind input) (ClaimInput.orgId input) (now - JOB_FAILURE_WINDOW_MS)%Z (ledger s) in
      Some (State (ledger s) (<[n := Delivery input (settled (Threw e))]> (deliveries s))
              (alerts s ++ failure_alert input e failures) (started s) (returned s) (forgotten s))
  | _ => None
  end.

(** The statement of delivery [n] fails; [applied] says that the database
    carried it out before the connection was lost. *)
Definition lose (n : nat) (applied : bool) (now : Z) (s : state) : option state :=
  d ← deliveries s !! n;
  let input := claim_of d in
  let job := ClaimInput.jobId input in
  match at_phase d with
  | inserting => Some (put n input (settled DbError) (if applied then (insertClaim input now (ledger s)).1 else ledger s) s)
  | reading => Some (put n input (settled DbError) (ledger s) s)
  | completing result =>
      Some (put n input (settled DbError) (if applied then completeJobExecution job result "ok" now (ledger s) else ledger s) s)
  | recording e => Some (put n input (settled (Threw e)) (if applied then failJobExecution job e now (ledger s) else ledger s) s)
  | counting e => Some (put n input (settled (Threw e)) (ledger s) s)
  | _ => None
  end.

Inductive event :=
| Deliver (n : nat) (input : ClaimInput.t)
| Answer (n : nat) (now : Z)
| Lose (n : nat) (applied : bool) (now : Z)
| BodyReturns (n : nat) (result : option V)
| BodyThrows (n : nat) (e : JobError.t)
| Crash (n : nat)
| DeleteOrg (org : string).

Definition of_org (org : string) (row : Row) : bool := bool_decide (JobExecutionRow.orgId row = Some org).

Definition step (e : event) (s : state) : option state :=
  match e with
  | Deliver n input =>
      match deliveries s !! n with
      | Some _ => None
      | None => Some (put n input inserting (ledger s) s)
      end
  | Answer n now => answer n now s
  | Lose n applied now => lose n applied now s
  | BodyReturns n result =>
      d ← deliveries s !! n;
      match at_phase d with
      | running =>
          Some (State (ledger s) (<[n := Delivery (claim_of d) (completing result)]> (deliveries s)) (alerts s)
                  (started s) ((ClaimInput.jobId (claim_of d), n, result) :: returned s) (forgotten s))
      | _ => None
      end
  | BodyThrows n e =>
      d ← deliveries s !! n;
      match at_phase d with running => Some (put n (claim_of d) (recording e) (ledger s) s) | _ => None end
  | Crash n => d ← deliveries s !! n; Some (put n (claim_of d) lost (ledger s) s)
  | DeleteOrg org =>
      Some (State (filter (fun kv => of_org org kv.2 = false) (ledger s)) (deliveries s) (alerts s) (started s) (returned s)
              (map fst (List.filter (fun kv => of_org org kv.2) (map_to_list (ledger s))) ++ forgotten s))
  end.

Fixpoint run (es : list event) (s : state) : option state :=
  match es with [] => Some s | e :: es => s ← step e s; run es s end.

End JobGuard.

Arguments state V : clear implicits.
Arguments event V : clear implicits.
Arguments phase V : clear implicits.
Arguments delivery V : clear implicits.
Arguments Outcome V : clear implicits.

End JobGuard.
