(* ===== verification/JobGuardSpec.v ===== *)
(** * What the delivery guard guarantees

    The invariant of [JobGuard.step] over every interleaving of deliveries,
    lost connections and lost workers, the two theorems it gives, and how the
    guard and the in-process queue meet. *)

From S2P Require Import Prelude Types Print Queue JobGuard.

Module JobGuardSpec.
Import JobGuard.

Section Spec.

Context {V : Type}.

Implicit Types (s : state V) (d : delivery V) (p : phase V) (j : string) (n m : nat) (db : gmap string (JobExecutionRow.t V)).

Definition job d : string := ClaimInput.jobId (claim_of d).

Definition incomplete db j : Prop := exists row, db !! j = Some row /\ JobExecutionRow.completedAt row = None.
Definition complete db j (r : option (Stored V)) : Prop :=
  exists row t, db !! j = Some row /\ JobExecutionRow.completedAt row = Some t /\ JobExecutionRow.result row = r.

(** What a phase says of the table. *)
Definition phase_ok db (st : list (string * nat)) (rt : list (string * nat * option V)) j n p : Prop :=
  match p with
  | running => (j, n) ∈ st /\ incomplete db j /\ forall v, (j, n, v) ∉ rt
  | completing v => (j, n) ∈ st /\ incomplete db j /\ (j, n, v) ∈ rt
  | recording _ => (j, n) ∈ st /\ incomplete db j
  | settled (Returned r) => complete db j r
  | _ => True
  end.

Definition early p : bool := match p with inserting | reading => true | _ => false end.

(** Phases that say nothing of the table. *)
Definition quiet p : bool :=
  match p with running | completing _ | recording _ | settled (Returned _) => false | _ => true end.

Record inv s : Prop := {
  inv_known j n : (j, n) ∈ started s -> exists d, deliveries s !! n = Some d /\ job d = j /\ early (at_phase d) = false;
  inv_nodup : NoDup (started s);
  inv_row j n : (j, n) ∈ started s -> j ∉ forgotten s -> is_Some (ledger s !! j);
  inv_once j n m : (j, n) ∈ started s -> (j, m) ∈ started s -> j ∉ forgotten s -> n = m;
  inv_started j n v : (j, n, v) ∈ returned s -> (j, n) ∈ started s;
  inv_value j n v w : (j, n, v) ∈ returned s -> (j, n, w) ∈ returned s -> v = w;
  inv_running n d : deliveries s !! n = Some d -> at_phase d = running -> (job d, n) ∈ started s /\ forall v, (job d, n, v) ∉ returned s;
  inv_phase n d : deliveries s !! n = Some d -> job d ∉ forgotten s ->
    phase_ok (ledger s) (started s) (returned s) (job d) n (at_phase d);
  inv_done j r : j ∉ forgotten s -> complete (ledger s) j r -> exists n v, (j, n, v) ∈ returned s /\ r = value <$> v;
}.

Lemma guard_init : inv (init ∅).
Proof.
  split; try (intros; done || by intros ?%not_elem_of_nil); simpl; try set_solver; [constructor|].
  intros j r _ (row & t & E & _). by rewrite lookup_empty in E.
Qed.

Lemma quiet_ok db st rt j n p : quiet p = true -> phase_ok db st rt j n p.
Proof. by destruct p as [| | |?|?|?|[?| |?| |]|]. Qed.

(** A delivery whose body is under way is the only one of its job that says
    anything of the row; so is nobody when there is no row. *)
Lemma others_quiet s n d m d' :
  inv s -> deliveries s !! n = Some d -> (job d, n) ∈ started s -> incomplete (ledger s) (job d) -> job d ∉ forgotten s ->
  m <> n -> deliveries s !! m = Some d' -> job d' = job d -> quiet (at_phase d') = true.
Proof.
  intros I Hn Hst (row & Hrow & Hc) Hf Hne Hm Ej. pose proof (inv_phase _ I _ _ Hm ltac:(by rewrite Ej)) as P. rewrite Ej in P.
  destruct (at_phase d') as [| | |?|?|?|[?| |?| |]|]; simpl in *; try done.
  - destruct Hne. apply (inv_once _ I (job d)); tauto.
  - destruct Hne. apply (inv_once _ I (job d)); tauto.
  - destruct Hne. apply (inv_once _ I (job d)); tauto.
  - destruct P as (row' & t & E & Hc' & _). congruence.
Qed.

Lemma absent_quiet s m d' : inv s -> deliveries s !! m = Some d' -> job d' ∉ forgotten s -> ledger s !! job d' = None ->
  quiet (at_phase d') = true.
Proof.
  intros I Hm Hf Hn. pose proof (inv_phase _ I _ _ Hm Hf) as P. unfold phase_ok, incomplete, complete in P. rewrite Hn in P.
  destruct (at_phase d') as [| | |?|?|?|[?| |?| |]|]; simpl in *; try done; destruct P as (? & ? & ?) || destruct P as (? & ?); destruct_and?; naive_solver.
Qed.

(** The table changes in the row of one job only, which no other delivery says
    anything of, and delivery [n] moves on. *)
Lemma inv_put s n d p db :
  inv s -> deliveries s !! n = Some d ->
  (forall j, j <> job d -> db !! j = ledger s !! j) ->
  (is_Some (ledger s !! job d) -> is_Some (db !! job d)) ->
  (job d ∉ forgotten s -> db !! job d = ledger s !! job d \/
     forall m d', m <> n -> deliveries s !! m = Some d' -> job d' = job d -> quiet (at_phase d') = true) ->
  (forall r, job d ∉ forgotten s -> complete db (job d) r -> exists m v, (job d, m, v) ∈ returned s /\ r = value <$> v) ->
  (job d ∉ forgotten s -> phase_ok db (started s) (returned s) (job d) n p) ->
  p <> running -> (early p = true -> early (at_phase d) = true) ->
  inv (put n (claim_of d) p db s).
Proof.
  intros I Hn Hother Hkeep Hquiet Hdone Hp Hr He. split; simpl.
  - intros j m (d' & Hm & Ej & Ee)%(inv_known _ I). destruct (decide (m = n)) as [->|Hne].
    + rewrite lookup_insert_eq. eexists. split; [done|]. simplify_eq. split; [done|]. simpl. destruct (early p); naive_solver.
    + rewrite lookup_insert_ne by done. eauto.
  - apply I.
  - intros j m Hst Hf. pose proof (inv_row _ I _ _ Hst Hf). destruct (decide (j = job d)) as [->|Hne]; [auto|by rewrite Hother].
  - apply (inv_once _ I).
  - apply (inv_started _ I).
  - apply (inv_value _ I).
  - intros m d'. destruct (decide (m = n)) as [->|Hne].
    + rewrite lookup_insert_eq. by intros [= <-].
    + rewrite lookup_insert_ne by done. apply (inv_running _ I).
  - intros m d'. destruct (decide (m = n)) as [->|Hne].
    + rewrite lookup_insert_eq. intros [= <-]. apply Hp.
    + rewrite lookup_insert_ne by done. intros Hm Hf. pose proof (inv_phase _ I _ _ Hm Hf) as P.
      assert (db !! job d' = ledger s !! job d' \/ quiet (at_phase d') = true) as [E|Q].
      { destruct (decide (job d' = job d)) as [Ej|Ej]; [|left; by apply Hother]. rewrite Ej in *.
        destruct (Hquiet Hf) as [E|Q]; [by left|right; by eapply Q]. }
      * unfold phase_ok, incomplete, complete in *. by rewrite E.
      * by apply quiet_ok.
  - intros j r Hf Hc. destruct (decide (j = job d)) as [->|Hne]; [auto|].
    apply (inv_done _ I _ _ Hf). unfold complete in *. by rewrite Hother in Hc.
Qed.

(** The table is unchanged. *)
Lemma inv_move s n d p :
  inv s -> deliveries s !! n = Some d -> (job d ∉ forgotten s -> phase_ok (ledger s) (started s) (returned s) (job d) n p) ->
  p <> running -> (early p = true -> early (at_phase d) = true) -> inv (put n (claim_of d) p (ledger s) s).
Proof. intros I Hn Hp Hr He. apply inv_put; try done; [by left|]. intros r Hf. by apply (inv_done _ I). Qed.

Lemma early_fresh s n d j : inv s -> deliveries s !! n = Some d -> early (at_phase d) = true -> (j, n) ∉ started s.
Proof. intros I Hn He (d' & Hn' & _ & He')%(inv_known _ I). congruence. Qed.

Lemma insertClaim_other input now db j : j <> ClaimInput.jobId input -> (insertClaim (V := V) input now db).1 !! j = db !! j.
Proof. intros Hj. unfold insertClaim. destruct (db !! ClaimInput.jobId input); simpl; [done|]. by rewrite lookup_insert_ne. Qed.

(** What an insert leaves in the row of its job. *)
Lemma insertClaim_row input now db :
  match db !! ClaimInput.jobId input with
  | Some row => insertClaim (V := V) input now db = (db, false)
  | None => exists db', insertClaim (V := V) input now db = (db', true) /\ incomplete db' (ClaimInput.jobId input)
  end.
Proof.
  unfold insertClaim, incomplete. destruct (db !! ClaimInput.jobId input) eqn:E; [done|].
  eexists. split; [done|]. rewrite lookup_insert_eq. by eexists.
Qed.

Lemma incomplete_complete db j r : incomplete db j -> complete db j r -> False.
Proof. intros (row & E & C) (row' & t & E' & C' & _). congruence. Qed.

Lemma inv_claim s n d now :
  inv s -> deliveries s !! n = Some d -> at_phase d = inserting ->
  exists s', answer n now s = Some s' /\ inv s'.
Proof.
  intros I Hn Hp. unfold answer. rewrite Hn. cbn [mbind option_bind]. rewrite Hp.
  pose proof (insertClaim_row (claim_of d) now (ledger s)) as R. fold (job d) in R.
  pose proof (fun j => insertClaim_other (claim_of d) now (ledger s) j) as O. fold (job d) in O.
  destruct (ledger s !! job d) as [row|] eqn:E.
  { rewrite R. eexists. split; [done|]. apply inv_move; [done..|by rewrite Hp]. }
  destruct R as (db & R & Hi). rewrite R in *. simpl in O. eexists. split; [done|]. fold (job d) in *.
  pose proof (fun j => early_fresh s n d j I Hn ltac:(by rewrite Hp)) as Hfresh.
  assert (forall j m, (j, m) ∈ (job d, n) :: started s -> (j, m) = (job d, n) \/ (j, m) ∈ started s) as Hin by (intros j m; by rewrite elem_of_cons).
  split; simpl.
  - intros j m [[= -> ->]|(d' & Hm & Ej & Ee)%(inv_known _ I)]%Hin.
    + rewrite lookup_insert_eq. by eexists.
    + rewrite lookup_insert_ne; [by eauto|]. intros <-. rewrite Hn in Hm. injection Hm as <-. by rewrite Hp in Ee.
  - apply NoDup_cons. split; [done|apply I].
  - intros j m [[= -> ->]|Hst]%Hin Hf; [destruct Hi as (row & -> & _); done|].
    pose proof (inv_row _ I _ _ Hst Hf) as S. rewrite O; [done|]. intros ->. rewrite E in S. by destruct S.
  - assert (forall m, (job d, m) ∈ started s -> job d ∉ forgotten s -> False) as Hno
      by (intros m Hst Hf; destruct (inv_row _ I _ _ Hst Hf); congruence).
    intros j m m' H1%Hin H2%Hin Hf. destruct H1 as [E1|H1], H2 as [E2|H2]; simplify_eq; [done| | |by apply (inv_once _ I j)].
    + by destruct (Hno _ H2 Hf).
    + by destruct (Hno _ H1 Hf).
  - intros j m v Hr. right. by apply (inv_started _ I _ _ v).
  - apply (inv_value _ I).
  - intros m d'. destruct (decide (m = n)) as [->|Hne].
    + rewrite lookup_insert_eq. intros [= <-] _. split; [left|]. intros v Hr. by apply (Hfresh (job d)), (inv_started _ I _ _ v).
    + rewrite lookup_insert_ne by done. intros Hm Hp'. destruct (inv_running _ I _ _ Hm Hp'). split; [by right|done].
  - intros m d'. destruct (decide (m = n)) as [->|Hne].
    + rewrite lookup_insert_eq. intros [= <-] Hf. simpl. split; [left|]. split; [done|].
      intros v Hr. by apply (Hfresh (job d)), (inv_started _ I _ _ v).
    + rewrite lookup_insert_ne by done. intros Hm Hf. destruct (decide (job d' = job d)) as [Ej|Ej].
      * apply quiet_ok, (absent_quiet s m); [done..|by rewrite Ej].
      * pose proof (inv_phase _ I _ _ Hm Hf) as P. unfold phase_ok, incomplete, complete in *. rewrite O by done.
        destruct (at_phase d') as [| | |?|?|?|[?| |?| |]|]; rewrite ?elem_of_cons; tauto.
  - intros j r Hf Hc. destruct (decide (j = job d)) as [->|Hne]; [by destruct (incomplete_complete _ _ _ Hi Hc)|].
    apply (inv_done _ I _ _ Hf). unfold complete in *. by rewrite O in Hc.
Qed.

Lemma inv_deliver s n input : inv s -> deliveries s !! n = None -> inv (put n input inserting (ledger s) s).
Proof.
  intros I Hn. split; simpl; try by apply I.
  - intros j m (d & Hm & H)%(inv_known _ I). exists d. rewrite lookup_insert_ne; [done|]. congruence.
  - intros m d. destruct (decide (m = n)) as [->|Hne].
    + rewrite lookup_insert_eq. by intros [= <-].
    + rewrite lookup_insert_ne by done. apply (inv_running _ I).
  - intros m d. destruct (decide (m = n)) as [->|Hne].
    + rewrite lookup_insert_eq. by intros [= <-].
    + rewrite lookup_insert_ne by done. apply (inv_phase _ I).
Qed.

Lemma inv_alerts s a : inv s -> inv (State (ledger s) (deliveries s) a (started s) (returned s) (forgotten s)).
Proof. intros [? ? ? ? ? ? ? ? ?]. by split. Qed.

(** A row whose body is under way is completed, or its failure recorded. *)
Lemma complete_row j v out now db : incomplete db j -> complete (completeJobExecution j v out now db) j (value <$> v).
Proof. intros (row & E & _). unfold completeJobExecution, complete. rewrite lookup_alter_eq, E. by eexists _, now. Qed.

Lemma fail_row j e now db : incomplete db j -> incomplete (failJobExecution j e now db) j.
Proof. intros (row & E & C). unfold failJobExecution, incomplete. rewrite lookup_alter_eq, E. by eexists. Qed.

Lemma complete_unique db j r r' : complete db j r -> complete db j r' -> r = r'.
Proof. intros (row & t & E & _ & R) (row' & t' & E' & _ & R'). congruence. Qed.

Lemma inv_complete s n d v out now p :
  inv s -> deliveries s !! n = Some d -> at_phase d = completing v ->
  p = settled (Returned (value <$> v)) \/ p = settled DbError ->
  inv (put n (claim_of d) p (completeJobExecution (job d) v out now (ledger s)) s).
Proof.
  intros I Hn Hp Ep. assert (job d ∉ forgotten s -> phase_ok (ledger s) (started s) (returned s) (job d) n (completing v)) as P
    by (intros Hf; rewrite <- Hp; by apply (inv_phase _ I)).
  apply inv_put; try done.
  - intros j Hj. unfold completeJobExecution. by rewrite lookup_alter_ne.
  - intros [row E]. unfold completeJobExecution. rewrite lookup_alter_eq, E. by eexists.
  - intros Hf. right. destruct (P Hf) as (Hst & Hi & _). intros m d'. by apply (others_quiet s n d).
  - intros r Hf Hc. destruct (P Hf) as (_ & Hi & Hr). exists n, v. split; [done|].
    by apply (complete_unique _ _ _ _ Hc), complete_row.
  - intros Hf. destruct Ep as [->| ->]; [|done]. apply complete_row, (P Hf).
  - by destruct Ep as [->| ->].
  - by destruct Ep as [->| ->].
Qed.

Lemma inv_fail s n d e now p :
  inv s -> deliveries s !! n = Some d -> at_phase d = recording e -> quiet p = true -> early p = false ->
  inv (put n (claim_of d) p (failJobExecution (job d) e now (ledger s)) s).
Proof.
  intros I Hn Hp Hq He. assert (job d ∉ forgotten s -> phase_ok (ledger s) (started s) (returned s) (job d) n (recording e)) as P
    by (intros Hf; rewrite <- Hp; by apply (inv_phase _ I)).
  apply inv_put; try done.
  - intros j Hj. unfold failJobExecution. by rewrite lookup_alter_ne.
  - intros [row E]. unfold failJobExecution. rewrite lookup_alter_eq, E. by eexists.
  - intros Hf. right. destruct (P Hf) as (Hst & Hi). intros m d'. by apply (others_quiet s n d).
  - intros r Hf Hc. destruct (P Hf) as (_ & Hi). by destruct (incomplete_complete _ _ _ (fail_row _ e now _ Hi) Hc).
  - intros _. by apply quiet_ok.
  - by intros ->.
  - congruence.
Qed.

Lemma read_complete j db r out : readClaim j db = Some (already_completed r out) -> complete db j r.
Proof.
  unfold readClaim, complete. destruct (db !! j) as [row|]; [|done]. simpl.
  destruct (JobExecutionRow.completedAt row) as [t|] eqn:E; [|done]. intros [= <- <-]. by eexists _, _.
Qed.

Lemma inv_answer s n now s' : inv s -> answer n now s = Some s' -> inv s'.
Proof.
  intros I. destruct (deliveries s !! n) as [d|] eqn:Hn; [|unfold answer; by rewrite Hn].
  destruct (at_phase d) as [| | |v|e|e|o|] eqn:Hp.
  - destruct (inv_claim s n d now I Hn Hp) as (s1 & -> & I'). by intros [= <-].
  - unfold answer. rewrite Hn. cbn [mbind option_bind]. rewrite Hp. intros [= <-]. apply inv_move; try done.
    intros _. fold (job d). destruct (readClaim (job d) (ledger s)) as [[| |]|] eqn:E; simpl; try done. by eapply read_complete.
  - unfold answer. rewrite Hn. cbn [mbind option_bind]. by rewrite Hp.
  - unfold answer. rewrite Hn. cbn [mbind option_bind]. rewrite Hp. intros [= <-]. apply (inv_complete s n d v); auto.
  - unfold answer. rewrite Hn. cbn [mbind option_bind]. rewrite Hp. intros [= <-]. by apply (inv_fail s n d e).
  - unfold answer. rewrite Hn. cbn [mbind option_bind]. rewrite Hp. intros [= <-].
    apply (inv_alerts (put n (claim_of d) (settled (Threw e)) (ledger s) s)). by apply inv_move.
  - unfold answer. rewrite Hn. cbn [mbind option_bind]. by rewrite Hp.
  - unfold answer. rewrite Hn. cbn [mbind option_bind]. by rewrite Hp.
Qed.

(** An insert whose answer is lost: the job is claimed and nobody runs it. *)
Lemma inv_lost_claim s n d now :
  inv s -> deliveries s !! n = Some d -> at_phase d = inserting ->
  inv (put n (claim_of d) (settled DbError) (insertClaim (claim_of d) now (ledger s)).1 s).
Proof.
  intros I Hn Hp. pose proof (insertClaim_row (claim_of d) now (ledger s)) as R. fold (job d) in R.
  destruct (ledger s !! job d) as [row|] eqn:E; [rewrite R; by apply inv_move|]. destruct R as (db & R & Hi).
  apply inv_put; try done.
  - intros j Hj. by apply insertClaim_other.
  - rewrite E. by intros [? [=]].
  - intros Hf. right. intros m d' _ Hm Ej. apply (absent_quiet s m); [done..| |]; by rewrite Ej.
  - intros r _ Hc. rewrite R in Hc. by destruct (incomplete_complete _ _ _ Hi Hc).
Qed.

Lemma inv_lose s n applied now s' : inv s -> lose n applied now s = Some s' -> inv s'.
Proof.
  intros I. unfold lose. destruct (deliveries s !! n) as [d|] eqn:Hn; [|done]. cbn [mbind option_bind].
  destruct (at_phase d) as [| | |v|e|e|o|] eqn:Hp; try done; intros [= <-]; try by apply inv_move.
  - destruct applied; [by apply inv_lost_claim|by apply inv_move].
  - destruct applied; [apply (inv_complete s n d v); auto|by apply inv_move].
  - destruct applied; [by apply (inv_fail s n d e)|by apply inv_move].
Qed.

Lemma inv_returns s n d v :
  inv s -> deliveries s !! n = Some d -> at_phase d = running ->
  inv (State (ledger s) (<[n := Delivery (claim_of d) (completing v)]> (deliveries s)) (alerts s) (started s)
         ((job d, n, v) :: returned s) (forgotten s)).
Proof.
  intros I Hn Hp. destruct (inv_running _ I _ _ Hn Hp) as [Hst Hnone].
  assert (forall j m w, (j, m, w) ∈ (job d, n, v) :: returned s -> (j, m, w) = (job d, n, v) \/ (j, m, w) ∈ returned s) as Hin
    by (intros j m w; by rewrite elem_of_cons).
  assert (forall m d', m <> n -> deliveries s !! m = Some d' -> forall w, (job d', m, w) ∉ returned s ->
    (job d', m, w) ∉ (job d, n, v) :: returned s) as Hnot by (intros m d' Hne Hm w Hr [E|?]%Hin; congruence).
  split; simpl; try by apply I.
  - intros j m (d' & Hm & Ej & Ee)%(inv_known _ I). destruct (decide (m = n)) as [->|Hne].
    + rewrite lookup_insert_eq. eexists. split; [done|]. split; [|done]. rewrite Hn in Hm. by injection Hm as <-.
    + rewrite lookup_insert_ne by done. eauto.
  - intros j m w [E|Hr]%Hin; [by injection E as -> -> ->|by apply (inv_started _ I _ _ w)].
  - intros j m w w' H1%Hin H2%Hin. destruct H1 as [E1|H1], H2 as [E2|H2]; simplify_eq; [done| | |by apply (inv_value _ I j m)].
    + by destruct (Hnone _ H2).
    + by destruct (Hnone _ H1).
  - intros m d'. destruct (decide (m = n)) as [->|Hne].
    + rewrite lookup_insert_eq. by intros [= <-].
    + rewrite lookup_insert_ne by done. intros Hm Hp'. destruct (inv_running _ I _ _ Hm Hp'). split; [done|]. eauto.
  - intros m d'. destruct (decide (m = n)) as [->|Hne].
    + rewrite lookup_insert_eq. intros [= <-] Hf. pose proof (inv_phase _ I _ _ Hn Hf) as P. rewrite Hp in P. simpl in *.
      split; [done|]. split; [apply P|left].
    + rewrite lookup_insert_ne by done. intros Hm Hf. pose proof (inv_phase _ I _ _ Hm Hf) as P.
      destruct (at_phase d') as [| | |?|?|?|[?| |?| |]|] eqn:Ep; simpl in *; try done.
      * destruct P as (H1 & H2 & H3). split; [done|]. split; [done|]. intros w. by apply Hnot, H3.
      * destruct P as (H1 & H2 & H3). split; [done|]. split; [done|]. by right.
  - intros j r Hf Hc. destruct (inv_done _ I _ _ Hf Hc) as (m & w & Hr & ->). exists m, w. split; [by right|done].
Qed.

Lemma inv_delete s org s' : inv s -> step (DeleteOrg org) s = Some s' -> inv s'.
Proof.
  intros I [= <-]. set (gone := map fst (List.filter (fun kv : string * JobExecutionRow.t V => of_org org kv.2) (map_to_list (ledger s)))).
  set (db := filter _ (ledger s)).
  assert (forall j, j ∉ gone -> db !! j = ledger s !! j) as Hdb.
  { intros j Hj. unfold db. rewrite map_lookup_filter. destruct (ledger s !! j) as [row|] eqn:E; [|done]. simpl.
    rewrite option_guard_True; [done|]. destruct (of_org org row) eqn:Eo; [|done]. destruct Hj. unfold gone.
    apply list_elem_of_fmap. exists (j, row). split; [done|]. apply elem_filter. split; [|done]. by apply elem_of_map_to_list. }
  assert (forall j, j ∉ gone ++ forgotten s -> db !! j = ledger s !! j /\ j ∉ forgotten s) as H
    by (intros j [? ?]%not_elem_of_app; auto).
  split; simpl; try by apply I.
  - intros j n Hst [-> Hf]%H. by apply (inv_row _ I _ n).
  - intros j n m H1 H2 [_ Hf]%H. by apply (inv_once _ I j).
  - intros n d Hn [E Hf]%H. pose proof (inv_phase _ I _ _ Hn Hf) as P. unfold phase_ok, incomplete, complete in *. by rewrite E.
  - intros j r [E Hf]%H Hc. apply (inv_done _ I _ _ Hf). unfold complete in *. by rewrite E in Hc.
Qed.

Lemma guard_step s e s' : inv s -> step e s = Some s' -> inv s'.
Proof.
  intros I. destruct e as [n input|n now|n applied now|n v|n e|n|org]; [| | | | | |by apply inv_delete]; simpl.
  - destruct (deliveries s !! n) eqn:Hn; [done|]. intros [= <-]. by apply inv_deliver.
  - by apply inv_answer.
  - by apply inv_lose.
  - destruct (deliveries s !! n) as [d|] eqn:Hn; [|done]. cbn [mbind option_bind]. destruct (at_phase d) eqn:Hp; try done.
    intros [= <-]. by apply inv_returns.
  - destruct (deliveries s !! n) as [d|] eqn:Hn; [|done]. cbn [mbind option_bind]. destruct (at_phase d) eqn:Hp; try done.
    intros [= <-]. apply inv_move; try done. intros Hf. pose proof (inv_phase _ I _ _ Hn Hf) as P. rewrite Hp in P.
    simpl in *. tauto.
  - destruct (deliveries s !! n) as [d|] eqn:Hn; [|done]. cbn [mbind option_bind]. intros [= <-]. by apply inv_move.
Qed.

Lemma guard_run es s s' : inv s -> run es s = Some s' -> inv s'.
Proof.
  revert s. induction es as [|e es IH]; intros s I; simpl; [by intros [= <-]|].
  destruct (step e s) as [s1|] eqn:E; [|done]. apply IH. by apply (guard_step s e).
Qed.

(** C28. However deliveries, lost statements and lost workers interleave, the body
    of a job is started by one delivery at most, and once, unless its rows were
    deleted with its organization; and while it runs the job's row stays
    incomplete, so that every other delivery is refused. *)
Theorem body_starts_once es s j :
  run es (init ∅) = Some s -> j ∉ forgotten s ->
  (length (List.filter (fun jn => bool_decide (jn.1 = j)) (started s)) <= 1)%nat /\
  forall n d, deliveries s !! n = Some d -> job d = j -> at_phase d = running ->
    forall now, (claimJobExecution (claim_of d) now (ledger s)).2 = Some refuse_incomplete.
Proof.
  intros Hrun Hf. pose proof (guard_run _ _ _ guard_init Hrun) as I. split.
  - pose proof (inv_nodup _ I) as Hnd. destruct (List.filter _ _) as [|x [|y l]] eqn:E; simpl; try lia. exfalso.
    assert (forall jn, jn ∈ x :: y :: l -> jn ∈ started s /\ jn.1 = j) as Hin.
    { intros jn. rewrite <- E. intros [H H']%elem_filter. apply bool_decide_eq_true in H'. tauto. }
    destruct x as [jx n], y as [jy m]. destruct (Hin (jx, n)) as [H1 E1]; [left|]. destruct (Hin (jy, m)) as [H2 E2]; [right; left|].
    simpl in *. subst. pose proof (inv_once _ I _ _ _ H1 H2 Hf) as ->.
    assert (NoDup ((j, m) :: (j, m) :: l)) as Hd%NoDup_cons by (rewrite <- E; by apply NoDup_ListNoDup, List.NoDup_filter, NoDup_ListNoDup).
    destruct Hd as [[] _]. left.
  - intros n d Hn <- Hp. pose proof (inv_phase _ I _ _ Hn Hf) as P. rewrite Hp in P. destruct P as (_ & (row & E & C) & _).
    intros now. unfold claimJobExecution, insertClaim, readClaim. fold (job d). rewrite E. cbn [fst snd]. rewrite E. simpl. by rewrite C.
Qed.

(** Deliveries of one job that return a result return the same one, which is
    the one its only body returned: a redelivery replays it and runs nothing. *)
Theorem deliveries_agree es s n m d d' r r' :
  run es (init ∅) = Some s -> deliveries s !! n = Some d -> deliveries s !! m = Some d' -> job d = job d' -> job d ∉ forgotten s ->
  at_phase d = settled (Returned r) -> at_phase d' = settled (Returned r') ->
  r = r' /\ exists k v, (job d, k) ∈ started s /\ (job d, k, v) ∈ returned s /\ r = value <$> v.
Proof.
  intros Hrun Hn Hm Ej Hf Hp Hp'. pose proof (guard_run _ _ _ guard_init Hrun) as I.
  pose proof (inv_phase _ I _ _ Hn Hf) as P. rewrite Hp in P. pose proof (inv_phase _ I _ _ Hm ltac:(by rewrite <- Ej)) as P'.
  rewrite Hp', <- Ej in P'. split; [by apply (complete_unique (ledger s) (job d))|].
  destruct (inv_done _ I _ _ Hf P) as (k & v & Hr & ->). exists k, v. split; [by apply (inv_started _ I _ _ v)|done].
Qed.

End Spec.

(** ** Failures and their alert *)

Definition probe (job : string) : ClaimInput.t := ClaimInput.mk job "learning:probe" None 1.
Definition boom : JobError.t := JobError.mk "Error" "boom" None.

(** The statements of a delivery that fails, up to the record of its failure,
    and the count that follows. *)
Definition fails (n : nat) (job : string) : list (event unit) := [Deliver n (probe job); Answer n 1000; BodyThrows n boom; Answer n 2000].
Definition counts (n : nat) : event unit := Answer n 3000.

(** One after the other, the third of four failures is alerted, and only it;
    when the third and the fourth are both recorded before either is counted,
    both count four and nobody is told. *)
Theorem concurrent_failures_unalerted :
  (exists s, run (fails 1 "a" ++ [counts 1] ++ fails 2 "b" ++ [counts 2] ++ fails 3 "c" ++ [counts 3] ++ fails 4 "d" ++ [counts 4]) (init ∅) = Some s /\
    map AlertEvent.lastJobId (alerts s) = ["c"%string]) /\
  exists s, run (fails 1 "a" ++ [counts 1] ++ fails 2 "b" ++ [counts 2] ++ fails 3 "c" ++ fails 4 "d" ++ [counts 3; counts 4]) (init ∅) = Some s /\
    alerts s = [] /\ countRecentJobFailures "learning:probe" None 0 (ledger s) = 4%nat.
Proof.
  split; (eexists; split; [vm_compute; reflexivity|]); [vm_compute; reflexivity|]. split; [reflexivity|vm_compute; reflexivity].
Qed.

(** ** The guard and the in-process queue *)

(** The deliveries of a new process: one handler, one job. *)
Definition first_delivery (kind : string) : list Queue.JobDelivery.t :=
  match Queue.enqueue kind JNull (Queue.registerHandler kind Queue.createMemoryQueue).1 with
  | inl _ => []
  | inr (_, ds) => ds
  end.

Definition delivered (kind : string) (d : Queue.JobDelivery.t) : ClaimInput.t :=
  ClaimInput.mk (Queue.JobDelivery.jobId d) kind None (Queue.JobDelivery.attempt d).

(** The in-process queue counts its jobs from one in every process, and the
    table of claims outlives the process: the first guarded job after a restart
    is taken for the first one before it, whatever its kind, and is answered
    with that job's result without running. *)
Theorem restarted_queue_replays :
  exists before after, first_delivery "guarantee:suite-verify" = [before] /\ first_delivery "learning:probe" = [after] /\
  exists s, run [Deliver 1 (delivered "guarantee:suite-verify" before); Answer 1 1000; BodyReturns 1 (Some "verdict"%string); Answer 1 2000;
                 Deliver 2 (delivered "learning:probe" after); Answer 2 3000; Answer 2 4000] (init ∅) = Some s /\
    started s = [("mem-1"%string, 1%nat)] /\
    at_phase <$> deliveries s !! 2%nat = Some (settled (Returned (Some (value "verdict"%string)))).
Proof.
  eexists _, _. split; [vm_compute; reflexivity|]. split; [vm_compute; reflexivity|].
  eexists. split; [vm_compute; reflexivity|]. split; vm_compute; reflexivity.
Qed.

(** ** Concrete inputs *)

Definition verify : ClaimInput.t := ClaimInput.mk "7" "guarantee:suite-verify" (Some "org1"%string) 1.
Definition again : ClaimInput.t := ClaimInput.mk "7" "guarantee:suite-verify" (Some "org1"%string) 2.

(** A redelivery while the body runs, and one after it. *)
Definition redelivered : list (event nat) :=
  [Deliver 1 verify; Answer 1 10; Deliver 2 again; Answer 2 20; Answer 2 21; BodyReturns 1 (Some 5%nat); Answer 1 30;
   Deliver 3 again; Answer 3 40; Answer 3 41].

Definition final (es : list (event nat)) : state nat := default (init ∅) (run es (init ∅)).

Lemma body_starts_once_witness :
  run redelivered (init ∅) = Some (final redelivered) /\
  (length (List.filter (fun jn => bool_decide (jn.1 = "7"%string)) (started (final redelivered))) <= 1)%nat /\
  at_phase <$> deliveries (final redelivered) !! 2%nat = Some (settled Refused).
Proof.
  assert (run redelivered (init ∅) = Some (final redelivered)) as E by (vm_compute; reflexivity).
  split; [exact E|]. split; [|vm_compute; reflexivity].
  refine (proj1 (body_starts_once redelivered (final redelivered) "7" E _)). apply not_elem_of_nil.
Defined.

Lemma deliveries_agree_witness :
  run redelivered (init ∅) = Some (final redelivered) /\
  exists k v, ("7"%string, k) ∈ started (final redelivered) /\ Some (value 5%nat) = value <$> (v : option nat).
Proof.
  assert (run redelivered (init ∅) = Some (final redelivered)) as E by (vm_compute; reflexivity).
  split; [exact E|].
  destruct (deliveries_agree redelivered (final redelivered) 1 3 (Delivery verify (settled (Returned (Some (value 5%nat)))))
    (Delivery again (settled (Returned (Some (value 5%nat))))) (Some (value 5%nat)) (Some (value 5%nat)) E)
    as (_ & k & v & H1 & _ & H3).
  - vm_compute. reflexivity.
  - vm_compute. reflexivity.
  - reflexivity.
  - apply not_elem_of_nil.
  - reflexivity.
  - reflexivity.
  - exists k, v. split; [exact H1|exact H3].
Defined.

End JobGuardSpec.
