(* ===== verification/DemandMerge.v ===== *)
(** * Published demand: db/src/repos/demand.ts and the flush of apps/server/src/demand.ts

    Deltas drained from the accumulators of several processes meet in three
    tables: private sums, private contributors, and the cells everybody reads,
    which only a cell with enough organizations and requests enters.  A merge
    awaits each of its statements, so the statements of concurrent merges
    interleave; one event is one answered, failed or lost statement.  Deleting
    an organization (db/src/repos/org-delete.ts) removes its contributions. *)

From S2P Require Import Prelude Number Demand Shape.

Module DemandMerge.
Import Num Demand.

(** ** Rows *)

Module StagingRow.
Record t := mk {
  cellKey : string;
  bucket : string;
  bucketKind : Shape.BucketKind;
  shapeClass : string;
  weekStart : string;
  requests : nat;
  confidenceSum : number;
  confidenceCount : nat;
  confidenceMin : option number;
  centroidSum : option (list number);
  centroidCount : nat;
  updatedAt : Z;
}.
End StagingRow.

Module DemandCellRow.
Record t := mk {
  cellKey : string;
  bucket : string;
  bucketKind : Shape.BucketKind;
  shapeClass : string;
  weekStart : string;
  requests : nat;
  orgCount : nat;
  confidenceMean : option number;
  confidenceMin : option number;
  confidenceCount : nat;
  centroid : option (list number);
  publishedAt : Z;
}.
End DemandCellRow.

(** [demandCellContributors] is a set of pairs: both columns are its key. *)
Record Tables := MkTables {
  staging : gmap string StagingRow.t;
  contributors : gset (string * string);
  cells : gmap string DemandCellRow.t;
}.

Definition no_demand : Tables := MkTables ∅ ∅ ∅.

Module MergeOptions.
Record t := mk { minOrgs : option nat; minRequests : option nat }.
End MergeOptions.

Module MergeReport.
Record t := mk { merged : nat; published : nat; withheld : nat }.
End MergeReport.

Definition CENTROID_DIMS : nat := 384.

(** ** The statements *)

Definition minDefined (a b : option number) : option number :=
  match a, b with
  | None, b => b
  | a, None => a
  | Some a, Some b => Some (min a b)
  end.

Definition addSums (a b : option (list number)) : option (list number) :=
  match a, b with
  | None, b => b
  | a, None => a
  | Some a, Some b => Some (if negb (length a =? length b)%nat then a else zip_with add a b)
  end.

(** The row written for a delta, given what the select found. *)
Definition merged_row (existing : option StagingRow.t) (delta : DemandDelta.t) (now : Z) : StagingRow.t :=
  StagingRow.mk (DemandDelta.cellKey delta) (DemandDelta.bucket delta) (DemandDelta.bucketKind delta)
    (DemandDelta.shapeClass delta) (DemandDelta.weekStart delta)
    (default 0 (StagingRow.requests <$> existing) + DemandDelta.requests delta)%nat
    (add (default zero (StagingRow.confidenceSum <$> existing)) (DemandDelta.confidenceSum delta))
    (default 0 (StagingRow.confidenceCount <$> existing) + DemandDelta.confidenceCount delta)%nat
    (minDefined (existing ≫= StagingRow.confidenceMin) (DemandDelta.confidenceMin delta))
    (addSums (existing ≫= StagingRow.centroidSum) (DemandDelta.centroidSum delta))
    (default 0 (StagingRow.centroidCount <$> existing) + DemandDelta.centroidCount delta)%nat
    now.

Definition upsertStaging (row : StagingRow.t) (db : Tables) : Tables :=
  MkTables (<[StagingRow.cellKey row := row]> (staging db)) (contributors db) (cells db).

Definition insertContributors (delta : DemandDelta.t) (db : Tables) : Tables :=
  MkTables (staging db) (list_to_set (map (fun org => (DemandDelta.cellKey delta, org)) (DemandDelta.orgIds delta)) ∪ contributors db)
    (cells db).

Definition contributorsOf (key : string) (db : Tables) : list string :=
  map snd (List.filter (fun c => bool_decide (c.1 = key)) (elements (contributors db))).

Definition contributorCount (key : string) (db : Tables) : nat := length (contributorsOf key db).

Definition publishable (opts : MergeOptions.t) (orgCount requests : nat) : bool :=
  isPublishable orgCount requests (default DEFAULT_MIN_ORGS (MergeOptions.minOrgs opts))
    (default DEFAULT_MIN_REQUESTS (MergeOptions.minRequests opts)).

Definition published_row (row : StagingRow.t) (orgCount : nat) (now : Z) : DemandCellRow.t :=
  DemandCellRow.mk (StagingRow.cellKey row) (StagingRow.bucket row) (StagingRow.bucketKind row) (StagingRow.shapeClass row)
    (StagingRow.weekStart row) (StagingRow.requests row) orgCount
    (if (StagingRow.confidenceCount row =? 0)%nat then None
     else Some (div (StagingRow.confidenceSum row) (of_Z (Z.of_nat (StagingRow.confidenceCount row)))))
    (StagingRow.confidenceMin row) (StagingRow.confidenceCount row)
    (c ← normalizeCentroid (StagingRow.centroidSum row); if (length c =? CENTROID_DIMS)%nat then Some c else None)
    now.

Definition publish (row : StagingRow.t) (orgCount : nat) (now : Z) (db : Tables) : Tables :=
  MkTables (staging db) (contributors db) (<[StagingRow.cellKey row := published_row row orgCount now]> (cells db)).

Definition deleteOrg (org : string) (db : Tables) : Tables :=
  MkTables (staging db) (filter (fun c => c.2 <> org) (contributors db)) (cells db).

(** ** A merge *)

(** The statement sent for the first of the remaining deltas. *)
Inductive phase :=
| selecting
| upserting (row : StagingRow.t)
| contributing (row : StagingRow.t)
| counting (row : StagingRow.t)
| publishing (row : StagingRow.t) (orgCount : nat).

Record merge := Merge { todo : list DemandDelta.t; at_phase : phase; report : MergeReport.t }.

Definition bump (m p w : nat) (r : MergeReport.t) : MergeReport.t :=
  MergeReport.mk (MergeReport.merged r + m) (MergeReport.published r + p) (MergeReport.withheld r + w).

(** One statement of a merge whose first remaining delta is [delta]. *)
Definition answer (opts : MergeOptions.t) (delta : DemandDelta.t) (m : merge) (now : Z) (db : Tables) : Tables * merge :=
  let rest := drop 1 (todo m) in
  match at_phase m with
  | selecting => (db, Merge (todo m) (upserting (merged_row (staging db !! DemandDelta.cellKey delta) delta now)) (report m))
  | upserting row =>
      (upsertStaging row db,
       match DemandDelta.orgIds delta with
       | [] => Merge (todo m) (counting row) (bump 1 0 0 (report m))
       | _ => Merge (todo m) (contributing row) (report m)
       end)
  | contributing row => (insertContributors delta db, Merge (todo m) (counting row) (bump 1 0 0 (report m)))
  | counting row =>
      let orgCount := contributorCount (DemandDelta.cellKey delta) db in
      (db, if publishable opts orgCount (StagingRow.requests row)
           then Merge (todo m) (publishing row orgCount) (report m)
           else Merge rest selecting (bump 0 0 1 (report m)))
  | publishing row orgCount => (publish row orgCount now db, Merge rest selecting (bump 0 1 0 (report m)))
  end.

(** [mergeDemandDeltas] alone, to its report: at most five statements for each
    delta. *)
Fixpoint merge_loop (fuel : nat) (opts : MergeOptions.t) (now : Z) (m : merge) (db : Tables) : Tables * option MergeReport.t :=
  match todo m with
  | [] => (db, Some (report m))
  | delta :: _ =>
      match fuel with
      | O => (db, None)
      | S fuel => let '(db, m) := answer opts delta m now db in merge_loop fuel opts now m db
      end
  end.

Definition no_report : MergeReport.t := MergeReport.mk 0 0 0.

Definition mergeDemandDeltas (opts : MergeOptions.t) (now : Z) (deltas : list DemandDelta.t) (db : Tables) : Tables * option MergeReport.t :=
  merge_loop (5 * length deltas) opts now (Merge deltas selecting no_report) db.

(** ** Flushes that interleave *)

Module FlushReport.
Record t := mk { merge : MergeReport.t; dropped : nat }.
End FlushReport.

(** What a flush starts with: the window it drained, and how many observations
    the cap turned away. *)
Definition drained (max : nat) (window : list DemandObservation.t) : list DemandDelta.t * nat :=
  let a := observe_all max window in ((drain a).1, dropped a).

(** [given] and [applied] record the deltas handed to merges and those whose
    sums reached the table; [seen] the windows drained. *)
Record state := State {
  tables : Tables;
  merges : gmap nat (merge * nat);
  reports : gmap nat FlushReport.t;
  given : list DemandDelta.t;
  applied : list DemandDelta.t;
}.

Definition init : state := State no_demand ∅ ∅ [] [].

Inductive event :=
| Flush (n max : nat) (window : list DemandObservation.t)
| Answer (n : nat) (now : Z)
| Lose (n : nat) (effective : bool) (now : Z)
| DeleteOrg (org : string).

Definition applying (delta : DemandDelta.t) (m : merge) : list DemandDelta.t :=
  match at_phase m with upserting _ => [delta] | _ => [] end.

Definition step (opts : MergeOptions.t) (e : event) (s : state) : option state :=
  match e with
  | Flush n max window =>
      match merges s !! n, reports s !! n with
      | None, None =>
          let '(deltas, dropped) := drained max window in
          match deltas with
          | [] => Some (State (tables s) (merges s) (<[n := FlushReport.mk no_report dropped]> (reports s)) (given s) (applied s))
          | _ => Some (State (tables s) (<[n := (Merge deltas selecting no_report, dropped)]> (merges s)) (reports s)
                         (deltas ++ given s) (applied s))
          end
      | _, _ => None
      end
  | Answer n now =>
      '(m, dropped) ← merges s !! n;
      match todo m with
      | [] => Some (State (tables s) (delete n (merges s)) (<[n := FlushReport.mk (report m) dropped]> (reports s)) (given s) (applied s))
      | delta :: _ =>
          let '(db, m') := answer opts delta m now (tables s) in
          Some (State db (<[n := (m', dropped)]> (merges s)) (reports s) (given s) (applying delta m ++ applied s))
      end
  | Lose n effective now =>
      '(m, dropped) ← merges s !! n;
      delta ← head (todo m);
      Some (if effective
            then State (answer opts delta m now (tables s)).1 (delete n (merges s)) (reports s) (given s) (applying delta m ++ applied s)
            else State (tables s) (delete n (merges s)) (reports s) (given s) (applied s))
  | DeleteOrg org => Some (State (deleteOrg org (tables s)) (merges s) (reports s) (given s) (applied s))
  end.

Fixpoint run (opts : MergeOptions.t) (es : list event) (s : state) : option state :=
  match es with [] => Some s | e :: es => s ← step opts e s; run opts es s end.

End DemandMerge.
