(* ===== verification/DemandMergeSpec.v ===== *)
(** * What published demand guarantees

    Under every interleaving of flushes a published cell describes at least as
    many organizations and requests as the thresholds ask, all of them really
    observed ([published_cells]); a merge left alone adds up exactly
    ([merge_alone]). *)

From S2P Require Import Prelude Number Shape Demand DemandMerge.

Module DemandMergeSpec.
Import Demand DemandMerge.

Implicit Types (k : string) (d : DemandDelta.t) (ds : list DemandDelta.t).

(** ** Totals *)

Definition requests_of k d : nat := if bool_decide (DemandDelta.cellKey d = k) then DemandDelta.requests d else 0.
Definition total k ds : nat := sum_list_with (requests_of k) ds.

Lemma total_app k ds ds' : total k (ds ++ ds') = (total k ds + total k ds')%nat.
Proof. apply sum_list_with_app. Qed.

Lemma total_cons k d ds : total k (d :: ds) = (requests_of k d + total k ds)%nat.
Proof. done. Qed.

Lemma total_same d ds : total (DemandDelta.cellKey d) (d :: ds) = (DemandDelta.requests d + total (DemandDelta.cellKey d) ds)%nat.
Proof. rewrite total_cons. unfold requests_of. by rewrite bool_decide_eq_true_2. Qed.

Lemma total_submseteq k ds ds' : ds ⊆+ ds' -> (total k ds <= total k ds')%nat.
Proof. unfold total. induction 1; simpl in *; lia. Qed.

#[local] Arguments total : simpl never.
#[local] Arguments drained : simpl never.

(** [n] distinct organizations fed the cell [k]. *)
Definition fed k (n : nat) ds : Prop :=
  exists orgs, NoDup orgs /\ length orgs = n /\
    forall org, org ∈ orgs -> exists d, d ∈ ds /\ DemandDelta.cellKey d = k /\ org ∈ DemandDelta.orgIds d.

Lemma fed_more k n ds ds' : (forall d, d ∈ ds -> d ∈ ds') -> fed k n ds -> fed k n ds'.
Proof. intros H (orgs & Hn & Hl & Ho). exists orgs. split; [done|]. split; [done|]. intros org (d & Hd & He)%Ho. eauto. Qed.

(** ** The invariant *)

(** The deltas of a merge whose sums have not reached the table. *)
Definition pending (m : merge) : list DemandDelta.t :=
  match at_phase m with selecting | upserting _ => todo m | _ => drop 1 (todo m) end.

Definition pendings (ms : gmap nat (merge * nat)) : list DemandDelta.t :=
  concat (map (fun nm => pending nm.2.1) (map_to_list ms)).

Lemma pendings_delete ms n m : ms !! n = Some m -> pendings ms ≡ₚ pending m.1 ++ pendings (delete n ms).
Proof. intros E. unfold pendings. by rewrite <- (map_to_list_delete ms n m E). Qed.

Lemma pendings_insert ms n m : pendings (<[n := m]> ms) ≡ₚ pending m.1 ++ pendings (delete n ms).
Proof.
  unfold pendings. rewrite <- insert_delete_eq. rewrite map_to_list_insert by apply lookup_delete_eq. done.
Qed.

Lemma elem_of_contributorsOf k org db : org ∈ contributorsOf k db <-> (k, org) ∈ contributors db.
Proof.
  unfold contributorsOf. rewrite list_elem_of_fmap. split.
  - intros ([k' o] & -> & [H E%bool_decide_eq_true]%elem_filter). simpl in *. subst. by apply elem_of_elements.
  - intros H. exists (k, org). split; [done|]. apply elem_filter. split; [by apply elem_of_elements|]. by apply bool_decide_eq_true.
Qed.

Lemma contributorsOf_NoDup k db : NoDup (contributorsOf k db).
Proof.
  unfold contributorsOf. apply NoDup_fmap_2_strong.
  - intros [k1 o1] [k2 o2] [_ E1%bool_decide_eq_true]%elem_filter [_ E2%bool_decide_eq_true]%elem_filter. simpl in *. congruence.
  - apply NoDup_ListNoDup, List.NoDup_filter, NoDup_ListNoDup, NoDup_elements.
Qed.

Section Merges.

Context (opts : MergeOptions.t).

(** What a merge knows of the row it carries. *)
Definition row_ok (s : state) d (extra : nat) (row : StagingRow.t) : Prop :=
  StagingRow.cellKey row = DemandDelta.cellKey d /\
  (StagingRow.requests row <= total (DemandDelta.cellKey d) (applied s) + extra)%nat.

Definition merge_ok (s : state) (m : merge) : Prop :=
  match todo m with
  | [] => at_phase m = selecting
  | d :: _ =>
      match at_phase m with
      | selecting => True
      | upserting row => row_ok s d (DemandDelta.requests d) row
      | contributing row | counting row => row_ok s d 0 row
      | publishing row n => row_ok s d 0 row /\ publishable opts n (StagingRow.requests row) = true /\ fed (DemandDelta.cellKey d) n (given s)
      end
  end.

Definition cell_ok (s : state) k (c : DemandCellRow.t) : Prop :=
  publishable opts (DemandCellRow.orgCount c) (DemandCellRow.requests c) = true /\
  (DemandCellRow.requests c <= total k (applied s))%nat /\ fed k (DemandCellRow.orgCount c) (given s).

Record inv (s : state) : Prop := {
  inv_staging k row : staging (tables s) !! k = Some row -> (StagingRow.requests row <= total k (applied s))%nat;
  inv_todo n m : merges s !! n = Some m -> forall d, d ∈ todo m.1 -> d ∈ given s;
  inv_merge n m : merges s !! n = Some m -> merge_ok s m.1;
  inv_contributors k org : (k, org) ∈ contributors (tables s) ->
    exists d, d ∈ given s /\ DemandDelta.cellKey d = k /\ org ∈ DemandDelta.orgIds d;
  inv_cells k c : cells (tables s) !! k = Some c -> cell_ok s k c;
  inv_applied : applied s ++ pendings (merges s) ⊆+ given s;
}.

Lemma merges_init : inv init.
Proof. split; simpl; try set_solver; try (intros ? ?; by rewrite lookup_empty). Qed.

(** Facts survive when more deltas are given and applied. *)
Definition grows (s s' : state) : Prop :=
  (forall k, total k (applied s) <= total k (applied s'))%nat /\ forall d, d ∈ given s -> d ∈ given s'.

Lemma merge_ok_grows s s' m : grows s s' -> merge_ok s m -> merge_ok s' m.
Proof.
  intros [Ha Hg]. unfold merge_ok, row_ok. destruct (todo m) as [|d l]; [done|]. pose proof (Ha (DemandDelta.cellKey d)).
  destruct (at_phase m); try done; try (intros [? ?]; split; [done|lia]).
  intros ([? ?] & ? & ?). split; [split; [done|lia]|]. split; [done|]. by eapply fed_more.
Qed.

Lemma cell_ok_grows s s' k c : grows s s' -> cell_ok s k c -> cell_ok s' k c.
Proof. intros [Ha Hg] (? & ? & ?). pose proof (Ha k). split; [done|]. split; [lia|]. by eapply fed_more. Qed.

Lemma grows_applied s s' d (m : merge) : given s' = given s -> applied s' = applying d m ++ applied s -> grows s s'.
Proof. intros Eg Ea. split; [|by rewrite Eg]. intros k. rewrite Ea, total_app. lia. Qed.

Lemma contributors_fed s k : inv s -> fed k (contributorCount k (tables s)) (given s).
Proof.
  intros I. exists (contributorsOf k (tables s)). split; [apply contributorsOf_NoDup|split; [done|]].
  intros org Hin%elem_of_contributorsOf. by apply (inv_contributors _ I).
Qed.

(** The sums a statement applies leave the pending ones. *)
Lemma answer_pending d rest m now db :
  todo m = d :: rest -> applying d m ++ pending (answer opts d m now db).2 = pending m.
Proof.
  intros Et. unfold applying, pending, answer. rewrite Et.
  destruct (at_phase m); simpl; rewrite ?Et; [done|by destruct (DemandDelta.orgIds d); simpl; rewrite ?Et|done| |done].
  by destruct (publishable _ _ _); simpl; rewrite ?Et.
Qed.

Lemma answer_todo d rest m now db x : todo m = d :: rest -> x ∈ todo (answer opts d m now db).2 -> x ∈ todo m.
Proof.
  intros Et. unfold answer. rewrite Et. destruct (at_phase m); simpl; rewrite ?Et; try done.
  - by destruct (DemandDelta.orgIds d); simpl; rewrite ?Et.
  - destruct (publishable _ _ _); simpl; rewrite ?Et; [done|by right].
  - by right.
Qed.

(** The state in which delivery [n]'s statement took effect. *)
Definition after s db ms rs d m : state := State db ms rs (given s) (applying d m ++ applied s).

Lemma selecting_ok s rest r : merge_ok s (Merge rest selecting r).
Proof. by destruct rest. Qed.

Lemma answer_merge_ok s n m dr d rest now ms rs :
  inv s -> merges s !! n = Some (m, dr) -> todo m = d :: rest ->
  merge_ok (after s (answer opts d m now (tables s)).1 ms rs d m) (answer opts d m now (tables s)).2.
Proof.
  intros I Hn Et. pose proof (inv_merge _ I _ _ Hn) as P. simpl in P. unfold merge_ok in P. rewrite Et in P.
  unfold answer, merge_ok, after, applying. destruct (at_phase m) as [|row|row|row|row oc]; simpl; rewrite ?Et.
  - split; [done|]. simpl. destruct (staging (tables s) !! DemandDelta.cellKey d) as [row|] eqn:E; simpl; [|lia].
    pose proof (inv_staging _ I _ _ E). lia.
  - destruct P as [Ek Er]. destruct (DemandDelta.orgIds d); simpl; rewrite ?Et; (split; [done|]); cbn [applied app]; rewrite total_same; lia.
  - done.
  - destruct (publishable _ _ _) eqn:Ep; simpl; rewrite ?Et; [|by destruct rest].
    split; [done|]. split; [done|]. by apply contributors_fed.
  - by destruct rest.
Qed.

Lemma answer_staging s n m dr d rest now k row :
  inv s -> merges s !! n = Some (m, dr) -> todo m = d :: rest ->
  staging (answer opts d m now (tables s)).1 !! k = Some row -> (StagingRow.requests row <= total k (applying d m ++ applied s))%nat.
Proof.
  intros I Hn Et. pose proof (inv_merge _ I _ _ Hn) as P. simpl in P. unfold merge_ok in P. rewrite Et in P.
  unfold answer, applying. destruct (at_phase m) as [|r|r|r|r oc]; simpl; try by apply (inv_staging _ I).
  destruct P as [Ek Er]. rewrite Ek. intros [[<- <-]|[Hne H]]%lookup_insert_Some.
  - rewrite total_same. lia.
  - pose proof (inv_staging _ I _ _ H). rewrite total_cons. lia.
Qed.

Lemma answer_contributors s m d now k org :
  inv s -> d ∈ given s -> (k, org) ∈ contributors (answer opts d m now (tables s)).1 ->
  exists d', d' ∈ given s /\ DemandDelta.cellKey d' = k /\ org ∈ DemandDelta.orgIds d'.
Proof.
  intros I Hd. unfold answer. destruct (at_phase m) as [|r|r|r|r oc]; simpl; try by apply (inv_contributors _ I).
  rewrite elem_of_union, elem_of_list_to_set. intros [(o & [= -> ->] & Ho)%list_elem_of_fmap|H]; [eauto|by apply (inv_contributors _ I)].
Qed.

Lemma answer_cells s n m dr d rest now ms rs k c :
  inv s -> merges s !! n = Some (m, dr) -> todo m = d :: rest ->
  cells (answer opts d m now (tables s)).1 !! k = Some c -> cell_ok (after s (answer opts d m now (tables s)).1 ms rs d m) k c.
Proof.
  intros I Hn Et H. assert (grows s (after s (answer opts d m now (tables s)).1 ms rs d m)) as G by by apply (grows_applied _ _ d m).
  assert (cells (tables s) !! k = Some c -> cell_ok (after s (answer opts d m now (tables s)).1 ms rs d m) k c) as Hold
    by (intros Hc; eapply cell_ok_grows; [exact G|by apply (inv_cells _ I)]).
  pose proof (inv_merge _ I _ _ Hn) as P. simpl in P. unfold merge_ok in P. rewrite Et in P. revert G H Hold.
  unfold answer. destruct (at_phase m) as [|r|r|r|r oc] eqn:Ep; simpl; intros G H Hold; try by apply Hold.
  destruct P as ([Ek Er] & Hp & Hfed). apply lookup_insert_Some in H as [[<- <-]|[_ H]]; [|by apply Hold].
  rewrite Ek. apply (cell_ok_grows s _ _ _ G). split; [done|]. split; [simpl; lia|done].
Qed.

(** A statement takes effect, whether its answer arrives or not. *)
Lemma inv_effect s n m dr d rest now ms rs :
  inv s -> merges s !! n = Some (m, dr) -> todo m = d :: rest ->
  ms = <[n := ((answer opts d m now (tables s)).2, dr)]> (merges s) \/ ms = delete n (merges s) ->
  inv (after s (answer opts d m now (tables s)).1 ms rs d m).
Proof.
  intros I Hn Et Ems. set (s' := after _ _ _ _ _ _).
  assert (grows s s') as G by by apply (grows_applied _ _ d m).
  assert (d ∈ given s) as Hd by (apply (inv_todo _ I _ _ Hn); simpl; rewrite Et; left).
  assert (forall n' m', ms !! n' = Some m' -> merges s !! n' = Some m' \/ m' = ((answer opts d m now (tables s)).2, dr)) as Hms.
  { intros n' m'. destruct Ems as [->| ->].
    - intros [[<- <-]|[_ ?]]%lookup_insert_Some; auto.
    - intros [_ ?]%lookup_delete_Some; auto. }
  split.
  - intros k row. by apply (answer_staging s n m dr d rest).
  - intros n' m' [H| ->]%Hms x Hx; [by apply (inv_todo _ I _ _ H)|]. apply (inv_todo _ I _ _ Hn). by apply (answer_todo _ _ _ _ _ _ Et) in Hx.
  - intros n' m' [H| ->]%Hms; [eapply merge_ok_grows; [exact G|by apply (inv_merge _ I n')]|]. by apply (answer_merge_ok s n m dr d rest).
  - intros k org Hin. exact (answer_contributors s m d now k org I Hd Hin).
  - intros k c. by apply (answer_cells s n m dr d rest).
  - simpl. transitivity (applied s ++ pendings (merges s)); [|apply I].
    rewrite (pendings_delete _ _ _ Hn). simpl. rewrite <- (answer_pending d rest m now (tables s) Et).
    destruct Ems as [->| ->].
    + rewrite pendings_insert. simpl. apply Permutation_submseteq. solve_Permutation.
    + etransitivity; [apply (submseteq_inserts_l (pending (answer opts d m now (tables s)).2)); reflexivity|].
      apply Permutation_submseteq. solve_Permutation.
Qed.

Lemma inv_flush s n ds dr :
  inv s -> merges s !! n = None ->
  inv (State (tables s) (<[n := (Merge ds selecting no_report, dr)]> (merges s)) (reports s) (ds ++ given s) (applied s)).
Proof.
  intros I Hn. set (s' := State _ _ _ _ _). assert (grows s s') as G by (split; [done|]; intros d Hd; apply elem_of_app; by right).
  split; unfold s'; simpl.
  - apply (inv_staging _ I).
  - intros n' m' [[<- <-]|[_ H]]%lookup_insert_Some d Hd; apply elem_of_app; [by left|right]. by apply (inv_todo _ I _ _ H).
  - intros n' m' [[<- <-]|[_ H]]%lookup_insert_Some; [apply selecting_ok|]. eapply merge_ok_grows; [exact G|]. by apply (inv_merge _ I n').
  - intros k org (d & Hd & H)%(inv_contributors _ I). exists d. split; [apply elem_of_app; by right|done].
  - intros k c Hc. eapply cell_ok_grows; [exact G|]. by apply (inv_cells _ I).
  - simpl. rewrite pendings_insert, delete_id by done. simpl.
    rewrite (Permutation_app_comm ds (pendings _)), app_assoc, (Permutation_app_comm _ ds).
    apply submseteq_app; [done|]. apply (inv_applied _ I).
Qed.

(** A merge that is gone leaves the others as they are. *)
Lemma inv_gone s n rs : inv s -> inv (State (tables s) (delete n (merges s)) rs (given s) (applied s)).
Proof.
  intros I. split; simpl; try by apply I.
  - intros n' m' [_ H]%lookup_delete_Some. by apply (inv_todo _ I n').
  - intros n' m' [_ H]%lookup_delete_Some. by apply (inv_merge _ I n').
  - simpl. destruct (merges s !! n) as [m|] eqn:Hn; [|by rewrite delete_id; [apply I|]].
    etransitivity; [|apply (inv_applied _ I)]. apply submseteq_app; [done|]. rewrite (pendings_delete _ _ _ Hn). by apply submseteq_inserts_l.
Qed.

Lemma merges_step s e s' : inv s -> step opts e s = Some s' -> inv s'.
Proof.
  intros I. destruct e as [n max w|n now|n eff now|org]; cbn [step].
  - destruct (merges s !! n) eqn:Hn; [done|]. destruct (reports s !! n); [done|].
    destruct (drained max w) as [[|d ds] dr]; cbn iota beta; intros [= <-]; [destruct I; by split|by apply inv_flush].
  - destruct (merges s !! n) as [[m dr]|] eqn:Hn; [|done]. cbn [mbind option_bind]. destruct (todo m) as [|d rest] eqn:Et.
    + intros [= <-]. by apply inv_gone.
    + destruct (answer opts d m now (tables s)) as [db m'] eqn:Ea. intros [= <-].
      pose proof (inv_effect s n m dr d rest now _ (reports s) I Hn Et (or_introl eq_refl)) as H. by rewrite Ea in H.
  - destruct (merges s !! n) as [[m dr]|] eqn:Hn; [|done]. cbn [mbind option_bind]. destruct (todo m) as [|d rest] eqn:Et; [done|].
    cbn [head mbind option_bind]. intros [= <-]. destruct eff; [|by apply inv_gone].
    by apply (inv_effect s n m dr d rest now _ _ I Hn Et (or_intror eq_refl)).
  - intros [= <-]. split; try by apply I. simpl. intros k o [_ H]%elem_of_filter. by apply (inv_contributors _ I).
Qed.

Lemma merges_run es s s' : inv s -> run opts es s = Some s' -> inv s'.
Proof.
  revert s. induction es as [|e es IH]; intros s I; simpl; [by intros [= <-]|].
  destruct (step opts e s) as [s1|] eqn:E; [|done]. apply IH. by apply (merges_step s e).
Qed.

(** ** What was observed *)

Definition window_of (e : event) : list DemandObservation.t := match e with Flush _ _ w => w | _ => [] end.
Definition observations (es : list event) : list DemandObservation.t := concat (map window_of es).

Lemma drained_total max w k : (total k (drained max w).1 <= length (of_key k w))%nat.
Proof.
  change (drained max w).1 with (drain (observe_all max w)).1. pose proof (observe_all_window max w) as W. pose proof (fun d => drained_delta max w d) as D.
  assert (NoDup (map DemandDelta.cellKey (drain (observe_all max w)).1)) as Hnd by (unfold drain; simpl; rewrite map_map; apply (win_nodup _ _ _ W)).
  revert D Hnd. generalize ((drain (observe_all max w)).1) as ds. clear W.
  induction ds as [|d ds IH]; intros D Hnd; [apply Nat.le_0_l|]. rewrite total_cons. apply NoDup_cons in Hnd as [Hd Hnd].
  unfold requests_of. destruct (decide (DemandDelta.cellKey d = k)) as [<-|Hne].
  - rewrite bool_decide_eq_true_2 by done. destruct (D d ltac:(left)) as [-> _].
    assert (total (DemandDelta.cellKey d) ds = 0%nat) as ->; [|lia]. clear -Hd. induction ds as [|x ds IH]; [done|].
    rewrite total_cons. unfold requests_of. rewrite bool_decide_eq_false_2; [|intros E; apply Hd; rewrite <- E; left].
    apply IH. intros H. apply Hd. by right.
  - rewrite bool_decide_eq_false_2 by done. apply IH; [|done]. intros x Hx. apply D. by right.
Qed.

Lemma given_observed es s s' :
  run opts es s = Some s' ->
  (forall k, total k (given s') <= total k (given s) + length (of_key k (observations es)))%nat /\
  forall d org, d ∈ given s' -> org ∈ DemandDelta.orgIds d ->
    d ∈ given s \/ exists o, o ∈ observations es /\ key_of o = DemandDelta.cellKey d /\ DemandObservation.orgId o = org.
Proof.
  revert s. induction es as [|e es IH]; intros s; simpl; [intros [= <-]; split; [intros k; lia|by left]|].
  destruct (step opts e s) as [s1|] eqn:E; [|done]. cbn [mbind option_bind]. intros [Ht Ho]%IH.
  unfold observations. cbn [map concat]. fold (observations es).
  assert (given s1 = given s \/ exists max, given s1 = (drained max (window_of e)).1 ++ given s) as [Eg|[max Eg]].
  { destruct e as [n max w|n now|n eff now|org]; cbn [step] in E.
    - destruct (merges s !! n); [done|]. destruct (reports s !! n); [done|]. cbn [window_of].
      destruct (drained max w) as [[|d ds] dr] eqn:Ed; injection E as <-; [by left|]. right. exists max. cbn [given window_of]. by rewrite Ed.
    - destruct (merges s !! n) as [[m dr]|]; [|done]. simpl in E. destruct (todo m); [simplify_eq/=; by left|].
      destruct (answer _ _ _ _ _). simplify_eq/=. by left.
    - destruct (merges s !! n) as [[m dr]|]; [|done]. simpl in E. destruct (todo m); [done|]. simpl in E. destruct eff; simplify_eq/=; by left.
    - simplify_eq/=. by left. }
  - split.
    + intros k. pose proof (Ht k). rewrite Eg in H. unfold of_key in *. rewrite List.filter_app, length_app. lia.
    + intros d org Hd Hin. destruct (Ho d org Hd Hin) as [H|(o & H1 & H2)]; [left; by rewrite <- Eg|right].
      exists o. split; [apply elem_of_app; by right|done].
  - split.
    + intros k. pose proof (Ht k). rewrite Eg, total_app in H. pose proof (drained_total max (window_of e) k).
      unfold of_key in *. rewrite List.filter_app, length_app. lia.
    + intros d org Hd Hin. destruct (Ho d org Hd Hin) as [H|(o & H1 & H2)].
      * rewrite Eg in H. apply elem_of_app in H as [H|H]; [right|by left].
        apply (drained_delta max) in H as (_ & _ & Horg & _). destruct (proj1 (Horg org) Hin) as (o & H1 & H2 & H3).
        exists o. split; [apply elem_of_app; by left|done].
      * right. exists o. split; [apply elem_of_app; by right|done].
Qed.

(** C39. However flushes interleave, and whatever statements are lost, a cell that
    is published counts at least the required number of organizations, each of
    which made a request of that cell, and at least the required number of
    requests, never more than were made. *)
Theorem published_cells es s k c :
  run opts es init = Some s -> cells (tables s) !! k = Some c ->
  (default DEFAULT_MIN_ORGS (MergeOptions.minOrgs opts) <= DemandCellRow.orgCount c)%nat /\
  (default DEFAULT_MIN_REQUESTS (MergeOptions.minRequests opts) <= DemandCellRow.requests c <= length (of_key k (observations es)))%nat /\
  exists orgs, NoDup orgs /\ length orgs = DemandCellRow.orgCount c /\
    forall org, org ∈ orgs -> exists o, o ∈ observations es /\ key_of o = k /\ DemandObservation.orgId o = org.
Proof.
  intros Hrun Hc. pose proof (merges_run _ _ _ merges_init Hrun) as I. destruct (inv_cells _ I _ _ Hc) as (Hp & Hr & orgs & Hn & Hl & Ho).
  destruct (given_observed _ _ _ Hrun) as [Ht Hg]. apply andb_prop in Hp as [H1%Nat.leb_le H2%Nat.leb_le].
  split; [done|]. split.
  - split; [done|]. assert (applied s ⊆+ given s) as Hs%(total_submseteq k)
      by (etransitivity; [|apply (inv_applied _ I)]; by apply submseteq_inserts_r).
    pose proof (Ht k) as H. change (total k (given init)) with 0%nat in H. lia.
  - exists orgs. split; [done|]. split; [done|]. intros org (d & Hd & <- & Hin)%Ho. by destruct (Hg d org Hd Hin) as [?%not_elem_of_nil|?].
Qed.

(** ** A merge left alone *)

Definition requests_at k (db : Tables) : nat := default 0%nat (StagingRow.requests <$> staging db !! k).

(** What the statements of one delta amount to. *)
Definition one_delta (now : Z) (x : Tables * MergeReport.t) d : Tables * MergeReport.t :=
  let row := merged_row (staging x.1 !! DemandDelta.cellKey d) d now in
  let db := insertContributors d (upsertStaging row x.1) in
  let n := contributorCount (DemandDelta.cellKey d) db in
  if publishable opts n (StagingRow.requests row) then (publish row n now db, bump 0 1 0 (bump 1 0 0 x.2))
  else (db, bump 0 0 1 (bump 1 0 0 x.2)).

Lemma insert_no_contributors d db : DemandDelta.orgIds d = [] -> insertContributors d db = db.
Proof.
  intros E. unfold insertContributors. rewrite E. simpl. destruct db as [s c e]; simpl. f_equal. by rewrite union_empty_l_L.
Qed.

Lemma loop_step f now d ds p r db :
  merge_loop (S f) opts now (Merge (d :: ds) p r) db =
    let x := answer opts d (Merge (d :: ds) p r) now db in merge_loop f opts now x.2 x.1.
Proof. simpl. by destruct (answer opts d _ now db). Qed.

Lemma loop_counting f now d ds row r db :
  (forall r db, merge_loop f opts now (Merge ds selecting r) db = let x := foldl (one_delta now) (db, r) ds in (x.1, Some x.2)) ->
  (forall r db, merge_loop (S f) opts now (Merge ds selecting r) db = let x := foldl (one_delta now) (db, r) ds in (x.1, Some x.2)) ->
  merge_loop (S (S f)) opts now (Merge (d :: ds) (counting row) r) db =
    let n := contributorCount (DemandDelta.cellKey d) db in
    let x := foldl (one_delta now)
      (if publishable opts n (StagingRow.requests row) then (publish row n now db, bump 0 1 0 r) else (db, bump 0 0 1 r)) ds in
    (x.1, Some x.2).
Proof.
  intros H1 H2. rewrite loop_step. cbn [answer at_phase todo report fst snd].
  destruct (publishable _ _ _); [|apply H2]. rewrite loop_step. apply H1.
Qed.

Lemma merge_loop_fold now ds : forall fuel db r, (5 * length ds <= fuel)%nat ->
  merge_loop fuel opts now (Merge ds selecting r) db = let x := foldl (one_delta now) (db, r) ds in (x.1, Some x.2).
Proof.
  induction ds as [|d ds IH]; intros fuel db r Hf; [by destruct fuel|]. cbn [length] in Hf.
  destruct fuel as [|[|[|[|[|fuel]]]]]; [lia..|]. cbn [foldl]. unfold one_delta at 2 4. cbn [fst snd].
  rewrite loop_step. cbn [answer at_phase todo report fst snd]. set (row := merged_row _ d now).
  rewrite loop_step. cbn [answer at_phase todo report fst snd].
  destruct (DemandDelta.orgIds d) as [|o os] eqn:Eo; cbn [fst snd].
  - rewrite (insert_no_contributors d _ Eo). apply (loop_counting (S fuel)); intros; apply IH; lia.
  - rewrite loop_step. cbn [answer at_phase todo report fst snd]. apply (loop_counting fuel); intros; apply IH; lia.
Qed.


Lemma contributorCount_mono k db db' : (forall org, (k, org) ∈ contributors db -> (k, org) ∈ contributors db') ->
  (contributorCount k db <= contributorCount k db')%nat.
Proof.
  intros H. apply submseteq_length, NoDup_submseteq; [apply contributorsOf_NoDup|].
  intros org. rewrite !elem_of_contributorsOf. apply H.
Qed.

Lemma contributorCount_ext k db db' : (forall org, (k, org) ∈ contributors db <-> (k, org) ∈ contributors db') ->
  contributorCount k db = contributorCount k db'.
Proof. intros H. apply Nat.le_antisymm; apply contributorCount_mono; intros org; apply H. Qed.

Lemma publishable_mono n n' r r' : (n <= n')%nat -> (r <= r')%nat -> publishable opts n r = true -> publishable opts n' r' = true.
Proof.
  intros Hn Hr [H1%Nat.leb_le H2%Nat.leb_le]%andb_prop. apply andb_true_intro. split; apply Nat.leb_le; lia.
Qed.

(** The gate of a cell, as the tables stand. *)
Definition gate k db : bool := publishable opts (contributorCount k db) (requests_at k db).

Lemma one_delta_tables now db r d :
  let db' := (one_delta now (db, r) d).1 in
  (forall k, requests_at k db' = (requests_at k db + requests_of k d)%nat) /\
  (forall k org, (k, org) ∈ contributors db' <-> (k, org) ∈ contributors db \/ DemandDelta.cellKey d = k /\ org ∈ DemandDelta.orgIds d) /\
  (forall k, k <> DemandDelta.cellKey d -> cells db' !! k = cells db !! k) /\
  (if gate (DemandDelta.cellKey d) db'
   then exists c, cells db' !! DemandDelta.cellKey d = Some c /\ DemandCellRow.requests c = requests_at (DemandDelta.cellKey d) db' /\
                  DemandCellRow.orgCount c = contributorCount (DemandDelta.cellKey d) db'
   else cells db' !! DemandDelta.cellKey d = cells db !! DemandDelta.cellKey d).
Proof.
  unfold one_delta. cbn [fst snd]. set (row := merged_row _ d now). set (k0 := DemandDelta.cellKey d).
  set (db1 := insertContributors d (upsertStaging row db)). set (n := contributorCount k0 db1).
  assert (forall x, staging x = staging db1 -> contributors x = contributors db1 ->
    (forall k, requests_at k x = (requests_at k db + requests_of k d)%nat) /\
    (forall k org, (k, org) ∈ contributors x <-> (k, org) ∈ contributors db \/ k0 = k /\ org ∈ DemandDelta.orgIds d)) as Hcommon.
  { intros x Es Ec. split.
    - intros k. unfold requests_at, requests_of. rewrite Es. simpl. destruct (decide (k0 = k)) as [<-|Hne].
      + rewrite lookup_insert_eq, bool_decide_eq_true_2 by done. done.
      + rewrite lookup_insert_ne, bool_decide_eq_false_2 by done. lia.
    - intros k org. rewrite Ec. simpl. rewrite elem_of_union, elem_of_list_to_set, list_elem_of_fmap. fold k0. split.
      + intros [(o & [= -> ->] & Ho)|H]; [by right|by left].
      + intros [H|[<- Ho]]; [by right|left]. by exists org. }
  assert (requests_at k0 db1 = StagingRow.requests row) as Er by (unfold requests_at; simpl; by rewrite lookup_insert_eq).
  destruct (publishable opts n (StagingRow.requests row)) eqn:Ep; cbn [fst].
  - destruct (Hcommon (publish row n now db1) eq_refl eq_refl) as [H1 H2]. split; [done|]. split; [done|]. split.
    + intros k Hk. simpl. by rewrite lookup_insert_ne.
    + assert (gate k0 (publish row n now db1) = true) as -> by (unfold gate; change (requests_at k0 (publish row n now db1)) with (requests_at k0 db1); by rewrite Er).
      exists (published_row row n now). split; [simpl; by rewrite lookup_insert_eq|]. split; [symmetry; exact Er|done].
  - destruct (Hcommon db1 eq_refl eq_refl) as [H1 H2]. split; [done|]. split; [done|]. split; [done|].
    unfold gate. rewrite Er. fold n. by rewrite Ep.
Qed.

Definition report_counts (r : MergeReport.t) (n : nat) : Prop :=
  MergeReport.merged r = n /\ (MergeReport.published r + MergeReport.withheld r)%nat = n.

(** What the deltas leave: exact sums, all contributors, and a published row
    for exactly the cells whose gate is open. *)
Record merged_ok db ds (x : Tables * MergeReport.t) : Prop := {
  mo_requests k : requests_at k x.1 = (requests_at k db + total k ds)%nat;
  mo_contributors k org : (k, org) ∈ contributors x.1 <->
    (k, org) ∈ contributors db \/ exists d, d ∈ ds /\ DemandDelta.cellKey d = k /\ org ∈ DemandDelta.orgIds d;
  mo_published k : k ∈ map DemandDelta.cellKey ds -> gate k x.1 = true ->
    exists c, cells x.1 !! k = Some c /\ DemandCellRow.requests c = requests_at k x.1 /\ DemandCellRow.orgCount c = contributorCount k x.1;
  mo_withheld k : k ∉ map DemandDelta.cellKey ds \/ gate k x.1 = false -> cells x.1 !! k = cells db !! k;
  mo_report : report_counts x.2 (length ds);
}.

Lemma fold_merged now db ds : merged_ok db ds (foldl (one_delta now) (db, no_report) ds).
Proof.
  induction ds as [|d ds IH] using rev_ind.
  - split; cbn [foldl fst snd]; try done.
    + intros k org. split; [by left|]. intros [?|(d & ?%not_elem_of_nil & _)]; done.
    + by intros k ?%not_elem_of_nil.
  - rewrite foldl_snoc. destruct (foldl (one_delta now) (db, no_report) ds) as [db1 r1].
    destruct IH as [Hr Hc Hp Hw [Hm Hn]]. cbn [fst snd] in *. destruct (one_delta_tables now db1 r1 d) as (R & C & O & K).
    assert (MergeReport.merged (one_delta now (db1, r1) d).2 = S (length ds) /\
      (MergeReport.published (one_delta now (db1, r1) d).2 + MergeReport.withheld (one_delta now (db1, r1) d).2)%nat = S (length ds)) as [M1 M2].
    { unfold one_delta. destruct (publishable _ _ _); simpl; lia. }
    destruct (one_delta now (db1, r1) d) as [db2 r2]. cbn [fst snd] in *.
    set (k0 := DemandDelta.cellKey d) in *.
    assert (forall k, k <> k0 -> requests_at k db2 = requests_at k db1 /\ contributorCount k db2 = contributorCount k db1) as Hsame.
    { intros k Hk. split; [rewrite R; unfold requests_of; fold k0; rewrite bool_decide_eq_false_2 by done; lia|].
      apply contributorCount_ext. intros org. rewrite C. naive_solver. }
    assert (forall k, gate k db2 = false -> gate k db1 = false) as Hgate.
    { intros k H. apply not_true_is_false. intros H'. apply not_true_iff_false in H. apply H. unfold gate in *.
      eapply publishable_mono; [| |exact H']; [apply contributorCount_mono; intros org; rewrite C; by left|rewrite R; lia]. }
    split; cbn [fst snd].
    + intros k. rewrite R, Hr, total_app, total_cons. change (total k []) with 0%nat. lia.
    + intros k org. rewrite C, Hc. split.
      * intros [[?|(x & Hx & Hk)]|[Hk Ho]]; [by left|right; exists x; split; [apply elem_of_app; by left|done]|].
        right. exists d. split; [apply elem_of_app; right; by left|done].
      * intros [?|(x & [Hx| ->%list_elem_of_singleton]%elem_of_app & Hk)]; [by left; left|left; right; eauto|by right].
    + intros k Hin Hg. destruct (decide (k = k0)) as [->|Hne]; [by rewrite Hg in K|]. destruct (Hsame k Hne) as [E1 E2].
      rewrite O, E1, E2 by done. apply Hp; [|unfold gate in *; by rewrite E1, E2 in Hg].
      rewrite map_app in Hin. apply elem_of_app in Hin as [?|?%list_elem_of_singleton]; done.
    + intros k H. rewrite map_app, not_elem_of_app in H. destruct (decide (k = k0)) as [->|Hne].
      * destruct H as [[_ H]|H]; [destruct H; by left|]. rewrite H in K. rewrite K. apply Hw. right. by apply Hgate.
      * rewrite O by done. apply Hw. destruct H as [[? _]|?]; [by left|right; by apply Hgate].
    + unfold report_counts. rewrite length_app. simpl. lia.
Qed.

(** A merge that no other merge interrupts returns, with every delta merged
    and either published or withheld: the requests of every cell are the
    previous ones plus those of its deltas, its contributors likewise, and of
    the cells it touched those whose gate is open are published with exactly
    these numbers; every other published row is as before. *)
Theorem merge_alone now ds db :
  exists db' r, mergeDemandDeltas opts now ds db = (db', Some r) /\ merged_ok db ds (db', r).
Proof.
  unfold mergeDemandDeltas. rewrite merge_loop_fold by done. cbv zeta. eexists _, _. split; [reflexivity|].
  pose proof (fold_merged now db ds) as H. by destruct (foldl _ _ _).
Qed.

End Merges.

(** ** Concrete inputs *)

Definition low : MergeOptions.t := MergeOptions.mk (Some 2) (Some 2).
Definition statements (n k : nat) : list event := replicate k (Answer n 1767700000000%Z).
Definition final (es : list event) : state := default init (run low es init).

(** Two organizations in one window, with thresholds of two. *)
Definition small_window : list DemandObservation.t := [sample "o1" 1767600000000; sample "o2" 1767600000000].
Definition one_flush : list event := Flush 1 10 small_window :: statements 1 6.

Definition published_key : string := "code-gen|no-tools/sync/0-1k|2026-01-05".

Lemma published_cells_witness :
  run low one_flush init = Some (final one_flush) /\
  exists c, cells (tables (final one_flush)) !! published_key = Some c /\ DemandCellRow.orgCount c = 2%nat /\
  exists orgs, NoDup orgs /\ length orgs = 2%nat /\
    forall org, org ∈ orgs -> exists o, o ∈ small_window /\ DemandObservation.orgId o = org.
Proof.
  assert (run low one_flush init = Some (final one_flush)) as E by (vm_compute; reflexivity).
  split; [exact E|].
  assert (DemandCellRow.orgCount <$> cells (tables (final one_flush)) !! published_key = Some 2%nat) as E5 by (vm_compute; reflexivity).
  destruct (cells (tables (final one_flush)) !! published_key) as [c|] eqn:Ec; [|discriminate]. injection E5 as E5.
  exists c. split; [reflexivity|]. split; [exact E5|].
  destruct (published_cells low one_flush (final one_flush) published_key c E Ec) as (_ & _ & orgs & Hn & Hl & Ho).
  exists orgs. split; [exact Hn|]. split; [rewrite Hl; exact E5|]. intros org Hin. destruct (Ho org Hin) as (o & H1 & _ & H3).
  exists o. split; [|exact H3]. unfold observations in H1. cbn [map concat one_flush window_of statements replicate] in H1.
  rewrite !app_nil_r in H1. exact H1.
Defined.

(** Two flushes of one cell that both read the table before either writes it:
    each reports its delta as merged, and one of the two requests is lost. *)
Definition two_flushes : list event :=
  [Flush 1 10 [sample "o1" 1767600000000]; Flush 2 10 [sample "o2" 1767600000000]] ++
  statements 1 1 ++ statements 2 1 ++ statements 1 4 ++ statements 2 4.

Theorem concurrent_merges_lose :
  exists s, run low two_flushes init = Some s /\
    map (fun r => MergeReport.merged (FlushReport.merge r)) (map snd (map_to_list (reports s))) = [1; 1]%nat /\
    requests_at published_key (tables s) = 1%nat /\ length (of_key published_key (observations two_flushes)) = 2%nat.
Proof.
  exists (final two_flushes). split; [vm_compute; reflexivity|]. split; [vm_compute; reflexivity|]. split; vm_compute; reflexivity.
Qed.

End DemandMergeSpec.
