(* ===== verification/Coverage.v ===== *)
(** * The coverage ranking: pareto/src/coverage.ts and the read of db/src/repos/demand.ts

    Published demand met with the evidence that would serve it: each cell is
    judged by [Shape.assessCoverage] on the live points of its cluster's
    platform frontier, and the uncovered ones are ranked.  The tables are read
    once; a list of rows is in the order the database returns them, which for
    rows that its ORDER BY does not tell apart is any order. *)

From S2P Require Import Prelude Number JsSort Types Program Dominance Store Shape Demand DemandMerge.

Module Coverage.
Import Num Sort Program Shape DemandMerge.

Module CatalogRow.
Record t := mk { alias : string; supportsTools : option bool; supportsVision : option bool; contextLength : option number }.
End CatalogRow.

(** [new Map(rows.map((m) => [m.alias, m]))]: the last row of an alias. *)
Definition Catalog := list CatalogRow.t.
Definition get (catalog : Catalog) (alias : string) : option CatalogRow.t :=
  find (fun r => bool_decide (CatalogRow.alias r = alias)) (rev catalog).

(** ** listDemandCells *)

Module ListDemandOptions.
Record t := mk { sinceWeek : option string; bucketKind : option Shape.BucketKind; limit : option nat }.
End ListDemandOptions.

Definition most_requests (a b : DemandCellRow.t) : comparison :=
  Nat.compare (DemandCellRow.requests b) (DemandCellRow.requests a).

Definition wanted (opts : ListDemandOptions.t) (c : DemandCellRow.t) : bool :=
  match ListDemandOptions.sinceWeek opts with None => true | Some w => String.leb w (DemandCellRow.weekStart c) end
  && match ListDemandOptions.bucketKind opts with None => true | Some k => bool_decide (DemandCellRow.bucketKind c = k) end.

Definition listDemandCells (table : list DemandCellRow.t) (opts : ListDemandOptions.t) : list DemandCellRow.t :=
  take (default 100 (ListDemandOptions.limit opts)) (sort most_requests (List.filter (wanted opts) table)).

(** ** Evidence *)

Definition is_live (p : FrontierPoint.t) : bool := bool_decide (FrontierPoint.providerMode p = Some live).

Definition entries_of (catalog : Catalog) (p : FrontierPoint.t) : list (option CatalogRow.t) :=
  map (get catalog) (strategyModels (FrontierPoint.strategyConfig p)).

Definition is_single (s : StrategyConfig) : bool := match s with single _ => true | _ => false end.

Definition tool_capable (catalog : Catalog) (p : FrontierPoint.t) : bool :=
  is_single (FrontierPoint.strategyConfig p)
  && forallb (fun e => bool_decide ((e ≫= CatalogRow.supportsTools) = Some true)) (entries_of catalog p).

(** The smallest context window of a point's models; [None] when one is
    unknown.  [Math.min()] of no models is Infinity. *)
Definition window (catalog : Catalog) (p : FrontierPoint.t) : option number :=
  windows ← mapM (fun e => e ≫= CatalogRow.contextLength) (entries_of catalog p);
  Some (fold_left min windows Infinity).

Definition widest (acc : option number) (w : option number) : option number :=
  match w, acc with
  | None, acc => acc
  | Some w, None => Some w
  | Some w, Some m => Some (max m w)
  end.

Definition clusterEvidence (catalog : Catalog) (frontier : option Frontier.t) : option Shape.CoverageEvidence.t :=
  f ← frontier;
  let points := List.filter is_live (Frontier.points f) in
  Some (Shape.CoverageEvidence.mk (of_Z (Z.of_nat (length points)))
    (of_Z (Z.of_nat (length (List.filter (tool_capable catalog) points))))
    (fold_left (fun acc p => widest acc (window catalog p)) points None)).

(** ** The ranking *)

Module CoverageGap.
Record t := mk { verdict : Shape.CoverageVerdict.t; cell : DemandCellRow.t; evidence : option Shape.CoverageEvidence.t }.
End CoverageGap.

Module RankOptions.
Record t := mk { sinceWeek : option string; limit : option nat; includeCovered : bool; priorityWeight : option number }.
End RankOptions.

(** Cells a priority organization contributed to. *)
Definition prioritizedCellKeys (tables : Tables) (priority : gset string) : gset string :=
  set_map fst (filter (fun c => c.2 ∈ priority) (contributors tables)).

Definition coverage_cell (c : DemandCellRow.t) : Shape.CoverageCell.t :=
  Shape.CoverageCell.mk (DemandCellRow.bucket c) (DemandCellRow.bucketKind c) (DemandCellRow.shapeClass c)
    (of_Z (Z.of_nat (DemandCellRow.requests c))) (of_Z (Z.of_nat (DemandCellRow.orgCount c))).

Definition reweigh (w : number) (v : Shape.CoverageVerdict.t) : Shape.CoverageVerdict.t :=
  Shape.CoverageVerdict.mk (Shape.CoverageVerdict.reason v) (Shape.CoverageVerdict.covered v)
    (mul (Shape.CoverageVerdict.score v) w) (Shape.CoverageVerdict.requiredContextTokens v).

(** The platform frontier of a cluster. *)
Definition platform_frontier (db : Store.PotionDb) (clusterId : string) : option Frontier.t :=
  Store.loadCurrentFrontier db clusterId None default_instrument None.

Definition evidence_for (db : Store.PotionDb) (catalog : Catalog) (c : DemandCellRow.t) : option Shape.CoverageEvidence.t :=
  if bool_decide (DemandCellRow.bucketKind c = Shape.cluster) then clusterEvidence catalog (platform_frontier db (DemandCellRow.bucket c))
  else None.

Definition gap_of (db : Store.PotionDb) (catalog : Catalog) (weight : number) (prioritized : gset string) (includeCovered : bool)
    (c : DemandCellRow.t) : option CoverageGap.t :=
  let evidence := evidence_for db catalog c in
  let verdict := Shape.assessCoverage (coverage_cell c) evidence in
  if Shape.CoverageVerdict.covered verdict && negb includeCovered then None
  else Some (CoverageGap.mk (if bool_decide (DemandCellRow.cellKey c ∈ prioritized) then reweigh weight verdict else verdict) c evidence).

Definition gap_order `{!Collation} : CoverageGap.t -> CoverageGap.t -> comparison :=
  then_by (desc (fun g => Shape.CoverageVerdict.score (CoverageGap.verdict g))) (by_string (fun g => DemandCellRow.cellKey (CoverageGap.cell g))).

(** [table] lists the rows of [cells tables]. *)
Definition rankCoverageGaps `{!Collation} (table : list DemandCellRow.t) (tables : Tables) (priority : gset string)
    (db : Store.PotionDb) (catalog : Catalog) (opts : RankOptions.t) : list CoverageGap.t :=
  let cells := listDemandCells table
                 (ListDemandOptions.mk (RankOptions.sinceWeek opts) None (Some (default 200 (RankOptions.limit opts)))) in
  let weight := default one (RankOptions.priorityWeight opts) in
  let prioritized := if eqb weight one then ∅ else prioritizedCellKeys tables priority in
  sort gap_order (omap (gap_of db catalog weight prioritized (RankOptions.includeCovered opts)) cells).

(** ** What a measurement can close (filterByCapability of workers/src/learning.ts) *)

Module CapabilityFilter.
Record t := mk { tools : bool; minContextTokens : option number; vision : bool }.
End CapabilityFilter.

Definition capable (catalog : Catalog) (f : CapabilityFilter.t) (alias : string) : bool :=
  let row := get catalog alias in
  negb (CapabilityFilter.tools f && negb (bool_decide ((row ≫= CatalogRow.supportsTools) = Some true)))
  && negb (CapabilityFilter.vision f && negb (bool_decide ((row ≫= CatalogRow.supportsVision) = Some true)))
  && match CapabilityFilter.minContextTokens f with
     | None => true
     | Some n => match row ≫= CatalogRow.contextLength with None => false | Some c => negb (ltb c n) end
     end.

Definition filterByCapability {A} (alias : A -> string) (pool : list A) (catalog : Catalog) (f : CapabilityFilter.t) : list A :=
  List.filter (fun e => capable catalog f (alias e)) pool.

End Coverage.
