(* ===== verification/CoverageSpec.v ===== *)
(** * What the coverage ranking guarantees

    The ranking does not depend on the order of the rows, as long as the limit
    does not cut ([ranking_order_free]); when it cuts among cells with equally
    many requests it does ([limit_cuts_ties]). *)

From S2P Require Import Prelude Number Rounding JsSort Types Store Shape Demand DemandMerge Coverage.

Module CoverageSpec.
Import Num Rounding Sort Shape DemandMerge Coverage.

(** A sort whose comparator tells the elements apart forgets their order. *)
Lemma sort_order_free {A} (P : A -> Prop) c `{!Consistent P c} l k :
  Forall P l -> l ≡ₚ k -> (forall x y, x ∈ l -> y ∈ l -> c x y = Eq -> x = y) -> sort c l = sort c k.
Proof.
  intros HP Hp Heq. assert (Forall P k) as HP' by (by rewrite <- Hp).
  pose proof (sort_sorted P c l HP) as S1. pose proof (sort_sorted P c k HP') as S2.
  assert (sort c l ≡ₚ sort c k) as Hs by (by rewrite !sort_perm).
  assert (forall x y, x ∈ sort c l -> y ∈ sort c l -> le c x y -> le c y x -> x = y) as Hanti.
  { intros x y Hx%elem_of_sort Hy%elem_of_sort Hxy Hyx. rewrite Forall_forall in HP. apply Heq; [done|done|].
    pose proof (cons_antisym x y (HP _ Hx) (HP _ Hy)) as E. unfold le in *. destruct (c x y); [done| |done]. by rewrite E in Hyx. }
  clear HP HP' Hp Heq. revert S2 Hs Hanti. generalize (sort c k) as k'. induction S1 as [|x l' S1 IH Hx]; intros k' S2 Hs Hanti.
  - by apply Permutation_nil in Hs as ->.
  - destruct k' as [|y k']; [by apply Permutation_sym, Permutation_nil in Hs|].
    inversion S2 as [|? ? S2' Hy]; subst.
    assert (x = y) as ->.
    { assert (y ∈ x :: l') as Hin by (rewrite Hs; left). assert (x ∈ y :: k') as Hin' by (rewrite <- Hs; left).
      apply elem_of_cons in Hin as [|Hin]; [done|]. apply elem_of_cons in Hin' as [|Hin']; [done|].
      rewrite Forall_forall in Hx, Hy. apply Hanti; [left|by right|auto|auto]. }
    f_equal. apply IH; [done|by apply Permutation_cons_inv in Hs|]. intros a b Ha Hb. apply Hanti; by right.
Qed.

Lemma filter_permutation {A} (f : A -> bool) l k : l ≡ₚ k -> List.filter f l ≡ₚ List.filter f k.
Proof.
  induction 1 as [|x l k _ IH|x y l|l k m _ IH1 _ IH2]; simpl; [done| | |by rewrite IH1].
  - destruct (f x); [by constructor|done].
  - destruct (f x), (f y); try done. constructor.
Qed.

(** ** Scores are numbers *)

Lemma units_below n k : (0 <= n < 2 ^ 53)%Z -> (53 <= k)%Z -> (0 <= units (of_Z n) <= 2 ^ (k + 1074))%Z.
Proof.
  intros Hn Hk. destruct (of_Z_exact n Hn) as [_ ->]. rewrite Z.pow_add_r by lia.
  pose proof (Z.pow_pos_nonneg 2 1074 ltac:(lia) ltac:(lia)). pose proof (Z.pow_le_mono_r 2 53 k ltac:(lia) ltac:(lia)).
  split; [nia|]. apply Z.mul_le_mono_nonneg_r; lia.
Qed.

(** The product of a number up to [2^106] and a severity. *)
Lemma score_fin a b r : (0 <= a < 2 ^ 53)%Z -> (0 <= b < 2 ^ 53)%Z -> fin (mul (mul (of_Z a) (of_Z b)) (REASON_SEVERITY r)) = true.
Proof.
  intros Ha Hb. destruct (of_Z_exact a Ha) as [Fa Ua], (of_Z_exact b Hb) as [Fb Ub].
  destruct (double_exists 1 106) as (y & Fy & Uy); [lia|lia|].
  pose proof (Z.pow_pos_nonneg 2 1074 ltac:(lia) ltac:(lia)) as P.
  assert (units y = 2 ^ 106 * 2 ^ 1074)%Z as Uy' by (rewrite Uy, Z.mul_1_l, <- Z.pow_add_r by lia; done).
  destruct (near_between _ _ _ zero y (mul_near (of_Z a) (of_Z b) Fa Fb)) as [Fm Um]; [done|done| |].
  { rewrite Ua, Ub, Uy'. change (units zero) with 0%Z. revert P. generalize (2 ^ 1074)%Z. intros U HU.
    assert (0 <= a * b <= 2 ^ 106)%Z by nia. split; [nia|]. replace (a * U * (b * U))%Z with (a * b * (U * U))%Z by ring.
    replace (2 ^ 106 * U * U)%Z with (2 ^ 106 * (U * U))%Z by ring. apply Z.mul_le_mono_nonneg_r; nia. }
  assert (fin (REASON_SEVERITY r) = true /\ 0 <= units (REASON_SEVERITY r) <= 2 ^ 1074)%Z as [Fr Ur].
  { destruct r; (split; [vm_compute; reflexivity|]); (split; [vm_compute; congruence|]); apply Z.leb_le; vm_compute; reflexivity. }
  apply (near_between _ _ _ zero y (mul_near _ _ Fm Fr)); [done|done|]. change (units zero) with 0%Z in *. nia.
Qed.

Definition counts_ok (c : DemandCellRow.t) : Prop :=
  (Z.of_nat (DemandCellRow.requests c) < 2 ^ 53)%Z /\ (Z.of_nat (DemandCellRow.orgCount c) < 2 ^ 53)%Z.

Lemma verdict_fin c ev : counts_ok c -> fin (CoverageVerdict.score (assessCoverage (coverage_cell c) ev)) = true.
Proof.
  intros [Hr Ho]. unfold assessCoverage. cbv zeta. cbn [coverage_cell CoverageCell.bucketKind CoverageCell.shapeClass CoverageCell.requests CoverageCell.orgCount].
  repeat match goal with
  | |- fin (CoverageVerdict.score (CoverageVerdict.mk _ _ _ _)) = true => cbn [CoverageVerdict.score]; case_bool_decide; [done|apply score_fin; lia]
  | |- context [if ?b then CoverageVerdict.mk _ _ _ _ else _] => destruct b
  | |- context [match ev with _ => _ end] => destruct ev
  end.
Qed.

Lemma gap_real db catalog w prio inc c g : counts_ok c -> fin w = true -> gap_of db catalog w prio inc c = Some g ->
  real (CoverageVerdict.score (CoverageGap.verdict g)) = true /\ CoverageGap.cell g = c.
Proof.
  intros Hc Fw. unfold gap_of. set (v := assessCoverage _ _). pose proof (verdict_fin c (evidence_for db catalog c) Hc) as Fv. fold v in Fv.
  destruct (_ && _); [done|]. intros [= <-]. split; [|done]. cbn [CoverageGap.verdict]. case_bool_decide; [|by apply fin_real].
  cbn [reweigh CoverageVerdict.score]. apply (near_real _ _ _ (mul_near _ _ Fv Fw)).
Qed.

(** Two orders in which the database may return the same rows give the same
    ranking, ties included, when the limit does not cut. *)
Theorem ranking_order_free `{!Collation} table table' tables priority db catalog opts :
  table ≡ₚ table' -> NoDup (map DemandCellRow.cellKey table) -> Forall counts_ok table ->
  (length table <= default 200 (RankOptions.limit opts))%nat ->
  fin (default one (RankOptions.priorityWeight opts)) = true ->
  (forall s t, s ∈ map DemandCellRow.cellKey table -> t ∈ map DemandCellRow.cellKey table -> localeCompare s t = Eq -> s = t) ->
  rankCoverageGaps table tables priority db catalog opts = rankCoverageGaps table' tables priority db catalog opts.
Proof.
  intros Hp Hnd Hcounts Hlim Fw Hcol. unfold rankCoverageGaps.
  set (w := default one (RankOptions.priorityWeight opts)) in *. set (prio := if eqb w one then ∅ else _).
  set (lopts := ListDemandOptions.mk _ _ _). set (gap := gap_of db catalog w prio (RankOptions.includeCovered opts)).
  assert (forall t, t ≡ₚ table -> listDemandCells t lopts ≡ₚ List.filter (wanted lopts) table) as Hall.
  { intros t Ht. unfold listDemandCells. rewrite take_ge; [by rewrite sort_perm, (filter_permutation (wanted lopts) _ _ Ht)|].
    rewrite sort_length. etransitivity; [apply Demand.filter_length_le|]. rewrite (Permutation_length Ht). exact Hlim. }
  assert (forall g, g ∈ omap gap (listDemandCells table lopts) ->
    real (CoverageVerdict.score (CoverageGap.verdict g)) = true /\ CoverageGap.cell g ∈ table /\ gap (CoverageGap.cell g) = Some g) as Hg.
  { intros g (c & Hin & E)%list_elem_of_omap. rewrite (Hall table) in Hin by done. apply elem_filter in Hin as [Hin _].
    rewrite Forall_forall in Hcounts. destruct (gap_real _ _ _ _ _ _ _ (Hcounts _ Hin) Fw E) as [Hr Hc]. rewrite Hc. done. }
  apply (sort_order_free (fun g => real (CoverageVerdict.score (CoverageGap.verdict g)) = true)).
  - unfold gap_order. apply consistent_then; [apply consistent_desc|apply consistent_string].
  - apply Forall_forall. intros g Hin. by apply Hg.
  - rewrite (Hall table), (Hall table') by done. done.
  - intros g g' Hin Hin' E. destruct (Hg g Hin) as (_ & Hc & Eg), (Hg g' Hin') as (_ & Hc' & Eg').
    assert (CoverageGap.cell g = CoverageGap.cell g') as Ec; [|rewrite Ec, Eg' in Eg; congruence].
    apply (NoDup_key_inj DemandCellRow.cellKey table); [done..|]. apply Hcol; [by apply list_elem_of_fmap_2..|].
    unfold gap_order, then_by in E. by destruct (desc _ g g').
Qed.

(** ** Concrete inputs *)

Definition sample_cell (key cluster : string) : DemandCellRow.t :=
  DemandCellRow.mk key cluster Shape.cluster "no-tools/sync/0-1k" "2026-01-05" 40 5 None None 0 None 1767700000000.

Definition cell_a : DemandCellRow.t := sample_cell "a" "code-gen".
Definition cell_b : DemandCellRow.t := sample_cell "b" "extraction".
Definition ranked (table : list DemandCellRow.t) (limit : option nat) : list CoverageGap.t :=
  rankCoverageGaps table no_demand ∅ Store.empty_db [] (RankOptions.mk None limit false None).

(** The query orders cells by requests alone: with a limit of one, the cell
    that is examined at all is whichever of the two the database returns first,
    although the comment calls the ranking total. *)
Theorem limit_cuts_ties :
  [cell_a; cell_b] ≡ₚ [cell_b; cell_a] /\
  map (fun g => DemandCellRow.cellKey (CoverageGap.cell g)) (ranked [cell_a; cell_b] (Some 1%nat)) = ["a"%string] /\
  map (fun g => DemandCellRow.cellKey (CoverageGap.cell g)) (ranked [cell_b; cell_a] (Some 1%nat)) = ["b"%string].
Proof. split; [constructor|]. split; vm_compute; reflexivity. Qed.

Lemma ranking_order_free_witness :
  ranked [cell_a; cell_b] None = ranked [cell_b; cell_a] None /\
  map (fun g => DemandCellRow.cellKey (CoverageGap.cell g)) (ranked [cell_b; cell_a] None) = ["a"; "b"]%string.
Proof.
  split; [|vm_compute; reflexivity].
  apply (ranking_order_free [cell_a; cell_b] [cell_b; cell_a] no_demand ∅ Store.empty_db [] (RankOptions.mk None None false None)).
  - constructor.
  - cbn [map cell_a cell_b sample_cell DemandCellRow.cellKey]. apply NoDup_cons. split; [|apply NoDup_singleton].
    intros H%list_elem_of_singleton. discriminate.
  - constructor; [|constructor; [|constructor]]; split; vm_compute; reflexivity.
  - cbn [length RankOptions.limit]. apply Nat.leb_le. vm_compute. reflexivity.
  - vm_compute. reflexivity.
  - intros s t _ _ E. by apply String.compare_eq_iff.
Defined.

End CoverageSpec.
