(* ===== verification/Learning.v ===== *)
(** * Autonomous learning: workers/src/learning.ts, its job in handlers.ts, db/src/repos/learning-runs.ts and measurement-budget.ts

    The loop that buys measurements by itself: it plans the best gap a platform
    sweep can close under a standing daily cap, writes a ledger row, sweeps, and
    settles the row.  [planProbe] is the decision on what it reads; [probe] the
    whole job around a sweep, whose outcome is a parameter.  The bound on what
    is spent on a customer's behalf is [measurementBudgetFor]. *)

From S2P Require Import Prelude Number JsSort Types Print Store Shape DemandMerge Coverage.

Module Learning.
Import Num Print Shape DemandMerge Coverage.

(** ** Autonomy *)

Module LearningAutonomy.
Record t := mk { enabled : bool; dailyCapUsd : number; perRunCapUsd : number; priorityWeight : number }.
End LearningAutonomy.

Definition DEFAULT_PER_RUN_CAP_USD : number := of_Z 2.
Definition DEFAULT_PRIORITY_WEIGHT : number := of_Z 2.

Definition positive (x : number) : bool := is_finite x && gtb x zero.

(** [daily], [perRun] and [weight] are what [Number] makes of the variables, or
    of the defaults 0, 0 and [DEFAULT_PRIORITY_WEIGHT]. *)
Definition learningAutonomyFromEnv (daily perRun weight : number) : LearningAutonomy.t :=
  let dailyCapUsd := if positive daily then daily else zero in
  let configuredPerRun := if positive perRun then perRun else DEFAULT_PER_RUN_CAP_USD in
  LearningAutonomy.mk (gtb dailyCapUsd zero) dailyCapUsd
    (min configuredPerRun (if truthy dailyCapUsd then dailyCapUsd else configuredPerRun))
    (if positive weight then weight else DEFAULT_PRIORITY_WEIGHT).

(** ** The ledger *)

Inductive LearningRunStatus := planned | running | completed | failed | refused.

Module LearningRunRow.
Record t := mk {
  id : string;
  startedAt : Z;
  finishedAt : option Z;
  status : LearningRunStatus;
  cellKey : option string;
  clusterId : option string;
  gapReason : option CoverageReason;
  gapScore : option number;
  capabilityFilter : option CapabilityFilter.t;
  projectedUsd : number;
  actualUsd : option number;
  pointsPublished : option nat;
  detail : option string;
}.
End LearningRunRow.

Definition Ledger := list LearningRunRow.t.

Definition insertLearningRun (row : LearningRunRow.t) (db : Ledger) : Ledger := db ++ [row].

(** [updateLearningRun]: the patches of the job, applied to the rows of an id. *)
Definition updateLearningRun (id : string) (patch : LearningRunRow.t -> LearningRunRow.t) (db : Ledger) : Ledger :=
  map (fun r => if bool_decide (LearningRunRow.id r = id) then patch r else r) db.

Definition complete_patch (now : Z) (actual : number) (points : nat) (r : LearningRunRow.t) : LearningRunRow.t :=
  LearningRunRow.mk (LearningRunRow.id r) (LearningRunRow.startedAt r) (Some now) completed (LearningRunRow.cellKey r)
    (LearningRunRow.clusterId r) (LearningRunRow.gapReason r) (LearningRunRow.gapScore r) (LearningRunRow.capabilityFilter r)
    (LearningRunRow.projectedUsd r) (Some actual) (Some points) (LearningRunRow.detail r).

Definition fail_patch (now : Z) (detail : string) (r : LearningRunRow.t) : LearningRunRow.t :=
  LearningRunRow.mk (LearningRunRow.id r) (LearningRunRow.startedAt r) (Some now) failed (LearningRunRow.cellKey r)
    (LearningRunRow.clusterId r) (LearningRunRow.gapReason r) (LearningRunRow.gapScore r) (LearningRunRow.capabilityFilter r)
    (LearningRunRow.projectedUsd r) (LearningRunRow.actualUsd r) (LearningRunRow.pointsPublished r) (Some detail).

Definition DAY_MS : Z := 24 * 60 * 60 * 1000.

(** [utcDayBounds], the end excluded. *)
Definition utcDayBounds (at_ : Z) : Z * Z := let start := (at_ / DAY_MS * DAY_MS)%Z in (start, start + DAY_MS)%Z.

Definition counted (r : LearningRunRow.t) : number :=
  match LearningRunRow.status r with
  | refused | planned => zero
  | _ => default (LearningRunRow.projectedUsd r) (LearningRunRow.actualUsd r)
  end.

Definition started_in (bounds : Z * Z) (r : LearningRunRow.t) : bool :=
  (bounds.1 <=? LearningRunRow.startedAt r)%Z && (LearningRunRow.startedAt r <? bounds.2)%Z.

Definition spentTodayUsd (db : Ledger) (at_ : Z) : number :=
  fold_left add (map counted (List.filter (started_in (utcDayBounds at_)) db)) zero.

(** ** Planning *)

Inductive ProbeRefusalReason := not_authorized | daily_cap_exhausted | no_gaps | no_sweepable_gap.

Definition refusal_name (r : ProbeRefusalReason) : string :=
  match r with
  | not_authorized => "not-authorized" | daily_cap_exhausted => "daily-cap-exhausted"
  | no_gaps => "no-gaps" | no_sweepable_gap => "no-sweepable-gap"
  end.

Module ProbePlan.
Record t := mk {
  gap : CoverageGap.t;
  clusterId : string;
  capUsd : number;
  capabilityFilter : option CapabilityFilter.t;
  skipped : list (string * string);
}.
End ProbePlan.

Module ProbeRefusal.
Record t := mk { refusal : ProbeRefusalReason; detail : string; skipped : list (string * string) }.
End ProbeRefusal.

Definition ProbeDecision : Type := ProbeRefusal.t + ProbePlan.t.

Definition capabilityFilterFor (gap : CoverageGap.t) : option CapabilityFilter.t :=
  match CoverageVerdict.reason (CoverageGap.verdict gap) with
  | no_tool_capable_point => Some (CapabilityFilter.mk true None false)
  | context_too_short => Some (CapabilityFilter.mk false (Some (CoverageVerdict.requiredContextTokens (CoverageGap.verdict gap))) false)
  | _ => None
  end.

(** The walk down the ranking: what was passed over, and the first gap a sweep
    can close. *)
Fixpoint first_sweepable (isSweepable : string -> bool) (gaps : list CoverageGap.t) (skipped : list (string * string)) :
    list (string * string) * option CoverageGap.t :=
  match gaps with
  | [] => (skipped, None)
  | gap :: gaps =>
      let cell := CoverageGap.cell gap in
      if bool_decide (DemandCellRow.bucketKind cell = unassigned) then
        first_sweepable isSweepable gaps (skipped ++ [(DemandCellRow.cellKey cell, "unassigned-region-needs-taxonomy"%string)])
      else if negb (isSweepable (DemandCellRow.bucket cell)) then
        first_sweepable isSweepable gaps
          (skipped ++ [(DemandCellRow.cellKey cell, "no committed suite for '" +:+ DemandCellRow.bucket cell +:+ "'")])
      else (skipped, Some gap)
  end.

Definition NOT_AUTHORIZED_DETAIL : string :=
  "POTION_AUTONOMOUS_LEARNING_DAILY_USD is unset or zero — the loop discovers and plans, but no standing authorization exists to spend".

(** [spent] is what the ledger read gives; [gaps] the ranking, read with the
    autonomy's weight. *)
Definition planProbe (autonomy : LearningAutonomy.t) (isSweepable : string -> bool) (spent : number) (gaps : list CoverageGap.t) :
    ProbeDecision :=
  if negb (LearningAutonomy.enabled autonomy) then inl (ProbeRefusal.mk not_authorized NOT_AUTHORIZED_DETAIL [])
  else
    let remaining := sub (LearningAutonomy.dailyCapUsd autonomy) spent in
    if leb remaining zero then
      inl (ProbeRefusal.mk daily_cap_exhausted
        ("$" +:+ toFixed 4 spent +:+ " of $" +:+ toFixed 2 (LearningAutonomy.dailyCapUsd autonomy) +:+ " committed today") [])
    else match gaps with
    | [] => inl (ProbeRefusal.mk no_gaps "every published demand cell is covered" [])
    | _ =>
        match first_sweepable isSweepable gaps [] with
        | (skipped, None) =>
            inl (ProbeRefusal.mk no_sweepable_gap
              (show_Z (Z.of_nat (length gaps)) +:+ " gap(s) ranked, none closable by a platform sweep") skipped)
        | (skipped, Some gap) =>
            inr (ProbePlan.mk gap (DemandCellRow.bucket (CoverageGap.cell gap)) (min (LearningAutonomy.perRunCapUsd autonomy) remaining)
              (capabilityFilterFor gap) skipped)
        end
    end.

(** ** The job *)

Module LearningProbePayload.
Record t := mk { dryRun : option bool; capUsd : option number; maxAnswerers : option nat; sinceWeek : option string }.
End LearningProbePayload.

Module LearningProbeResult.
Record t := mk {
  runId : string;
  status : LearningRunStatus;
  cellKey : option string;
  clusterId : option string;
  gapReason : option CoverageReason;
  projectedUsd : number;
  actualUsd : option number;
  pointsPublished : option nat;
  detail : option string;
  skipped : list (string * string);
}.
End LearningProbeResult.

(** A sweep spends and publishes points, or throws. *)
Inductive SweepOutcome :=
| Swept (spendUsd : number) (points : nat)
| SweepThrew (message : string).

Module SweepArgs.
Record t := mk { clusterId : string; capUsd : number; capabilityFilter : option CapabilityFilter.t; maxAnswerers : option nat }.
End SweepArgs.

Definition refused_row (runId : string) (now : Z) (detail : string) : LearningRunRow.t :=
  LearningRunRow.mk runId now None refused None None None None None zero None None (Some detail).

Definition run_row (runId : string) (now : Z) (dryRun : bool) (p : ProbePlan.t) (capUsd : number) : LearningRunRow.t :=
  LearningRunRow.mk runId now None (if dryRun then planned else running)
    (Some (DemandCellRow.cellKey (CoverageGap.cell (ProbePlan.gap p)))) (Some (ProbePlan.clusterId p))
    (Some (CoverageVerdict.reason (CoverageGap.verdict (ProbePlan.gap p))))
    (Some (CoverageVerdict.score (CoverageGap.verdict (ProbePlan.gap p)))) (ProbePlan.capabilityFilter p) capUsd None None None.

Definition probe_result (runId : string) (s : LearningRunStatus) (p : ProbePlan.t) (capUsd : number) (actual : option number)
    (points : option nat) : LearningProbeResult.t :=
  LearningProbeResult.mk runId s (Some (DemandCellRow.cellKey (CoverageGap.cell (ProbePlan.gap p)))) (Some (ProbePlan.clusterId p))
    (Some (CoverageVerdict.reason (CoverageGap.verdict (ProbePlan.gap p)))) capUsd actual points None (ProbePlan.skipped p).

(** The projection of a run: a payload's cap only narrows the plan's. *)
Definition projection (payload : LearningProbePayload.t) (p : ProbePlan.t) : number :=
  match LearningProbePayload.capUsd payload with Some c => min c (ProbePlan.capUsd p) | None => ProbePlan.capUsd p end.

(** What the job does once it has decided; an error rejects the job after the
    row is settled.  [now] is the time of the row, [later] that of its end. *)
Definition execute (payload : LearningProbePayload.t) (decision : ProbeDecision) (runId : string) (now later : Z)
    (sweep : SweepArgs.t -> SweepOutcome) (db : Ledger) : Ledger * (string + LearningProbeResult.t) :=
  match decision with
  | inl r =>
      let detail := refusal_name (ProbeRefusal.refusal r) +:+ ": " +:+ ProbeRefusal.detail r in
      (insertLearningRun (refused_row runId now detail) db,
       inr (LearningProbeResult.mk runId refused None None None zero None None (Some detail) (ProbeRefusal.skipped r)))
  | inr p =>
      let capUsd := projection payload p in
      let dryRun := bool_decide (LearningProbePayload.dryRun payload = Some true) in
      let db := insertLearningRun (run_row runId now dryRun p capUsd) db in
      if dryRun then (db, inr (probe_result runId planned p capUsd None None))
      else match sweep (SweepArgs.mk (ProbePlan.clusterId p) capUsd (ProbePlan.capabilityFilter p) (LearningProbePayload.maxAnswerers payload)) with
      | Swept spendUsd points =>
          (updateLearningRun runId (complete_patch later spendUsd points) db,
           inr (probe_result runId completed p capUsd (Some spendUsd) (Some points)))
      | SweepThrew message => (updateLearningRun runId (fail_patch later message) db, inl message)
      end
  end.

(** The whole job [learningProbeHandler], nothing else between its statements. *)
Definition probe (autonomy : LearningAutonomy.t) (isSweepable : string -> bool) (gaps : list CoverageGap.t)
    (payload : LearningProbePayload.t) (runId : string) (now later : Z) (sweep : SweepArgs.t -> SweepOutcome) (db : Ledger) :
    Ledger * (string + LearningProbeResult.t) :=
  execute payload (planProbe autonomy isSweepable (spentTodayUsd db now) gaps) runId now later sweep db.

(** ** The budget of a customer's measurements (measurement-budget.ts) *)

Definition LEARNING_PERIOD_DAILY_CAP_USD : number := of_Z 3.
Definition MEASUREMENT_SHARE_OF_SERVING : number := lit 25 2.
Definition MEASUREMENT_MONTHLY_FLOOR_USD : number := one.
Definition MEASUREMENT_MONTHLY_CAP_USD : number := of_Z 30.

Inductive exhaustion := daily | monthly.

#[export] Instance exhaustion_eq_dec : EqDecision exhaustion.
Proof. solve_decision. Defined.

Module MeasurementBudget.
Record t := mk {
  remainingUsd : number;
  ceilingUsd : number;
  servingUsd30d : number;
  spentMonthUsd : number;
  spentTodayUsd : number;
  exhausted : option exhaustion;
}.
End MeasurementBudget.

Definition measurementCeilingUsd (servingUsd30d : number) : number :=
  let share := mul MEASUREMENT_SHARE_OF_SERVING (max zero servingUsd30d) in
  max MEASUREMENT_MONTHLY_FLOOR_USD (min MEASUREMENT_MONTHLY_CAP_USD share).

(** The three sums are reads of the request log. *)
Definition measurementBudgetFor (spentToday spentMonth serving30d : number) : MeasurementBudget.t :=
  let ceilingUsd := measurementCeilingUsd serving30d in
  let dailyLeft := sub LEARNING_PERIOD_DAILY_CAP_USD spentToday in
  let monthlyLeft := sub ceilingUsd spentMonth in
  let remainingUsd := max zero (min dailyLeft monthlyLeft) in
  MeasurementBudget.mk remainingUsd ceilingUsd serving30d spentMonth spentToday
    (if gtb remainingUsd (lit 5 2) then None else if leb dailyLeft monthlyLeft then Some daily else Some monthly).

Definition budgetExhaustedReason (b : MeasurementBudget.t) : string :=
  if bool_decide (MeasurementBudget.exhausted b = Some monthly) then
    "monthly measurement ceiling reached ($" +:+ toFixed 2 (MeasurementBudget.spentMonthUsd b) +:+ " of $"
    +:+ toFixed 2 (MeasurementBudget.ceilingUsd b) +:+ ", sized to $" +:+ toFixed 2 (MeasurementBudget.servingUsd30d b)
    +:+ " of serving over 30 days)"
  else "daily measurement cap reached ($" +:+ toFixed 2 (MeasurementBudget.spentTodayUsd b) +:+ " of $"
    +:+ toFixed 2 LEARNING_PERIOD_DAILY_CAP_USD +:+ ")".

End Learning.
