(* ===== verification/LearningSpec.v ===== *)
(** * What autonomous learning guarantees

    Jobs that run one after the other keep the day's ledger at the cap or at
    most the next double ([daily_cap_respected]); two that read the ledger
    before either writes to it do not ([concurrent_probes_overspend]).  The plan
    is the first gap a sweep can close ([plan_is_first_sweepable]), and a point
    of a model its filter lets through closes it ([filtered_point_closes]). *)

From S2P Require Import Prelude Number Rounding JsSort Types Print Program StatsSpec Store Shape Demand DemandMerge Coverage Learning.

Module LearningSpec.
Import Num Rounding StatsSpec Program Shape DemandMerge Coverage Learning.
Local Open Scope Z_scope.

(** ** Filling up to a cap *)

Lemma fin_positive c : fin c = true -> 0 < units c ->
  exists m e, c = S754_finite false m e /\ bounded prec emax m e = true /\ units c = mag m e.
Proof.
  intros Fc Hc. pose proof (units_nonpos _ Fc) as Hneg. destruct c as [| | |[] m e]; try (specialize (Hneg I); lia).
  exists m, e. split; [done|]. split; [by apply fin_spec in Fc|done].
Qed.

(** What is left below a cap, added to what was taken, passes the cap by less
    than the distance to the next double. *)
Lemma fill_to_cap c s p y :
  fin c = true -> fin s = true -> fin p = true -> fin y = true ->
  0 <= units s < units c -> 0 <= units p <= units (sub c s) -> units c < units y ->
  fin (add s p) = true /\ 0 <= units (add s p) <= units y.
Proof.
  intros Fc Fs Fp Fy Hs Hp Hy. destruct (fin_positive c Fc ltac:(lia)) as (m & e & -> & Hb & Uc).
  pose proof Hb as (He & Hm & Hnorm)%bounded_spec.
  set (u := 2 ^ (e - umin)). assert (0 < u) as Hu by (apply Z.pow_pos_nonneg; change umin with (-1074); lia).
  assert (units (S754_finite false m e) = Z.pos m * u) as U by done. rewrite U in *.
  set (v := Z.pos m * u - units s) in *. set (k := - (- v / u)).
  assert (v <= k * u < v + u) as Hk.
  { unfold k. pose proof (Z.div_mod (- v) u ltac:(lia)). pose proof (Z.mod_pos_bound (- v) u Hu). nia. }
  assert (0 <= k <= Z.pos m) as Hkm by nia.
  destruct (double_exists k e) as (w & Fw & Uw); [lia|lia|]. replace (e + 1074) with (e - umin) in Uw by (change umin with (-1074); lia).
  fold u in Uw. pose proof (sub_rounds _ s Fc Fs) as R. rewrite U in R. fold v in R.
  destruct (near_between _ _ _ zero w (rounds_near _ _ R)) as [Fr Hr]; [done|done|change (units zero) with 0; lia|].
  assert ((Z.pos m + 1) * u <= units y) as Hnext.
  { destruct (fin_positive y Fy ltac:(lia)) as (my & ey & -> & Hby & Uy). rewrite Uy in *. unfold u.
    apply (grid_above (Z.pos m) e my ey (mag my ey)); try done; try lia; change umin with (-1074) in *; lia. }
  apply (near_between _ _ _ zero y (add_near s p Fs Fp)); [done|done|]. change (units zero) with 0. lia.
Qed.

Lemma add_zero_units s z : fin s = true -> fin z = true -> units z = 0 -> fin (add s z) = true /\ units (add s z) = units s.
Proof. intros Fs Fz Uz. apply (rounds_exact (units s) _ s); [|done..]. pose proof (add_rounds s z Fs Fz) as R. by rewrite Uz, Z.add_0_r in R. Qed.

(** ** The autonomy *)

Lemma positive_units x : valid x = true -> positive x = true -> fin x = true /\ 0 < units x.
Proof.
  intros Hx [Hf Hp]%andb_prop. assert (fin x = true) as Fx by (unfold fin; by rewrite Hx, Hf). split; [done|]. unfold gtb in Hp. rewrite fin_ltb in Hp by done.
  by apply Z.ltb_lt in Hp.
Qed.

Lemma autonomy_caps daily perRun weight :
  valid daily = true -> valid perRun = true ->
  let a := learningAutonomyFromEnv daily perRun weight in
  fin (LearningAutonomy.dailyCapUsd a) = true /\ 0 <= units (LearningAutonomy.dailyCapUsd a) /\
  (LearningAutonomy.enabled a = true -> 0 < units (LearningAutonomy.dailyCapUsd a)) /\
  fin (LearningAutonomy.perRunCapUsd a) = true /\ 0 <= units (LearningAutonomy.perRunCapUsd a).
Proof.
  intros Hd Hp a. subst a. unfold learningAutonomyFromEnv. cbn [LearningAutonomy.dailyCapUsd LearningAutonomy.enabled LearningAutonomy.perRunCapUsd].
  set (run := if positive perRun then perRun else DEFAULT_PER_RUN_CAP_USD).
  assert (fin run = true /\ 0 <= units run) as [Fr Ur].
  { unfold run. destruct (positive perRun) eqn:E; [|split; vm_compute; congruence]. destruct (positive_units _ Hp E). split; [done|lia]. }
  destruct (positive daily) eqn:E.
  - destruct (positive_units _ Hd E) as [Fd Ud]. split; [done|]. split; [lia|]. split; [done|].
    destruct (truthy daily); [|rewrite min_self; done].
    destruct (min_units run daily Fr Fd) as [F U]. split; [done|]. rewrite U. lia.
  - split; [done|]. split; [vm_compute; congruence|]. split; [vm_compute; congruence|].
    change (truthy zero) with false. cbn iota. rewrite min_self. done.
Qed.

(** ** One job *)

Definition sums (b : Z * Z) (db : Ledger) : number := fold_left add (map counted (List.filter (started_in b) db)) zero.

Lemma sums_snoc b db r : sums b (db ++ [r]) = if started_in b r then add (sums b db) (counted r) else sums b db.
Proof.
  unfold sums. rewrite List.filter_app, map_app, fold_left_app. simpl. by destruct (started_in b r).
Qed.

Lemma update_last id patch db r :
  LearningRunRow.id r = id -> id ∉ map LearningRunRow.id db -> updateLearningRun id patch (db ++ [r]) = db ++ [patch r].
Proof.
  intros Er Hid. unfold updateLearningRun. rewrite map_app. f_equal; [|simpl; by rewrite bool_decide_eq_true_2].
  rewrite <- (map_id db) at 2. apply map_ext_in. intros x Hx%list_elem_of_In.
  rewrite bool_decide_eq_false_2; [done|]. intros E. apply Hid. rewrite <- E. by apply list_elem_of_fmap_2.
Qed.

(** A sweep that keeps to its cap: what it reports is between nothing and it. *)
Definition keeps_to_cap (sweep : SweepArgs.t -> SweepOutcome) : Prop :=
  forall args spend points, fin (SweepArgs.capUsd args) = true -> 0 <= units (SweepArgs.capUsd args) ->
    sweep args = Swept spend points -> fin spend = true /\ 0 <= units spend <= units (SweepArgs.capUsd args).

(** Whatever it decides the job adds one row; it counts nothing, or at most the
    projection of the plan. *)
Lemma execute_row payload decision runId now later sweep db :
  runId ∉ map LearningRunRow.id db -> keeps_to_cap sweep ->
  exists r, (execute payload decision runId now later sweep db).1 = db ++ [r] /\ LearningRunRow.startedAt r = now /\
    LearningRunRow.id r = runId /\
    (counted r = zero \/ exists p, decision = inr p /\
       (fin (projection payload p) = true -> 0 <= units (projection payload p) ->
        fin (counted r) = true /\ 0 <= units (counted r) <= units (projection payload p))).
Proof.
  intros Hid Hs. unfold execute, insertLearningRun. destruct decision as [q|p].
  - eexists. split; [reflexivity|]. split; [done|]. split; [done|]. by left.
  - destruct (bool_decide (LearningProbePayload.dryRun payload = Some true)).
    + eexists. split; [reflexivity|]. split; [done|]. split; [done|]. by left.
    + destruct (sweep _) as [spend points|message] eqn:E; cbn [fst]; rewrite update_last by done;
        (eexists; split; [reflexivity|]; split; [done|]; split; [done|]; right; exists p; split; [done|]).
      * intros F U. exact (Hs (SweepArgs.mk _ _ _ _) _ _ F U E).
      * intros F U. split; [done|]. split; [done|apply Z.le_refl].
Qed.

(** A job as it was delivered. *)
Module Job.
Record t := mk {
  gaps : list CoverageGap.t;
  payload : LearningProbePayload.t;
  runId : string;
  now : Z;
  later : Z;
  sweep : SweepArgs.t -> SweepOutcome;
}.
End Job.

Section Cap.

Context (isSweepable : string -> bool) (autonomy : LearningAutonomy.t).

(** Jobs one after the other. *)
Definition jobs_run (jobs : list Job.t) (db : Ledger) : Ledger :=
  fold_left (fun db j => (probe autonomy isSweepable (Job.gaps j) (Job.payload j) (Job.runId j) (Job.now j) (Job.later j) (Job.sweep j) db).1) jobs db.

Definition job_ok (j : Job.t) : Prop :=
  keeps_to_cap (Job.sweep j) /\
  forall c, LearningProbePayload.capUsd (Job.payload j) = Some c -> fin c = true /\ 0 <= units c.

Context (y : number).
Hypothesis caps : fin (LearningAutonomy.dailyCapUsd autonomy) = true /\ fin (LearningAutonomy.perRunCapUsd autonomy) = true /\
  0 <= units (LearningAutonomy.perRunCapUsd autonomy) /\ 0 <= units (LearningAutonomy.dailyCapUsd autonomy).
Hypothesis above : fin y = true /\ units (LearningAutonomy.dailyCapUsd autonomy) < units y.

Definition within (b : Z * Z) (db : Ledger) : Prop := fin (sums b db) = true /\ 0 <= units (sums b db) <= units y.

Lemma started_day (at_ t : Z) : started_in (utcDayBounds at_) (refused_row "" t "") = true -> utcDayBounds at_ = utcDayBounds t.
Proof.
  unfold started_in, utcDayBounds. change DAY_MS with 86400000. cbn [fst snd LearningRunRow.startedAt refused_row]. intros [H1%Z.leb_le H2%Z.ltb_lt]%andb_prop.
  assert (at_ / 86400000 = t / 86400000) as E by (apply Z.div_unique with (t - at_ / 86400000 * 86400000); lia).
  by rewrite E.
Qed.

Lemma started_in_at b r r' : LearningRunRow.startedAt r = LearningRunRow.startedAt r' -> started_in b r = started_in b r'.
Proof. unfold started_in. by intros ->. Qed.

(** The projection never exceeds what the day has left. *)
Lemma projection_bound gaps payload spent p :
  fin spent = true -> 0 <= units spent ->
  (forall c, LearningProbePayload.capUsd payload = Some c -> fin c = true /\ 0 <= units c) ->
  planProbe autonomy isSweepable spent gaps = inr p ->
  units spent < units (LearningAutonomy.dailyCapUsd autonomy) /\ fin (projection payload p) = true /\
  0 <= units (projection payload p) <= units (sub (LearningAutonomy.dailyCapUsd autonomy) spent).
Proof.
  destruct caps as (Fd & Fr & Ur & Ud). intros Fs Us Hpay. unfold planProbe.
  destruct (negb (LearningAutonomy.enabled autonomy)); [done|]. set (remaining := sub _ spent).
  destruct (leb remaining zero) eqn:El; [done|]. destruct gaps as [|g gaps]; [done|].
  destruct (first_sweepable _ _ _) as [skipped [gap|]]; [|done]. intros [= <-].
  pose proof (sub_rounds _ _ Fd Fs) as R. fold remaining in R.
  destruct (near_between _ _ _ zero (LearningAutonomy.dailyCapUsd autonomy) (rounds_near _ _ R)) as [Frem Urem]; [done|done|change (units zero) with 0|].
  { split; [|lia]. destruct (Z.le_gt_cases 0 (units (LearningAutonomy.dailyCapUsd autonomy) - units spent)) as [|Hneg]; [lia|].
    exfalso. assert (leb remaining zero = true) by (apply (rounds_above _ _ R); [done|change (units zero) with 0; lia]). congruence. }
  rewrite fin_leb in El by done. change (units zero) with 0 in *. apply Z.leb_gt in El.
  destruct (min_units _ remaining Fr Frem) as [Fm Um].
  split; [|].
  { destruct (Z.lt_ge_cases (units spent) (units (LearningAutonomy.dailyCapUsd autonomy))) as [|Hge]; [done|].
    exfalso. assert (leb remaining zero = true) as H by (apply (rounds_above _ _ R); [done|change (units zero) with 0; lia]).
    rewrite fin_leb in H by done. change (units zero) with 0 in H. apply Z.leb_le in H. lia. }
  unfold projection. cbn [ProbePlan.capUsd]. destruct (LearningProbePayload.capUsd payload) as [c|] eqn:Ec.
  - destruct (Hpay c eq_refl) as [Fc Uc]. destruct (min_units c _ Fc Fm) as [F U]. rewrite U, Um. split; [done|]. lia.
  - split; [done|]. rewrite Um. lia.
Qed.

Lemma probe_within j db : job_ok j -> Job.runId j ∉ map LearningRunRow.id db -> (forall at_, within (utcDayBounds at_) db) ->
  let db' := (probe autonomy isSweepable (Job.gaps j) (Job.payload j) (Job.runId j) (Job.now j) (Job.later j) (Job.sweep j) db).1 in
  (forall at_, within (utcDayBounds at_) db') /\ map LearningRunRow.id db' = map LearningRunRow.id db ++ [Job.runId j].
Proof.
  destruct above as [Fy Hy]. intros [Hs Hpay] Hid W. unfold probe.
  destruct (execute_row (Job.payload j) (planProbe autonomy isSweepable (spentTodayUsd db (Job.now j)) (Job.gaps j)) (Job.runId j)
    (Job.now j) (Job.later j) (Job.sweep j) db Hid Hs) as (r & E & Ht & Ei & Hc). cbv zeta. rewrite E.
  split; [|by rewrite map_app; simpl; rewrite Ei].
  intros at_. unfold within. rewrite sums_snoc. destruct (started_in (utcDayBounds at_) r) eqn:Ed; [|apply W].
  rewrite (started_in_at _ _ (refused_row "" (Job.now j) "")) in Ed by done. apply started_day in Ed. rewrite Ed.
  destruct (W (Job.now j)) as [Fs Us]. destruct Hc as [->|(p & Hp & Hc)].
  { destruct (add_zero_units (sums (utcDayBounds (Job.now j)) db) zero Fs eq_refl eq_refl) as [F U]. rewrite U. done. }
  change (spentTodayUsd db (Job.now j)) with (sums (utcDayBounds (Job.now j)) db) in Hp.
  destruct (projection_bound _ _ _ _ Fs (proj1 Us) Hpay Hp) as (Hlt & Fp & Up).
  assert (fin (counted r) = true /\ 0 <= units (counted r) <= units (projection (Job.payload j) p)) as [Fc Uc]
    by (apply Hc; [done|lia]).
  apply (fill_to_cap (LearningAutonomy.dailyCapUsd autonomy)); try done; [apply caps|lia|lia].
Qed.

Lemma jobs_within jobs : forall db, Forall job_ok jobs -> NoDup (map LearningRunRow.id db ++ map Job.runId jobs) ->
  (forall at_, within (utcDayBounds at_) db) -> forall at_, within (utcDayBounds at_) (jobs_run jobs db).
Proof.
  induction jobs as [|j jobs IH]; intros db Hok Hnd W; [done|]. inversion Hok as [|? ? Hj Hjs]; subst.
  cbn [map] in Hnd. assert (Job.runId j ∉ map LearningRunRow.id db) as Hid
    by (apply NoDup_app in Hnd as (_ & H & _); intros Hin; apply (H _ Hin); left).
  destruct (probe_within j db Hj Hid W) as [W' E]. cbn [jobs_run fold_left]. apply IH; [done| |done].
  rewrite E, <- app_assoc. exact Hnd.
Qed.

End Cap.


(** ** The plan *)

Definition sweepable (isSweepable : string -> bool) (g : CoverageGap.t) : bool :=
  negb (bool_decide (DemandCellRow.bucketKind (CoverageGap.cell g) = unassigned)) && isSweepable (DemandCellRow.bucket (CoverageGap.cell g)).

Definition key_of_gap (g : CoverageGap.t) : string := DemandCellRow.cellKey (CoverageGap.cell g).

Lemma first_sweepable_spec isSweepable gaps : forall skipped,
  match first_sweepable isSweepable gaps skipped with
  | (skipped', None) => Forall (fun g => sweepable isSweepable g = false) gaps /\ map fst skipped' = map fst skipped ++ map key_of_gap gaps
  | (skipped', Some g) => exists before after, gaps = before ++ g :: after /\ sweepable isSweepable g = true /\
      Forall (fun g => sweepable isSweepable g = false) before /\ map fst skipped' = map fst skipped ++ map key_of_gap before
  end.
Proof.
  induction gaps as [|g gaps IH]; intros skipped; cbn [first_sweepable]; [split; [constructor|by rewrite app_nil_r]|].
  assert (forall reason, sweepable isSweepable g = false ->
    match first_sweepable isSweepable gaps (skipped ++ [(key_of_gap g, reason)]) with
    | (skipped', None) => Forall (fun g => sweepable isSweepable g = false) (g :: gaps) /\ map fst skipped' = map fst skipped ++ map key_of_gap (g :: gaps)
    | (skipped', Some g') => exists before after, g :: gaps = before ++ g' :: after /\ sweepable isSweepable g' = true /\
        Forall (fun g => sweepable isSweepable g = false) before /\ map fst skipped' = map fst skipped ++ map key_of_gap before
    end) as Hskip.
  { intros reason Hg. specialize (IH (skipped ++ [(key_of_gap g, reason)])). destruct (first_sweepable _ _ _) as [sk [g'|]].
    - destruct IH as (b & a & -> & Hs & Hb & Hk). exists (g :: b), a. split; [done|]. split; [done|]. split; [by constructor|].
      rewrite Hk, map_app, <- app_assoc. done.
    - destruct IH as [Hf Hk]. split; [by constructor|]. rewrite Hk, map_app, <- app_assoc. done. }
  fold (key_of_gap g). destruct (bool_decide _) eqn:Eu; [apply Hskip; unfold sweepable; by rewrite Eu|].
  destruct (isSweepable _) eqn:Es; cbn [negb]; [|apply Hskip; unfold sweepable; by rewrite Eu, Es].
  exists [], gaps. split; [done|]. split; [unfold sweepable; by rewrite Eu, Es|]. split; [constructor|by rewrite app_nil_r].
Qed.

(** A plan is made exactly when spending is enabled, something is left of the
    day, and some gap can be swept; it is for the first such gap of the
    ranking, capped by the run's cap and by what is left, narrowed as the gap's
    reason says, and it names every gap it passed over.  A refusal names the
    condition that failed. *)
Theorem plan_is_first_sweepable autonomy isSweepable spent gaps :
  let remaining := sub (LearningAutonomy.dailyCapUsd autonomy) spent in
  match planProbe autonomy isSweepable spent gaps with
  | inr p => LearningAutonomy.enabled autonomy = true /\ leb remaining zero = false /\
      exists before after, gaps = before ++ ProbePlan.gap p :: after /\ Forall (fun g => sweepable isSweepable g = false) before /\
        sweepable isSweepable (ProbePlan.gap p) = true /\ map fst (ProbePlan.skipped p) = map key_of_gap before /\
        ProbePlan.clusterId p = DemandCellRow.bucket (CoverageGap.cell (ProbePlan.gap p)) /\
        ProbePlan.capUsd p = min (LearningAutonomy.perRunCapUsd autonomy) remaining /\
        ProbePlan.capabilityFilter p = capabilityFilterFor (ProbePlan.gap p)
  | inl r =>
      match ProbeRefusal.refusal r with
      | not_authorized => LearningAutonomy.enabled autonomy = false
      | daily_cap_exhausted => LearningAutonomy.enabled autonomy = true /\ leb remaining zero = true
      | no_gaps => LearningAutonomy.enabled autonomy = true /\ leb remaining zero = false /\ gaps = []
      | no_sweepable_gap => LearningAutonomy.enabled autonomy = true /\ leb remaining zero = false /\
          Forall (fun g => sweepable isSweepable g = false) gaps /\ map fst (ProbeRefusal.skipped r) = map key_of_gap gaps
      end
  end.
Proof.
  unfold planProbe. destruct (LearningAutonomy.enabled autonomy) eqn:Ee; cbn [negb]; [|done].
  destruct (leb _ zero) eqn:El; [done|]. destruct gaps as [|g0 gaps0]; [done|].
  pose proof (first_sweepable_spec isSweepable (g0 :: gaps0) []) as H.
  destruct (first_sweepable isSweepable (g0 :: gaps0) []) as [sk [g|]]; cbn -[first_sweepable leb sub min].
  - destruct H as (b & a & E & Hs & Hb & Hk). split; [done|]. split; [done|]. by exists b, a.
  - destruct H as [Hf Hk]. done.
Qed.

(** ** What a filtered sweep can close *)

Lemma max_above_both a b : is_nan a = false -> is_nan b = false ->
  is_nan (max a b) = false /\ leb a (max a b) = true /\ leb b (max a b) = true.
Proof.
  intros Ha Hb. destruct (ltb a b) eqn:E.
  - rewrite (max_above _ _ E). split; [done|]. split; [by apply ltb_leb|by apply leb_refl].
  - pose proof (not_ltb_leb _ _ Ha Hb E) as L. unfold max. rewrite Ha, Hb, E. cbn [orb].
    destruct a as [sa| | |sa ma ea], b as [sb| | |sb mb eb]; (split; [done|]); split; try (by apply leb_refl); try exact L; done.
Qed.

Lemma min_not_nan a b : is_nan a = false -> is_nan b = false -> is_nan (min a b) = false.
Proof.
  intros Ha Hb. unfold min. rewrite Ha, Hb. cbn [orb]. destruct a, b; try done; by destruct (ltb _ _).
Qed.

Definition contexts_known (catalog : Catalog) : Prop :=
  forall r c, r ∈ catalog -> CatalogRow.contextLength r = Some c -> fin c = true.

Lemma get_in catalog alias r : get catalog alias = Some r -> r ∈ catalog.
Proof. intros [H _]%find_some. apply list_elem_of_In, in_rev. by apply list_elem_of_In, list_elem_of_In. Qed.

Lemma window_not_nan catalog p w : contexts_known catalog -> window catalog p = Some w -> is_nan w = false.
Proof.
  intros Hc. unfold window. destruct (mapM _ _) as [ws|] eqn:E; [|done]. cbn [mbind option_bind]. intros [= <-].
  assert (Forall (fun w => is_nan w = false) ws) as Hws.
  { apply mapM_Some in E. unfold entries_of in E. revert ws E. generalize (strategyModels (FrontierPoint.strategyConfig p)) as ms.
    induction ms as [|m ms IH]; intros ws E; simpl in E; [by inversion E|]. inversion E as [|? ? ? ws' Hm Hrest]; subst. constructor; [|by apply IH].
    destruct (get catalog m) as [r|] eqn:Eg; [|done]. apply fin_not_nan, (Hc r); [by apply (get_in _ m)|done]. }
  generalize Infinity (eq_refl : is_nan Infinity = false). clear E. induction Hws as [|v ws Hv Hws IH]; intros acc Ha; [done|].
  simpl. by apply IH, min_not_nan.
Qed.

(** The widest window is at least that of each point. *)
Lemma widest_ge catalog points : contexts_known catalog -> forall acc p w, p ∈ points -> window catalog p = Some w ->
  (forall a, acc = Some a -> is_nan a = false) ->
  exists m, fold_left (fun acc p => widest acc (window catalog p)) points acc = Some m /\ is_nan m = false /\ leb w m = true.
Proof.
  intros Hc. assert (forall ps a, is_nan a = false ->
    exists m, fold_left (fun acc p => widest acc (window catalog p)) ps (Some a) = Some m /\ is_nan m = false /\ leb a m = true) as Hkeep.
  { induction ps as [|q ps IH]; intros a Ha; simpl; [exists a; split; [done|]; split; [done|by apply leb_refl]|].
    destruct (window catalog q) as [v|] eqn:Ev; simpl; [|by apply IH].
    destruct (max_above_both a v Ha (window_not_nan _ _ _ Hc Ev)) as (Hn & Hl & _).
    destruct (IH _ Hn) as (m & E & Hm & Hl'). exists m. split; [done|]. split; [done|]. by apply (leb_trans _ (max a v)). }
  induction points as [|q points IH]; intros acc p w Hp Hw Hacc; [by apply elem_of_nil in Hp|]. simpl.
  apply elem_of_cons in Hp as [->|Hp].
  - rewrite Hw. pose proof (window_not_nan _ _ _ Hc Hw) as Hn. destruct acc as [a|]; simpl; [|by apply Hkeep].
    destruct (max_above_both a w (Hacc a eq_refl) Hn) as (Hn' & _ & Hl). destruct (Hkeep points _ Hn') as (m & E & Hm & Hl').
    exists m. split; [done|]. split; [done|]. by apply (leb_trans _ (max a w)).
  - apply (IH _ p); [done|done|]. intros a. destruct (window catalog q) as [v|] eqn:Ev; simpl.
    + pose proof (window_not_nan _ _ _ Hc Ev). destruct acc as [b|]; intros [= <-]; [|done].
      by apply max_above_both; [apply Hacc|].
    + apply Hacc.
Qed.

Lemma of_Z_nonzero n : 0 < n < 2 ^ 53 -> eqb (of_Z n) zero = false.
Proof.
  intros Hn. destruct (of_Z_exact n ltac:(lia)) as [F U]. rewrite eqb_cmp by (done || by apply fin_not_nan).
  rewrite fin_cmp by done. rewrite U. change (units zero) with 0. destruct (Z.compare_spec (n * 2 ^ 1074) 0) as [E|E|E]; [|done..].
  pose proof (Z.pow_pos_nonneg 2 1074 ltac:(lia) ltac:(lia)) as P. revert E P. generalize (2 ^ 1074). intros; nia.
Qed.

Lemma required_not_nan s : is_nan (required_tokens s) = false.
Proof.
  unfold required_tokens. assert (forall chars, is_nan (let m := charBucketMax chars in
    if is_finite m then ceil (div m CHARS_PER_TOKEN) else ceil (div (of_Z 256000) CHARS_PER_TOKEN)) = false) as H.
  { intros chars. unfold charBucketMax. destruct (find _ CHAR_BUCKETS) as [b|] eqn:E; [|vm_compute; reflexivity].
    apply find_some in E as [Hin _]. unfold CHAR_BUCKETS in Hin. cbn [In] in Hin.
    repeat (destruct Hin as [<-|Hin]; [vm_compute; reflexivity|]). destruct Hin. }
  destruct s as [s|]; [apply H|vm_compute; reflexivity].
Qed.

(** A live single point of a model that the gap's filter lets through, once on
    the cluster's frontier, closes the gap: the cell is no longer uncovered for
    that reason. *)
Theorem filtered_point_closes db catalog weight prioritized inc c g f alias frontier point :
  gap_of db catalog weight prioritized inc c = Some g ->
  capabilityFilterFor g = Some f -> capable catalog f alias = true ->
  point ∈ Frontier.points frontier -> FrontierPoint.providerMode point = Some live ->
  FrontierPoint.strategyConfig point = single alias ->
  contexts_known catalog -> (Z.of_nat (length (Frontier.points frontier)) < 2 ^ 53)%Z ->
  CoverageVerdict.reason (assessCoverage (coverage_cell c) (clusterEvidence catalog (Some frontier))) <>
    CoverageVerdict.reason (CoverageGap.verdict g).
Proof.
  intros Hg Hf Hcap Hp Hlive Hsingle Hctx Hlen.
  assert (CoverageVerdict.requiredContextTokens (CoverageGap.verdict g) = required_tokens (parseShapeClass (CoverageCell.shapeClass (coverage_cell c)))) as Er.
  { unfold gap_of in Hg. set (v := assessCoverage _ _) in Hg. assert (CoverageVerdict.requiredContextTokens v = required_tokens (parseShapeClass (CoverageCell.shapeClass (coverage_cell c)))) as <-.
    { unfold v, assessCoverage. cbv zeta. by repeat match goal with |- context [if ?b then _ else _] => destruct b | |- context [match evidence_for ?a ?b ?d with _ => _ end] => destruct (evidence_for a b d) end. }
    destruct (_ && _) in Hg; [done|]. injection Hg as <-. cbn [CoverageGap.verdict]. by destruct (bool_decide _). }
  set (points := List.filter is_live (Frontier.points frontier)).
  assert (point ∈ points) as Hin by (apply elem_filter; split; [done|]; unfold is_live; by apply bool_decide_eq_true).
  assert (entries_of catalog point = [get catalog alias]) as Ee by (unfold entries_of; by rewrite Hsingle).
  unfold capabilityFilterFor in Hf. destruct (CoverageVerdict.reason (CoverageGap.verdict g)) eqn:Ereason; try done; injection Hf as <-.
  - assert (tool_capable catalog point = true) as Htool.
    { unfold tool_capable. rewrite Ee, Hsingle. cbn [is_single forallb]. unfold capable in Hcap. cbn [CapabilityFilter.tools CapabilityFilter.vision CapabilityFilter.minContextTokens] in Hcap.
      destruct (bool_decide _); done. }
    assert (eqb (of_Z (Z.of_nat (length (List.filter (tool_capable catalog) points)))) zero = false) as Hn.
    { assert (point ∈ List.filter (tool_capable catalog) points) as Hin' by (by apply elem_filter).
      assert (length (List.filter (tool_capable catalog) points) <> 0)%nat as Hne by (intros E%nil_length_inv; rewrite E in Hin'; by apply elem_of_nil in Hin').
      pose proof (Demand.filter_length_le (tool_capable catalog) points). pose proof (Demand.filter_length_le is_live (Frontier.points frontier)). fold points in H0.
      apply of_Z_nonzero; lia. }
    unfold assessCoverage, clusterEvidence. cbn [mbind option_bind]. fold points. cbv zeta.
    cbn [CoverageEvidence.toolCapablePoints CoverageEvidence.livePoints CoverageEvidence.maxContextTokens]. rewrite Hn, andb_false_r.
    repeat match goal with |- context [if ?b then _ else _] => destruct b end; done.
  - rewrite Er in Hcap. unfold capable in Hcap. cbn [CapabilityFilter.tools CapabilityFilter.vision CapabilityFilter.minContextTokens negb andb] in Hcap.
    destruct (get catalog alias ≫= CatalogRow.contextLength) as [cl|] eqn:Ecl; [|done]. apply negb_true_iff in Hcap.
    set (req := required_tokens _) in *.
    assert (fin cl = true) as Fcl by (destruct (get catalog alias) as [r|] eqn:Eg; [|done]; apply (Hctx r); [by apply (get_in _ alias)|done]).
    assert (window catalog point = Some (min Infinity cl)) as Hw by (unfold window; rewrite Ee; simpl; rewrite Ecl; done).
    destruct (widest_ge catalog points Hctx None point _ Hin Hw ltac:(done)) as (m & Em & Hm & Hl).
    assert (min Infinity cl = cl) as Emin by (destruct cl as [[]| | |[] ? ?]; done). rewrite Emin in Hl.
    assert (ltb m req = false) as Hlt.
    { apply leb_not_ltb, (leb_trans _ cl); [|done]. apply not_ltb_leb; [by apply fin_not_nan|by apply required_not_nan|done]. }
    unfold assessCoverage, clusterEvidence. cbn [mbind option_bind]. fold points. fold req. cbv zeta.
    cbn [CoverageEvidence.toolCapablePoints CoverageEvidence.livePoints CoverageEvidence.maxContextTokens]. rewrite Em, Hlt.
    repeat match goal with |- context [if ?b then _ else _] => destruct b end; done.
Qed.

(** ** Concrete inputs *)

Definition a_cell : DemandCellRow.t :=
  DemandCellRow.mk "a" "code-gen" cluster "tools/sync/0-1k" "2026-01-05" 40 5 None None 0 None 1767700000000.

Definition catalog1 : Catalog := [CatalogRow.mk "cheap" (Some true) None (Some (of_Z 8000))].

(** A cluster with one live point of a model without tools. *)
Definition plain_point : FrontierPoint.t :=
  FrontierPoint.mk "code-gen" "h1" (single "other") (lit 9 1) one (of_Z 900) (Some live) None.

Definition a_gap : CoverageGap.t :=
  CoverageGap.mk (assessCoverage (coverage_cell a_cell) (Some (CoverageEvidence.mk one zero None))) a_cell
    (Some (CoverageEvidence.mk one zero None)).

Definition dollar : LearningAutonomy.t := learningAutonomyFromEnv one (of_Z 5) (of_Z 2).
Definition no_payload : LearningProbePayload.t := LearningProbePayload.mk None None None None.
Definition spends_all (args : SweepArgs.t) : SweepOutcome := Swept (SweepArgs.capUsd args) 3.
Definition noon : Z := 1767700000000.

(** Two deliveries that both read the ledger before either has written to it
    each commit the whole day: a cap of one dollar authorizes two. *)
Theorem concurrent_probes_overspend :
  exists p, planProbe dollar (fun _ => true) (spentTodayUsd [] noon) [a_gap] = inr p /\
    ProbePlan.capUsd p = one /\
    let first := (execute no_payload (inr p) "run-1" noon (noon + 1) spends_all []).1 in
    let both := (execute no_payload (inr p) "run-2" noon (noon + 1) spends_all first).1 in
    spentTodayUsd both noon = of_Z 2 /\ ltb (LearningAutonomy.dailyCapUsd dollar) (spentTodayUsd both noon) = true.
Proof.
  eexists. split; [vm_compute; reflexivity|]. split; [vm_compute; reflexivity|]. split; vm_compute; reflexivity.
Qed.

(** Two jobs one after the other under the same cap: the second is refused. *)
Definition a_job (id : string) : Job.t := Job.mk [a_gap] no_payload id noon (noon + 1) spends_all.


Definition tool_point : FrontierPoint.t :=
  FrontierPoint.mk "code-gen" "h2" (single "cheap") (lit 9 1) one (of_Z 900) (Some live) None.

(** A database in which the cluster's frontier has no tool-capable point, and
    the frontier after a sweep measured one. *)
Definition before : Store.PotionDb :=
  default Store.empty_db (fst <$> Store.saveFrontier Store.empty_db
    (Store.SaveArgs.mk "code-gen" [plain_point] new_model "p1" (Store.SaveFrontierOpts.mk None None None)) (fun _ => ("u", "2026-01-05"))).

Definition measured : Frontier.t := Frontier.mk "f" "code-gen" 2 None new_model [plain_point; tool_point] "p1" None "2026-01-06" None.

Definition tool_gap : CoverageGap.t :=
  default a_gap (gap_of before catalog1 one ∅ false a_cell).

Lemma filtered_point_closes_witness :
  CoverageVerdict.reason (CoverageGap.verdict tool_gap) = no_tool_capable_point /\
  CoverageVerdict.reason (assessCoverage (coverage_cell a_cell) (clusterEvidence catalog1 (Some measured))) <>
    CoverageVerdict.reason (CoverageGap.verdict tool_gap).
Proof.
  split; [vm_compute; reflexivity|].
  apply (filtered_point_closes before catalog1 one ∅ false a_cell tool_gap (CapabilityFilter.mk true None false) "cheap" measured tool_point).
  - vm_compute. reflexivity.
  - vm_compute. reflexivity.
  - vm_compute. reflexivity.
  - right. left.
  - reflexivity.
  - reflexivity.
  - intros r c ->%list_elem_of_singleton E. injection E as <-. vm_compute. reflexivity.
  - vm_compute. reflexivity.
Defined.

End LearningSpec.
