(* ===== verification/Statements.v ===== *)
(** * Handlers over a shared database

    A job handler or a route runs to its next [await]; what it awaits here is
    one statement of the database (or the clock).  [proc] is its code as a tree:
    the statement it sends, how it goes on with the answer, and how it goes on
    when the statement fails, which is what [try]/[catch] sees.

    [step] interleaves any number of such processes over one database: each
    event answers the next statement of one of them, or loses it, applied or
    not; a process that gets no further event has crashed.  [alone] is a process
    nothing interrupts.  [ok] is the proof rule: an invariant [Inv] and a relation
    [Rel] that every statement keeps, whatever the others do between two
    statements, which [system_ok] turns into a theorem about every run. *)

From S2P Require Import Prelude.

Module Statements.

(** What a statement takes from outside: the clock and a generated identifier. *)
Record tick := Tick { now : Z; uuid : string }.

Inductive proc (db A : Type) : Type :=
| Ret (a : A)
| Throw (e : string)
| Stmt (X : Type) (q : tick -> db -> db * X) (k : X -> proc db A) (h : string -> proc db A).
Arguments Ret {db A} a.
Arguments Throw {db A} e.
Arguments Stmt {db A} X q k h.

Section Procs.
Context {db : Type}.

#[global] Instance proc_ret : MRet (proc db) := fun A => Ret.
#[global] Instance proc_bind : MBind (proc db) := fun A B f =>
  fix go p :=
    match p with
    | Ret a => f a
    | Throw e => Throw e
    | Stmt X q k h => Stmt X q (fun x => go (k x)) (fun e => go (h e))
    end.

(** [try { p } catch (e) { handler }]. *)
Fixpoint catch {A} (p : proc db A) (handler : string -> proc db A) : proc db A :=
  match p with
  | Ret a => Ret a
  | Throw e => handler e
  | Stmt X q k h => Stmt X q (fun x => catch (k x) handler) (fun e => catch (h e) handler)
  end.

Definition exec {X} (q : tick -> db -> db * X) : proc db X := Stmt X q Ret Throw.
Definition query {X} (f : db -> X) : proc db X := exec (fun _ d => (d, f d)).
Definition new_Date : proc db Z := exec (fun t d => (d, now t)).
Definition of_option {A} (e : string) (o : option A) : proc db A := match o with Some a => Ret a | None => Throw e end.

Fixpoint for_each {X} (l : list X) (f : X -> proc db unit) : proc db unit :=
  match l with [] => Ret tt | x :: l => f x ≫= fun _ => for_each l f end.

(** ** Uninterrupted *)

(** Every statement is answered: the database, the number of statements and
    what was returned or thrown. *)
Fixpoint alone {A} (ticks : nat -> tick) (i : nat) (p : proc db A) (d : db) : db * nat * (string + A) :=
  match p with
  | Ret a => (d, i, inr a)
  | Throw e => (d, i, inl e)
  | Stmt X q k h => let '(d, x) := q (ticks i) d in alone ticks (S i) (k x) d
  end.

Lemma alone_bind {A B} ticks (p : proc db A) (f : A -> proc db B) i d :
  alone ticks i (p ≫= f) d =
  match alone ticks i p d with
  | (d, i, inr a) => alone ticks i (f a) d
  | (d, i, inl e) => (d, i, inl e)
  end.
Proof.
  revert i d. induction p as [a|e|X q k IH h _]; intros i d; cbn; [done..|].
  destruct (q (ticks i) d) as [d' x]. apply IH.
Qed.

Lemma alone_exec {X A} ticks i (q : tick -> db -> db * X) (f : X -> proc db A) d :
  alone ticks i (exec q ≫= f) d = alone ticks (S i) (f (q (ticks i) d).2) (q (ticks i) d).1.
Proof. cbn. by destruct (q (ticks i) d). Qed.

Lemma alone_query {X A} ticks i (g : db -> X) (f : X -> proc db A) d : alone ticks i (query g ≫= f) d = alone ticks (S i) (f (g d)) d.
Proof. done. Qed.

Lemma alone_clock {A} ticks i (f : Z -> proc db A) d : alone ticks i (new_Date ≫= f) d = alone ticks (S i) (f (now (ticks i))) d.
Proof. done. Qed.

Lemma alone_catch {A} ticks (p : proc db A) handler i d :
  alone ticks i (catch p handler) d =
  match alone ticks i p d with
  | (d, i, inl e) => alone ticks i (handler e) d
  | r => r
  end.
Proof.
  revert i d. induction p as [a|e|X q k IH h _]; intros i d; cbn; [done..|].
  destruct (q (ticks i) d) as [d' x]. apply IH.
Qed.

(** ** Interleaved *)

Section System.
Context {A : Type}.
(** Which clock readings and identifiers the outside may supply. *)
Context (admissible : tick -> db -> bool).

Record system := System { store : db; pool : gmap nat (proc db A) }.

Inductive event :=
| Start (n : nat) (p : proc db A)
| Answer (n : nat) (t : tick)
| Lose (n : nat) (t : tick) (applied : bool) (e : string).

Definition step (ev : event) (s : system) : option system :=
  match ev with
  | Start n p => match pool s !! n with Some _ => None | None => Some (System (store s) (<[n := p]> (pool s))) end
  | Answer n t =>
      match pool s !! n with
      | Some (Stmt X q k h) =>
          if admissible t (store s) then let '(d, x) := q t (store s) in Some (System d (<[n := k x]> (pool s))) else None
      | _ => None
      end
  | Lose n t applied e =>
      match pool s !! n with
      | Some (Stmt X q k h) =>
          if applied && negb (admissible t (store s)) then None
          else Some (System (if applied then (q t (store s)).1 else store s) (<[n := h e]> (pool s)))
      | _ => None
      end
  end.

Fixpoint run (evs : list event) (s : system) : option system :=
  match evs with [] => Some s | ev :: evs => step ev s ≫= run evs end.

Lemma run_app evs evs' s : run (evs ++ evs') s = run evs s ≫= run evs'.
Proof. revert s. induction evs as [|ev evs IH]; intros s; [done|]. cbn. by destruct (step ev s); cbn; rewrite ?IH. Qed.

(** A process that is not interrupted does what [alone] says. *)
Lemma run_alone n p ticks i s d j r :
  pool s !! n = Some p -> alone ticks i p (store s) = (d, j, inr r) ->
  (forall k d', (i <= k < j)%nat -> admissible (ticks k) d' = true) ->
  run (map (fun k => Answer n (ticks k)) (seq i (j - i))) s = Some (System d (<[n := Ret r]> (pool s))).
Proof.
  revert i s. induction p as [a|e|X q k IH h _]; intros i s Hn Ha Hadm; cbn in Ha.
  - injection Ha as <- <- <-. rewrite Nat.sub_diag. cbn. rewrite insert_id by done. by destruct s.
  - done.
  - destruct (q (ticks i) (store s)) as [d' x] eqn:E.
    assert (i < j)%nat as Hlt.
    { clear -Ha. revert Ha. generalize (k x) d'. intros p d0 Ha.
      enough (S i <= j)%nat by lia. revert Ha. generalize (S i). clear i k x d'. revert d0.
      induction p as [a|e|X' q k IH h _]; intros d0 i Ha; cbn in Ha; [injection Ha as _ <- _; lia|done|].
      destruct (q (ticks i) d0) as [d' x]. apply IH in Ha. lia. }
    replace (j - i)%nat with (S (j - S i)) by lia. cbn [seq map run step]. rewrite Hn, Hadm by lia. rewrite E. cbn [mbind option_bind].
    rewrite (IH x (S i) (System d' (<[n := k x]> (pool s)))); cbn [store pool]; [by rewrite insert_insert_eq|by rewrite lookup_insert_eq|done|].
    intros m d0 Hm. apply Hadm. lia.
Qed.

End System.

(** ** Rely and guarantee *)

Section Rely.
Context (admissible : tick -> db -> bool).
Context (Inv : db -> Prop) (Rel : db -> db -> Prop) `{!PreOrder Rel}.

(** [p], started when the database is [d], keeps the invariant and the relation
    with each of its statements and returns only what [Φ] allows, when the
    others keep both too. *)
Fixpoint ok {A} (Φ : A -> db -> Prop) (p : proc db A) (d : db) : Prop :=
  match p with
  | Ret a => forall d', Rel d d' -> Inv d' -> Φ a d'
  | Throw _ => True
  | Stmt X q k h => forall d', Rel d d' -> Inv d' ->
      (forall e, ok Φ (h e) d') /\
      forall t, admissible t d' = true ->
        let r := q t d' in
        Inv r.1 /\ Rel d' r.1 /\ ok Φ (k r.2) r.1 /\ forall e, ok Φ (h e) r.1
  end.

Lemma ok_later {A} (Φ : A -> db -> Prop) p d d' : ok Φ p d -> Rel d d' -> ok Φ p d'.
Proof.
  destruct p as [a|e|X q k h]; cbn; intros H Hr; [|done|].
  - intros d'' Hr'. apply H. by etransitivity.
  - intros d'' Hr'. apply H. by etransitivity.
Qed.

Lemma ok_bind {A B} (Φ : A -> db -> Prop) (Ψ : B -> db -> Prop) (p : proc db A) (f : A -> proc db B) d :
  Inv d -> ok Φ p d -> (forall a d', Rel d d' -> Inv d' -> Φ a d' -> ok Ψ (f a) d') -> ok Ψ (p ≫= f) d.
Proof.
  revert d. induction p as [a|e|X q k IH h IHh]; cbn; intros d Hd Hp Hf; [|done|].
  - apply Hf; [done..|]. by apply Hp.
  - intros d' Hr Hi. destruct (Hp d' Hr Hi) as [H0 H].
    split; [intros e; apply IHh; [done..|]; intros a d'' ?; apply Hf; by etransitivity|].
    intros t (H1 & H2 & H3 & H4)%H.
    assert (forall a d'', Rel (q t d').1 d'' -> Inv d'' -> Φ a d'' -> ok Ψ (f a) d'') as Hf'
      by (intros a d'' ?; apply Hf; etransitivity; [done|by etransitivity]).
    repeat split; [done..|by apply IH|intros e; by apply IHh].
Qed.

Lemma ok_catch {A} (Φ : A -> db -> Prop) (p : proc db A) handler d :
  ok Φ p d -> (forall e d', Rel d d' -> ok Φ (handler e) d') -> ok Φ (catch p handler) d.
Proof.
  revert d. induction p as [a|e|X q k IH h IHh]; cbn; intros d Hp Hf; [done|by apply Hf|].
  intros d' Hr Hi. destruct (Hp d' Hr Hi) as [H0 H].
  split; [intros e; apply IHh; [done|]; intros e' d'' ?; apply Hf; by etransitivity|].
  intros t (H1 & H2 & H3 & H4)%H.
  assert (forall e d'', Rel (q t d').1 d'' -> ok Φ (handler e) d'') as Hf' by (intros e d'' ?; apply Hf; etransitivity; [done|by etransitivity]).
  repeat split; [done..|by apply IH|intros e; by apply IHh].
Qed.

Lemma ok_mono {A} (Φ Ψ : A -> db -> Prop) (p : proc db A) d :
  ok Φ p d -> (forall a d', Rel d d' -> Inv d' -> Φ a d' -> Ψ a d') -> ok Ψ p d.
Proof.
  revert d. induction p as [a|e|X q k IH h IHh]; cbn; intros d Hp Hf; [by eauto|done|].
  intros d' Hr Hi. destruct (Hp d' Hr Hi) as [H0 H].
  split; [intros e; apply IHh; [done|]; intros a d'' ?; apply Hf; by etransitivity|].
  intros t (H1 & H2 & H3 & H4)%H.
  assert (forall a d'', Rel (q t d').1 d'' -> Inv d'' -> Φ a d'' -> Ψ a d'') as Hf'
    by (intros a d'' ?; apply Hf; etransitivity; [done|by etransitivity]).
  repeat split; [done..|by apply IH|intros e; by apply IHh].
Qed.

(** The rule of one statement. *)
Lemma ok_exec {A X} (Φ : A -> db -> Prop) (q : tick -> db -> db * X) (f : X -> proc db A) d :
  (forall d' t, Rel d d' -> Inv d' -> admissible t d' = true ->
    Inv (q t d').1 /\ Rel d' (q t d').1 /\ ok Φ (f (q t d').2) (q t d').1) ->
  ok Φ (exec q ≫= f) d.
Proof. intros H d' Hr Hi. split; [done|]. intros t Ht. destruct (H d' t Hr Hi Ht) as (?&?&?). by repeat split. Qed.

Lemma ok_query {A X} (Φ : A -> db -> Prop) (g : db -> X) (f : X -> proc db A) d :
  (forall d', Rel d d' -> Inv d' -> ok Φ (f (g d')) d') -> ok Φ (query g ≫= f) d.
Proof. intros H. apply ok_exec. intros d' t Hr Hi _. cbn. split; [done|]. split; [done|]. by apply H. Qed.

Lemma ok_for_each {X} (l : list X) (f : X -> proc db unit) d :
  Inv d -> (forall x d', x ∈ l -> Rel d d' -> Inv d' -> ok (fun _ _ => True) (f x) d') -> ok (fun _ _ => True) (for_each l f) d.
Proof.
  revert d. induction l as [|x l IH]; intros d Hd Hf; cbn [for_each]; [done|].
  apply (ok_bind (fun _ _ => True)); [done|apply Hf; [by left|done..]|].
  intros _ d' Hr Hi _. apply IH; [done|]. intros y d'' Hy Hr' Hi'. apply Hf; [by right|by etransitivity|done].
Qed.

(** ** What holds of every run *)

Definition starts_ok {A} (Φ : A -> db -> Prop) (ev : event (A := A)) : Prop :=
  match ev with Start _ p => forall d, Inv d -> ok Φ p d | _ => True end.

Definition sound {A} (Φ : A -> db -> Prop) (d : db) (s : system (A := A)) : Prop :=
  Inv (store s) /\ Rel d (store s) /\ forall n p, pool s !! n = Some p -> ok Φ p (store s).

Lemma sound_put {A} (Φ : A -> db -> Prop) d s n p d' :
  sound (A := A) Φ d s -> Inv d' -> Rel (store s) d' -> ok Φ p d' -> sound Φ d (System d' (<[n := p]> (pool s))).
Proof.
  intros (H1 & H2 & H3) Hi Hr Hp. split; [done|]. split; [by etransitivity|]. cbn. intros m p'.
  destruct (decide (m = n)) as [->|Hne]; [by rewrite lookup_insert_eq; intros [= <-]|].
  rewrite lookup_insert_ne by done. intros Hm. by eapply ok_later; [apply (H3 _ _ Hm)|].
Qed.

Lemma sound_step {A} (Φ : A -> db -> Prop) d ev s s' :
  starts_ok Φ ev -> sound Φ d s -> step admissible ev s = Some s' -> sound Φ d s'.
Proof.
  intros Hev Hs. pose proof Hs as (H1 & H2 & H3). destruct ev as [n p|n t|n t applied e]; cbn; destruct (pool s !! n) as [p'|] eqn:E; try done.
  - intros [= <-]. apply (sound_put Φ d s); [done..|by apply Hev].
  - destruct p' as [|?|X q k h]; try done. destruct (admissible t (store s)) eqn:Ht; [|done].
    destruct (q t (store s)) as [d' x] eqn:Eq. intros [= <-].
    destruct (H3 _ _ E (store s)) as [_ G]; [done..|]. destruct (G t Ht) as (G1 & G2 & G3 & _). rewrite Eq in G1, G2, G3. apply (sound_put Φ d s); done.
  - destruct p' as [|?|X q k h]; try done. destruct (applied && _) eqn:Ea; [done|]. intros [= <-].
    destruct (H3 _ _ E (store s)) as [G0 G]; [done..|]. destruct applied; cbn in Ea.
    + apply negb_false_iff in Ea. destruct (G t Ea) as (G1 & G2 & _ & G4). apply (sound_put Φ d s); [done..|apply G4].
    + apply (sound_put Φ d s); [done..|apply G0].
Qed.

(** Processes that are [ok] keep the invariant and the relation in every run,
    whatever is interleaved and lost, and return what they promise. *)
Theorem system_ok {A} (Φ : A -> db -> Prop) evs d s :
  Inv d -> Forall (starts_ok Φ) evs -> run admissible evs (System d ∅) = Some s -> sound Φ d s.
Proof.
  intros Hi Hev. assert (sound (A := A) Φ d (System d ∅)) as H by (repeat split; [done..|]; intros n p; cbn; by rewrite lookup_empty).
  revert H. generalize (System (A := A) d ∅). induction Hev as [|ev evs H1 _ IH]; intros s0 H Hr; cbn in Hr; [by simplify_eq|].
  destruct (step admissible ev s0) as [s1|] eqn:E; [|done]. by eapply IH; [eapply sound_step|].
Qed.

Lemma sound_returned {A} (Φ : A -> db -> Prop) d s n (a : A) :
  sound Φ d s -> pool s !! n = Some (Ret a) -> Φ a (store s).
Proof. intros (Hi & _ & Hp) Hn. by apply (Hp _ _ Hn). Qed.

End Rely.
End Procs.
End Statements.
