(* ===== verification/Guarantee.v ===== *)
(** * The quality guarantee: db/src/repos/guarantee.ts, cluster-incumbents.ts

    Sampled answers leave quality samples; an evaluation reads the window of one
    (organization, policy, cluster, strategy) and may open an incident.  The
    latest open rollback of a cluster is what is served there instead of the
    frontier's point (apps/server/src/guarantee.ts).  Every exported function
    that awaits is a process of statements ([Statements.proc]), so that its
    reads and writes may interleave with those of the others.

    A jsonb [detail] is a list of fields; the fields the code compares as text
    ([->>]) are always written as strings. *)

From S2P Require Import Prelude Number Types JsSort Print Stats Select Store Statements.

Module Guarantee.
Import Num Sort Print Statements.
Local Open Scope Z_scope.

(** [toISOString] and [Date.parse], of instants in milliseconds, the range of
    [Date]. *)
Class IsoDates := {
  toISOString : Z -> string;
  parseDate : string -> Z;
  parse_iso t : Z.abs t <= 8640000000000000 -> parseDate (toISOString t) = t;
}.

(** ** jsonb objects *)

Definition fields : Type := list (string * json).

Definition get (k : string) (o : fields) : option json := snd <$> find (fun f => String.eqb f.1 k) o.

Fixpoint put (k : string) (v : json) (o : fields) : fields :=
  match o with
  | [] => [(k, v)]
  | f :: o => if String.eqb f.1 k then (k, v) :: o else f :: put k v o
  end.

(** [{ ...o, ...patch }], and [o || patch] of jsonb. *)
Definition spread (o patch : fields) : fields := fold_left (fun o f => put f.1 f.2 o) patch o.

Definition text (k : string) (o : fields) : option string :=
  match get k o with Some (JStr s) => Some s | _ => None end.

Definition num (k : string) (o : fields) : option number :=
  match get k o with Some (JNum n) => Some n | _ => None end.

Definition entries (k : string) (o : fields) : list json :=
  match get k o with Some (JArr l) => l | _ => [] end.

Definition json_ci (ci : number * number) : json := JArr [JNum ci.1; JNum ci.2].
Definition ci_of (k : string) (o : fields) : option (number * number) :=
  match get k o with Some (JArr [JNum lo; JNum hi]) => Some (lo, hi) | _ => None end.

Definition null_or {A} (f : A -> json) (o : option A) : json := match o with Some a => f a | None => JNull end.
Definition json_nat (n : nat) : json := JNum (of_Z (Z.of_nat n)).

(** ** Tables *)

Module QualitySampleRow.
Record t := mk {
  id : string;
  orgId : string;
  requestId : option string;
  strategyHash : string;
  clusterId : option string;
  policyId : option string;
  quality : number;
  scorer : option string;
  judgeModel : option string;
  judgeCostUsd : option number;
  createdAt : Z;
}.
End QualitySampleRow.

Module IncidentKind.
Inductive t := quality_breach | rollback | advisory.
#[global] Instance eq_dec : EqDecision t.
Proof. solve_decision. Defined.
End IncidentKind.

Module IncidentRow.
Record t := mk {
  id : string;
  orgId : string;
  kind : IncidentKind.t;
  detail : fields;
  createdAt : Z;
  resolvedAt : option Z;
}.
End IncidentRow.

Module ClusterIncumbentRow.
Record t := mk {
  id : string;
  orgId : string;
  clusterId : string;
  strategyHash : string;
  active : bool; (** [status]: 'active', else 'superseded' *)
  statusReason : option string;
  designatedAt : Z;
}.
End ClusterIncumbentRow.

Module PolicyRow.
Record t := mk { id : string; orgId : string; config : Policy }.
End PolicyRow.

(** [alerts:dispatch] and [guarantee:suite-verify] payloads. *)
Module AlertPayload.
Record t := mk { orgId : string; event : string; incidentId : option string; clockStartAt : option Z; detail : fields }.
End AlertPayload.

Module SuiteVerifyPayload.
Record t := mk {
  orgId : string;
  policyId : string;
  clusterId : string;
  servingStrategyHash : string;
  advisoryIncidentId : option string;
  restoreForIncidentId : option string;
  capUsd : option number;
}.
End SuiteVerifyPayload.

(** A [guarantee:evaluate] job. *)
Module GuaranteeEvaluatePayload.
Record t := mk {
  orgId : option string;
  policyId : option string;
  clusterId : option string;
  strategyHash : option string;
  policy : option Policy;
}.
End GuaranteeEvaluatePayload.

(** A row of request_logs that meters a judge call. *)
Module JudgeLogRow.
Record t := mk { orgId : string; clusterId : string; strategyHash : string; policyId : option string; model : string; usage : Usage.t; completionId : string }.
End JudgeLogRow.

(** The tables, and what has been enqueued. *)
Record Db := MkDb {
  quality_samples : list QualitySampleRow.t;
  incidents : list IncidentRow.t;
  cluster_incumbents : list ClusterIncumbentRow.t;
  policies : list PolicyRow.t;
  strategy_configs : list (string * StrategyConfig);
  frontiers : Store.PotionDb;
  judge_logs : list JudgeLogRow.t;
  alerts : list AlertPayload.t;
  verify_jobs : list SuiteVerifyPayload.t;
  evaluate_jobs : list GuaranteeEvaluatePayload.t;
}.

Definition with_samples (l : list QualitySampleRow.t) (d : Db) : Db :=
  MkDb l (incidents d) (cluster_incumbents d) (policies d) (strategy_configs d) (frontiers d) (judge_logs d) (alerts d) (verify_jobs d) (evaluate_jobs d).
Definition with_incidents (l : list IncidentRow.t) (d : Db) : Db :=
  MkDb (quality_samples d) l (cluster_incumbents d) (policies d) (strategy_configs d) (frontiers d) (judge_logs d) (alerts d) (verify_jobs d) (evaluate_jobs d).
Definition with_incumbents (l : list ClusterIncumbentRow.t) (d : Db) : Db :=
  MkDb (quality_samples d) (incidents d) l (policies d) (strategy_configs d) (frontiers d) (judge_logs d) (alerts d) (verify_jobs d) (evaluate_jobs d).
Definition with_judge_logs (l : list JudgeLogRow.t) (d : Db) : Db :=
  MkDb (quality_samples d) (incidents d) (cluster_incumbents d) (policies d) (strategy_configs d) (frontiers d) l (alerts d) (verify_jobs d) (evaluate_jobs d).
Definition with_alerts (l : list AlertPayload.t) (d : Db) : Db :=
  MkDb (quality_samples d) (incidents d) (cluster_incumbents d) (policies d) (strategy_configs d) (frontiers d) (judge_logs d) l (verify_jobs d) (evaluate_jobs d).
Definition with_verify_jobs (l : list SuiteVerifyPayload.t) (d : Db) : Db :=
  MkDb (quality_samples d) (incidents d) (cluster_incumbents d) (policies d) (strategy_configs d) (frontiers d) (judge_logs d) (alerts d) l (evaluate_jobs d).
Definition with_evaluate_jobs (l : list GuaranteeEvaluatePayload.t) (d : Db) : Db :=
  MkDb (quality_samples d) (incidents d) (cluster_incumbents d) (policies d) (strategy_configs d) (frontiers d) (judge_logs d) (alerts d) (verify_jobs d) l.

Definition guarantee_of (p : Policy) : option GuaranteeConfig.t :=
  match p with
  | max_quality _ _ g | min_cost _ _ _ g | latency_bound _ _ g | compound _ _ _ _ g => g
  end.

(** ** quality_samples *)

Definition GUARANTEE_MIN_SAMPLES : number := of_Z 5.
Definition WINDOW_EVIDENCE_LIMIT : nat := 1000.

(** [insertQualitySample]; the identifier and the time are the database's. *)
Definition insertQualitySample (row : string -> Z -> QualitySampleRow.t) : proc Db string :=
  exec (fun t d => (with_samples (quality_samples d ++ [row (uuid t) (now t)]) d, uuid t)).

(** The integer part, towards zero. *)
Definition truncated (x : number) : Z := Z.quot (units x) (2 ^ 1074).

(** [new Date(ms).toISOString()] throws a RangeError outside the range of
    [Date]. *)
Definition MAX_DATE : Z := 8640000000000000.
Definition windowCutoff (windowMin : number) (now : Z) : option Z :=
  let ms := sub (of_Z now) (mul windowMin (of_Z 60000)) in
  if is_finite ms && (Z.abs (truncated ms) <=? MAX_DATE) then Some (truncated ms) else None.

Definition cutoff (windowMin : number) (now : Z) : proc Db Z := of_option "Invalid time value" (windowCutoff windowMin now).

(** The tuple evidence is keyed by. *)
Module Tuple.
Record t := mk { orgId : string; policyId : string; clusterId : string; strategyHash : string }.
End Tuple.

Definition keyed (k : Tuple.t) (r : QualitySampleRow.t) : bool :=
  bool_decide (QualitySampleRow.orgId r = Tuple.orgId k) && bool_decide (QualitySampleRow.policyId r = Some (Tuple.policyId k)) &&
  bool_decide (QualitySampleRow.clusterId r = Some (Tuple.clusterId k)) && bool_decide (QualitySampleRow.strategyHash r = Tuple.strategyHash k).
Definition sampled (k : Tuple.t) (since : Z) (r : QualitySampleRow.t) : bool := keyed k r && (since <? QualitySampleRow.createdAt r).

(** [ORDER BY created_at DESC, id DESC]. *)
Definition newest_sample (a b : QualitySampleRow.t) : comparison :=
  then_by (fun a b => QualitySampleRow.createdAt b ?= QualitySampleRow.createdAt a)
    (fun a b => String.compare (QualitySampleRow.id b) (QualitySampleRow.id a)) a b.

Module WindowEvidence.
Record t := mk { qualities : list number; samples : nat; mean : option number }.
End WindowEvidence.

Definition evidence_of (qualities : list number) : WindowEvidence.t :=
  WindowEvidence.mk qualities (length qualities) (match qualities with [] => None | _ => Some (Stats.mean_of qualities) end).

Definition window (k : Tuple.t) (since : Z) (d : Db) : list number :=
  map QualitySampleRow.quality (take WINDOW_EVIDENCE_LIMIT (sort newest_sample (List.filter (sampled k since) (quality_samples d)))).

Definition windowEvidence (k : Tuple.t) (windowMin : number) (now : Z) : proc Db WindowEvidence.t :=
  since ← cutoff windowMin now;
  query (fun d => evidence_of (window k since d)).

(** [SELECT DISTINCT]; its order is the database's. *)
Definition distinctSampledTargets (orgId : string) (withinMin : number) (now : Z) : proc Db (list (string * string * string)) :=
  since ← cutoff withinMin now;
  query (fun d => remove_dups (omap (fun r =>
    policy ← QualitySampleRow.policyId r; cluster ← QualitySampleRow.clusterId r;
    if bool_decide (QualitySampleRow.orgId r = orgId) && (since <? QualitySampleRow.createdAt r)
    then Some (policy, cluster, QualitySampleRow.strategyHash r) else None) (quality_samples d))).

(** ** incidents *)

(** [insertIncidentRow], [insertIncident]. *)
Definition insertIncidentRow (orgId : string) (kind : IncidentKind.t) (detail : fields) : proc Db IncidentRow.t :=
  exec (fun t d => let row := IncidentRow.mk (uuid t) orgId kind detail (now t) None in
                   (with_incidents (incidents d ++ [row]) d, row)).

Definition is_open (r : IncidentRow.t) : bool := bool_decide (IncidentRow.resolvedAt r = None).

(** [ORDER BY created_at DESC]. *)
Definition newest_first (l : list IncidentRow.t) : list IncidentRow.t :=
  sort (fun a b => IncidentRow.createdAt b ?= IncidentRow.createdAt a) l.

Definition contractual (k : IncidentKind.t) : bool :=
  match k with IncidentKind.quality_breach | IncidentKind.rollback => true | IncidentKind.advisory => false end.

(** The incident is about the tuple, whose strategy is [detail.fromStrategy]. *)
Definition about (k : Tuple.t) (r : IncidentRow.t) : bool :=
  bool_decide (IncidentRow.orgId r = Tuple.orgId k) && bool_decide (text "policyId" (IncidentRow.detail r) = Some (Tuple.policyId k)) &&
  bool_decide (text "clusterId" (IncidentRow.detail r) = Some (Tuple.clusterId k)) &&
  bool_decide (text "fromStrategy" (IncidentRow.detail r) = Some (Tuple.strategyHash k)).

Definition recent_contractual (k : Tuple.t) (since : Z) (d : Db) : option IncidentRow.t :=
  head (newest_first (List.filter (fun r =>
    about k r && contractual (IncidentRow.kind r) && (since <? IncidentRow.createdAt r)) (incidents d))).

Definition recentContractualIncident (k : Tuple.t) (windowMin : number) (now : Z) : proc Db (option IncidentRow.t) :=
  since ← cutoff windowMin now; query (recent_contractual k since).

Definition open_contractual (k : Tuple.t) (d : Db) : option IncidentRow.t :=
  head (newest_first (List.filter (fun r => about k r && contractual (IncidentRow.kind r) && is_open r) (incidents d))).
Definition openContractualIncidentForTuple (k : Tuple.t) : proc Db (option IncidentRow.t) := query (open_contractual k).

Definition is_advisory (r : IncidentRow.t) : bool := bool_decide (IncidentRow.kind r = IncidentKind.advisory).
Definition is_rollback (r : IncidentRow.t) : bool := bool_decide (IncidentRow.kind r = IncidentKind.rollback).

Definition open_advisory (k : Tuple.t) (d : Db) : option IncidentRow.t :=
  head (newest_first (List.filter (fun r => about k r && is_advisory r && is_open r) (incidents d))).
Definition openAdvisoryForTuple (k : Tuple.t) : proc Db (option IncidentRow.t) := query (open_advisory k).

Definition of_org (orgId : option string) (r : IncidentRow.t) : bool :=
  match orgId with Some o => bool_decide (IncidentRow.orgId r = o) | None => true end.

Definition listOpenAdvisories (orgId : option string) : proc Db (list IncidentRow.t) :=
  query (fun d => sort (fun a b => IncidentRow.createdAt a ?= IncidentRow.createdAt b)
    (List.filter (fun r => is_advisory r && is_open r && bool_decide (text "leg" (IncidentRow.detail r) <> Some "policy"%string) && of_org orgId r)
       (incidents d))).

Definition incident_by_id (orgId id : string) (d : Db) : option IncidentRow.t :=
  find (fun r => bool_decide (IncidentRow.id r = id) && bool_decide (IncidentRow.orgId r = orgId)) (incidents d).
Definition getIncidentByIdForOrg (orgId id : string) : proc Db (option IncidentRow.t) := query (incident_by_id orgId id).

(** [UPDATE incidents SET ... WHERE ... RETURNING]: the rows the condition
    selects are changed, and the first of them is returned. *)
Definition update (p : IncidentRow.t -> bool) (f : Z -> IncidentRow.t -> IncidentRow.t) : proc Db (option IncidentRow.t) :=
  exec (fun t d => (with_incidents (map (fun r => if p r then f (now t) r else r) (incidents d)) d, option_map (f (now t)) (find p (incidents d)))).

Definition has_id (id : string) (r : IncidentRow.t) : bool := bool_decide (IncidentRow.id r = id).

Definition set_detail (detail : fields) (r : IncidentRow.t) : IncidentRow.t :=
  IncidentRow.mk (IncidentRow.id r) (IncidentRow.orgId r) (IncidentRow.kind r) detail (IncidentRow.createdAt r) (IncidentRow.resolvedAt r).
Definition set_resolved (at_ : Z) (detail : fields) (r : IncidentRow.t) : IncidentRow.t :=
  IncidentRow.mk (IncidentRow.id r) (IncidentRow.orgId r) (IncidentRow.kind r) detail (IncidentRow.createdAt r) (Some at_).

(** The row is read, and what is written back is the detail read with some
    fields replaced. *)
Definition stampIncidentDetail (orgId id : string) (patch : fields -> fields) : proc Db (option IncidentRow.t) :=
  row ← getIncidentByIdForOrg orgId id;
  match row with
  | Some r =>
      if is_open r then
        update (fun r' => has_id id r' && is_open r') (fun _ => set_detail (spread (IncidentRow.detail r) (patch (IncidentRow.detail r))))
      else Ret None
  | None => Ret None
  end.

Definition VERIFY_ATTEMPTS_KEPT : nat := 20.

Definition last_entries {A} (n : nat) (l : list A) : list A := drop (length l - n) l.

Definition attempt_json (at_ outcome : string) (detail : option string) : json :=
  JObj [("at", JStr at_); ("outcome", JStr outcome); ("detail", null_or JStr detail)].

(** [appendIncidentVerifyAttempt]. *)
Definition appendIncidentVerifyAttempt (orgId id at_ outcome : string) (detail : option string) : proc Db (option IncidentRow.t) :=
  stampIncidentDetail orgId id (fun o =>
    [("verifyAttempts", JArr (last_entries VERIFY_ATTEMPTS_KEPT (entries "verifyAttempts" o ++ [attempt_json at_ outcome detail])));
     ("lastVerifyAttemptAt", JStr at_)]).

(** One conditional UPDATE: a row comes back to one caller only. *)
Definition markIncidentEscalationCas (orgId id : string) (kind : IncidentKind.t) (key : string) (stamp : fields) : proc Db (option IncidentRow.t) :=
  update (fun r => has_id id r && bool_decide (IncidentRow.orgId r = orgId) && bool_decide (IncidentRow.kind r = kind) && is_open r &&
                   bool_decide (get key (IncidentRow.detail r) = None))
    (fun _ r => set_detail (spread (IncidentRow.detail r) [(key, JObj stamp)]) r).

Definition markAdvisoryEscalated (orgId id : string) (stamp : fields) : proc Db (option IncidentRow.t) :=
  markIncidentEscalationCas orgId id IncidentKind.advisory "escalation" stamp.
Definition markRecoveryUnconfirmed (orgId id : string) (stamp : fields) : proc Db (option IncidentRow.t) :=
  markIncidentEscalationCas orgId id IncidentKind.rollback "recoveryEscalation" stamp.

Definition resolveIncident (orgId id : string) : proc Db (option IncidentRow.t) :=
  update (fun r => has_id id r && bool_decide (IncidentRow.orgId r = orgId) && is_open r)
    (fun at_ r => set_resolved at_ (IncidentRow.detail r) r).

(** The second statement does not ask again whether the incident is open. *)
Definition resolveIncidentWithEvidence (orgId id : string) (kind : IncidentKind.t) (resolution : fields) : proc Db (option IncidentRow.t) :=
  row ← query (fun d => find (fun r => has_id id r && bool_decide (IncidentRow.orgId r = orgId) && bool_decide (IncidentRow.kind r = kind) && is_open r)
                          (incidents d));
  match row with
  | None => Ret None
  | Some r => update (has_id id) (fun at_ => set_resolved at_ (spread (IncidentRow.detail r) [("resolution", JObj resolution)]))
  end.
Definition resolveAdvisoryWithEvidence (orgId id : string) (resolution : fields) : proc Db (option IncidentRow.t) :=
  resolveIncidentWithEvidence orgId id IncidentKind.advisory resolution.

Definition listIncidents (orgId : string) (resolvedLimit : nat) : proc Db (list IncidentRow.t) :=
  unresolved ← query (fun d => newest_first (List.filter (fun r => of_org (Some orgId) r && is_open r) (incidents d)));
  resolved ← query (fun d => take resolvedLimit (newest_first (List.filter (fun r => of_org (Some orgId) r && negb (is_open r)) (incidents d))));
  Ret (unresolved ++ resolved).

Definition active_rollback (orgId clusterId : string) (d : Db) : option IncidentRow.t :=
  head (newest_first (List.filter (fun r => of_org (Some orgId) r && is_rollback r && is_open r &&
                                            bool_decide (text "clusterId" (IncidentRow.detail r) = Some clusterId)) (incidents d))).
Definition latestActiveRollback (orgId clusterId : string) : proc Db (option IncidentRow.t) := query (active_rollback orgId clusterId).

Definition listPoliciesWithGuarantee (orgId : option string) : proc Db (list PolicyRow.t) :=
  query (fun d => List.filter (fun p => bool_decide (is_Some (guarantee_of (PolicyRow.config p))) &&
                                        match orgId with Some o => bool_decide (PolicyRow.orgId p = o) | None => true end) (policies d)).

(** ** cluster-incumbents.ts *)

Definition is_incumbent (orgId clusterId : string) (r : ClusterIncumbentRow.t) : bool :=
  bool_decide (ClusterIncumbentRow.orgId r = orgId) && bool_decide (ClusterIncumbentRow.clusterId r = clusterId) && ClusterIncumbentRow.active r.

Definition active_incumbent (orgId clusterId : string) (d : Db) : option ClusterIncumbentRow.t :=
  find (is_incumbent orgId clusterId) (cluster_incumbents d).
Definition activeIncumbent (orgId clusterId : string) : proc Db (option ClusterIncumbentRow.t) := query (active_incumbent orgId clusterId).

Definition supersede (reason : string) (r : ClusterIncumbentRow.t) : ClusterIncumbentRow.t :=
  ClusterIncumbentRow.mk (ClusterIncumbentRow.id r) (ClusterIncumbentRow.orgId r) (ClusterIncumbentRow.clusterId r)
    (ClusterIncumbentRow.strategyHash r) false (Some reason) (ClusterIncumbentRow.designatedAt r).

(** [designateIncumbent]: a transaction, which takes effect as a whole; of two
    concurrent ones the unique index fails one.  [None] where it throws. *)
Definition designate (orgId clusterId strategyHash : string) (t : tick) (d : Db) : Db * option ClusterIncumbentRow.t :=
  if existsb (fun s => String.eqb s.1 strategyHash) (strategy_configs d) then
    let row := ClusterIncumbentRow.mk (uuid t) orgId clusterId strategyHash true None (now t) in
    match active_incumbent orgId clusterId d with
    | Some current =>
        if String.eqb (ClusterIncumbentRow.strategyHash current) strategyHash then (d, Some current)
        else
          (with_incumbents (map (fun r => if bool_decide (ClusterIncumbentRow.id r = ClusterIncumbentRow.id current)
                                          then supersede ("superseded by redesignation to " +:+ strategyHash) r else r)
                              (cluster_incumbents d) ++ [row]) d, Some row)
    | None => (with_incumbents (cluster_incumbents d ++ [row]) d, Some row)
    end
  else (d, None).
Definition designateIncumbent (orgId clusterId strategyHash : string) : proc Db ClusterIncumbentRow.t :=
  r ← exec (designate orgId clusterId strategyHash);
  of_option ("strategy " +:+ strategyHash +:+ " not found — cannot designate an unknown incumbent") r.

(** ** The rollback target *)

Definition equivalentPointOnPrevious (policy : Policy) (previous : Frontier.t) : option FrontierPoint.t :=
  match Select.selectPoint policy previous None with
  | Some p => Some p
  | None => Select.highestQualityPoint (Frontier.points previous)
  end.

Definition lowest_quality_first : FrontierPoint.t -> FrontierPoint.t -> comparison :=
  then_by (asc FrontierPoint.quality) (asc FrontierPoint.costPer1K).

Definition nextHigherQualityPoint (points : list FrontierPoint.t) (fromStrategyHash : string) : option FrontierPoint.t :=
  match find (fun p => String.eqb (FrontierPoint.strategyHash p) fromStrategyHash) points with
  | None => Select.highestQualityPoint points
  | Some from =>
      head (sort lowest_quality_first (List.filter (fun p => gtb (FrontierPoint.quality p) (FrontierPoint.quality from)) points))
  end.

Module RollbackTarget.
Record t := mk { strategyHash : string; frontierVersion : Z; source : string }.
End RollbackTarget.

(** What the two reads decide. *)
Definition rollback_target (policy : Policy) (fromStrategyHash : string) (current previous : option Frontier.t) : option RollbackTarget.t :=
  let target source (f : Frontier.t) (p : FrontierPoint.t) := RollbackTarget.mk (FrontierPoint.strategyHash p) (Frontier.version f) source in
  match (previous ≫= fun f => match Frontier.points f with [] => None | _ => target "previous-version" f <$> equivalentPointOnPrevious policy f end) with
  | Some t => Some t
  | None => current ≫= fun f => match Frontier.points f with [] => None | pts => target "current-version" f <$> nextHigherQualityPoint pts fromStrategyHash end
  end.

Definition resolveRollbackTarget (clusterId : string) (policy : Policy) (fromStrategyHash : string) : proc Db (option RollbackTarget.t) :=
  current ← query (fun d => Store.getLatestFrontier (frontiers d) clusterId None default_instrument);
  previous ← match current ≫= Frontier.parentId with
             | Some parent => query (fun d => Store.getFrontierById (frontiers d) parent)
             | None => Ret None
             end;
  Ret (rollback_target policy fromStrategyHash current previous).

(** ** Evaluation *)

Module ServeFloorProvenance.
Record t := mk { n : nat; mean : number; ci95 : number * number; seed : Z; resamples : Z; windowMin : number; incumbentHash : string }.
End ServeFloorProvenance.

Module DerivedServeFloor.
Record t := mk { floor : option number; provenance : option ServeFloorProvenance.t; samples : nat }.
End DerivedServeFloor.

Inductive evaluation_mode := legacy | hierarchy.
Inductive suppression := insufficient_evidence | no_breach | not_significant | cooldown | insufficient_baseline.

Module Advisory.
Record t := mk {
  triggered : bool;
  incidentId : option string;
  deduped : bool;
  floor : number;
  provenance : ServeFloorProvenance.t;
  createdAt : option Z;
  worsened : bool;
}.
End Advisory.

Module Rollback.
Record t := mk { fromStrategy : string; toStrategy : string; toFrontierVersion : Z; source : string }.
End Rollback.

Module GuaranteeEvaluation.
Record t := mk {
  rollingQuality : option number;
  samples : nat;
  mode : evaluation_mode;
  advisory : option Advisory.t;
  breach : bool;
  action : option GuaranteeAction;
  incidentId : option string;
  incidentAt : option Z;
  suppressed : option suppression;
  ci95 : option (number * number);
  seed : option Z;
  minSamplesRequired : number;
  rollback : option Rollback.t;
}.
End GuaranteeEvaluation.

Section Evaluation.
Context (sha256 : string -> string) `{!IsoDates}.

Definition samples_text (n : nat) : string := show_Z (Z.of_nat n).

(** The seed is derived from the evidence. *)
Definition window_seed (prefix : string) (k : Tuple.t) (qualities : list number) : Z :=
  Stats.seedFromString sha256 (prefix +:+ Tuple.orgId k +:+ "|" +:+ Tuple.policyId k +:+ "|" +:+ Tuple.clusterId k +:+ "|" +:+ Tuple.strategyHash k
    +:+ "|" +:+ samples_text (length qualities) +:+ "|" +:+ sha256 (Stats.json_numbers qualities)).

Definition window_ci (prefix : string) (k : Tuple.t) (qualities : list number) : option (number * number) :=
  snd <$> Stats.bootstrapMeanCi qualities (window_seed prefix k qualities) Stats.BOOTSTRAP_RESAMPLES Stats.ALPHA.

Definition no_interval {A} : proc Db A := Throw "no interval".

Definition deriveServeFloor (k : Tuple.t) (incumbentHash : string) (windowMin minSamples : number) (now : Z) : proc Db DerivedServeFloor.t :=
  let baseline := mul windowMin (of_Z 2) in
  let k := Tuple.mk (Tuple.orgId k) (Tuple.policyId k) (Tuple.clusterId k) incumbentHash in
  evidence ← windowEvidence k baseline now;
  let qs := WindowEvidence.qualities evidence in
  match WindowEvidence.mean evidence with
  | Some mean =>
      if ltb (Stats.count qs) minSamples then Ret (DerivedServeFloor.mk None None (length qs))
      else match window_ci "serve-floor|" k qs with
      | Some ci =>
          Ret (DerivedServeFloor.mk (Some ci.1)
                 (Some (ServeFloorProvenance.mk (length qs) mean ci (window_seed "serve-floor|" k qs) Stats.BOOTSTRAP_RESAMPLES baseline incumbentHash))
                 (length qs))
      | None => no_interval
      end
  | None => Ret (DerivedServeFloor.mk None None (length qs))
  end.

Definition provenance_json (p : ServeFloorProvenance.t) : json :=
  JObj [("n", json_nat (ServeFloorProvenance.n p)); ("mean", JNum (ServeFloorProvenance.mean p)); ("ci95", json_ci (ServeFloorProvenance.ci95 p));
        ("seed", JNum (of_Z (ServeFloorProvenance.seed p))); ("resamples", JNum (of_Z (ServeFloorProvenance.resamples p)));
        ("windowMin", JNum (ServeFloorProvenance.windowMin p)); ("incumbentHash", JStr (ServeFloorProvenance.incumbentHash p))].

(** The fields both kinds of incident record. *)
Definition tuple_fields (k : Tuple.t) : fields :=
  [("policyId", JStr (Tuple.policyId k)); ("clusterId", JStr (Tuple.clusterId k)); ("fromStrategy", JStr (Tuple.strategyHash k))].

Definition advisory_detail (k : Tuple.t) (g : GuaranteeConfig.t) (minSamples mean : number) (ci : number * number) (seed : Z) (n : nat)
    (floor : number) (provenance : ServeFloorProvenance.t) (incumbent : ClusterIncumbentRow.t) : fields :=
  [("leg"%string, JStr "serve")] ++ tuple_fields k ++
  [("rollingQuality", JNum mean); ("ci95", json_ci ci); ("seed", JNum (of_Z seed)); ("resamples", JNum (of_Z Stats.BOOTSTRAP_RESAMPLES));
   ("samples", json_nat n); ("windowMin", JNum (GuaranteeConfig.windowMin g)); ("minSamples", JNum minSamples); ("floor", JNum floor);
   ("floorProvenance", provenance_json provenance);
   ("incumbent", JObj [("hash", JStr (ClusterIncumbentRow.strategyHash incumbent)); ("designationId", JStr (ClusterIncumbentRow.id incumbent))]);
   ("note", JStr "advisory tripwire — contractual verdict pending suite-verify")].

Definition worsened_entry (at_ : string) (mean : number) (ci : number * number) (seed : Z) (n : nat) : json :=
  JObj [("at", JStr at_); ("rollingQuality", JNum mean); ("ci95", json_ci ci); ("seed", JNum (of_Z seed)); ("samples", json_nat n)].

(** [evaluateAdvisoryLeg]: what a crossing of the incumbent's floor does. *)
Definition cross_floor (k : Tuple.t) (g : GuaranteeConfig.t) (minSamples : number) (qs : list number) (incumbent : ClusterIncumbentRow.t)
    (floor : number) (provenance : ServeFloorProvenance.t) (ci : number * number) (now : Z)
    (result : option suppression -> option string -> option Z -> option Advisory.t -> GuaranteeEvaluation.t) : proc Db GuaranteeEvaluation.t :=
  let mean := Stats.mean_of qs in
  let seed := window_seed "" k qs in
  already ← openAdvisoryForTuple k;
  match already with
  | Some row =>
      let worsened := match ci_of "ci95" (IncidentRow.detail row) with Some ci' => ltb ci.2 ci'.1 | None => false end in
      (* the ledger appended to is the one already read *)
      let entry := worsened_entry (toISOString now) mean ci seed (length qs) in
      _ ← (if worsened then
             stampIncidentDetail (Tuple.orgId k) (IncidentRow.id row)
               (fun _ => [("worsened"%string, JArr (last_entries (VERIFY_ATTEMPTS_KEPT - 1) (entries "worsened" (IncidentRow.detail row)) ++ [entry]))])
           else Ret None);
      Ret (result (Some cooldown) None None
             (Some (Advisory.mk false (Some (IncidentRow.id row)) true floor provenance (Some (IncidentRow.createdAt row)) worsened)))
  | None =>
      row ← insertIncidentRow (Tuple.orgId k) IncidentKind.advisory (advisory_detail k g minSamples mean ci seed (length qs) floor provenance incumbent);
      Ret (result None (Some (IncidentRow.id row)) (Some (IncidentRow.createdAt row))
             (Some (Advisory.mk true (Some (IncidentRow.id row)) false floor provenance (Some (IncidentRow.createdAt row)) false)))
  end.

Definition evaluateAdvisoryLeg (k : Tuple.t) (g : GuaranteeConfig.t) (minSamples : number) (evidence : WindowEvidence.t)
    (incumbent : ClusterIncumbentRow.t) (now : Z) : proc Db GuaranteeEvaluation.t :=
  let qs := WindowEvidence.qualities evidence in
  let base ci seed suppressed incidentId incidentAt advisory :=
    GuaranteeEvaluation.mk (WindowEvidence.mean evidence) (WindowEvidence.samples evidence) hierarchy advisory false None incidentId incidentAt
      suppressed ci seed minSamples None in
  if ltb (Stats.count qs) minSamples then Ret (base None None (Some insufficient_evidence) None None None)
  else
    derived ← deriveServeFloor k (ClusterIncumbentRow.strategyHash incumbent) (GuaranteeConfig.windowMin g) minSamples now;
    match DerivedServeFloor.floor derived, DerivedServeFloor.provenance derived with
    | Some floor, Some provenance =>
        if geb (default zero (WindowEvidence.mean evidence)) floor then Ret (base None None (Some no_breach) None None None)
        else match window_ci "" k qs with
        | None => no_interval
        | Some ci =>
            let result := base (Some ci) (Some (window_seed "" k qs)) in
            if geb ci.2 floor then Ret (result (Some not_significant) None None None)
            else cross_floor k g minSamples qs incumbent floor provenance ci now result
        end
    | _, _ => Ret (base None None (Some insufficient_baseline) None None None)
    end.

(** The incident before this one and its interval, when this one is separated
    from it. *)
Definition Refire : Type := string * (number * number).

Definition breach_detail (k : Tuple.t) (g : GuaranteeConfig.t) (minSamples mean : number) (ci : number * number) (seed : Z) (n : nat)
    (refire : option Refire) : fields :=
  tuple_fields k ++
  [("rollingQuality", JNum mean); ("ci95", json_ci ci); ("seed", JNum (of_Z seed)); ("resamples", JNum (of_Z Stats.BOOTSTRAP_RESAMPLES));
   ("minQuality", JNum (GuaranteeConfig.minQuality g)); ("minSamples", JNum minSamples); ("windowMin", JNum (GuaranteeConfig.windowMin g));
   ("samples", json_nat n)] ++
  match refire with
  | Some (id, ci') => [("refire"%string, JObj [("priorIncidentId", JStr id); ("priorCi95", json_ci ci')])]
  | None => []
  end.

(** What is decided of an earlier incident within the window. *)
Definition after_prior (ci : number * number) (prior : option IncidentRow.t) : option (option Refire) :=
  match prior with
  | None => Some None
  | Some p =>
      match ci_of "ci95" (IncidentRow.detail p) with
      | Some ci' => if ltb ci.2 ci'.1 then Some (Some (IncidentRow.id p, ci')) else None
      | None => None
      end
  end.

Definition target_fields (t : RollbackTarget.t) : fields :=
  [("toStrategy", JStr (RollbackTarget.strategyHash t)); ("toFrontierVersion", JNum (of_Z (RollbackTarget.frontierVersion t)));
   ("targetSource", JStr (RollbackTarget.source t))].
Definition no_target_fields : fields := [("intendedAction", JStr "rollback"); ("reason", JStr "no-rollback-target")].

(** The incident of a breach: its kind and detail, and the target. *)
Definition open_breach (k : Tuple.t) (policy : Policy) (action : GuaranteeAction) (detail : fields) : proc Db (IncidentRow.t * option RollbackTarget.t) :=
  match action with
  | alert => row ← insertIncidentRow (Tuple.orgId k) IncidentKind.quality_breach detail; Ret (row, None)
  | rollback =>
      target ← resolveRollbackTarget (Tuple.clusterId k) policy (Tuple.strategyHash k);
      match target with
      | None => row ← insertIncidentRow (Tuple.orgId k) IncidentKind.quality_breach (detail ++ no_target_fields); Ret (row, None)
      | Some t => row ← insertIncidentRow (Tuple.orgId k) IncidentKind.rollback (detail ++ target_fields t); Ret (row, Some t)
      end
  end.

Definition rolled_back (k : Tuple.t) (t : RollbackTarget.t) : Rollback.t :=
  Rollback.mk (Tuple.strategyHash k) (RollbackTarget.strategyHash t) (RollbackTarget.frontierVersion t) (RollbackTarget.source t).

Definition evaluateGuarantee (k : Tuple.t) (policy : Policy) (now : Z) : proc Db GuaranteeEvaluation.t :=
  match guarantee_of policy with
  | None => Throw "evaluateGuarantee requires a policy with a guarantee config"
  | Some g =>
      let minSamples := default GUARANTEE_MIN_SAMPLES (GuaranteeConfig.minSamples g) in
      evidence ← windowEvidence k (GuaranteeConfig.windowMin g) now;
      incumbent ← activeIncumbent (Tuple.orgId k) (Tuple.clusterId k);
      match incumbent with
      | Some i => evaluateAdvisoryLeg k g minSamples evidence i now
      | None =>
          let qs := WindowEvidence.qualities evidence in
          let base ci seed breach action incidentId incidentAt suppressed rollback :=
            GuaranteeEvaluation.mk (WindowEvidence.mean evidence) (WindowEvidence.samples evidence) legacy None breach action incidentId incidentAt
              suppressed ci seed minSamples rollback in
          if ltb (Stats.count qs) minSamples then Ret (base None None false None None None (Some insufficient_evidence) None)
          else
            let mean := default zero (WindowEvidence.mean evidence) in
            if geb mean (GuaranteeConfig.minQuality g) then Ret (base None None false None None None (Some no_breach) None)
            else match window_ci "" k qs with
            | None => no_interval
            | Some ci =>
                let seed := window_seed "" k qs in
                let result := base (Some ci) (Some seed) in
                if geb ci.2 (GuaranteeConfig.minQuality g) then Ret (result false None None None (Some not_significant) None)
                else
                  prior ← recentContractualIncident k (GuaranteeConfig.windowMin g) now;
                  match after_prior ci prior with
                  | None => Ret (result true None None None (Some cooldown) None)
                  | Some refire =>
                      opened ← open_breach k policy (GuaranteeConfig.action g) (breach_detail k g minSamples mean ci seed (length qs) refire);
                      let '(row, target) := opened in
                      Ret (result true (Some (GuaranteeConfig.action g)) (Some (IncidentRow.id row)) (Some (IncidentRow.createdAt row)) None
                             (rolled_back k <$> target))
                  end
            end
      end
  end.

End Evaluation.

(** ** Policy-level conditions *)

Definition POLICY_INFEASIBLE : string := "latency_bound_infeasible".

Module PolicyInfeasibleDetail.
Record t := mk {
  condition : string;
  policyId : string;
  clusterId : string;
  boundMs : number;
  qualityFloor : number;
  servedStrategy : option string;
  servedP95Ms : option number;
  latencySource : string;
  relaxLatencyToMs : option number;
  relaxQualityToFloor : option number;
}.
End PolicyInfeasibleDetail.

Definition condition_detail (p : PolicyInfeasibleDetail.t) : fields :=
  [("leg", JStr "policy"); ("condition", JStr (PolicyInfeasibleDetail.condition p)); ("policyId", JStr (PolicyInfeasibleDetail.policyId p));
   ("clusterId", JStr (PolicyInfeasibleDetail.clusterId p)); ("boundMs", JNum (PolicyInfeasibleDetail.boundMs p));
   ("qualityFloor", JNum (PolicyInfeasibleDetail.qualityFloor p)); ("servedStrategy", null_or JStr (PolicyInfeasibleDetail.servedStrategy p));
   ("servedP95Ms", null_or JNum (PolicyInfeasibleDetail.servedP95Ms p)); ("latencySource", JStr (PolicyInfeasibleDetail.latencySource p));
   ("relaxLatencyToMs", null_or JNum (PolicyInfeasibleDetail.relaxLatencyToMs p));
   ("relaxQualityToFloor", null_or JNum (PolicyInfeasibleDetail.relaxQualityToFloor p))].

Definition is_condition (orgId policyId clusterId condition : string) (r : IncidentRow.t) : bool :=
  bool_decide (IncidentRow.orgId r = orgId) && is_advisory r && is_open r &&
  bool_decide (text "leg" (IncidentRow.detail r) = Some "policy"%string) && bool_decide (text "condition" (IncidentRow.detail r) = Some condition) &&
  bool_decide (text "policyId" (IncidentRow.detail r) = Some policyId) && bool_decide (text "clusterId" (IncidentRow.detail r) = Some clusterId).

Definition open_condition (orgId policyId clusterId condition : string) (d : Db) : option IncidentRow.t :=
  head (newest_first (List.filter (is_condition orgId policyId clusterId condition) (incidents d))).
Definition openPolicyCondition (orgId policyId clusterId condition : string) : proc Db (option IncidentRow.t) :=
  query (open_condition orgId policyId clusterId condition).

Definition raisePolicyCondition (detail : PolicyInfeasibleDetail.t) (orgId : string) : proc Db (IncidentRow.t * bool) :=
  existing ← openPolicyCondition orgId (PolicyInfeasibleDetail.policyId detail) (PolicyInfeasibleDetail.clusterId detail)
               (PolicyInfeasibleDetail.condition detail);
  match existing with
  | Some r => Ret (r, false)
  | None =>
      inserted ← insertIncidentRow orgId IncidentKind.advisory (condition_detail detail);
      row ← query (fun d => find (has_id (IncidentRow.id inserted)) (incidents d));
      r ← of_option "no row" row;
      Ret (r, true)
  end.

Definition clearPolicyCondition (orgId policyId clusterId : string) (resolution : fields) (condition : string) : proc Db (option IncidentRow.t) :=
  open ← openPolicyCondition orgId policyId clusterId condition;
  match open with
  | None => Ret None
  | Some r => resolveIncidentWithEvidence orgId (IncidentRow.id r) IncidentKind.advisory resolution
  end.

Definition listOpenPolicyConditions (orgId : string) : proc Db (list IncidentRow.t) :=
  query (fun d => newest_first (List.filter (fun r =>
    bool_decide (IncidentRow.orgId r = orgId) && is_advisory r && is_open r && bool_decide (text "leg" (IncidentRow.detail r) = Some "policy"%string))
    (incidents d))).

End Guarantee.
