(* ===== verification/GuaranteeJobs.v ===== *)
(** * Who evaluates the guarantee: apps/server/src/guarantee.ts and the
    [guarantee:evaluate] job of workers/src/handlers.ts

    A sampled request is scored after it was answered and its tuple evaluated,
    by a job where there is a queue.  The periodic sweep evaluates every tuple,
    enqueues the verification of open advisories again, escalates those that
    wait too long, and asks for verifications that may lift a rollback.  The
    judge's score is an argument; an alert that is emitted is recorded as
    such, its delivery is another job's. *)

From S2P Require Import Prelude Number Types JsSort Print Stats Store Statements Guarantee.

Module GuaranteeJobs.
Import Num Print Statements Guarantee.
Local Open Scope Z_scope.

Definition emitAlert (payload : AlertPayload.t) : proc Db unit :=
  exec (fun _ d => (with_alerts (alerts d ++ [payload]) d, tt)).
Definition enqueue_verify (payload : SuiteVerifyPayload.t) : proc Db unit :=
  exec (fun _ d => (with_verify_jobs (verify_jobs d ++ [payload]) d, tt)).
Definition enqueue_evaluate (payload : GuaranteeEvaluatePayload.t) : proc Db unit :=
  exec (fun _ d => (with_evaluate_jobs (evaluate_jobs d ++ [payload]) d, tt)).
Definition insertRequestLog (row : JudgeLogRow.t) : proc Db unit :=
  exec (fun _ d => (with_judge_logs (judge_logs d ++ [row]) d, tt)).

(** [try { p } catch {}], and what [p] gave. *)
Definition swallow (p : proc Db unit) : proc Db unit := catch p (fun _ => Ret tt).
Definition attempt {A} (p : proc Db A) : proc Db (option A) := catch (x ← p; Ret (Some x)) (fun _ => Ret None).

Module SampleParams.
Record t := mk { orgId : string; requestId : string; clusterId : string; policy : Policy; policyId : option string; servedHash : string }.
End SampleParams.

Module ServedAnswerScore.
Record t := mk { quality : number; scorer : string; usage : Usage.t }.
End ServedAnswerScore.

Module EvaluationTarget.
Record t := mk { key : Tuple.t; policy : Policy }.
End EvaluationTarget.

Module GuaranteeEvaluateResult.
Record t := mk {
  evaluations : list GuaranteeEvaluation.t;
  breaches : list (string * GuaranteeAction * string);
  advisories : list (string * string * bool);
  retriedVerifies : list (string * string);
  escalated : list (string * string * Z);
  restoreVerifies : list (string * string);
}.
End GuaranteeEvaluateResult.

Section Jobs.
Context (sha256 : string -> string) `{!IsoDates}.

(** ** apps/server/src/guarantee.ts *)

Definition shouldSampleGuarantee (g : GuaranteeConfig.t) (rand : number) : bool := ltb rand (GuaranteeConfig.sampleRate g).

Definition defaultServeJudgeModel (mode : ProviderMode) : string :=
  match mode with live => "judge-class" | mock => "mock-judge" end.

Definition SERVE_ERROR_SCORER : string := "serve-error".

Definition optional {A} (k : string) (f : A -> json) (o : option A) : fields := match o with Some a => [(k, f a)] | None => [] end.

Definition rollback_json (r : Rollback.t) : json :=
  JObj [("fromStrategy", JStr (Rollback.fromStrategy r)); ("toStrategy", JStr (Rollback.toStrategy r));
        ("toFrontierVersion", JNum (of_Z (Rollback.toFrontierVersion r))); ("source", JStr (Rollback.source r))].

(** The alert of a breach: the same in the server and in the worker. *)
Definition breach_alert (k : Tuple.t) (e : GuaranteeEvaluation.t) (incidentId : string) (action : GuaranteeAction) : AlertPayload.t :=
  AlertPayload.mk (Tuple.orgId k) (match action with rollback => "rollback" | alert => "quality_breach" end) (Some incidentId)
    (GuaranteeEvaluation.incidentAt e)
    ([("incidentId"%string, JStr incidentId); ("clusterId"%string, JStr (Tuple.clusterId k)); ("strategyHash"%string, JStr (Tuple.strategyHash k));
      ("rollingQuality"%string, null_or JNum (GuaranteeEvaluation.rollingQuality e)); ("samples"%string, json_nat (GuaranteeEvaluation.samples e))]
     ++ optional "rollback" rollback_json (GuaranteeEvaluation.rollback e)).

(** What a breach that wrote an incident emits. *)
Definition breach_of (e : GuaranteeEvaluation.t) : option (string * GuaranteeAction) :=
  if GuaranteeEvaluation.breach e then
    id ← GuaranteeEvaluation.incidentId e; action ← GuaranteeEvaluation.action e; Some (id, action)
  else None.

Definition evaluateOrEnqueue (queue : bool) (p : SampleParams.t) : proc Db (option GuaranteeEvaluation.t) :=
  if queue then
    _ ← enqueue_evaluate (GuaranteeEvaluatePayload.mk (Some (SampleParams.orgId p)) (SampleParams.policyId p) (Some (SampleParams.clusterId p))
                            (Some (SampleParams.servedHash p)) (Some (SampleParams.policy p)));
    Ret None
  else match SampleParams.policyId p with
  | None => Ret None
  | Some policyId =>
      let k := Tuple.mk (SampleParams.orgId p) policyId (SampleParams.clusterId p) (SampleParams.servedHash p) in
      now ← new_Date;
      e ← evaluateGuarantee sha256 k (SampleParams.policy p) now;
      _ ← match breach_of e with
          | Some (id, action) => swallow (emitAlert (breach_alert k e id action))
          | None => Ret tt
          end;
      Ret (Some e)
  end.

Definition sample_row (p : SampleParams.t) (quality : number) (scorer : string) (judge : option (string * number)) (id : string) (at_ : Z) :
    QualitySampleRow.t :=
  QualitySampleRow.mk id (SampleParams.orgId p) (Some (SampleParams.requestId p)) (SampleParams.servedHash p) (Some (SampleParams.clusterId p))
    (SampleParams.policyId p) quality (Some scorer) (fst <$> judge) (snd <$> judge) at_.

(** The [try] covers what it awaits; the evaluation is returned, not awaited,
    and its failure is the caller's. *)
Definition guarded (writes : proc Db unit) (rest : proc Db (option GuaranteeEvaluation.t)) : proc Db (option GuaranteeEvaluation.t) :=
  written ← catch (_ ← writes; Ret true) (fun _ => Ret false);
  if (written : bool) then rest else Ret None.

Definition runGuaranteeSample (mode : ProviderMode) (queue : bool) (p : SampleParams.t) (scored : string + ServedAnswerScore.t) :
    proc Db (option GuaranteeEvaluation.t) :=
  match guarantee_of (SampleParams.policy p) with
  | None => Ret None
  | Some g =>
      let judgeModel := default (defaultServeJudgeModel mode) (GuaranteeConfig.judgeModel g) in
      guarded
        (match scored with
         | inl e => Throw e
         | inr score =>
             _ ← insertQualitySample (sample_row p (ServedAnswerScore.quality score) (ServedAnswerScore.scorer score)
                                        (Some (judgeModel, Usage.costUsd (ServedAnswerScore.usage score))));
             insertRequestLog (JudgeLogRow.mk (SampleParams.orgId p) (SampleParams.clusterId p) (SampleParams.servedHash p) (SampleParams.policyId p)
                                 judgeModel (ServedAnswerScore.usage score) (SampleParams.requestId p))
         end)
        (evaluateOrEnqueue queue p)
  end.

Definition runGuaranteeErrorSample (queue : bool) (p : SampleParams.t) : proc Db (option GuaranteeEvaluation.t) :=
  match guarantee_of (SampleParams.policy p) with
  | None => Ret None
  | Some _ =>
      guarded (_ ← insertQualitySample (sample_row p zero SERVE_ERROR_SCORER None); Ret tt) (evaluateOrEnqueue queue p)
  end.

Definition stored_config (hash : string) (d : Db) : option StrategyConfig :=
  snd <$> find (fun s => String.eqb s.1 hash) (strategy_configs d).

Definition resolveGuaranteeOverride (orgId clusterId : string) (frontier : option Frontier.t) : proc Db (option StrategyConfig) :=
  incident ← latestActiveRollback orgId clusterId;
  match incident ≫= fun r => text "toStrategy" (IncidentRow.detail r) with
  | None | Some EmptyString => Ret None
  | Some toStrategy =>
      match find (fun p => String.eqb (FrontierPoint.strategyHash p) toStrategy) (match frontier with Some f => Frontier.points f | None => [] end) with
      | Some p => Ret (Some (FrontierPoint.strategyConfig p))
      | None => query (stored_config toStrategy)
      end
  end.

(** ** guarantee:evaluate *)

Definition GUARANTEE_VERIFY_SLA_MIN : number := of_Z 240.
Definition VERIFY_RETRY_MIN : number := of_Z 30.

Definition minutesSince (at_ now : Z) : number := div (sub (of_Z now) (of_Z at_)) (of_Z 60000).

(** The caller names the tuple: an empty string does not. *)
Definition named (s : option string) : option string := match s with Some EmptyString => None | _ => s end.
Definition explicit_target (p : GuaranteeEvaluatePayload.t) : option EvaluationTarget.t :=
  policy ← GuaranteeEvaluatePayload.policy p;
  org ← named (GuaranteeEvaluatePayload.orgId p); policyId ← named (GuaranteeEvaluatePayload.policyId p);
  cluster ← named (GuaranteeEvaluatePayload.clusterId p); hash ← named (GuaranteeEvaluatePayload.strategyHash p);
  Some (EvaluationTarget.mk (Tuple.mk org policyId cluster hash) policy).

Definition targets_of (row : PolicyRow.t) (tuples : list (string * string * string)) : list EvaluationTarget.t :=
  omap (fun '(policyId, cluster, hash) =>
    if String.eqb policyId (PolicyRow.id row)
    then Some (EvaluationTarget.mk (Tuple.mk (PolicyRow.orgId row) policyId cluster hash) (PolicyRow.config row)) else None) tuples.

Fixpoint sweep_targets (rows : list PolicyRow.t) : proc Db (list EvaluationTarget.t) :=
  match rows with
  | [] => Ret []
  | row :: rows =>
      match guarantee_of (PolicyRow.config row) with
      | None => sweep_targets rows
      | Some g =>
          now ← new_Date;
          tuples ← distinctSampledTargets (PolicyRow.orgId row) (GuaranteeConfig.windowMin g) now;
          rest ← sweep_targets rows;
          Ret (targets_of row tuples ++ rest)
      end
  end.

Definition resolveTargets (p : GuaranteeEvaluatePayload.t) : proc Db (list EvaluationTarget.t) :=
  match explicit_target p with
  | Some t => Ret (match guarantee_of (EvaluationTarget.policy t) with Some _ => [t] | None => [] end)
  | None => rows ← listPoliciesWithGuarantee (GuaranteeEvaluatePayload.orgId p); sweep_targets rows
  end.

Definition verify_advisory (k : Tuple.t) (advisory : string) : SuiteVerifyPayload.t :=
  SuiteVerifyPayload.mk (Tuple.orgId k) (Tuple.policyId k) (Tuple.clusterId k) (Tuple.strategyHash k) (Some advisory) None None.

(** A crossing that opened an advisory, or is worse than the open one: is its
    verification enqueued. *)
Definition follow_advisory (queue : bool) (k : Tuple.t) (e : GuaranteeEvaluation.t) : proc Db (option (string * bool)) :=
  match GuaranteeEvaluation.advisory e with
  | Some a =>
      match Advisory.incidentId a with
      | Some id =>
          if Advisory.triggered a || Advisory.worsened a then
            enqueued ← (if queue then
                          catch (now ← new_Date;
                                 _ ← stampIncidentDetail (Tuple.orgId k) id (fun _ => [("verifyEnqueuedAt"%string, JStr (toISOString now))]);
                                 _ ← enqueue_verify (verify_advisory k id); Ret true)
                            (fun _ => Ret false)
                        else Ret false);
            Ret (Some (id, enqueued))
          else Ret None
      | None => Ret None
      end
  | None => Ret None
  end.

Definition evaluate_target (queue : bool) (t : EvaluationTarget.t) :
    proc Db (GuaranteeEvaluation.t * option (string * GuaranteeAction * string) * option (string * string * bool)) :=
  let k := EvaluationTarget.key t in
  now ← new_Date;
  e ← evaluateGuarantee sha256 k (EvaluationTarget.policy t) now;
  adv ← follow_advisory queue k e;
  breach ← match breach_of e with
           | Some (id, action) => _ ← swallow (emitAlert (breach_alert k e id action)); Ret (Some (Tuple.orgId k, action, id))
           | None => Ret None
           end;
  Ret (e, breach, option_map (fun a : string * bool => (Tuple.orgId k, a.1, a.2)) adv).

Fixpoint evaluate_targets (queue : bool) (ts : list EvaluationTarget.t) :
    proc Db (list (GuaranteeEvaluation.t * option (string * GuaranteeAction * string) * option (string * string * bool))) :=
  match ts with
  | [] => Ret []
  | t :: ts => x ← evaluate_target queue t; xs ← evaluate_targets queue ts; Ret (x :: xs)
  end.

(** The least of the ages of the stamps of an incident. *)
Definition stamp_at (k : string) (o : fields) : list Z := match text k o with Some s => [parseDate s] | None => [] end.
Definition freshest (r : IncidentRow.t) (key : string) (now : Z) : number :=
  fold_left min (map (fun at_ => minutesSince at_ now) (stamp_at "lastVerifyAttemptAt" (IncidentRow.detail r) ++ stamp_at key (IncidentRow.detail r)))
    (minutesSince (IncidentRow.createdAt r) now).

Definition escalation_stamp (at_ : string) (slaMin : number) (ageMin : Z) (attempts : nat) : fields :=
  [("at", JStr at_); ("verifySlaMin", JNum slaMin); ("ageMin", JNum (of_Z ageMin)); ("verifyAttempts", json_nat attempts)].

Definition unverifiable_alert (r : IncidentRow.t) (k : Tuple.t) (slaMin : number) (ageMin : Z) : AlertPayload.t :=
  let attempts := entries "verifyAttempts" (IncidentRow.detail r) in
  AlertPayload.mk (IncidentRow.orgId r) "guarantee_unverifiable" (Some (IncidentRow.id r)) (Some (IncidentRow.createdAt r))
    [("advisoryIncidentId"%string, JStr (IncidentRow.id r)); ("policyId"%string, JStr (Tuple.policyId k)); ("clusterId"%string, JStr (Tuple.clusterId k));
     ("fromStrategy"%string, JStr (Tuple.strategyHash k)); ("ageMin"%string, JNum (of_Z ageMin)); ("verifySlaMin"%string, JNum slaMin);
     ("verifyAttempts"%string, json_nat (length attempts)); ("lastAttempt"%string, default JNull (last attempts))].

(** The tuple an incident names, where it names one. *)
Definition tuple_of (r : IncidentRow.t) : option Tuple.t :=
  policyId ← text "policyId" (IncidentRow.detail r); cluster ← text "clusterId" (IncidentRow.detail r);
  hash ← text "fromStrategy" (IncidentRow.detail r); Some (Tuple.mk (IncidentRow.orgId r) policyId cluster hash).

Definition retry_advisory (queue : bool) (r : IncidentRow.t) (k : Tuple.t) (now : Z) : proc Db bool :=
  if queue && geb (freshest r "verifyEnqueuedAt" now) VERIFY_RETRY_MIN then
    _ ← stampIncidentDetail (IncidentRow.orgId r) (IncidentRow.id r) (fun _ => [("verifyEnqueuedAt"%string, JStr (toISOString now))]);
    _ ← enqueue_verify (verify_advisory k (IncidentRow.id r)); Ret true
  else Ret false.

Definition escalate_advisory (r : IncidentRow.t) (k : Tuple.t) (g : GuaranteeConfig.t) (now : Z) : proc Db (option Z) :=
  let slaMin := default GUARANTEE_VERIFY_SLA_MIN (GuaranteeConfig.verifySlaMin g) in
  let age := minutesSince (IncidentRow.createdAt r) now in
  if gtb age slaMin && bool_decide (get "escalation" (IncidentRow.detail r) = None) then
    let ageMin := math_round age in
    won ← markAdvisoryEscalated (IncidentRow.orgId r) (IncidentRow.id r)
            (escalation_stamp (toISOString now) slaMin ageMin (length (entries "verifyAttempts" (IncidentRow.detail r))));
    match won with
    | Some _ => _ ← swallow (emitAlert (unverifiable_alert r k slaMin ageMin)); Ret (Some ageMin)
    | None => Ret None
    end
  else Ret None.

Definition PassResult : Type := list (string * string) * list (string * string * Z).

(** [runAdvisorySweepPasses]; the policies of an organization are read once a
    sweep, which the cache holds. *)
Fixpoint advisory_passes (queue : bool) (now : Z) (open : list IncidentRow.t) (cache : list (string * list PolicyRow.t)) (out : PassResult) :
    proc Db PassResult :=
  match open with
  | [] => Ret out
  | r :: open =>
      match tuple_of r with
      | None => advisory_passes queue now open cache out
      | Some k =>
          let org := IncidentRow.orgId r in
          read ← attempt match find (fun c => String.eqb c.1 org) cache with
                         | Some c => Ret (c.2, cache)
                         | None => rows ← listPoliciesWithGuarantee (Some org); Ret (rows, (org, rows) :: cache)
                         end;
          match read with
          | None => Ret out
          | Some (rows, cache) =>
              match find (fun p => String.eqb (PolicyRow.id p) (Tuple.policyId k)) rows ≫= fun p => guarantee_of (PolicyRow.config p) with
              | None => advisory_passes queue now open cache out
              | Some g =>
                  retried ← attempt (retry_advisory queue r k now);
                  match retried with
                  | None => Ret out
                  | Some retried =>
                      let out := (out.1 ++ (if (retried : bool) then [(org, IncidentRow.id r)] else []), out.2) in
                      escalated ← attempt (escalate_advisory r k g now);
                      match escalated with
                      | None => Ret out
                      | Some escalated =>
                          advisory_passes queue now open cache
                            (out.1, out.2 ++ match escalated with Some age => [(org, IncidentRow.id r, age)] | None => [] end)
                      end
                  end
              end
          end
      end
  end.

Definition runAdvisorySweepPasses (queue : bool) (orgId : option string) : proc Db PassResult :=
  now ← new_Date;
  open ← attempt (listOpenAdvisories orgId);
  match open with Some open => advisory_passes queue now open [] ([], []) | None => Ret ([], []) end.

(** One cluster of the auto-restore pass. *)
Definition restore_cluster (row : PolicyRow.t) (cluster : string) (now : Z) : proc Db (option string) :=
  found ← latestActiveRollback (PolicyRow.orgId row) cluster;
  match found with
  | None => Ret None
  | Some r =>
      match text "fromStrategy" (IncidentRow.detail r) with
      | Some from =>
          if bool_decide (text "policyId" (IncidentRow.detail r) = Some (PolicyRow.id row)) then
            incumbent ← activeIncumbent (PolicyRow.orgId row) cluster;
            match incumbent with
            | None => Ret None
            | Some _ =>
                if ltb (freshest r "restoreVerifyEnqueuedAt" now) VERIFY_RETRY_MIN then Ret None
                else
                  _ ← stampIncidentDetail (PolicyRow.orgId row) (IncidentRow.id r) (fun _ => [("restoreVerifyEnqueuedAt"%string, JStr (toISOString now))]);
                  _ ← enqueue_verify (SuiteVerifyPayload.mk (PolicyRow.orgId row) (PolicyRow.id row) cluster from None (Some (IncidentRow.id r)) None);
                  Ret (Some (IncidentRow.id r))
            end
          else Ret None
      | None => Ret None
      end
  end.

(** The rollbacks asked about, and whether the pass goes on. *)
Fixpoint restore_clusters (row : PolicyRow.t) (now : Z) (clusters : list string) (out : list (string * string)) : proc Db (list (string * string) * bool) :=
  match clusters with
  | [] => Ret (out, true)
  | c :: clusters =>
      r ← attempt (restore_cluster row c now);
      match r with
      | None => Ret (out, false)
      | Some r => restore_clusters row now clusters (out ++ match r with Some id => [(PolicyRow.orgId row, id)] | None => [] end)
      end
  end.

(** The clusters of the policy's tuples, each once, in their order. *)
Fixpoint first_seen (seen l : list string) : list string :=
  match l with
  | [] => []
  | x :: l => if existsb (String.eqb x) seen then first_seen seen l else x :: first_seen (x :: seen) l
  end.
Definition clusters_of (row : PolicyRow.t) (tuples : list (string * string * string)) : list string :=
  first_seen [] (omap (fun '(policyId, cluster, _) => if String.eqb policyId (PolicyRow.id row) then Some cluster else None) tuples).

Fixpoint restore_policies (now : Z) (rows : list PolicyRow.t) (out : list (string * string)) : proc Db (list (string * string)) :=
  match rows with
  | [] => Ret out
  | row :: rows =>
      match guarantee_of (PolicyRow.config row) with
      | Some g =>
          if bool_decide (GuaranteeConfig.autoRestore g = Some true) then
            read_at ← new_Date;
            tuples ← attempt (distinctSampledTargets (PolicyRow.orgId row) (mul (GuaranteeConfig.windowMin g) (of_Z 4)) read_at);
            match tuples with
            | None => Ret out
            | Some tuples =>
                here ← restore_clusters row now (clusters_of row tuples) out;
                if (here : _ * bool).2 then restore_policies now rows here.1 else Ret here.1
            end
          else restore_policies now rows out
      | None => restore_policies now rows out
      end
  end.

Definition runAutoRestorePass (queue : bool) (orgId : option string) : proc Db (list (string * string)) :=
  if queue then
    now ← new_Date;
    rows ← attempt (listPoliciesWithGuarantee orgId);
    match rows with Some rows => restore_policies now rows [] | None => Ret [] end
  else Ret [].

(** [guaranteeEvaluateHandler]; a pass that fails ends there, and what it had
    listed is reported. *)
Definition guaranteeEvaluateHandler (queue : bool) (p : GuaranteeEvaluatePayload.t) : proc Db GuaranteeEvaluateResult.t :=
  targets ← resolveTargets p;
  done ← evaluate_targets queue targets;
  let org := GuaranteeEvaluatePayload.orgId p in
  passes ← match explicit_target p with
           | Some _ => Ret ([], [], [])
           | None =>
               adv ← runAdvisorySweepPasses queue org;
               restored ← runAutoRestorePass queue org;
               Ret (adv.1, adv.2, restored)
           end;
  let '(retried, escalated, restored) := passes in
  Ret (GuaranteeEvaluateResult.mk (map (fun x => x.1.1) done) (omap (fun x => x.1.2) done) (omap (fun x => x.2) done) retried escalated restored).

End Jobs.
End GuaranteeJobs.
