(* ===== verification/GuaranteeSpec.v ===== *)
(** * What the guarantee's incidents prove *)

From S2P Require Import Prelude Number Types JsSort Print Stats Select Store Statements Guarantee GuaranteeJobs.

Module GuaranteeSpec.
Import Num Sort Statements Guarantee GuaranteeJobs.
Local Open Scope Z_scope.

(** ** jsonb objects *)

Lemma get_put k k' v o : get k (put k' v o) = if String.eqb k' k then Some v else get k o.
Proof.
  unfold get. induction o as [|[k0 v0] o IH]; cbn [put find fst].
  - by destruct (String.eqb k' k).
  - destruct (String.eqb_spec k0 k') as [->|Hne]; cbn [find fst].
    + by destruct (String.eqb k' k).
    + destruct (String.eqb_spec k0 k) as [->|Hk]; [|exact IH].
      by rewrite (proj2 (String.eqb_neq k' k)) by congruence.
Qed.

Lemma get_spread k o patch : k ∉ map fst patch -> get k (spread o patch) = get k o.
Proof.
  unfold spread. revert o. induction patch as [|[k0 v0] patch IH]; intros o Hk; [done|]. cbn [fold_left fst snd map] in *.
  apply not_elem_of_cons in Hk as [H1 H2]. rewrite IH by done. rewrite get_put.
  by rewrite (proj2 (String.eqb_neq k0 k)) by congruence.
Qed.

Lemma get_app k o o' : get k (o ++ o') = match get k o with Some v => Some v | None => get k o' end.
Proof. unfold get. induction o as [|f o IH]; [done|]. cbn. by destruct (String.eqb f.1 k). Qed.

(** ** What incidents keep *)

(** The fields a later statement may write. *)
Definition ledger_keys : list string :=
  ["verifyAttempts"; "lastVerifyAttemptAt"; "worsened"; "verifyEnqueuedAt"; "restoreVerifyEnqueuedAt"; "escalation"; "recoveryEscalation"; "resolution"].

Record same_evidence (r r' : IncidentRow.t) : Prop := {
  same_id : IncidentRow.id r' = IncidentRow.id r;
  same_org : IncidentRow.orgId r' = IncidentRow.orgId r;
  same_kind : IncidentRow.kind r' = IncidentRow.kind r;
  same_created : IncidentRow.createdAt r' = IncidentRow.createdAt r;
  same_fields key : key ∉ ledger_keys -> get key (IncidentRow.detail r') = get key (IncidentRow.detail r);
}.

#[export] Instance same_evidence_preorder : PreOrder same_evidence.
Proof.
  split; [by split|]. intros r1 r2 r3 [] []. split; [congruence..|]. intros key Hk. by rewrite same_fields1, same_fields0.
Qed.

Definition ids (d : Db) : list string := map IncidentRow.id (incidents d).

(** Clusters of organizations, by identifier. *)
Definition Clusters : Type := string -> string -> bool.

Definition in_clusters (G : Clusters) (r : IncidentRow.t) : bool :=
  match text "clusterId" (IncidentRow.detail r) with Some c => G (IncidentRow.orgId r) c | None => false end.

(** Samples are only added, no incident is deleted or loses evidence, a cluster
    that has an incumbent keeps having one, and no new incident of the clusters
    [G] is contractual. *)
Record grows (G : Clusters) (d d' : Db) : Prop := {
  grows_samples : quality_samples d `prefix_of` quality_samples d';
  grows_incidents i r : incidents d !! i = Some r -> exists r', incidents d' !! i = Some r' /\ same_evidence r r';
  grows_incumbents org cluster : is_Some (active_incumbent org cluster d) -> is_Some (active_incumbent org cluster d');
  grows_contractual i r : incidents d' !! i = Some r -> incidents d !! i = None -> contractual (IncidentRow.kind r) = true -> in_clusters G r = false;
}.

Lemma not_in_ledger key : existsb (String.eqb key) ledger_keys = false -> key ∉ ledger_keys.
Proof.
  intros H Hin%list_elem_of_In. assert (existsb (String.eqb key) ledger_keys = true) as E; [|congruence].
  apply existsb_exists. exists key. split; [done|apply String.eqb_refl].
Qed.

Ltac not_ledger := apply not_in_ledger; reflexivity.

Lemma text_same key r r' : same_evidence r r' -> key ∉ ledger_keys -> text key (IncidentRow.detail r') = text key (IncidentRow.detail r).
Proof. intros H Hk. unfold text. by rewrite (same_fields _ _ H). Qed.

Lemma in_clusters_same G r r' : same_evidence r r' -> in_clusters G r' = in_clusters G r.
Proof. intros H. unfold in_clusters. by rewrite (text_same _ _ _ H), (same_org _ _ H) by not_ledger. Qed.

#[export] Instance grows_preorder G : PreOrder (grows G).
Proof.
  split.
  - intros d. split; [done| |done|congruence]. intros i r Hi. by exists r.
  - intros d1 d2 d3 H1 H2. split.
    + by etransitivity; eapply grows_samples.
    + intros i r (r2 & E2 & S2)%(grows_incidents _ _ _ H1). apply (grows_incidents _ _ _ H2) in E2 as (r3 & E3 & S3).
      exists r3. split; [done|]. by etransitivity.
    + intros org cluster H. by apply (grows_incumbents _ _ _ H2), (grows_incumbents _ _ _ H1).
    + intros i r3 E3 E1 Hk. destruct (incidents d2 !! i) as [r2|] eqn:E2; [|by apply (grows_contractual _ _ _ H2 i)].
      destruct (grows_incidents _ _ _ H2 _ _ E2) as (r & Er & Hs). simplify_eq. rewrite (in_clusters_same _ _ _ Hs).
      apply (grows_contractual _ _ _ H1 i); [done..|]. by rewrite <- (same_kind _ _ Hs).
Qed.

(** Intervals are never computed by conversion. *)
#[local] Arguments get : simpl never.
#[local] Arguments spread : simpl never.
#[local] Opaque window_ci window_seed Stats.bootstrapMeanCi.

(** ** Evidence *)

(** The incident's verdict can be derived again: its interval is that of
    samples of its own tuple, under the seed it records, and lies below the
    quality its policy promised, on enough samples. *)
Definition justified (sha256 : string -> string) (samples : list QualitySampleRow.t) (r : IncidentRow.t) : Prop :=
  exists k g qs ci,
    about k r = true /\ qs ⊆+ map QualitySampleRow.quality (List.filter (keyed k) samples) /\
    window_ci sha256 "" k qs = Some ci /\ ci_of "ci95" (IncidentRow.detail r) = Some ci /\
    num "seed" (IncidentRow.detail r) = Some (of_Z (window_seed sha256 "" k qs)) /\
    num "minQuality" (IncidentRow.detail r) = Some (GuaranteeConfig.minQuality g) /\
    ltb (Stats.count qs) (default GUARANTEE_MIN_SAMPLES (GuaranteeConfig.minSamples g)) = false /\
    geb (Stats.mean_of qs) (GuaranteeConfig.minQuality g) = false /\ geb ci.2 (GuaranteeConfig.minQuality g) = false.

Record well_formed (sha256 : string -> string) (G : Clusters) (d : Db) : Prop := {
  wf_ids : NoDup (map IncidentRow.id (incidents d));
  wf_incumbents : NoDup (map ClusterIncumbentRow.id (cluster_incumbents d));
  wf_justified r : r ∈ incidents d -> contractual (IncidentRow.kind r) = true -> justified sha256 (quality_samples d) r;
  wf_designated org cluster : G org cluster = true -> is_Some (active_incumbent org cluster d);
}.

(** Generated identifiers are fresh. *)
Definition fresh (t : tick) (d : Db) : bool :=
  bool_decide (uuid t ∉ map IncidentRow.id (incidents d)) && bool_decide (uuid t ∉ map ClusterIncumbentRow.id (cluster_incumbents d)).

Lemma justified_same sha256 samples samples' r r' :
  same_evidence r r' -> samples `prefix_of` samples' -> justified sha256 samples r -> justified sha256 samples' r'.
Proof.
  intros H [extra ->] (k & g & qs & ci & H1 & H2 & H3 & H4 & H5 & H6 & H7).
  exists k, g, qs, ci. split.
  { unfold about in *. by rewrite (same_org _ _ H), (text_same "policyId" _ _ H), (text_same "clusterId" _ _ H), (text_same "fromStrategy" _ _ H) by not_ledger. }
  split. { rewrite List.filter_app, map_app. etransitivity; [exact H2|]. by apply submseteq_inserts_r. }
  split; [exact H3|]. unfold ci_of, num in *.
  rewrite (same_fields _ _ H "ci95"), (same_fields _ _ H "seed"), (same_fields _ _ H "minQuality") by not_ledger. by repeat split; try apply H7.
Qed.

(** ** Statements *)

Section Processes.
Context (sha256 : string -> string) (G : Clusters) {dates : IsoDates}.
Abbreviation ok := (Statements.ok fresh (well_formed sha256 G) (grows G)).

Lemma grows_append d row :
  (contractual (IncidentRow.kind row) = true -> in_clusters G row = false) -> grows G d (with_incidents (incidents d ++ [row]) d).
Proof.
  intros Hrow. split; [done| |done|].
  - intros i r Hi. exists r. split; [|done]. cbn. by apply lookup_app_l_Some.
  - intros i r Hi Hn Hk. cbn in Hi. apply lookup_ge_None in Hn. rewrite lookup_app_r in Hi by done.
    apply list_elem_of_lookup_2, list_elem_of_singleton in Hi as ->. by apply Hrow.
Qed.

(** What a statement that rewrites incidents must respect. *)
Lemma rewrite_grows d (f : IncidentRow.t -> IncidentRow.t) :
  (forall r, r ∈ incidents d -> same_evidence r (f r)) -> grows G d (with_incidents (map f (incidents d)) d).
Proof.
  intros Hf. split; [done| |done|].
  - intros i r Hi. exists (f r). cbn. rewrite list_lookup_fmap, Hi. split; [done|]. apply Hf. by eapply list_elem_of_lookup_2.
  - intros i r Hi Hn. cbn in Hi. by rewrite list_lookup_fmap, Hn in Hi.
Qed.

Lemma rewrite_well_formed d (f : IncidentRow.t -> IncidentRow.t) :
  (forall r, r ∈ incidents d -> same_evidence r (f r)) -> well_formed sha256 G d -> well_formed sha256 G (with_incidents (map f (incidents d)) d).
Proof.
  intros Hf [H1 Hi H2 H3]. split; cbn; [|exact Hi| |exact H3].
  - rewrite map_map. erewrite map_ext_in; [exact H1|]. intros r Hr. apply Hf. by apply list_elem_of_In.
  - intros r' (r & -> & Hr)%list_elem_of_fmap Hk. pose proof (Hf r Hr) as Hs. rewrite (same_kind _ _ Hs) in Hk.
    by eapply justified_same; [exact Hs|done|apply H2].
Qed.

(** A statement that touches neither incidents nor incumbents and deletes no
    sample. *)
Lemma quiet d d' :
  incidents d' = incidents d -> cluster_incumbents d' = cluster_incumbents d -> quality_samples d `prefix_of` quality_samples d' ->
  well_formed sha256 G d -> well_formed sha256 G d' /\ grows G d d'.
Proof.
  intros Hi Hc Hs [H1 H2 H3 H4]. split.
  - split; rewrite ?Hi, ?Hc; [done..| |].
    + intros r Hr Hk. by eapply justified_same; [|exact Hs|apply H3].
    + intros o c. unfold active_incumbent. rewrite Hc. apply H4.
  - split; [done| | |by rewrite Hi; congruence].
    + intros i r E. exists r. by rewrite Hi.
    + intros o c. unfold active_incumbent. by rewrite Hc.
Qed.

Lemma ok_quiet {X} (q : tick -> Db -> Db * X) d :
  (forall t d', incidents (q t d').1 = incidents d' /\ cluster_incumbents (q t d').1 = cluster_incumbents d' /\
    quality_samples d' `prefix_of` quality_samples (q t d').1) ->
  ok (fun _ _ => True) (exec q) d.
Proof.
  intros Hq d' _ Hd. split; [done|]. intros t _. destruct (Hq t d') as (H1 & H2 & H3). cbn.
  destruct (quiet d' (q t d').1) as [H4 H5]; [done..|]. by split.
Qed.

(** An update of the rows a condition selects. *)
Lemma ok_update p f d (Φ : option IncidentRow.t -> Db -> Prop) :
  (forall d' at_ r, grows G d d' -> well_formed sha256 G d' -> r ∈ incidents d' -> p r = true -> same_evidence r (f at_ r)) ->
  (forall o d', Φ o d') -> ok Φ (update p f) d.
Proof.
  intros Hf HΦ d' Hr Hi. split; [done|]. intros t _. cbn.
  assert (forall r, r ∈ incidents d' -> same_evidence r (if p r then f (now t) r else r)) as Hs.
  { intros r Hin. destruct (p r) eqn:E; [by apply (Hf d')|done]. }
  split; [by apply rewrite_well_formed|]. split; [by apply rewrite_grows|]. done.
Qed.

Lemma ok_insert org kind detail d (Φ : IncidentRow.t -> Db -> Prop) :
  (forall d' row, grows G d d' -> IncidentRow.orgId row = org -> IncidentRow.kind row = kind -> IncidentRow.detail row = detail ->
     contractual kind = true -> justified sha256 (quality_samples d') row /\ in_clusters G row = false) ->
  (forall row d', Φ row d') -> ok Φ (insertIncidentRow org kind detail) d.
Proof.
  intros Hj HΦ d' Hr [H1 Hi H2 H3]. split; [done|]. intros t [Ht%bool_decide_eq_true _]%andb_prop. cbn. split.
  - split; cbn; [rewrite map_app; apply NoDup_app; split; [done|]; split; [|apply NoDup_singleton]; by intros x Hx ->%list_elem_of_singleton|exact Hi| |exact H3].
    intros r [Hin| ->%list_elem_of_singleton]%elem_of_app Hk; [by apply H2|]. by apply Hj.
  - split; [|done]. apply grows_append. intros Hk. by apply (Hj d').
Qed.

(** ** The processes of guarantee.ts *)

Abbreviation any := (fun _ _ => True).

Lemma ok_ret {A} (a : A) d : ok any (Ret a) d.
Proof. done. Qed.

Lemma ok_then {A B} (p : proc Db A) (f : A -> proc Db B) d :
  well_formed sha256 G d -> ok any p d -> (forall a d', grows G d d' -> well_formed sha256 G d' -> ok any (f a) d') -> ok any (p ≫= f) d.
Proof. intros Hd Hp Hf. by apply (ok_bind _ _ _ any any); [..|intros a d' ? ? _; apply Hf]. Qed.

Lemma ok_of_option {A B} e (o : option A) (f : A -> proc Db B) d :
  (forall a, o = Some a -> ok any (f a) d) -> ok any (of_option e o ≫= f) d.
Proof. intros H. destruct o as [a|]; [by apply H|done]. Qed.

Lemma ok_read {X B} (g : Db -> X) (f : X -> proc Db B) d :
  (forall d', grows G d d' -> well_formed sha256 G d' -> ok any (f (g d')) d') -> ok any (query g ≫= f) d.
Proof. intros H. by apply ok_query; [exact _|]. Qed.

Lemma ok_query_ret {X} (g : Db -> X) d : ok any (query g) d.
Proof. intros d' _ Hd. split; [done|]. intros t _. cbn. split; [done|]. by split. Qed.

(** Stamps that touch only the ledger fields. *)
Definition ledger_patch (patch : fields -> fields) : Prop := forall o key, key ∈ map fst (patch o) -> key ∈ ledger_keys.

Lemma spread_same r r' patch :
  same_evidence r r' -> (forall key, key ∈ map fst patch -> key ∈ ledger_keys) ->
  same_evidence r' (set_detail (spread (IncidentRow.detail r) patch) r').
Proof.
  intros Hs Hp. split; [done..|]. intros key Hk. cbn. rewrite get_spread by (intros Hin; by apply Hk, Hp).
  symmetry. by apply (same_fields _ _ Hs).
Qed.

(** A row read earlier is, up to ledger fields, the row with its identifier. *)
Lemma row_kept d d' r r' :
  well_formed sha256 G d' -> grows G d d' -> r ∈ incidents d -> r' ∈ incidents d' -> has_id (IncidentRow.id r) r' = true -> same_evidence r r'.
Proof.
  intros [Hn _ _ _] Hg [i Hi]%list_elem_of_lookup [j Hj]%list_elem_of_lookup Hid%bool_decide_eq_true.
  destruct (grows_incidents _ _ _ Hg _ _ Hi) as (r2 & E & Hs).
  assert (i = j) as ->; [|congruence].
  apply (NoDup_lookup _ _ _ (IncidentRow.id r) Hn); rewrite list_lookup_fmap; [rewrite E|rewrite Hj]; cbn; [f_equal; apply Hs|by f_equal].
Qed.

Lemma ok_stamp org id patch d : well_formed sha256 G d -> ledger_patch patch -> ok any (stampIncidentDetail org id patch) d.
Proof.
  intros Hd Hp. apply ok_read. intros d' _ Hd'. unfold incident_by_id. destruct (find _ _) as [r|] eqn:E; [|done].
  apply find_some in E as [Hin%list_elem_of_In [Hid _]%andb_prop]. destruct (is_open r); [|done]. apply ok_update; [|done].
  intros d2 at_ r' Hg Hd2 Hin' [Hid' _]%andb_prop. apply bool_decide_eq_true in Hid as <-.
  apply spread_same; [by apply (row_kept d' d2)|apply Hp].
Qed.

Lemma ok_resolve org id d : ok any (resolveIncident org id) d.
Proof. by apply ok_update. Qed.

Lemma ok_resolve_with org id kind resolution d : well_formed sha256 G d -> ok any (resolveIncidentWithEvidence org id kind resolution) d.
Proof.
  intros Hd. apply ok_read. intros d' _ Hd'. destruct (find _ _) as [r|] eqn:E; [|done].
  apply find_some in E as [Hin%list_elem_of_In Hid]. do 3 apply andb_prop in Hid as [Hid _]. apply ok_update; [|done].
  intros d2 at_ r' Hg Hd2 Hin' Hid'. apply bool_decide_eq_true in Hid as <-.
  assert (same_evidence r r') as Hs by (by apply (row_kept d' d2)).
  destruct (spread_same r r' [("resolution"%string, JObj resolution)] Hs) as [_ _ _ _ Hf]; [|by split].
  intros key ->%list_elem_of_singleton. by repeat constructor.
Qed.

Lemma ok_mark org id kind key stamp d : key ∈ ledger_keys -> ok any (markIncidentEscalationCas org id kind key stamp) d.
Proof.
  intros Hk. apply ok_update; [|done]. intros d' at_ r _ _ _ _. apply spread_same; [done|].
  by intros key' ->%list_elem_of_singleton.
Qed.

Lemma ok_sample row d : ok any (insertQualitySample row) d.
Proof. apply ok_quiet. intros t d'. cbn. split; [done|]. split; [done|]. by apply prefix_app_r. Qed.

Lemma find_is_Some {A} (p : A -> bool) l : is_Some (find p l) <-> exists x, x ∈ l /\ p x = true.
Proof.
  split.
  - intros [x H%find_some]. exists x. by rewrite list_elem_of_In.
  - intros (x & Hx & Hp). destruct (find p l) eqn:E; [done|]. pose proof (find_none _ _ E x) as H. rewrite H in Hp; [done|by apply list_elem_of_In].
Qed.

Lemma is_incumbent_key o c o' c' r : is_incumbent o c r = true -> is_incumbent o' c' r = true -> (o, c) = (o', c').
Proof. unfold is_incumbent. intros H H'. bool_prop. repeat match goal with H : bool_decide _ = true |- _ => apply bool_decide_eq_true in H end. congruence. Qed.

Lemma incumbents_change l d :
  NoDup (map ClusterIncumbentRow.id l) ->
  (forall o c, is_Some (find (is_incumbent o c) (cluster_incumbents d)) -> is_Some (find (is_incumbent o c) l)) ->
  well_formed sha256 G d -> well_formed sha256 G (with_incumbents l d) /\ grows G d (with_incumbents l d).
Proof.
  intros Hn Hl [H1 H2 H3 H4]. split; [split; [done..|]|split; [done| |done|]].
  - intros o c Ho. by apply Hl, H4.
  - intros i r Hi. by exists r.
  - intros i r Hi Hnone. cbn in Hi. congruence.
Qed.

Lemma designate_ok org cluster hash t d :
  well_formed sha256 G d -> fresh t d = true ->
  well_formed sha256 G (designate org cluster hash t d).1 /\ grows G d (designate org cluster hash t d).1.
Proof.
  intros Hd [_ Ht%bool_decide_eq_true]%andb_prop. pose proof (wf_incumbents _ _ _ Hd) as H2.
  unfold designate. destruct (existsb _ _); [|done].
  set (row := ClusterIncumbentRow.mk _ _ _ _ _ _ _).
  assert (forall l, NoDup (map ClusterIncumbentRow.id l) -> uuid t ∉ map ClusterIncumbentRow.id l -> NoDup (map ClusterIncumbentRow.id (l ++ [row]))) as Hadd.
  { intros l Hn Hu. rewrite map_app. apply NoDup_app. split; [done|]. split; [by intros x Hx ->%list_elem_of_singleton|apply NoDup_singleton]. }
  destruct (active_incumbent org cluster d) as [current|] eqn:E; [destruct (String.eqb _ _); [done|]|]; cbn [fst].
  - set (f := fun r : ClusterIncumbentRow.t => if bool_decide (ClusterIncumbentRow.id r = ClusterIncumbentRow.id current) then _ else r).
    apply incumbents_change; [|intros o c Ho|done].
    { assert (map ClusterIncumbentRow.id (map f (cluster_incumbents d)) = map ClusterIncumbentRow.id (cluster_incumbents d)) as Em.
      { rewrite map_map. apply map_ext. intros r. unfold f. by case_bool_decide. }
      apply Hadd; by rewrite Em. }
    apply find_is_Some. destruct (decide ((o, c) = (org, cluster))) as [[= -> ->]|Hne].
    + exists row. split; [apply elem_of_app; right; by apply list_elem_of_singleton|]. unfold is_incumbent. cbn. by rewrite !bool_decide_eq_true_2.
    + apply find_is_Some in Ho as (r & Hr & Hi). pose proof E as [Hc Hic]%find_some. exists r. split; [|done].
      apply elem_of_app. left. apply list_elem_of_fmap. exists r. split; [|done]. unfold f. case_bool_decide as Hid; [|done]. exfalso. apply Hne.
      assert (r = current) as -> by (apply (NoDup_key_inj ClusterIncumbentRow.id (cluster_incumbents d)); by rewrite ?list_elem_of_In in * ).
      by eapply is_incumbent_key.
  - apply incumbents_change; [by apply Hadd| |done]. intros o c (r & Hr & Hi)%find_is_Some.
    apply find_is_Some. exists r. split; [apply elem_of_app; by left|done].
Qed.

Lemma ok_designate org cluster hash d : ok any (designateIncumbent org cluster hash) d.
Proof.
  apply ok_exec. intros d' t _ Hd Ht. destruct (designate_ok org cluster hash t d' Hd Ht). split; [done|]. split; [done|].
  by destruct (designate org cluster hash t d').2.
Qed.

(** ** Evaluation *)

Definition known (k : Tuple.t) (qs : list number) (d : Db) : Prop :=
  qs ⊆+ map QualitySampleRow.quality (List.filter (keyed k) (quality_samples d)).

Lemma known_grows k qs d d' : grows G d d' -> known k qs d -> known k qs d'.
Proof.
  intros Hg H. destruct (grows_samples _ _ _ Hg) as [extra E]. unfold known. rewrite E, List.filter_app, map_app.
  etransitivity; [exact H|]. by apply submseteq_inserts_r.
Qed.

Lemma window_known k since d : known k (window k since d) d.
Proof.
  unfold known, window.
  set (l := List.filter (sampled k since) _).
  assert (take WINDOW_EVIDENCE_LIMIT (sort newest_sample l) ⊆+ List.filter (keyed k) (quality_samples d)) as H.
  { etransitivity; [apply sublist_submseteq, sublist_take|]. rewrite (Permutation_submseteq _ l) by apply sort_perm.
    apply sublist_submseteq. unfold l. induction (quality_samples d) as [|r rs IH]; [done|]. cbn. unfold sampled at 1.
    destruct (keyed k r); cbn; [destruct (_ <? _); [by constructor|by constructor]|exact IH]. }
  change (QualitySampleRow.quality <$> take WINDOW_EVIDENCE_LIMIT (sort newest_sample l) ⊆+ QualitySampleRow.quality <$> List.filter (keyed k) (quality_samples d)).
  by apply fmap_submseteq.
Qed.

Lemma ok_window {B} k windowMin now (f : WindowEvidence.t -> proc Db B) d :
  (forall qs d', grows G d d' -> well_formed sha256 G d' -> known k qs d' -> ok any (f (evidence_of qs)) d') ->
  ok any (windowEvidence k windowMin now ≫= f) d.
Proof.
  intros Hf. unfold windowEvidence, cutoff. destruct (windowCutoff windowMin now) as [since|]; [|done].
  apply (ok_read (fun d => evidence_of (window k since d)) f). intros d' Hg Hd. apply Hf; [done..|]. apply window_known.
Qed.

Lemma breach_justified k g mean ci n refire extra qs samples row :
  qs ⊆+ map QualitySampleRow.quality (List.filter (keyed k) samples) -> window_ci sha256 "" k qs = Some ci ->
  ltb (Stats.count qs) (default GUARANTEE_MIN_SAMPLES (GuaranteeConfig.minSamples g)) = false ->
  geb (Stats.mean_of qs) (GuaranteeConfig.minQuality g) = false -> geb ci.2 (GuaranteeConfig.minQuality g) = false ->
  IncidentRow.orgId row = Tuple.orgId k ->
  IncidentRow.detail row =
    breach_detail k g (default GUARANTEE_MIN_SAMPLES (GuaranteeConfig.minSamples g)) mean ci (window_seed sha256 "" k qs) n refire ++ extra ->
  justified sha256 samples row.
Proof.
  intros Hq Hci Hn Hm Hu Ho Hd. exists k, g, qs, ci. unfold about, text, ci_of, num. rewrite Ho, Hd.
  change (get "policyId" (breach_detail _ _ _ _ _ _ _ _ ++ _)) with (Some (JStr (Tuple.policyId k))).
  change (get "clusterId" (breach_detail _ _ _ _ _ _ _ _ ++ _)) with (Some (JStr (Tuple.clusterId k))).
  change (get "fromStrategy" (breach_detail _ _ _ _ _ _ _ _ ++ _)) with (Some (JStr (Tuple.strategyHash k))).
  change (get "ci95" (breach_detail _ _ _ _ _ _ _ _ ++ _)) with (Some (json_ci ci)).
  change (get "minQuality" (breach_detail _ _ _ _ _ _ _ _ ++ _)) with (Some (JNum (GuaranteeConfig.minQuality g))).
  set (seed := window_seed sha256 "" k qs). change (get "seed" (breach_detail _ _ _ _ _ _ _ _ ++ _)) with (Some (JNum (of_Z seed))).
  rewrite !bool_decide_eq_true_2 by done. destruct ci as [lo hi].
  exact (conj eq_refl (conj Hq (conj Hci (conj eq_refl (conj eq_refl (conj eq_refl (conj Hn (conj Hm Hu)))))))).
Qed.

Lemma breach_cluster k g ms mean ci seed n refire extra row :
  IncidentRow.orgId row = Tuple.orgId k -> IncidentRow.detail row = breach_detail k g ms mean ci seed n refire ++ extra ->
  in_clusters G row = G (Tuple.orgId k) (Tuple.clusterId k).
Proof. intros Ho Hd. unfold in_clusters, text. by rewrite Ho, Hd. Qed.

Lemma ok_open_breach k policy action detail d :
  well_formed sha256 G d ->
  (forall d' row extra, grows G d d' -> IncidentRow.orgId row = Tuple.orgId k -> IncidentRow.detail row = detail ++ extra ->
     justified sha256 (quality_samples d') row /\ in_clusters G row = false) ->
  ok any (open_breach k policy action detail) d.
Proof.
  intros Hd Hj.
  assert (forall kind extra d' {A} (f : IncidentRow.t -> A), well_formed sha256 G d' -> grows G d d' ->
    ok any (insertIncidentRow (Tuple.orgId k) kind (detail ++ extra) ≫= fun row => Ret (f row)) d') as Hins.
  { intros kind extra d' A f Hd' Hg. apply ok_then; [done| |done]. apply ok_insert; [|done].
    intros d2 row Hg' Ho _ Hdt _. apply (Hj d2 row extra); [by etransitivity|done..]. }
  destruct action; cbn [open_breach].
  - unfold resolveRollbackTarget. apply ok_then; [done| |].
    { apply ok_read. intros d' _ Hd'. destruct (Store.getLatestFrontier _ _ _ _ ≫= Frontier.parentId) as [parent|]; [|done]. by apply ok_read. }
    intros target d' Hg Hd'. destruct target as [t|]; by apply Hins.
  - specialize (Hins IncidentKind.quality_breach [] d). rewrite app_nil_r in Hins. by apply Hins.
Qed.

Lemma ok_cross_floor k g ms qs incumbent floor provenance ci now result d :
  well_formed sha256 G d -> ok any (cross_floor sha256 k g ms qs incumbent floor provenance ci now result) d.
Proof.
  intros Hd. apply ok_read. intros d' _ Hd'. destruct (open_advisory k d') as [row|].
  - apply ok_then; [done| |done]. destruct (match ci_of _ _ with Some _ => _ | None => _ end); [|done].
    apply ok_stamp; [done|]. intros o key ->%list_elem_of_singleton. by repeat constructor.
  - apply ok_then; [done| |done]. by apply ok_insert.
Qed.

Lemma ok_advisory_leg k g ms evidence incumbent now d :
  well_formed sha256 G d -> ok any (evaluateAdvisoryLeg sha256 k g ms evidence incumbent now) d.
Proof.
  intros Hd. unfold evaluateAdvisoryLeg. destruct (ltb _ _); [apply ok_ret|]. apply ok_then; [done| |].
  - unfold deriveServeFloor. apply ok_window. intros qs d' _ Hd' _. cbn [evidence_of WindowEvidence.mean WindowEvidence.qualities].
    destruct qs as [|q qs]; [apply ok_ret|]. destruct (ltb _ _); [apply ok_ret|]. destruct (window_ci _ _ _ _); [apply ok_ret|exact I].
  - intros derived d' _ Hd'. destruct (DerivedServeFloor.floor derived), (DerivedServeFloor.provenance derived); try apply ok_ret.
    destruct (geb _ _); [apply ok_ret|]. destruct (window_ci _ _ _ _); [|exact I]. destruct (geb _ _); [apply ok_ret|]. by apply ok_cross_floor.
Qed.

Lemma ok_evaluate k policy now d : ok any (evaluateGuarantee sha256 k policy now) d.
Proof.
  unfold evaluateGuarantee. destruct (guarantee_of policy) as [g|]; [|done]. apply ok_window. intros qs d1 _ H1 Hq.
  apply ok_read. intros d2 Hg2 H2. destruct (active_incumbent _ _ d2) as [i|] eqn:Ei; [by apply ok_advisory_leg|].
  cbn [evidence_of WindowEvidence.mean WindowEvidence.qualities].
  destruct (ltb (Stats.count qs) _) eqn:En; [apply ok_ret|]. destruct (geb (default zero _) _) eqn:Em; [apply ok_ret|].
  destruct (window_ci _ _ _ _) as [ci|] eqn:Eci; [|exact I]. destruct (geb ci.2 _) eqn:Eu; [apply ok_ret|].
  unfold recentContractualIncident, cutoff. destruct (windowCutoff _ _) as [since|]; [|exact I].
  apply (ok_read (recent_contractual k since)). intros d3 Hg3 H3. destruct (after_prior ci _) as [refire|]; [|apply ok_ret].
  apply ok_then; [exact H3| |intros [row target] ? _ _; apply ok_ret].
  apply ok_open_breach; [exact H3|]. intros d4 row extra Hg4 Ho Hd4. split.
  - eapply (breach_justified k g); [|exact Eci|exact En| |exact Eu|exact Ho|exact Hd4].
    + apply (known_grows k qs d3 d4); [done|]. apply (known_grows k qs d1); [by etransitivity|done].
    + destruct qs; [|exact Em]. change (Stats.mean_of []) with NaN. by destruct (GuaranteeConfig.minQuality g).
  - rewrite (breach_cluster _ _ _ _ _ _ _ _ _ _ Ho Hd4). destruct (G _ _) eqn:Eg; [|done].
    apply (wf_designated _ _ _ H2) in Eg as [x Ex]. congruence.
Qed.

(** ** Policy conditions *)

Lemma ok_raise detail org d : well_formed sha256 G d -> ok any (raisePolicyCondition detail org) d.
Proof.
  intros Hd. apply ok_read. intros d1 _ H1. destruct (open_condition _ _ _ _ d1) as [r|]; [done|].
  apply ok_then; [done|by apply ok_insert|]. intros row d2 _ H2. apply ok_read. intros d3 _ _. by apply ok_of_option.
Qed.

Lemma ok_clear org policyId cluster resolution condition d :
  well_formed sha256 G d -> ok any (clearPolicyCondition org policyId cluster resolution condition) d.
Proof. intros Hd. apply ok_read. intros d1 _ H1. destruct (open_condition _ _ _ _ d1); [|done]. by apply ok_resolve_with. Qed.

(** ** The jobs *)

Lemma ok_attempt {A} (p : proc Db A) d : well_formed sha256 G d -> ok any p d -> ok any (attempt p) d.
Proof. intros Hd Hp. apply ok_catch; [exact _| |done]. by apply ok_then. Qed.

Lemma ok_swallow (p : proc Db unit) d : ok any p d -> ok any (swallow p) d.
Proof. intros Hp. by apply ok_catch; [exact _| |]. Qed.

Lemma ok_clock {B} (f : Z -> proc Db B) d :
  (forall now d', grows G d d' -> well_formed sha256 G d' -> ok any (f now) d') -> ok any (new_Date ≫= f) d.
Proof. intros Hf. apply ok_exec. intros d' t Hg Hd _. cbn. split; [done|]. split; [done|]. by apply Hf. Qed.

Lemma ok_alert payload d : ok any (emitAlert payload) d.
Proof. apply ok_quiet. by intros t d'. Qed.
Lemma ok_enqueue_verify payload d : ok any (enqueue_verify payload) d.
Proof. apply ok_quiet. by intros t d'. Qed.
Lemma ok_enqueue_evaluate payload d : ok any (enqueue_evaluate payload) d.
Proof. apply ok_quiet. by intros t d'. Qed.
Lemma ok_log row d : ok any (insertRequestLog row) d.
Proof. apply ok_quiet. by intros t d'. Qed.

Lemma ledger_stamp key v : existsb (String.eqb key) ledger_keys = true -> ledger_patch (fun _ => [(key, v)]).
Proof. intros (k & Hk & ->%String.eqb_eq)%existsb_exists o key' ->%list_elem_of_singleton. by apply list_elem_of_In. Qed.

Lemma ok_evaluate_or_enqueue queue p d : well_formed sha256 G d -> ok any (evaluateOrEnqueue sha256 queue p) d.
Proof.
  intros Hd. unfold evaluateOrEnqueue. destruct queue; [apply ok_then; [done|apply ok_enqueue_evaluate|by intros; apply ok_ret]|].
  destruct (SampleParams.policyId p) as [policyId|]; [|apply ok_ret]. apply ok_clock. intros now d1 _ H1.
  apply ok_then; [done|apply ok_evaluate|]. intros e d2 _ H2. apply ok_then; [done| |intros; apply ok_ret].
  destruct (breach_of e) as [[id action]|]; [|apply ok_ret]. by apply ok_swallow, ok_alert.
Qed.

Lemma ok_guarded writes rest d :
  well_formed sha256 G d -> ok any writes d -> (forall d', grows G d d' -> well_formed sha256 G d' -> ok any rest d') -> ok any (guarded writes rest) d.
Proof.
  intros Hd Hw Hr. apply ok_then; [done| |intros [] d' Hg Hd'; [by apply Hr|apply ok_ret]].
  apply ok_catch; [exact _| |done]. by apply ok_then.
Qed.

Lemma ok_run_sample mode queue p scored d : well_formed sha256 G d -> ok any (runGuaranteeSample sha256 mode queue p scored) d.
Proof.
  intros Hd. unfold runGuaranteeSample. destruct (guarantee_of _) as [g|]; [|apply ok_ret].
  apply ok_guarded; [done| |intros d' _ Hd'; by apply ok_evaluate_or_enqueue].
  destruct scored as [e|score]; [done|]. apply ok_then; [done|apply ok_sample|]. intros _ d' _ _. apply ok_log.
Qed.

Lemma ok_error_sample queue p d : well_formed sha256 G d -> ok any (runGuaranteeErrorSample sha256 queue p) d.
Proof.
  intros Hd. unfold runGuaranteeErrorSample. destruct (guarantee_of _) as [g|]; [|apply ok_ret].
  apply ok_guarded; [done| |intros d' _ Hd'; by apply ok_evaluate_or_enqueue].
  apply ok_then; [done|apply ok_sample|]. intros; apply ok_ret.
Qed.

Lemma ok_distinct org within now d : ok any (distinctSampledTargets org within now) d.
Proof. unfold distinctSampledTargets, cutoff. destruct (windowCutoff _ _); [|exact I]. apply ok_query_ret. Qed.

Lemma ok_sweep_targets rows d : well_formed sha256 G d -> ok any (sweep_targets rows) d.
Proof.
  revert d. induction rows as [|row rows IH]; intros d Hd; [apply ok_ret|]. cbn [sweep_targets].
  destruct (guarantee_of _) as [g|]; [|by apply IH]. apply ok_clock. intros now d1 _ H1.
  apply ok_then; [done|apply ok_distinct|]. intros tuples d2 _ H2. apply ok_then; [done|by apply IH|]. intros; apply ok_ret.
Qed.

Lemma ok_follow queue k e d : well_formed sha256 G d -> ok any (follow_advisory queue k e) d.
Proof.
  intros Hd. unfold follow_advisory. destruct (GuaranteeEvaluation.advisory e) as [a|]; [|apply ok_ret].
  destruct (Advisory.incidentId a) as [id|]; [|apply ok_ret]. destruct (_ || _); [|apply ok_ret].
  apply ok_then; [done| |intros; apply ok_ret]. destruct queue; [|apply ok_ret].
  apply ok_catch; [exact _| |intros; apply ok_ret]. apply ok_clock. intros now d1 _ H1.
  apply ok_then; [done|by apply ok_stamp; [|apply ledger_stamp]|]. intros _ d2 _ H2.
  apply ok_then; [done|apply ok_enqueue_verify|]. intros; apply ok_ret.
Qed.

Lemma ok_evaluate_targets queue ts d : well_formed sha256 G d -> ok any (evaluate_targets sha256 queue ts) d.
Proof.
  revert d. induction ts as [|t ts IH]; intros d Hd; [apply ok_ret|]. cbn [evaluate_targets].
  apply ok_then; [done| |intros x d1 _ H1; apply ok_then; [done|by apply IH|intros; apply ok_ret]].
  apply ok_clock. intros now d1 _ H1. apply ok_then; [done|apply ok_evaluate|]. intros e d2 _ H2.
  apply ok_then; [done|by apply ok_follow|]. intros adv d3 _ H3. apply ok_then; [done| |intros; apply ok_ret].
  destruct (breach_of e) as [[id action]|]; [|apply ok_ret]. apply ok_then; [done|by apply ok_swallow, ok_alert|]. intros; apply ok_ret.
Qed.

Lemma ok_retry queue r k now d : well_formed sha256 G d -> ok any (retry_advisory queue r k now) d.
Proof.
  intros Hd. unfold retry_advisory. destruct (_ && _); [|apply ok_ret].
  apply ok_then; [done|by apply ok_stamp; [|apply ledger_stamp]|]. intros _ d2 _ H2.
  apply ok_then; [done|apply ok_enqueue_verify|]. intros; apply ok_ret.
Qed.

Lemma ok_escalate r k g now d : well_formed sha256 G d -> ok any (escalate_advisory r k g now) d.
Proof.
  intros Hd. unfold escalate_advisory. destruct (_ && _); [|apply ok_ret].
  apply ok_then; [done|apply ok_mark; by repeat constructor|]. intros [row|] d1 _ H1; [|apply ok_ret].
  apply ok_then; [done|by apply ok_swallow, ok_alert|]. intros; apply ok_ret.
Qed.

Lemma ok_passes queue now open cache out d : well_formed sha256 G d -> ok any (advisory_passes queue now open cache out) d.
Proof.
  revert cache out d. induction open as [|r open IH]; intros cache out d Hd; [apply ok_ret|]. cbn [advisory_passes].
  destruct (tuple_of r) as [k|]; [|by apply IH].
  apply ok_then; [done|apply ok_attempt; [done|]; destruct (find _ cache); [apply ok_ret|apply ok_read; intros; apply ok_ret]|].
  intros [[rows cache']|] d1 _ H1; [|apply ok_ret]. destruct (find _ rows ≫= _) as [g|]; [|by apply IH].
  apply ok_then; [done|by apply ok_attempt, ok_retry|]. intros [retried|] d2 _ H2; [|apply ok_ret].
  apply ok_then; [done|by apply ok_attempt, ok_escalate|]. intros [escalated|] d3 _ H3; [by apply IH|apply ok_ret].
Qed.

Lemma ok_restore_cluster row cluster now d : ok any (restore_cluster row cluster now) d.
Proof.
  apply ok_read. intros d1 _ H1. destruct (active_rollback _ _ d1) as [r|]; [|apply ok_ret].
  destruct (text "fromStrategy" _) as [from|]; [|apply ok_ret]. destruct (bool_decide _); [|apply ok_ret].
  apply ok_read. intros d2 _ H2. destruct (active_incumbent _ _ d2); [|apply ok_ret]. destruct (ltb _ _); [apply ok_ret|].
  apply ok_then; [done|by apply ok_stamp; [|apply ledger_stamp]|]. intros _ d3 _ H3.
  apply ok_then; [done|apply ok_enqueue_verify|]. intros; apply ok_ret.
Qed.

Lemma ok_restore_clusters row now clusters out d : well_formed sha256 G d -> ok any (restore_clusters row now clusters out) d.
Proof.
  revert out d. induction clusters as [|c clusters IH]; intros out d Hd; [apply ok_ret|]. cbn [restore_clusters].
  apply ok_then; [done|by apply ok_attempt, ok_restore_cluster|]. intros [r|] d1 _ H1; [by apply IH|apply ok_ret].
Qed.

Lemma ok_restore_policies now rows out d : well_formed sha256 G d -> ok any (restore_policies now rows out) d.
Proof.
  revert out d. induction rows as [|row rows IH]; intros out d Hd; [apply ok_ret|]. cbn [restore_policies].
  destruct (guarantee_of _) as [g|]; [|by apply IH]. destruct (bool_decide _); [|by apply IH].
  apply ok_clock. intros read_at d1 _ H1. apply ok_then; [done|by apply ok_attempt, ok_distinct|].
  intros [tuples|] d2 _ H2; [|apply ok_ret]. apply ok_then; [done|by apply ok_restore_clusters|].
  intros [here []] d3 _ H3; [by apply IH|apply ok_ret].
Qed.

Lemma ok_handler queue p d : well_formed sha256 G d -> ok any (guaranteeEvaluateHandler sha256 queue p) d.
Proof.
  intros Hd. unfold guaranteeEvaluateHandler. apply ok_then; [done| |].
  { unfold resolveTargets. destruct (explicit_target p); [apply ok_ret|]. apply ok_read. intros d1 _ H1. by apply ok_sweep_targets. }
  intros targets d1 _ H1. apply ok_then; [done|by apply ok_evaluate_targets|]. intros l d2 _ H2.
  apply ok_then; [done| |intros [[? ?] ?] d3 _ _; apply ok_ret]. destruct (explicit_target p); [apply ok_ret|].
  apply ok_then; [done| |].
  - apply ok_clock. intros now d3 _ H3. apply ok_then; [done|by apply ok_attempt, ok_query_ret|].
    intros [open|] d4 _ H4; [by apply ok_passes|apply ok_ret].
  - intros adv d3 _ H3. apply ok_then; [done| |intros; apply ok_ret]. unfold runAutoRestorePass. destruct queue; [|apply ok_ret].
    apply ok_clock. intros now d4 _ H4. apply ok_then; [done|by apply ok_attempt, ok_query_ret|].
    intros [rows|] d5 _ H5; [by apply ok_restore_policies|apply ok_ret].
Qed.

End Processes.
End GuaranteeSpec.
