(* ===== verification/GuaranteeSafety.v ===== *)
(** * What every run of the guarantee's services keeps

    [service] lists what the server, the worker and the admin routes start;
    the theorems are about any interleaving of them, of any length, with
    statements lost at any point. *)

From S2P Require Import Prelude Number Rounding Types JsSort Fixtures Print Stats StatsSpec Select Store Statements Guarantee GuaranteeJobs GuaranteeSpec.
From Stdlib Require Import DecimalString DecimalZ.

Module GuaranteeSafety.
Import Num Sort Statements Guarantee GuaranteeJobs GuaranteeSpec.
Local Open Scope Z_scope.

#[local] Opaque window_ci window_seed Stats.bootstrapMeanCi.

Definition discard {A} (p : proc Db A) : proc Db unit := p ≫= fun _ => Ret tt.

(** ** The rollback target *)

Definition points_of (f : option Frontier.t) : list FrontierPoint.t := match f with Some f => Frontier.points f | None => [] end.

Abbreviation comparable_points f := (Forall (Select.comparable FrontierPoint.costPer1K) (points_of f)).

#[local] Existing Instance Select.consistent_quality.
#[local] Instance consistent_lowest : Consistent (Select.comparable FrontierPoint.costPer1K) lowest_quality_first.
Proof. apply consistent_then; (eapply consistent_weaken; [|typeclasses eauto]); by intros ? [? ?]. Qed.

Lemma find_hash hash points p : find (fun p => String.eqb (FrontierPoint.strategyHash p) hash) points = Some p -> p ∈ points.
Proof. intros [H _]%find_some. by apply list_elem_of_In. Qed.

Lemma highest_spec points :
  Forall (Select.comparable FrontierPoint.costPer1K) points ->
  match Select.highestQualityPoint points with
  | Some p => p ∈ points /\ forall q, q ∈ points -> leb (FrontierPoint.quality q) (FrontierPoint.quality p) = true
  | None => points = []
  end.
Proof.
  intros Hp. unfold Select.highestQualityPoint, Select.pickBest. destruct (head _) as [p|] eqn:E; [|by apply sort_head_none in E].
  pose proof (sort_head_elem _ _ _ E) as Hin. split; [done|]. intros q Hq.
  pose proof (sort_head_le _ _ _ _ _ Hp E Hq) as Hle. rewrite Forall_forall in Hp. destruct (Hp p Hin), (Hp q Hq).
  unfold le in Hle. rewrite Select.by_quality_then_cost_eq in Hle. apply then_by_le in Hle as [Hle _]. by apply desc_le.
Qed.

(** The next point up: strictly better than where the breach is, by as little
    as the frontier allows; the best one when the strategy is not on it. *)
Lemma next_higher_spec points hash :
  Forall (Select.comparable FrontierPoint.costPer1K) points ->
  match nextHigherQualityPoint points hash, find (fun p => String.eqb (FrontierPoint.strategyHash p) hash) points with
  | Some p, Some from =>
      p ∈ points /\ ltb (FrontierPoint.quality from) (FrontierPoint.quality p) = true /\
      forall q, q ∈ points -> ltb (FrontierPoint.quality from) (FrontierPoint.quality q) = true -> leb (FrontierPoint.quality p) (FrontierPoint.quality q) = true
  | Some p, None => p ∈ points /\ forall q, q ∈ points -> leb (FrontierPoint.quality q) (FrontierPoint.quality p) = true
  | None, Some from => forall q, q ∈ points -> ltb (FrontierPoint.quality from) (FrontierPoint.quality q) = false
  | None, None => points = []
  end.
Proof.
  intros Hp. unfold nextHigherQualityPoint. destruct (find _ points) as [from|] eqn:Ef; [|by apply highest_spec].
  set (above := List.filter _ points).
  assert (forall q, q ∈ above <-> q ∈ points /\ ltb (FrontierPoint.quality from) (FrontierPoint.quality q) = true) as Ha by (intros q; unfold above; rewrite Select.elem_of_lfilter; done).
  assert (Forall (Select.comparable FrontierPoint.costPer1K) above) as Hc.
  { rewrite Forall_forall in *. intros q [Hq _]%Ha. by apply Hp. }
  destruct (head _) as [p|] eqn:E.
  - pose proof (sort_head_elem _ _ _ E) as Hin. pose proof Hin as [H1 H2]%Ha. split; [done|]. split; [done|]. intros q Hq Hl.
    assert (q ∈ above) as Hqa by by apply Ha. pose proof (sort_head_le _ _ _ _ _ Hc E Hqa) as Hle.
    apply then_by_le in Hle as [Hle _]. rewrite Forall_forall in Hc. apply asc_le in Hle; [done|by apply (Hc p)|by apply (Hc q)].
  - apply sort_head_none in E. intros q Hq. destruct (ltb _ (FrontierPoint.quality q)) eqn:El; [|done].
    assert (q ∈ above) as Hn by by apply Ha. rewrite E in Hn. by apply elem_of_nil in Hn.
Qed.

(** Where a rollback goes: to the previous version's equivalent point
    whenever that version has a point, and only otherwise up the current
    version, to the point that is better than the breaching one by the least;
    there is no target only when the breaching point tops the frontier. *)
Theorem rollback_target_spec policy hash current previous :
  comparable_points current -> comparable_points previous ->
  match rollback_target policy hash current previous with
  | Some t =>
      (RollbackTarget.source t = "previous-version"%string /\ exists f p, previous = Some f /\ p ∈ Frontier.points f /\
         equivalentPointOnPrevious policy f = Some p /\ RollbackTarget.strategyHash t = FrontierPoint.strategyHash p /\
         RollbackTarget.frontierVersion t = Frontier.version f) \/
      (RollbackTarget.source t = "current-version"%string /\ points_of previous = [] /\ exists f p, current = Some f /\ p ∈ Frontier.points f /\
         RollbackTarget.strategyHash t = FrontierPoint.strategyHash p /\ RollbackTarget.frontierVersion t = Frontier.version f /\
         match find (fun p => String.eqb (FrontierPoint.strategyHash p) hash) (Frontier.points f) with
         | Some from => ltb (FrontierPoint.quality from) (FrontierPoint.quality p) = true /\
             forall q, q ∈ Frontier.points f -> ltb (FrontierPoint.quality from) (FrontierPoint.quality q) = true ->
                       leb (FrontierPoint.quality p) (FrontierPoint.quality q) = true
         | None => forall q, q ∈ Frontier.points f -> leb (FrontierPoint.quality q) (FrontierPoint.quality p) = true
         end)
  | None =>
      points_of previous = [] /\
      (points_of current = [] \/ exists from, from ∈ points_of current /\ FrontierPoint.strategyHash from = hash /\
         forall q, q ∈ points_of current -> ltb (FrontierPoint.quality from) (FrontierPoint.quality q) = false)
  end.
Proof.
  intros Hc Hp. unfold rollback_target.
  assert (forall f, previous = Some f -> Frontier.points f <> [] -> exists p, equivalentPointOnPrevious policy f = Some p /\ p ∈ Frontier.points f) as He.
  { intros f -> Hne. unfold equivalentPointOnPrevious. destruct (Select.selectPoint policy f None) as [p|] eqn:E.
    - exists p. split; [done|]. rewrite Select.selectPoint_unfold in E. apply sort_head_elem, Select.elem_of_lfilter in E as [E _].
      by eapply Select.select_pool_in.
    - pose proof (highest_spec _ Hp) as H. cbn in H. destruct (Select.highestQualityPoint (Frontier.points f)) as [p|]; [|done]. by exists p; destruct H. }
  assert (points_of previous = [] \/ exists f p, previous = Some f /\ Frontier.points f <> [] /\ equivalentPointOnPrevious policy f = Some p /\ p ∈ Frontier.points f)
    as [E|(f & p & -> & Hne & Ep & Hin)].
  { destruct previous as [f|]; [|by left]. cbn. destruct (Frontier.points f) as [|p0 l] eqn:E; [by left|]. right.
    destruct (He f eq_refl) as (p & H1 & H2); [by rewrite E|]. exists f, p. split; [done|]. split; [congruence|done]. }
  2: { cbn [mbind option_bind]. destruct (Frontier.points f) as [|p0 l] eqn:E; [done|]. rewrite Ep. cbn. left. split; [done|]. exists f, p. split; [done|]. split; [congruence|done]. }
  assert ((previous ≫= fun f => match Frontier.points f with [] => None | _ => (fun p => RollbackTarget.mk (FrontierPoint.strategyHash p) (Frontier.version f) "previous-version") <$> equivalentPointOnPrevious policy f end) = None) as ->.
  { destruct previous as [f|]; [|done]. cbn in *. by rewrite E. }
  destruct current as [f|]; [|by cbn; auto]. pose proof (next_higher_spec _ hash Hc) as Hn. cbn [mbind option_bind points_of] in *.
  destruct (Frontier.points f) as [|p0 l] eqn:Ef; [by auto|]. rewrite <- Ef in *.
  destruct (nextHigherQualityPoint (Frontier.points f) hash) as [p|]; cbn.
  - right. split; [done|]. split; [done|]. exists f, p. destruct (find _ _); destruct Hn; auto 10.
  - split; [done|]. right. destruct (find _ _) as [from|] eqn:Efrom; [|congruence]. exists from.
    split; [by eapply find_hash|]. split; [|done]. by apply find_some in Efrom as [_ ?%String.eqb_eq].
Qed.

Section Services.
Context (sha256 : string -> string) {dates : IsoDates}.

Inductive service : proc Db unit -> Prop :=
| serves_request mode queue p scored : service (discard (runGuaranteeSample sha256 mode queue p scored))
| serves_failure queue p : service (discard (runGuaranteeErrorSample sha256 queue p))
| evaluates queue p : service (discard (guaranteeEvaluateHandler sha256 queue p))
| designates org cluster hash : service (discard (designateIncumbent org cluster hash))
| resolves org id : service (discard (resolveIncident org id))
| resolves_with org id kind resolution : service (discard (resolveIncidentWithEvidence org id kind resolution))
| attempts org id at_ outcome detail : service (discard (appendIncidentVerifyAttempt org id at_ outcome detail))
| doubts org id stamp : service (discard (markRecoveryUnconfirmed org id stamp))
| raises detail org : service (discard (raisePolicyCondition detail org))
| clears org policyId cluster resolution condition : service (discard (clearPolicyCondition org policyId cluster resolution condition))
| routes org cluster frontier : service (discard (resolveGuaranteeOverride org cluster frontier)).

Definition starts (ev : event (db := Db) (A := unit)) : Prop := match ev with Start _ p => service p | _ => True end.

Abbreviation any := (fun _ _ => True).

Lemma ok_override G org cluster frontier d :
  well_formed sha256 G d -> Statements.ok fresh (well_formed sha256 G) (grows G) any (resolveGuaranteeOverride org cluster frontier) d.
Proof.
  intros Hd. apply ok_read. intros d' _ Hd'. destruct (_ ≫= _) as [[|c s]|]; [apply ok_ret| |apply ok_ret].
  destruct (find _ _); [apply ok_ret|apply ok_query_ret].
Qed.

Lemma ok_service G p d : well_formed sha256 G d -> service p -> Statements.ok fresh (well_formed sha256 G) (grows G) any p d.
Proof.
  intros Hd Hp. destruct Hp; (apply ok_then; [exact Hd| |intros; apply ok_ret]).
  - by apply ok_run_sample.
  - by apply ok_error_sample.
  - by apply ok_handler.
  - apply ok_designate.
  - apply ok_resolve.
  - by apply ok_resolve_with.
  - apply ok_stamp; [exact Hd|]. intros o key. cbn. rewrite !elem_of_cons. intros [->|[->|[]%elem_of_nil]]; by repeat constructor.
  - apply ok_mark. by repeat constructor.
  - by apply ok_raise.
  - by apply ok_clear.
  - by apply ok_override.
Qed.

Lemma services_sound G evs d s :
  well_formed sha256 G d -> Forall starts evs -> run fresh evs (System d ∅) = Some s ->
  well_formed sha256 G (store s) /\ grows G d (store s).
Proof.
  intros Hd Hev Hr. destruct (system_ok fresh (well_formed sha256 G) (grows G) any evs d s Hd) as (H1 & H2 & _); [|exact Hr|done].
  eapply Forall_impl; [exact Hev|]. intros [n p|n t|n t applied e]; cbn; [|done..]. intros Hp d' Hd'. by apply ok_service.
Qed.


Definition only (org cluster : string) : Clusters := fun o c => String.eqb o org && String.eqb c cluster.


End Services.
(** ** What is served after a rollback *)

Definition served_there (frontier : option Frontier.t) (hash : string) (d : Db) : option StrategyConfig :=
  match find (fun p => String.eqb (FrontierPoint.strategyHash p) hash) (points_of frontier) with
  | Some p => Some (FrontierPoint.strategyConfig p)
  | None => stored_config hash d
  end.

(** The row a rollback writes. *)
Definition rollback_row (k : Tuple.t) (detail : fields) (t : RollbackTarget.t) (at_ : tick) : IncidentRow.t :=
  IncidentRow.mk (uuid at_) (Tuple.orgId k) IncidentKind.rollback (detail ++ target_fields t) (now at_) None.

Section Alone.
Context (sha256 : string -> string) {dates : IsoDates} (ticks : nat -> tick).

Lemma alone_insert {A} org kind detail (p : IncidentRow.t -> proc Db A) i d :
  alone ticks i (insertIncidentRow org kind detail ≫= p) d =
  let row := IncidentRow.mk (uuid (ticks i)) org kind detail (now (ticks i)) None in
  alone ticks (S i) (p row) (with_incidents (incidents d ++ [row]) d).
Proof. done. Qed.

(** What the two reads of the frontiers find when nothing comes between. *)
Definition target_in (cluster : string) (policy : Policy) (hash : string) (d : Db) : option RollbackTarget.t :=
  let current := Store.getLatestFrontier (frontiers d) cluster None default_instrument in
  rollback_target policy hash current ((current ≫= Frontier.parentId) ≫= fun parent => Store.getFrontierById (frontiers d) parent).

Lemma alone_target cluster policy hash i d :
  exists n, alone ticks i (resolveRollbackTarget cluster policy hash) d = (d, n, inr (target_in cluster policy hash d)).
Proof.
  unfold resolveRollbackTarget, target_in. rewrite alone_query.
  destruct (Store.getLatestFrontier _ _ _ _ ≫= Frontier.parentId) as [parent|]; by eexists.
Qed.

Lemma open_breach_rollback k policy action detail i d d' j row t :
  alone ticks i (open_breach k policy action detail) d = (d', j, inr (row, Some t)) ->
  target_in (Tuple.clusterId k) policy (Tuple.strategyHash k) d = Some t /\
  exists n, row = rollback_row k detail t (ticks n) /\ d' = with_incidents (incidents d ++ [row]) d.
Proof.
  destruct action; cbn [open_breach]; [|done].
  destruct (alone_target (Tuple.clusterId k) policy (Tuple.strategyHash k) i d) as [n E].
  rewrite alone_bind, E. destruct (target_in _ _ _ d) as [t'|]; rewrite alone_insert; [|done].
  intros H. injection H as <- _ <- <-. split; [done|]. by exists n.
Qed.

Lemma alone_window {A} k w at_ (f : WindowEvidence.t -> proc Db A) i d :
  alone ticks i (windowEvidence k w at_ ≫= f) d =
  match windowCutoff w at_ with
  | Some since => alone ticks (S i) (f (evidence_of (window k since d))) d
  | None => (d, i, inl "Invalid time value"%string)
  end.
Proof. unfold windowEvidence, cutoff. by destruct (windowCutoff w at_). Qed.

Lemma alone_recent {A} k w at_ (f : option IncidentRow.t -> proc Db A) i d :
  alone ticks i (recentContractualIncident k w at_ ≫= f) d =
  match windowCutoff w at_ with
  | Some since => alone ticks (S i) (f (recent_contractual k since d)) d
  | None => (d, i, inl "Invalid time value"%string)
  end.
Proof. unfold recentContractualIncident, cutoff. by destruct (windowCutoff w at_). Qed.

(** Every path of the advisory leg reports what [result] makes of it. *)
Lemma cross_floor_reports k g ms qs inc floor provenance ci at_ result i d d' j e :
  alone ticks i (cross_floor sha256 k g ms qs inc floor provenance ci at_ result) d = (d', j, inr e) ->
  exists s id t a, e = result s id t a.
Proof.
  unfold cross_floor, openAdvisoryForTuple. rewrite alone_query. destruct (open_advisory k d) as [row|].
  - rewrite alone_bind. destruct (alone _ _ _ d) as [[d1 n] [?|?]]; [done|]. intros [= _ _ <-]. by eexists _, _, _, _.
  - rewrite alone_insert. intros [= _ _ <-]. by eexists _, _, _, _.
Qed.

Lemma advisory_reports k g ms evidence inc at_ i d d' j e :
  alone ticks i (evaluateAdvisoryLeg sha256 k g ms evidence inc at_) d = (d', j, inr e) ->
  GuaranteeEvaluation.breach e = false /\ GuaranteeEvaluation.rollback e = None.
Proof.
  unfold evaluateAdvisoryLeg. destruct (ltb _ ms); [by intros [= _ _ <-]|]. rewrite alone_bind.
  destruct (alone _ _ _ d) as [[d1 n] [?|derived]]; [done|].
  destruct (DerivedServeFloor.floor derived) as [floor|], (DerivedServeFloor.provenance derived); try by intros [= _ _ <-].
  destruct (geb _ floor); [by intros [= _ _ <-]|]. destruct (window_ci _ _ _ _) as [ci|]; [|done].
  destruct (geb _ floor); [by intros [= _ _ <-]|]. by intros (? & ? & ? & ? & ->)%cross_floor_reports.
Qed.

(** An evaluation that reports a rollback has written its incident, and
    nothing else. *)
Lemma evaluate_rollback k policy now i d d' j e rb :
  alone ticks i (evaluateGuarantee sha256 k policy now) d = (d', j, inr e) -> GuaranteeEvaluation.rollback e = Some rb ->
  exists t detail n,
    let row := (rollback_row k (tuple_fields k ++ detail) t (ticks n)) in
    target_in (Tuple.clusterId k) policy (Tuple.strategyHash k) d = Some t /\ rb = rolled_back k t /\
    get "toStrategy" detail = None /\
    GuaranteeEvaluation.incidentId e = Some (IncidentRow.id row) /\ d' = with_incidents (incidents d ++ [row]) d.
Proof.
  unfold evaluateGuarantee. destruct (guarantee_of policy) as [g|]; [|done].
  rewrite alone_window. destruct (windowCutoff _ now) as [since|] eqn:Es; [|done].
  unfold activeIncumbent. rewrite alone_query. set (qs := window k since d). cbn [evidence_of WindowEvidence.qualities WindowEvidence.mean].
  destruct (active_incumbent _ _ d) as [inc|]; [intros [_ H]%advisory_reports ?; congruence|].
  destruct (ltb _ _); [by intros [= _ _ <-]|]. destruct (geb _ _); [by intros [= _ _ <-]|].
  destruct (window_ci _ _ _ _) as [ci|]; [|done]. destruct (geb _ _); [by intros [= _ _ <-]|].
  rewrite alone_recent, Es. destruct (after_prior ci _) as [refire|]; [|by intros [= _ _ <-]].
  rewrite alone_bind. destruct (alone _ _ _ d) as [[d1 n] [?|[row [t|]]]] eqn:Eo; [done| |by intros [= _ _ <-]].
  apply open_breach_rollback in Eo as (Et & m & -> & ->). intros [= <- _ <-] Hr. cbn in Hr. injection Hr as <-.
  unfold breach_detail. match goal with |- context [rollback_row k (tuple_fields k ++ ?rest)] => exists t, rest, m end.
  split; [exact Et|]. split; [done|]. split; [|done].
  by destruct refire as [[id ci']|].
Qed.

(** A breach that no earlier incident covers opens one. *)
Lemma evaluate_opens k policy g at_ since qs ci refire i d :
  let ms := default GUARANTEE_MIN_SAMPLES (GuaranteeConfig.minSamples g) in
  let mean := default zero (WindowEvidence.mean (evidence_of qs)) in
  guarantee_of policy = Some g -> windowCutoff (GuaranteeConfig.windowMin g) at_ = Some since -> window k since d = qs ->
  active_incumbent (Tuple.orgId k) (Tuple.clusterId k) d = None -> ltb (Stats.count qs) ms = false -> geb mean (GuaranteeConfig.minQuality g) = false ->
  window_ci sha256 "" k qs = Some ci -> geb ci.2 (GuaranteeConfig.minQuality g) = false -> after_prior ci (recent_contractual k since d) = Some refire ->
  alone ticks i (evaluateGuarantee sha256 k policy at_) d =
  match alone ticks (S (S (S i))) (open_breach k policy (GuaranteeConfig.action g) (breach_detail k g ms mean ci (window_seed sha256 "" k qs) (length qs) refire)) d with
  | (d', j, inl e) => (d', j, inl e)
  | (d', j, inr (row, target)) =>
      (d', j, inr (GuaranteeEvaluation.mk (WindowEvidence.mean (evidence_of qs)) (length qs) legacy None true (Some (GuaranteeConfig.action g))
                     (Some (IncidentRow.id row)) (Some (IncidentRow.createdAt row)) None (Some ci) (Some (window_seed sha256 "" k qs)) ms (rolled_back k <$> target)))
  end.
Proof.
  intros ms mean Hg Hs Hw Hi Hn Hm Hc Hu Hp. unfold evaluateGuarantee. rewrite Hg, alone_window, Hs. unfold activeIncumbent. rewrite alone_query, Hi, Hw.
  cbn [evidence_of WindowEvidence.qualities WindowEvidence.samples]. fold ms. fold (evidence_of qs). fold mean. rewrite Hn, Hm, Hc, Hu, alone_recent, Hs, Hp, alone_bind.
  by destruct (alone _ _ (open_breach _ _ _ _) _) as [[d' j] [e|[row target]]].
Qed.

Lemma newest_last l row :
  Forall (fun r => IncidentRow.createdAt r < IncidentRow.createdAt row) l -> head (newest_first (l ++ [row])) = Some row.
Proof.
  intros Hl. unfold newest_first. apply (sort_head_unique (fun _ => True)); [|by apply Forall_forall| |done].
  - split; [intros x y _ _; by rewrite Z.compare_antisym|]. intros x y z _ _ _. unfold le. rewrite !Z.compare_gt_iff. lia.
  - eapply Forall_impl; [exact Hl|]. intros r Hr. by apply Z.compare_lt_iff.
Qed.

End Alone.

(** ** A concrete organization *)

(** Instants written in decimal. *)
#[local] Instance decimal_dates : IsoDates.
Proof.
  refine {| toISOString t := NilEmpty.string_of_int (Z.to_int t);
            parseDate s := match NilEmpty.int_of_string s with Some d => Z.of_int d | None => 0 end |}.
  intros t _. by rewrite NilEmpty.isi, DecimalZ.of_to.
Defined.

Definition digest (s : string) : string := "00000000".

Definition tuple : Tuple.t := Tuple.mk "acme" "pol" "code-gen" "cheap".
Definition promise (action : GuaranteeAction) : GuaranteeConfig.t :=
  GuaranteeConfig.mk (lit 7 1) None (of_Z 60) one action None (Some one) None None None None.
Definition outage : QualitySampleRow.t :=
  QualitySampleRow.mk "s1" "acme" (Some "r1") "cheap" (Some "code-gen") (Some "pol") zero (Some SERVE_ERROR_SCORER) None None 1000.
Definition breach : IncidentRow.t :=
  IncidentRow.mk "i1" "acme" IncidentKind.quality_breach
    (breach_detail tuple (promise alert) one zero (zero, zero) (window_seed digest "" tuple [zero]) 1 None) 2000 None.
Definition database (samples : list QualitySampleRow.t) (rows : list IncidentRow.t) (incumbents : list ClusterIncumbentRow.t) : Db :=
  MkDb samples rows incumbents [] [] (Store.Db [] [] []) [] [] [] [].

#[local] Transparent Stats.bootstrapMeanCi.
(** Every resample of one score is that score. *)
Lemma bootstrap_zero seed r : 1 <= r < 2 ^ 31 -> Stats.bootstrapMeanCi [zero] seed r Stats.ALPHA = Some (zero, (zero, zero)).
Proof.
  intros Hr. unfold Stats.bootstrapMeanCi, Stats.bootstrapCi.
  destruct (StatsSpec.resamples_all (fun x => x = zero) [zero] (fun buf => Stats.mean_of (map Stats.or_nan buf)) (Z.to_nat r) (Stats.mulberry32 seed))
    as [Hlen Hall]; [done|done| |].
  { intros [|o [|? ?]] Hl Hb; try done. apply Forall_singleton in Hb as (x & -> & ->%list_elem_of_singleton). reflexivity. }
  destruct (StatsSpec.percentiles_some _ Stats.ALPHA r ltac:(by vm_compute) Hr Hlen) as (lo & hi & E & Ilo & Ihi & _).
  - eapply Forall_impl; [exact Hall|]. by intros x ->.
  - rewrite Forall_forall in Hall. rewrite E. cbn. by rewrite (Hall lo), (Hall hi).
Qed.
#[local] Opaque Stats.bootstrapMeanCi.

#[local] Transparent window_ci.
Lemma outage_ci sha k : window_ci sha "" k [zero] = Some (zero, zero).
Proof. unfold window_ci. by rewrite bootstrap_zero. Qed.
#[local] Opaque window_ci.

Lemma breach_is_justified (dates : IsoDates) : justified digest [outage] breach.
Proof.
  eapply (breach_justified digest tuple (promise alert) zero (zero, zero) 1 None [] [zero]); [|apply outage_ci|reflexivity..].
  change ([zero] ⊆+ [zero]). done.
Qed.

Lemma database_well_formed (dates : IsoDates) incumbents :
  NoDup (map ClusterIncumbentRow.id incumbents) -> well_formed digest (fun _ _ => false) (database [outage] [breach] incumbents).
Proof.
  intros Hn. split; [apply NoDup_singleton|exact Hn| |done]. intros r ->%list_elem_of_singleton _. exact (breach_is_justified dates).
Qed.

Definition stamp_text : string := "2026-01-01T00:00:00.000Z".

(** A resolution and the report of a verification that failed, interleaved:
    each has read the row before either writes it. *)
Definition resolution_race : list (event (db := Db) (A := unit)) :=
  [Start 0 (discard (resolveIncidentWithEvidence "acme" "i1" IncidentKind.quality_breach [("by"%string, JStr "ops")]));
   Start 1 (discard (appendIncidentVerifyAttempt "acme" "i1" stamp_text "error" None));
   Answer 0 (Tick 3000 "u1"); Answer 1 (Tick 3000 "u2"); Answer 1 (Tick 3001 "u3"); Answer 0 (Tick 3002 "u4")].


Definition incumbent : ClusterIncumbentRow.t := ClusterIncumbentRow.mk "d1" "acme" "code-gen" "trusted" true None 500.

(** A failure is sampled while the sweep of its tuple runs. *)
Definition hierarchy_run : list (event (db := Db) (A := unit)) :=
  [Start 0 (discard (runGuaranteeErrorSample digest true
     (SampleParams.mk "acme" "r2" "code-gen" (max_quality one None (Some (promise alert))) (Some "pol") "cheap")));
   Start 1 (discard (guaranteeEvaluateHandler digest true
     (GuaranteeEvaluatePayload.mk (Some "acme") (Some "pol") (Some "code-gen") (Some "cheap") (Some (max_quality one None (Some (promise alert)))))));
   Answer 0 (Tick 3000 "u1"); Answer 1 (Tick 400000 "u2"); Lose 0 (Tick 3000 "u3") true "connection reset";
   Answer 1 (Tick 400001 "u4"); Answer 1 (Tick 400001 "u5"); Answer 1 (Tick 400002 "u6")]%string.


Definition reported_outage : Db :=
  MkDb [outage] [] [] [] [("best"%string, single "best")]
    (default Store.empty_db (fst <$> Store.saveFrontier Store.empty_db (Store.args None default_instrument [Fixtures.cheap; Fixtures.best]) (fun _ => ("a"%string, "t"%string))))
    [] [] [] [].
Definition rolling : Policy := max_quality one None (Some (promise rollback)).
Definition later (n : nat) : tick := Tick (3000 + Z.of_nat n) "u".


Definition opened_target : RollbackTarget.t := RollbackTarget.mk "best" 1 "current-version".
Definition opened_row : IncidentRow.t :=
  rollback_row tuple (breach_detail tuple (promise rollback) one zero (zero, zero) (window_seed digest "" tuple [zero]) 1 None) opened_target (later 4).
Definition opened : GuaranteeEvaluation.t :=
  GuaranteeEvaluation.mk (Some zero) 1 legacy None true (Some rollback) (Some (IncidentRow.id opened_row)) (Some (IncidentRow.createdAt opened_row)) None
    (Some (zero, zero)) (Some (window_seed digest "" tuple [zero])) one (Some (rolled_back tuple opened_target)).

Lemma evaluation_opens :
  alone later 0 (evaluateGuarantee digest tuple rolling 3000) reported_outage = (with_incidents [opened_row] reported_outage, 5%nat, inr opened).
Proof.
  rewrite (evaluate_opens digest later tuple rolling (promise rollback) 3000 (-3597000) [zero] (zero, zero) None);
   [|reflexivity|vm_compute; reflexivity|vm_compute; reflexivity|reflexivity|vm_compute; reflexivity|vm_compute; reflexivity|apply outage_ci|vm_compute; reflexivity|vm_compute; reflexivity].
  vm_compute. reflexivity.
Qed.


Lemma rollback_target_spec_witness :
  rollback_target rolling "cheap" (Some (Fixtures.frontier [Fixtures.cheap; Fixtures.best])) None = Some opened_target /\
  exists p, p ∈ [Fixtures.cheap; Fixtures.best] /\ FrontierPoint.strategyHash p = "best"%string /\
    ltb (FrontierPoint.quality Fixtures.cheap) (FrontierPoint.quality p) = true.
Proof.
  split; [vm_compute; reflexivity|].
  pose proof (rollback_target_spec rolling "cheap" (Some (Fixtures.frontier [Fixtures.cheap; Fixtures.best])) None
    ltac:(repeat constructor; by vm_compute) ltac:(constructor)) as H.
  change (rollback_target rolling "cheap" _ None) with (Some opened_target) in H.
  destruct H as [[? _]|(_ & _ & f & p & Ef & Hp & Hh & _ & H)]; [done|]. injection Ef as <-. exists p. split; [exact Hp|]. split; [exact (eq_sym Hh)|].
  exact (proj1 H).
Defined.

(** ** What concurrency and the order of versions leave possible *)

(** The previous version's equivalent point may be the breaching strategy. *)
Example rollback_to_itself :
  rollback_target rolling "cheap" (Some (Fixtures.frontier [Fixtures.cheap; Fixtures.best])) (Some (Fixtures.frontier [Fixtures.cheap])) =
  Some (RollbackTarget.mk "cheap" 1 "previous-version").
Proof. reflexivity. Qed.

Definition advisory (detail : fields) : IncidentRow.t := IncidentRow.mk "i2" "acme" IncidentKind.advisory detail 2000 None.

Definition late_attempt : list (event (db := Db) (A := option IncidentRow.t)) :=
  [Start 0 (appendIncidentVerifyAttempt "acme" "i2" stamp_text "error" None); Start 1 (markAdvisoryEscalated "acme" "i2" []);
   Start 2 (markAdvisoryEscalated "acme" "i2" []);
   Answer 0 (Tick 3000 "u1"); Answer 1 (Tick 3000 "u2"); Answer 0 (Tick 3001 "u3"); Answer 2 (Tick 3002 "u4")].

Definition won (s : system (db := Db) (A := option IncidentRow.t)) (n : nat) : bool := match pool s !! n with Some (Ret (Some _)) => true | _ => false end.

(** The report of an attempt writes back the detail it had read, without the
    stamp of an escalation made meanwhile, which is then made again. *)
Example escalated_twice :
  (fun s => (won s 1, won s 2)) <$> run fresh late_attempt (System (database [] [advisory (tuple_fields tuple)] []) ∅) = Some (true, true).
Proof. vm_compute. reflexivity. Qed.

(** A resolution writes back the detail it had read, without an attempt reported
    meanwhile. *)
Example resolution_erases_attempt :
  (fun s => map (fun r => (is_open r, get "verifyAttempts" (IncidentRow.detail r))) (incidents (store s))) <$>
    run fresh resolution_race (System (database [outage] [breach] []) ∅) = Some [(false, None)].
Proof. vm_compute. reflexivity. Qed.

(** Resolving the rollback that is served brings an older open one back. *)
Definition rollback_at (id : string) (t : Z) (hash : string) : IncidentRow.t :=
  IncidentRow.mk id "acme" IncidentKind.rollback (tuple_fields tuple ++ [("toStrategy"%string, JStr hash)]) t None.
Example resolve_uncovers_older :
  let d := database [] [rollback_at "i1" 1000 "best"; rollback_at "i2" 2000 "other"] [] in
  (fun '(d', _, _) => IncidentRow.id <$> active_rollback "acme" "code-gen" d') (alone later 0 (resolveIncident "acme" "i2") d) = Some "i1"%string.
Proof. vm_compute. reflexivity. Qed.

(** An evaluation that cannot be enqueued fails the sample, whose [try] does not
    await it. *)
Definition failed_enqueue : list (event (db := Db) (A := option GuaranteeEvaluation.t)) :=
  [Start 0 (runGuaranteeErrorSample digest true (SampleParams.mk "acme" "r2" "code-gen" rolling (Some "pol"%string) "cheap"));
   Answer 0 (Tick 3000 "u1"); Lose 0 (Tick 3000 "u2") false "queue is down"].
Example sample_throws :
  (fun s => match pool s !! 0%nat with Some (Throw e) => Some e | _ => None end) <$> run fresh failed_enqueue (System (database [] [] []) ∅)
  = Some (Some "queue is down"%string).
Proof. vm_compute. reflexivity. Qed.

Lemma run_query {A X} n t evs (s : system (A := A)) (f : Db -> X) k :
  pool s !! n = Some (query f ≫= k) -> fresh t (store s) = true ->
  run fresh (Answer n t :: evs) s = run fresh evs (System (store s) (<[n := k (f (store s))]> (pool s))).
Proof. intros Hn Ht. cbn [run step]. rewrite Hn. cbn. by rewrite Ht. Qed.

(** What an evaluation has left to do once it has read its window, its
    incumbent, and the earlier incidents. *)
Definition breaching : Policy := max_quality one None (Some (promise alert)).
Definition opens_breach : proc Db GuaranteeEvaluation.t :=
  opened ← open_breach tuple breaching alert (breach_detail tuple (promise alert) one zero (zero, zero) (window_seed digest "" tuple [zero]) 1 None);
  let '(row, target) := opened in
  Ret (GuaranteeEvaluation.mk (Some zero) 1 legacy None true (Some alert) (Some (IncidentRow.id row)) (Some (IncidentRow.createdAt row)) None
         (Some (zero, zero)) (Some (window_seed digest "" tuple [zero])) one (rolled_back tuple <$> target)).

Lemma evaluation_reads : exists k1 k2 k3,
  evaluateGuarantee digest tuple breaching 3000 = query (fun d => evidence_of (window tuple (-3597000) d)) ≫= k1 /\
  k1 (evidence_of [zero]) = query (active_incumbent "acme" "code-gen") ≫= k2 /\
  k2 None = query (recent_contractual tuple (-3597000)) ≫= k3 /\ k3 None = opens_breach.
Proof.
  unfold evaluateGuarantee. cbn [guarantee_of breaching].
  assert (windowCutoff (GuaranteeConfig.windowMin (promise alert)) 3000 = Some (-3597000)) as Es by (vm_compute; reflexivity).
  unfold windowEvidence, recentContractualIncident, cutoff. rewrite Es. cbn [of_option].
  eexists _, _, _. split; [reflexivity|]. split; [reflexivity|]. cbn beta iota. cbn [evidence_of WindowEvidence.qualities WindowEvidence.mean].
  rewrite outage_ci. 
  split; reflexivity.
Qed.

(** Two evaluations of one tuple, each reading before the other writes. *)
Definition concurrent_evaluations : list (event (db := Db) (A := GuaranteeEvaluation.t)) :=
  let p := evaluateGuarantee digest tuple breaching 3000 in
  [Start 0 p; Start 1 p; Answer 0 (Tick 3000 "u1"); Answer 1 (Tick 3000 "u2"); Answer 0 (Tick 3000 "u3"); Answer 1 (Tick 3000 "u4");
   Answer 0 (Tick 3000 "u5"); Answer 1 (Tick 3000 "u6"); Answer 0 (Tick 3001 "u7"); Answer 1 (Tick 3001 "u8")].
#[local] Ltac next_read E := erewrite run_query by done; cbn [store pool]; rewrite ?E.

Example breached_twice : exists s,
  run fresh concurrent_evaluations (System (database [outage] [] []) ∅) = Some s /\
  map (fun r => (IncidentRow.id r, IncidentRow.kind r)) (incidents (store s)) = [("u7", IncidentKind.quality_breach); ("u8", IncidentKind.quality_breach)]%string.
Proof.
  destruct evaluation_reads as (k1 & k2 & k3 & E & E1 & E2 & E3). unfold concurrent_evaluations. rewrite E.
  set (l := [Answer 0 (Tick 3000 "u1"); _; _; _; _; _; _; _] : list (event (db := Db) (A := GuaranteeEvaluation.t))).
  change (run _ _ _) with (run fresh l (System (database [outage] [] []) (<[1%nat := query (fun d => evidence_of (window tuple (-3597000) d)) ≫= k1]>
     (<[0%nat := query (fun d => evidence_of (window tuple (-3597000) d)) ≫= k1]> ∅)))). subst l.
  assert (evidence_of (window tuple (-3597000) (database [outage] [] [])) = evidence_of [zero]) as Ew by reflexivity.
  next_read Ew. next_read Ew. rewrite E1. next_read E2. next_read E2.
  assert (active_incumbent "acme" "code-gen" (database [outage] [] []) = None) as Ei by reflexivity. rewrite Ei, E2.
  assert (recent_contractual tuple (-3597000) (database [outage] [] []) = None) as Ep by (vm_compute; reflexivity).
  next_read Ep. next_read Ep. rewrite E3. eexists. split; [cbn -[window_seed]; reflexivity|reflexivity].
Qed.

End GuaranteeSafety.
