(* ===== verification/UsageRollup.v ===== *)
(** * What was used: db/src/repos/usage.ts and the spend of request-logs.ts

    Every served request, and every call of a judge or of a measurement, is a
    row of request_logs.  The rollup groups the billable rows by organization,
    UTC day and cluster; [usage_daily] keeps its result, and the budgets, the
    usage page and the invoices read it. *)

From Stdlib Require Import Ascii.
From S2P Require Import Prelude Number Types JsSort Print Calendar Stats Demand Prompt.

Module UsageRollup.
Import Num Prompt Demand Calendar.
Local Open Scope Z_scope.

(** The database's [numeric] sums, of the decimals a double is written as: they
    are exact, so their order does not matter; read as a double, and as an
    integer by [::int], which fails outside 32 bits. *)
Class Numeric := {
  numeric_float : list number -> number;
  numeric_int : list number -> Z;
  numeric_float_perm l l' : l ≡ₚ l' -> numeric_float l = numeric_float l';
  numeric_int_perm l l' : l ≡ₚ l' -> numeric_int l = numeric_int l';
}.

(** The columns of request_logs the rollups read. *)
Module RequestLogRow.
Record t := mk {
  ts : Z;
  orgId : string;
  clusterId : option string;
  status : string;
  usage : option Usage.t;
  baselineCostUsd : option number;
  holdout : bool;
  implicitSignals : list string;
}.
End RequestLogRow.

Module UsageRange.
Record t := mk { fromDay : string; toDay : string }.
End UsageRange.

Module UsageRollupRow.
Record t := mk {
  orgId : string;
  day : string;
  clusterId : string;
  requests : Z;
  inputTokens : Z;
  outputTokens : Z;
  costUsd : number;
  platformCostUsd : number;
  servingCostUsd : number;
  infeasibleCostUsd : number;
  baselineCostUsd : number;
}.
End UsageRollupRow.

Module UsageTotals.
Record t := mk {
  requests : Z;
  inputTokens : Z;
  outputTokens : Z;
  costUsd : number;
  platformCostUsd : number;
  baselineCostUsd : number;
  servingCostUsd : number;
  infeasibleCostUsd : number;
}.
End UsageTotals.

Module UsageDailyRow.
Record t := mk {
  orgId : string;
  day : string;
  clusterId : string;
  requests : Z;
  inputTokens : Z;
  outputTokens : Z;
  costUsd : number;
  platformCostUsd : number;
  baselineCostUsd : number;
}.
End UsageDailyRow.

(** ** Days *)

(** [/^\d{4}-\d{2}-\d{2}$/]. *)
Fixpoint digits_then (n : nat) (rest : string -> bool) (s : string) : bool :=
  match n, s with
  | O, _ => rest s
  | S n, String c s => is_digit c && digits_then n rest s
  | S _, EmptyString => false
  end.
Definition dash_then (rest : string -> bool) (s : string) : bool :=
  match s with String c s => Ascii.eqb c "-"%char && rest s | EmptyString => false end.
Definition isDayString (s : string) : bool :=
  digits_then 4 (dash_then (digits_then 2 (dash_then (digits_then 2 (String.eqb ""))))) s.

Definition assertDayRange (range : UsageRange.t) : bool := isDayString (UsageRange.fromDay range) && isDayString (UsageRange.toDay range).

Definition utcDay (d : Z) : string := utcDayOf d.

Definition periodFromDay (period : string) : string := period +:+ "-01".

Definition isPeriodString (s : string) : bool := digits_then 4 (dash_then (digits_then 2 (String.eqb ""))) s.

(** The day of a text of the calendar: [new Date(day + 'T00:00:00Z')]. *)
Definition read_day (s : string) : Z :=
  let '(y, r) := digit_run s in
  let '(m, r) := digit_run (String.substring 1 (String.length r) r) in
  let '(d, _) := digit_run (String.substring 1 (String.length r) r) in
  day_of_civil (digits_value 0 y, digits_value 0 m, digits_value 0 d).

(** The first day of the month after. *)
Definition next_month (y m : Z) : Z * Z := if m =? 12 then (y + 1, 1) else (y, m + 1).

(** Day 0 of the next month. *)
Definition last_of_month (y m : Z) : Z := let '(y', m') := next_month y m in day_of_civil (y', m', 1) - 1.

(** ** The rollup *)

Definition billable : list string := ["ok"; "guarantee_judge"; "rubric_gen"]%string.

Definition is_ok (r : RequestLogRow.t) : bool := String.eqb (RequestLogRow.status r) "ok".
Definition cost (r : RequestLogRow.t) : option number := Usage.costUsd <$> RequestLogRow.usage r.

(** [a BETWEEN x AND y], of texts. *)
Definition between (x y a : string) : bool := negb (bool_decide (String.compare x a = Gt)) && negb (bool_decide (String.compare a y = Gt)).

Definition day_of (r : RequestLogRow.t) : string := utcDayOf (RequestLogRow.ts r).

Definition selected (range : UsageRange.t) (orgId : option string) (r : RequestLogRow.t) : bool :=
  existsb (String.eqb (RequestLogRow.status r)) billable && between (UsageRange.fromDay range) (UsageRange.toDay range) (day_of r) &&
  match orgId with Some o => String.eqb (RequestLogRow.orgId r) o | None => true end.

Definition key_of (r : RequestLogRow.t) : string * string * string :=
  (RequestLogRow.orgId r, day_of r, default "unassigned"%string (RequestLogRow.clusterId r)).

Definition MAX_INT : Z := 2147483647.
Definition as_int (z : Z) : option Z := if (- MAX_INT - 1 <=? z) && (z <=? MAX_INT) then Some z else None.

Definition policy_infeasible (r : RequestLogRow.t) : bool := existsb (String.eqb "fallback_policy_infeasible") (RequestLogRow.implicitSignals r).

Section Rollup.
(** Sums of doubles are taken, and groups returned, in the order the database
    finds them. *)
Context {numeric : Numeric} (scan : list (string * string * string) -> list (string * string * string)).

(** One group, or the error of an integer out of range. *)
Definition rollup_group (key : string * string * string) (rows : list RequestLogRow.t) : option UsageRollupRow.t :=
  let served := List.filter is_ok rows in
  let costs := omap cost in
  input ← as_int (numeric_int (omap (fun r => Usage.inputTokens <$> RequestLogRow.usage r) served));
  output ← as_int (numeric_int (omap (fun r => Usage.outputTokens <$> RequestLogRow.usage r) served));
  let '(org, day, cluster) := key in
  Some (UsageRollupRow.mk org day cluster (Z.of_nat (length served)) input output
    (numeric_float (costs rows)) (numeric_float (costs rows)) (numeric_float (costs served))
    (numeric_float (costs (List.filter policy_infeasible served)))
    (Stats.sum (omap RequestLogRow.baselineCostUsd (List.filter (fun r => negb (RequestLogRow.holdout r)) served)))).

Definition rollup_rows (range : UsageRange.t) (orgId : option string) (logs : list RequestLogRow.t) : list (string * string * string * list RequestLogRow.t) :=
  let rows := List.filter (selected range orgId) logs in
  map (fun key => (key, List.filter (fun r => bool_decide (key_of r = key)) rows)) (scan (remove_dups (map key_of rows))).

Definition rollupQuery (range : UsageRange.t) (orgId : option string) (logs : list RequestLogRow.t) : option (list UsageRollupRow.t) :=
  mapM (fun g => rollup_group g.1 g.2) (rollup_rows range orgId logs).

(** [None] where it throws: a malformed day, or the database's error. *)
Definition liveUsageRollup (logs : list RequestLogRow.t) (orgId : string) (range : UsageRange.t) : option (list UsageRollupRow.t) :=
  if assertDayRange range then rollupQuery range (Some orgId) logs else None.

Definition sumRollup (rows : list UsageRollupRow.t) : UsageTotals.t :=
  fold_left (fun acc r => UsageTotals.mk
    (UsageTotals.requests acc + UsageRollupRow.requests r) (UsageTotals.inputTokens acc + UsageRollupRow.inputTokens r)
    (UsageTotals.outputTokens acc + UsageRollupRow.outputTokens r) (add (UsageTotals.costUsd acc) (UsageRollupRow.costUsd r))
    (add (UsageTotals.platformCostUsd acc) (UsageRollupRow.platformCostUsd r)) (add (UsageTotals.baselineCostUsd acc) (UsageRollupRow.baselineCostUsd r))
    (add (UsageTotals.servingCostUsd acc) (UsageRollupRow.servingCostUsd r)) (add (UsageTotals.infeasibleCostUsd acc) (UsageRollupRow.infeasibleCostUsd r)))
    rows (UsageTotals.mk 0 0 0 zero zero zero zero zero).

(** ** usage_daily *)

Definition daily_of (r : UsageRollupRow.t) : UsageDailyRow.t :=
  UsageDailyRow.mk (UsageRollupRow.orgId r) (UsageRollupRow.day r) (UsageRollupRow.clusterId r) (UsageRollupRow.requests r)
    (UsageRollupRow.inputTokens r) (UsageRollupRow.outputTokens r) (UsageRollupRow.costUsd r) (UsageRollupRow.platformCostUsd r)
    (UsageRollupRow.baselineCostUsd r).

Definition daily_key (r : UsageDailyRow.t) : string * string * string := (UsageDailyRow.orgId r, UsageDailyRow.day r, UsageDailyRow.clusterId r).

(** INSERT ... ON CONFLICT DO UPDATE. *)
Fixpoint upsert (row : UsageDailyRow.t) (table : list UsageDailyRow.t) : list UsageDailyRow.t :=
  match table with
  | [] => [row]
  | r :: table => if bool_decide (daily_key r = daily_key row) then row :: table else r :: upsert row table
  end.

Definition day_order (a b : UsageDailyRow.t) : comparison :=
  match String.compare (UsageDailyRow.day a) (UsageDailyRow.day b) with
  | Eq => String.compare (UsageDailyRow.clusterId a) (UsageDailyRow.clusterId b)
  | c => c
  end.

Definition listUsageDaily (table : list UsageDailyRow.t) (orgId : string) (range : UsageRange.t) : list UsageDailyRow.t :=
  Sort.sort day_order (List.filter (fun r => String.eqb (UsageDailyRow.orgId r) orgId &&
    between (UsageRange.fromDay range) (UsageRange.toDay range) (UsageDailyRow.day r)) table).

(** ** Spend read from the log *)

Definition measured (orgId : string) (r : RequestLogRow.t) : bool :=
  String.eqb (RequestLogRow.orgId r) orgId && String.eqb (RequestLogRow.status r) "eval_live".

(** Instants from the first to the last day, of a database that counts in UTC. *)
Definition measurementSpendUsd (logs : list RequestLogRow.t) (orgId fromDay toDay : string) : number :=
  Stats.sum (omap cost (List.filter (fun r =>
    measured orgId r && (read_day fromDay * DAY_MS <=? RequestLogRow.ts r) && (RequestLogRow.ts r <? (read_day toDay + 1) * DAY_MS)) logs)).

Definition measurementSpendSince (logs : list RequestLogRow.t) (orgId : string) (since : Z) : number :=
  Stats.sum (omap cost (List.filter (fun r => measured orgId r && (since <=? RequestLogRow.ts r)) logs)).

Definition servingSpendSince (logs : list RequestLogRow.t) (orgId : string) (since : Z) : number :=
  Stats.sum (omap cost (List.filter (fun r => String.eqb (RequestLogRow.orgId r) orgId && is_ok r && (since <=? RequestLogRow.ts r)) logs)).

(** ** The spend of a budget *)

(** Days from one to the other, a cost for each. *)
Fixpoint series (costs : list (string * number)) (day : Z) (n : nat) : list (string * number) :=
  match n with
  | O => []
  | S n => (iso_day day, default zero (snd <$> find (fun e => String.eqb e.1 (iso_day day)) costs)) :: series costs (day + 1) n
  end.

(** [byDay]: rows of one day are added in their order. *)
Fixpoint add_cost (day : string) (c : number) (m : list (string * number)) : list (string * number) :=
  match m with
  | [] => [(day, add zero c)]
  | e :: m => if String.eqb e.1 day then (day, add e.2 c) :: m else e :: add_cost day c m
  end.
Definition by_day (rows : list UsageRollupRow.t) : list (string * number) :=
  fold_left (fun m r => add_cost (UsageRollupRow.day r) (UsageRollupRow.costUsd r) m) rows [].

Definition dailySpendSeries (logs : list RequestLogRow.t) (orgId : string) (range : UsageRange.t) : option (list (string * number)) :=
  rows ← liveUsageRollup logs orgId range;
  let first := read_day (UsageRange.fromDay range) in
  Some (series (by_day rows) first (Z.to_nat (read_day (UsageRange.toDay range) - first + 1))).

Definition month_start (day : string) : string := String.substring 0 7 day +:+ "-01".

Definition billed (rows : list UsageRollupRow.t) : number := fold_left (fun sum r => add sum (UsageRollupRow.costUsd r)) rows zero.

(** [platformSpendUsdForDay]: every organization's served spend of a day, up to
    its last millisecond. *)
Definition platformSpendUsdForDay (logs : list RequestLogRow.t) (now : Z) : number :=
  let day := now / DAY_MS * DAY_MS in
  let n := Stats.sum (omap cost (List.filter (fun r => is_ok r && (day <=? RequestLogRow.ts r) && (RequestLogRow.ts r <? day + DAY_MS - 1)) logs)) in
  if is_finite n then n else zero.

End Rollup.
End UsageRollup.
