(* ===== verification/Credits.v ===== *)
(** * Credits

    An effect that must be earned: a process may raise the measure [Φ] of the
    store by no more than what it lowered it by before.  [spends c p] says so
    of a process that holds credit [c]; [within_credit] is what follows for
    every interleaving of processes that start with none, whatever is lost.
    It is the amortized counterpart of [Statements.ok], whose assertions are
    kept by all and cannot be used up. *)

From S2P Require Import Prelude Statements.

Module Credits.
Import Statements.
Local Open Scope Z_scope.

Section Credit.
Context {db : Type} (admissible : tick -> db -> bool) (Φ : db -> Z).

Fixpoint spends {A} (c : Z) (p : proc db A) : Prop :=
  match p with
  | Ret _ | Throw _ => 0 <= c
  | Stmt X q k h =>
      0 <= c /\ (forall e, spends c (h e)) /\
      forall t d, admissible t d = true ->
        let r := q t d in spends (c + Φ d - Φ r.1) (k r.2) /\ forall e, spends (c + Φ d - Φ r.1) (h e)
  end.

Lemma spends_nonneg {A} c (p : proc db A) : spends c p -> 0 <= c.
Proof. by destruct p; [| |intros [? _]]. Qed.

Lemma spends_mono {A} (p : proc db A) c c' : spends c p -> c <= c' -> spends c' p.
Proof.
  revert c c'. induction p as [a|e|X q k IH h IHh]; cbn; intros c c' H Hc; [lia..|].
  destruct H as (H0 & H1 & H2). split; [lia|]. split; [intros e; by eapply IHh|].
  intros t d [H3 H4]%H2. split; [eapply IH; [exact H3|lia]|intros e; eapply IHh; [apply H4|lia]].
Qed.

Lemma spends_bind {A B} (p : proc db A) (f : A -> proc db B) c :
  spends c p -> (forall a, spends 0 (f a)) -> spends c (p ≫= f).
Proof.
  revert c. induction p as [a|e|X q k IH h IHh]; cbn; intros c H Hf; [by eapply spends_mono|done|].
  destruct H as (H0 & H1 & H2). split; [done|]. split; [intros e; by apply IHh|].
  intros t d [H3 H4]%H2. split; [by apply IH|intros e; by apply IHh].
Qed.

Lemma spends_catch {A} (p : proc db A) handler c :
  spends c p -> (forall e, spends 0 (handler e)) -> spends c (catch p handler).
Proof.
  revert c. induction p as [a|e|X q k IH h IHh]; cbn; intros c H Hf; [done|by eapply spends_mono|].
  destruct H as (H0 & H1 & H2). split; [done|]. split; [intros e; by apply IHh|].
  intros t d [H3 H4]%H2. split; [by apply IH|intros e; by apply IHh].
Qed.

(** The rule of one statement. *)
Lemma spends_exec {A X} (q : tick -> db -> db * X) (f : X -> proc db A) c :
  0 <= c -> (forall t d, admissible t d = true -> spends (c + Φ d - Φ (q t d).1) (f (q t d).2)) -> spends c (exec q ≫= f).
Proof.
  intros Hc H. split; [done|]. split; [by intros e|]. intros t d Ht%H.
  split; [done|]. intros e. by eapply spends_nonneg.
Qed.

(** A statement that leaves the measure alone. *)
Lemma spends_quiet {A X} (q : tick -> db -> db * X) (f : X -> proc db A) c :
  0 <= c -> (forall t d, Φ (q t d).1 = Φ d) -> (forall t d, admissible t d = true -> spends c (f (q t d).2)) -> spends c (exec q ≫= f).
Proof. intros Hc Hq Hf. apply spends_exec; [done|]. intros t d Ht. rewrite Hq. eapply spends_mono; [by apply Hf|lia]. Qed.

Lemma spends_last {X} (q : tick -> db -> db * X) c : 0 <= c -> (forall t d, admissible t d = true -> Φ (q t d).1 <= c + Φ d) -> spends c (exec q).
Proof. intros Hc H. cbn. split; [done|]. split; [done|]. intros t d Ht%H. split; [|intros _]; lia. Qed.

(** ** Every run *)

Definition total (m : gmap nat Z) : Z := map_fold (fun _ => Z.add) 0 m.

Lemma total_delete n c m : m !! n = Some c -> total m = c + total (delete n m).
Proof. intros H. apply (map_fold_delete_L (fun _ => Z.add) 0 n c m); [intros; lia|done]. Qed.

Lemma total_insert n c m : total (<[n := c]> m) = c + total (delete n m).
Proof. rewrite (total_delete n c) by by rewrite lookup_insert_eq. by rewrite delete_insert_eq. Qed.

(** Each process holds its credit, and none of it was made up. *)
Definition funded {A} (d : db) (s : system (db := db) (A := A)) : Prop :=
  exists m : gmap nat Z,
    (forall n p, pool s !! n = Some p -> exists c, m !! n = Some c /\ spends c p) /\
    (forall n c, m !! n = Some c -> 0 <= c) /\
    Φ (store s) + total m <= Φ d.

Definition starts_without {A} (ev : event (db := db) (A := A)) : Prop := match ev with Start _ p => spends 0 p | _ => True end.

Lemma funded_put {A} d (s : system (A := A)) (m : gmap nat Z) n p c d' :
  (forall n p, pool s !! n = Some p -> exists c, m !! n = Some c /\ spends c p) ->
  (forall n c, m !! n = Some c -> 0 <= c) ->
  spends c p -> Φ d' + c + total (delete n m) <= Φ d -> funded d (System d' (<[n := p]> (pool s))).
Proof.
  intros H1 H2 Hp Hle. exists (<[n := c]> m). split; [|split].
  - cbn. intros n' p'. destruct (decide (n' = n)) as [->|Hne]; [rewrite !lookup_insert_eq; intros [= <-]; by eauto|].
    rewrite !lookup_insert_ne by done. apply H1.
  - intros n' c'. destruct (decide (n' = n)) as [->|Hne]; [rewrite lookup_insert_eq; intros [= <-]; by eapply spends_nonneg|].
    rewrite lookup_insert_ne by done. apply H2.
  - cbn. rewrite total_insert. lia.
Qed.

Lemma funded_step {A} d ev (s s' : system (A := A)) :
  starts_without ev -> funded d s -> step admissible ev s = Some s' -> funded d s'.
Proof.
  intros Hev (m & H1 & H2 & H3). destruct ev as [n p|n t|n t applied e]; cbn; destruct (pool s !! n) as [p'|] eqn:E; try done.
  - intros [= <-]. eapply funded_put; [done..|exact Hev|].
    destruct (m !! n) as [c|] eqn:Em; [|rewrite delete_id by done; lia].
    pose proof (total_delete _ _ _ Em). pose proof (H2 _ _ Em). lia.
  - destruct p' as [|?|X q k h]; try done. destruct (admissible t (store s)) eqn:Ht; [|done].
    destruct (q t (store s)) as [d' x] eqn:Eq. intros [= <-].
    destruct (H1 _ _ E) as (c & Em & _ & _ & G). destruct (G t _ Ht) as [G1 _]. rewrite Eq in G1. cbn in G1.
    eapply funded_put; [done..|exact G1|]. pose proof (total_delete _ _ _ Em). lia.
  - destruct p' as [|?|X q k h]; try done. destruct (applied && _) eqn:Ea; [done|]. intros [= <-].
    destruct (H1 _ _ E) as (c & Em & _ & G0 & G). pose proof (total_delete _ _ _ Em) as Htot. destruct applied; cbn in Ea.
    + apply negb_false_iff in Ea. destruct (G t _ Ea) as [_ G1]. eapply funded_put; [done..|apply (G1 e)|]. lia.
    + eapply funded_put; [done..|apply (G0 e)|]. lia.
Qed.

(** Processes that start without credit never raise the measure. *)
Theorem within_credit {A} evs d (s : system (A := A)) :
  Forall starts_without evs -> run admissible evs (System d ∅) = Some s -> Φ (store s) <= Φ d.
Proof.
  intros Hev Hr. enough (funded d s) as (m & _ & H2 & H3).
  { enough (0 <= total m) by lia. clear H3. revert H2. unfold total. induction m as [|n c m Hn Hfirst IH] using map_first_key_ind; intros H2; [done|].
    rewrite map_fold_insert_L; [|intros; lia|done].
    pose proof (H2 n c (lookup_insert_eq _ _ _)). cut (0 <= map_fold (fun _ => Z.add) 0 m); [lia|].
    apply IH. intros n' c' Hm. apply (H2 n'). rewrite lookup_insert_ne; [done|]. intros ->. by rewrite Hn in Hm. }
  assert (funded d (System (A := A) d ∅)) as H0.
  { exists ∅. split; [intros n p; cbn; by rewrite lookup_empty|]. split; [intros n c; by rewrite lookup_empty|]. cbn. unfold total. rewrite map_fold_empty. lia. }
  revert H0 Hr. generalize (System (A := A) d ∅). induction Hev as [|ev evs H1 _ IH]; intros s0 H Hr; cbn in Hr; [by simplify_eq|].
  destruct (step admissible ev s0) as [s1|] eqn:E; [|done]. by eapply IH; [eapply funded_step|].
Qed.

End Credit.
End Credits.
