(* ===== verification/Budgets.v ===== *)
(** * Budgets: db/src/repos/budgets.ts, apps/server/src/routes/budgets.ts and the
    [budget:evaluate] job of workers/src/handlers.ts

    A budget caps the month's spend of an organization.  The serving path asks
    [checkBudgetHardStop] before it spends, which remembers its answer for five
    seconds; the nightly job raises warnings.  Both raise an alert only when
    their row of the ledger of events was new.  [World] is the database and the
    server's memory: the code between two awaits is one statement of it. *)

From Stdlib Require Import Ascii.
From S2P Require Import Prelude Number Types Print Calendar Stats Demand Statements Guarantee UsageRollup.

Module Budgets.
Import Num Print Demand Calendar Statements UsageRollup.
Local Open Scope Z_scope.

Module BudgetRow.
Record t := mk { orgId : string; monthlyCapUsd : number; hardStop : bool; warnPct : Z; updatedAt : Z }.
End BudgetRow.

Inductive BudgetEventKind := budget_warning | budget_exceeded.
#[export] Instance budget_event_kind_dec : EqDecision BudgetEventKind.
Proof. solve_decision. Defined.

Definition kind_name (k : BudgetEventKind) : string := match k with budget_warning => "budget_warning" | budget_exceeded => "budget_exceeded" end.

Module BudgetEventRow.
Record t := mk { orgId : string; kind : BudgetEventKind; day : string; createdAt : Z }.
End BudgetEventRow.

Inductive BudgetStopReason := org_cap | platform_org_default_cap | platform_daily_cap | check_failed_platform_paid.

Definition reason_name (r : BudgetStopReason) : string :=
  match r with
  | org_cap => "org-cap"
  | platform_org_default_cap => "platform-org-default-cap"
  | platform_daily_cap => "platform-daily-cap"
  | check_failed_platform_paid => "check-failed-platform-paid"
  end.

Module BudgetHardStopResult.
Record t := mk {
  stopped : bool;
  budget : option BudgetRow.t;
  mtdUsd : number;
  reason : option BudgetStopReason;
  capUsd : option number;
  platformPaid : bool;
}.
End BudgetHardStopResult.

Module CacheEntry.
Record t := mk { at_ : Z; result : BudgetHardStopResult.t }.
End CacheEntry.

Record World := MkWorld {
  logs : list RequestLogRow.t;
  usage_daily : list UsageDailyRow.t;
  budgets : list BudgetRow.t;
  events : list BudgetEventRow.t;
  hardStopCache : gmap string CacheEntry.t;
  alerts : list Guarantee.AlertPayload.t;
}.

Definition with_logs (l : list RequestLogRow.t) (d : World) : World := MkWorld l (usage_daily d) (budgets d) (events d) (hardStopCache d) (alerts d).
Definition with_usage (l : list UsageDailyRow.t) (d : World) : World := MkWorld (logs d) l (budgets d) (events d) (hardStopCache d) (alerts d).
Definition with_budgets (l : list BudgetRow.t) (d : World) : World := MkWorld (logs d) (usage_daily d) l (events d) (hardStopCache d) (alerts d).
Definition with_events (l : list BudgetEventRow.t) (d : World) : World := MkWorld (logs d) (usage_daily d) (budgets d) l (hardStopCache d) (alerts d).
Definition with_cache (m : gmap string CacheEntry.t) (d : World) : World := MkWorld (logs d) (usage_daily d) (budgets d) (events d) m (alerts d).
Definition with_alerts (l : list Guarantee.AlertPayload.t) (d : World) : World := MkWorld (logs d) (usage_daily d) (budgets d) (events d) (hardStopCache d) l.

(** ** Rows *)

Definition of_org (orgId : string) (b : BudgetRow.t) : bool := String.eqb (BudgetRow.orgId b) orgId.
Definition budget_of (orgId : string) (d : World) : option BudgetRow.t := find (of_org orgId) (budgets d).
Definition getBudget (orgId : string) : proc World (option BudgetRow.t) := query (budget_of orgId).
Definition listBudgets : proc World (list BudgetRow.t) := query budgets.

Fixpoint put_budget (row : BudgetRow.t) (l : list BudgetRow.t) : list BudgetRow.t :=
  match l with
  | [] => [row]
  | b :: l => if of_org (BudgetRow.orgId row) b then row :: l else b :: put_budget row l
  end.

Definition upsertBudget (orgId : string) (monthlyCapUsd : number) (hardStop : bool) (warnPct : Z) : proc World BudgetRow.t :=
  exec (fun t d => let row := BudgetRow.mk orgId monthlyCapUsd hardStop warnPct (now t) in (with_budgets (put_budget row (budgets d)) d, row)).

(** The key of the ledger. *)
Definition is_event (orgId : string) (kind : BudgetEventKind) (day : string) (e : BudgetEventRow.t) : bool :=
  String.eqb (BudgetEventRow.orgId e) orgId && bool_decide (BudgetEventRow.kind e = kind) && String.eqb (BudgetEventRow.day e) day.

(** INSERT ... ON CONFLICT DO NOTHING: was it inserted? *)
Definition insert_event (orgId : string) (kind : BudgetEventKind) (day : string) (t : tick) (d : World) : World * bool :=
  if existsb (is_event orgId kind day) (events d) then (d, false)
  else (with_events (events d ++ [BudgetEventRow.mk orgId kind day (now t)]) d, true).
Definition recordBudgetEvent (orgId : string) (kind : BudgetEventKind) (day : option string) (now : Z) : proc World bool :=
  exec (insert_event orgId kind (default (utcDay now) day)).

Definition newest_event (a b : BudgetEventRow.t) : comparison := BudgetEventRow.createdAt b ?= BudgetEventRow.createdAt a.
Definition listBudgetEvents (orgId : string) (limit : nat) : proc World (list BudgetEventRow.t) :=
  query (fun d => take limit (JsSort.Sort.sort newest_event (List.filter (fun e => String.eqb (BudgetEventRow.orgId e) orgId) (events d)))).

Definition emitAlert (payload : Guarantee.AlertPayload.t) : proc World unit := exec (fun _ d => (with_alerts (alerts d ++ [payload]) d, tt)).
Definition insertRequestLog (row : Z -> RequestLogRow.t) : proc World unit := exec (fun t d => (with_logs (logs d ++ [row (now t)]) d, tt)).

(** ** Pure math *)

Definition daysInUtcMonth (now : Z) : Z := let '(y, m, _) := civil (now / DAY_MS) in let '(_, _, d) := civil (last_of_month y m) in d.

Definition forecastMtdUsd (mtd : number) (now : Z) : number :=
  let '(_, _, dayOfMonth) := civil (now / DAY_MS) in mul mtd (div (of_Z (daysInUtcMonth now)) (of_Z dayOfMonth)).

Definition warnAtUsd (capUsd : number) (warnPct : Z) : number := mul capUsd (div (of_Z warnPct) (of_Z 100)).

Module SpendZScore.
Record t := mk { z : number; mean7 : number; mean30 : number; std30 : number }.
End SpendZScore.

Definition BUDGET_ZSCORE_THRESHOLD : number := lit 25 1.

Definition DEFAULT_PLATFORM_ORG_CAP_USD : number := of_Z 10.
Definition HARD_STOP_TTL_MS : Z := 5000.

(** What of the environment and of the context the check reads: the mode, the
    two caps as they are set, and whether an organization has a servable key of
    its own, [None] where finding out fails. *)
Module BudgetContext.
Record t := mk {
  providerMode : ProviderMode;
  platformOrgCap : option number;
  platformDailyCap : option number;
  byok : string -> option bool;
}.
End BudgetContext.

(** [Number.isFinite(n) && n > 0 ? n : null], of a setting read as a number. *)
Definition envPositiveNumber (setting : option number) : option number :=
  match setting with Some n => if is_finite n && gtb n zero then Some n else None | None => None end.

Definition platformOrgCapUsd (ctx : BudgetContext.t) : number := default DEFAULT_PLATFORM_ORG_CAP_USD (envPositiveNumber (BudgetContext.platformOrgCap ctx)).
Definition platformDailyCapUsd (ctx : BudgetContext.t) : option number := envPositiveNumber (BudgetContext.platformDailyCap ctx).

Definition platformPaysFor (ctx : BudgetContext.t) (orgId : string) : bool :=
  match BudgetContext.providerMode ctx with
  | live => match BudgetContext.byok ctx orgId with Some byok => negb byok | None => true end
  | mock => false
  end.

Inductive budget_state := unconfigured | exceeded | warn | ok_state.

Module BudgetView.
Record t := mk { budget : option BudgetRow.t; mtdUsd : number; forecastUsd : number; warnAt : option number; state : budget_state }.
End BudgetView.

(** The body [UpsertBudgetSchema] accepts. *)
Module UpsertBudget.
Record t := mk { monthlyCapUsd : number; hardStop : option bool; warnPct : option Z }.
End UpsertBudget.

Module BudgetEvaluateOrgResult.
Record t := mk {
  orgId : string;
  capUsd : number;
  mtdUsd : number;
  forecastUsd : number;
  warnAtUsd : number;
  zScore : option number;
  emitted : list BudgetEventKind;
}.
End BudgetEvaluateOrgResult.

Section Spend.
Context {numeric : Numeric} (scan : list (string * string * string) -> list (string * string * string)) (mathPow : number -> number -> number).

Definition spendZScore (last7Daily trailing30Daily : list number) : option SpendZScore.t :=
  match last7Daily, trailing30Daily with
  | [], _ | _, [] => None
  | _, _ =>
      let mean7 := Stats.mean_of last7Daily in
      let mean30 := Stats.mean_of trailing30Daily in
      let variance := div (fold_left (fun s x => add s (mathPow (sub x mean30) (of_Z 2))) trailing30Daily zero) (Stats.count trailing30Daily) in
      let std30 := sqrt variance in
      if eqb std30 zero then None else Some (SpendZScore.mk (div (sub mean7 mean30) std30) mean7 mean30 std30)
  end.

Definition spend_series (orgId : string) (range : UsageRange.t) : proc World (list (string * number)) :=
  o ← query (fun d => dailySpendSeries scan (logs d) orgId range); of_option "rollup failed" o.

Definition mtdSpendUsd (orgId : string) (now : Z) : proc World number :=
  let today := utcDay now in
  let fromDay := month_start today in
  o ← query (fun d => liveUsageRollup scan (logs d) orgId (UsageRange.mk fromDay today));
  rows ← of_option "rollup failed" o;
  measurement ← query (fun d => measurementSpendUsd (logs d) orgId fromDay today);
  Ret (add (billed rows) measurement).

(** ** usage_daily *)

Fixpoint write_daily (rows : list UsageRollupRow.t) : proc World unit :=
  match rows with
  | [] => Ret tt
  | r :: rows => _ ← exec (fun _ d => (with_usage (upsert (daily_of r) (usage_daily d)) d, tt)); write_daily rows
  end.

Definition aggregateUsage (range : UsageRange.t) (orgId : option string) : proc World (list UsageRollupRow.t) :=
  if assertDayRange range then
    o ← query (fun d => rollupQuery scan range orgId (logs d));
    rows ← of_option "integer out of range" o;
    _ ← write_daily rows;
    Ret rows
  else Throw "days must be YYYY-MM-DD".

(** ** The serving path *)

Definition remember (orgId : string) (result : BudgetHardStopResult.t) : proc World BudgetHardStopResult.t :=
  exec (fun t d => (with_cache (<[orgId := CacheEntry.mk (now t) result]> (hardStopCache d)) d, result)).

(** The answer of the last five seconds. *)
Definition cached (orgId : string) : proc World (option BudgetHardStopResult.t) :=
  exec (fun t d => (d,
    match hardStopCache d !! orgId with
    | Some c => if now t - CacheEntry.at_ c <? HARD_STOP_TTL_MS then Some (CacheEntry.result c) else None
    | None => None
    end)).

Definition effectiveCap (ctx : BudgetContext.t) (budget : option BudgetRow.t) (platformPaid : bool) : option (number * BudgetStopReason) :=
  match budget with
  | Some b => if BudgetRow.hardStop b then Some (BudgetRow.monthlyCapUsd b, org_cap)
              else if platformPaid then Some (platformOrgCapUsd ctx, platform_org_default_cap) else None
  | None => if platformPaid then Some (platformOrgCapUsd ctx, platform_org_default_cap) else None
  end.

(** The body of the [try]: the month's spend against the cap, after the day's
    against the platform's ceiling. *)
Definition check_month (ctx : BudgetContext.t) (orgId : string) (budget : option BudgetRow.t) (platformPaid : bool) : proc World BudgetHardStopResult.t :=
  match effectiveCap ctx budget platformPaid with
  | None => remember orgId (BudgetHardStopResult.mk false budget zero None None platformPaid)
  | Some (cap, reason) =>
      now ← new_Date;
      mtdUsd ← mtdSpendUsd orgId now;
      let stopped := geb mtdUsd cap in
      remember orgId (BudgetHardStopResult.mk stopped budget mtdUsd (if stopped then Some reason else None) (if stopped then Some cap else None) platformPaid)
  end.

Definition check_now (ctx : BudgetContext.t) (orgId : string) (platformPaid : bool) : proc World BudgetHardStopResult.t :=
  budget ← getBudget orgId;
  match (if platformPaid then platformDailyCapUsd ctx else None) with
  | Some dailyCap =>
      now ← new_Date;
      spentToday ← query (fun d => platformSpendUsdForDay (logs d) now);
      if geb spentToday dailyCap
      then remember orgId (BudgetHardStopResult.mk true budget spentToday (Some platform_daily_cap) (Some dailyCap) platformPaid)
      else check_month ctx orgId budget platformPaid
  | None => check_month ctx orgId budget platformPaid
  end.

Definition failed_check (platformPaid : bool) : BudgetHardStopResult.t :=
  BudgetHardStopResult.mk platformPaid None zero (if platformPaid then Some check_failed_platform_paid else None) None platformPaid.

Definition checkBudgetHardStop (ctx : BudgetContext.t) (orgId : string) : proc World BudgetHardStopResult.t :=
  hit ← cached orgId;
  match hit with
  | Some result => Ret result
  | None =>
      let platformPaid := platformPaysFor ctx orgId in
      catch (check_now ctx orgId platformPaid) (fun _ => Ret (failed_check platformPaid))
  end.

(** [formatUsd]; [toPrecision] is the language's. *)
Section Format.
Context (toPrecision : Z -> number -> string).

Fixpoint strip_zeros (s : string) : string :=
  match s with
  | EmptyString => EmptyString
  | String c s =>
      match strip_zeros s with
      | EmptyString => if Ascii.eqb c "0"%char then EmptyString else String c EmptyString
      | s' => String c s'
      end
  end.
Definition strip_dot (s : string) : string :=
  let n := String.length s in
  match String.get (n - 1) s with Some c => if Ascii.eqb c "."%char && (0 <? Z.of_nat n) then String.substring 0 (n - 1) s else s | None => s end.
Definition formatUsd (n : number) : string :=
  if eqb n zero then "0.00" else if geb (abs n) (lit 1 2) then toFixed 2 n else strip_dot (strip_zeros (toPrecision 3 n)).

Definition refusal_message (g : BudgetHardStopResult.t) (cap : number) : string :=
  match BudgetHardStopResult.reason g with
  | Some platform_daily_cap =>
      "platform daily spending ceiling reached: $" +:+ formatUsd (BudgetHardStopResult.mtdUsd g) +:+ " ≥ $" +:+ formatUsd cap +:+
      " across the deployment today — serving resumes at UTC midnight, or raise POTION_PLATFORM_DAILY_CAP_USD"
  | Some check_failed_platform_paid =>
      "budget check unavailable — refusing to serve platform-funded traffic without an enforceable cap (this refusal is deliberate: it fails closed when Potion is paying)"
  | Some platform_org_default_cap =>
      "default spending cap for platform-served orgs reached: MTD $" +:+ formatUsd (BudgetHardStopResult.mtdUsd g) +:+ " ≥ $" +:+ formatUsd cap +:+
      " — set your own cap via PUT /api/budgets, or connect your own provider key to bill your account instead"
  | _ =>
      "monthly budget cap reached (hard stop): MTD $" +:+ formatUsd (BudgetHardStopResult.mtdUsd g) +:+ " ≥ cap $" +:+ formatUsd cap +:+
      " — raise it via PUT /api/budgets"
  end.

Definition cap_of (g : BudgetHardStopResult.t) : number :=
  match BudgetHardStopResult.capUsd g with Some c => c | None => match BudgetHardStopResult.budget g with Some b => BudgetRow.monthlyCapUsd b | None => zero end end.

Definition exceeded_alert (orgId : string) (g : BudgetHardStopResult.t) : Guarantee.AlertPayload.t :=
  Guarantee.AlertPayload.mk orgId "budget_exceeded" None None
    [("monthlyCapUsd"%string, JNum (cap_of g)); ("mtdUsd"%string, JNum (BudgetHardStopResult.mtdUsd g));
     ("source"%string, JStr "serving_path_hard_stop");
     ("reason"%string, JStr (reason_name (default org_cap (BudgetHardStopResult.reason g))));
     ("platformPaid"%string, JBool (BudgetHardStopResult.platformPaid g))].

(** What is started and not awaited when serving stops. *)
Definition alert_exceeded (orgId : string) (g : BudgetHardStopResult.t) : proc World unit :=
  catch
    (now ← new_Date;
     fresh ← recordBudgetEvent orgId budget_exceeded None now;
     if (fresh : bool) then emitAlert (exceeded_alert orgId g) else Ret tt)
    (fun _ => Ret tt).

(** [enforceBudgetHardStop]: the refusal's message, when it refuses; the alert of
    that refusal is [alert_exceeded]. *)
Definition enforceBudgetHardStop (ctx : BudgetContext.t) (orgId : string) (refused : Z -> RequestLogRow.t) :
    proc World (option (BudgetHardStopResult.t * string)) :=
  gate ← checkBudgetHardStop ctx orgId;
  if BudgetHardStopResult.stopped gate then
    _ ← catch (insertRequestLog refused) (fun _ => Ret tt);
    Ret (Some (gate, refusal_message gate (cap_of gate)))
  else Ret None.

End Format.

(** ** The routes *)

Definition state_of (budget : option BudgetRow.t) (mtdUsd : number) : budget_state :=
  match budget with
  | None => unconfigured
  | Some b =>
      if geb mtdUsd (BudgetRow.monthlyCapUsd b) then exceeded
      else if geb mtdUsd (warnAtUsd (BudgetRow.monthlyCapUsd b) (BudgetRow.warnPct b)) then warn else ok_state
  end.

Definition get_budgets (orgId : string) : proc World BudgetView.t :=
  budget ← getBudget orgId;
  now ← new_Date;
  mtdUsd ← mtdSpendUsd orgId now;
  at_ ← new_Date;
  Ret (BudgetView.mk budget mtdUsd (forecastMtdUsd mtdUsd at_) (option_map (fun b => warnAtUsd (BudgetRow.monthlyCapUsd b) (BudgetRow.warnPct b)) budget)
         (state_of budget mtdUsd)).

Definition upsert_valid (p : UpsertBudget.t) : bool :=
  is_finite (UpsertBudget.monthlyCapUsd p) && gtb (UpsertBudget.monthlyCapUsd p) zero && leb (UpsertBudget.monthlyCapUsd p) (of_Z 1000000000) &&
  match UpsertBudget.warnPct p with Some w => (1 <=? w) && (w <=? 100) | None => true end.

(** After authentication, the role and the schema: the cached answer is dropped. *)
Definition put_budgets (orgId : string) (p : UpsertBudget.t) : proc World BudgetRow.t :=
  existing ← getBudget orgId;
  row ← upsertBudget orgId (UpsertBudget.monthlyCapUsd p)
          (match UpsertBudget.hardStop p with Some h => h | None => match existing with Some b => BudgetRow.hardStop b | None => false end end)
          (match UpsertBudget.warnPct p with Some w => w | None => match existing with Some b => BudgetRow.warnPct b | None => 80 end end);
  exec (fun _ d => (with_cache (delete orgId (hardStopCache d)) d, row)).

(** ** budget:evaluate *)

Definition candidate : Type := BudgetEventKind * Guarantee.fields.

Definition candidates (b : BudgetRow.t) (mtd forecast warnAt : number) (z : option SpendZScore.t) : list candidate :=
  let cap := BudgetRow.monthlyCapUsd b in
  (if geb mtd cap then [(budget_exceeded, [("reason"%string, JStr "cap_exceeded"); ("mtdUsd"%string, JNum mtd); ("capUsd"%string, JNum cap)])] else []) ++
  (match z with
   | Some s =>
       if gtb (abs (SpendZScore.z s)) BUDGET_ZSCORE_THRESHOLD then
         [(budget_warning, [("reason"%string, JStr "spend_anomaly"); ("z"%string, JNum (SpendZScore.z s)); ("mean7Usd"%string, JNum (SpendZScore.mean7 s));
            ("mean30Usd"%string, JNum (SpendZScore.mean30 s)); ("std30Usd"%string, JNum (SpendZScore.std30 s))])]
       else []
   | None => []
   end) ++
  (if geb forecast cap then [(budget_warning, [("reason"%string, JStr "forecast_over_cap"); ("forecastUsd"%string, JNum forecast); ("capUsd"%string, JNum cap)])] else []) ++
  (if geb mtd warnAt && ltb mtd cap then
     [(budget_warning, [("reason"%string, JStr "warn_crossing"); ("mtdUsd"%string, JNum mtd); ("warnAtUsd"%string, JNum warnAt);
        ("warnPct"%string, JNum (of_Z (BudgetRow.warnPct b))); ("capUsd"%string, JNum cap)])]
   else []).

Definition event_alert (orgId : string) (c : candidate) : Guarantee.AlertPayload.t :=
  Guarantee.AlertPayload.mk orgId (kind_name c.1) None None c.2.

Fixpoint emit_candidates (orgId today : string) (now : Z) (cs : list candidate) : proc World (list BudgetEventKind) :=
  match cs with
  | [] => Ret []
  | c :: cs =>
      fresh ← recordBudgetEvent orgId c.1 (Some today) now;
      if (fresh : bool) then
        _ ← emitAlert (event_alert orgId c);
        rest ← emit_candidates orgId today now cs;
        Ret (c.1 :: rest)
      else emit_candidates orgId today now cs
  end.

Definition lasts {A} (n : nat) (l : list A) : list A := drop (length l - n) l.

Definition evaluate_budget (b : BudgetRow.t) (now : Z) : proc World BudgetEvaluateOrgResult.t :=
  let org := BudgetRow.orgId b in
  let today := utcDay now in
  let fromDay := utcDay (now - 36 * 24 * 3600 * 1000) in
  series ← spend_series org (UsageRange.mk fromDay today);
  let trailing30 := map snd (take 30 series) in
  let last7 := map snd (lasts 7 series) in
  let z := spendZScore last7 trailing30 in
  mtd ← mtdSpendUsd org now;
  let forecast := forecastMtdUsd mtd now in
  let warnAt := warnAtUsd (BudgetRow.monthlyCapUsd b) (BudgetRow.warnPct b) in
  emitted ← emit_candidates org today now (candidates b mtd forecast warnAt z);
  Ret (BudgetEvaluateOrgResult.mk org (BudgetRow.monthlyCapUsd b) mtd forecast warnAt (option_map SpendZScore.z z) emitted).

Fixpoint evaluate_budgets (bs : list BudgetRow.t) (now : Z) : proc World (list BudgetEvaluateOrgResult.t) :=
  match bs with
  | [] => Ret []
  | b :: bs => r ← evaluate_budget b now; rs ← evaluate_budgets bs now; Ret (r :: rs)
  end.

Definition budgetEvaluateHandler (orgId : option string) : proc World (list BudgetEvaluateOrgResult.t) :=
  now ← new_Date;
  bs ← match orgId with
       | Some o => b ← getBudget o; Ret (match b with Some b => [b] | None => [] end)
       | None => listBudgets
       end;
  evaluate_budgets bs now.

End Spend.
End Budgets.
