(* ===== verification/BudgetsSpec.v ===== *)
(** * What the budgets promise

    The server's serving path and the worker's sweep raise alerts through one
    ledger, at most one alert of a kind per organization and UTC day whatever
    is interleaved and lost; the rollup of usage is a partition of the log, and
    writing it twice is writing it once; a stop has a cap that was reached, and
    a soft cap of a customer who pays never stops. *)

From S2P Require Import Prelude Number Types JsSort Print Calendar Stats Demand Statements Credits Guarantee UsageRollup Budgets.

Module BudgetsSpec.
Import Num Demand Calendar Statements Credits UsageRollup Budgets.
Local Open Scope Z_scope.

(** A check's answer is kept, of other processes nothing. *)
Definition answer : Type := option (string * BudgetHardStopResult.t).
Definition discard {A} (p : proc World A) : proc World answer := p ≫= fun _ => Ret None.

(** The log only grows. *)
Definition logged (d d' : World) : Prop := logs d `prefix_of` logs d'.
#[export] Instance logged_preorder : PreOrder logged.
Proof. split; [intros d; unfold logged; done|]. intros d1 d2 d3 H1 H2. unfold logged in *. by etransitivity. Qed.

Section Services.
Context {numeric : Numeric} (scan : list (string * string * string) -> list (string * string * string)) (mathPow : number -> number -> number)
  (toPrecision : Z -> number -> string) (ctx : BudgetContext.t).

(** What the server and the worker start; the alert of a refusal runs on its own. *)
Inductive service : proc World answer -> Prop :=
| checks org : service (checkBudgetHardStop scan ctx org ≫= fun r => Ret (Some (org, r)))
| enforces org refused : service (discard (enforceBudgetHardStop scan toPrecision ctx org refused))
| alerts_refusal org gate : service (discard (alert_exceeded org gate))
| evaluates org : service (discard (budgetEvaluateHandler scan mathPow org))
| shows org : service (discard (get_budgets scan org))
| puts org body : service (discard (put_budgets org body))
| aggregates range org : service (discard (aggregateUsage scan range org))
| logs_request row : service (discard (insertRequestLog row)).

Definition starts (ev : event (db := World) (A := answer)) : Prop := match ev with Start _ p => service p | _ => True end.

(** ** Alerts and the ledger *)

Definition is_alert (org : string) (kind : BudgetEventKind) (a : Guarantee.AlertPayload.t) : bool :=
  String.eqb (Guarantee.AlertPayload.orgId a) org && String.eqb (Guarantee.AlertPayload.event a) (kind_name kind).

Definition alerts_of (org : string) (kind : BudgetEventKind) (d : World) : Z := Z.of_nat (length (List.filter (is_alert org kind) (alerts d))).

(** The days of an interval of day numbers, and those with an event of the kind. *)
Definition days (a b : Z) : list string := map iso_day (seqZ a (b - a + 1)).

Definition recorded (org : string) (kind : BudgetEventKind) (d : World) (day : string) : bool := existsb (is_event org kind day) (events d).

Definition event_days (org : string) (kind : BudgetEventKind) (a b : Z) (d : World) : Z :=
  Z.of_nat (length (List.filter (recorded org kind d) (days a b))).

(** The clock stays within the interval. *)
Definition within (a b : Z) (t : tick) (_ : World) : bool := (a <=? now t / DAY_MS) && (now t / DAY_MS <=? b).

Lemma day_in_days a b ms : a <= ms / DAY_MS <= b -> utcDay ms ∈ days a b.
Proof. intros H. unfold days, utcDay, utcDayOf. apply (list_elem_of_fmap_2 iso_day), elem_of_seqZ. lia. Qed.

Lemma filter_length_mono {A} (f g : A -> bool) l :
  (forall x, f x = true -> g x = true) -> (length (List.filter f l) <= length (List.filter g l))%nat.
Proof.
  intros H. induction l as [|x l IH]; [done|]. cbn. destruct (f x) eqn:E; [rewrite (H _ E); cbn; lia|]. destruct (g x); cbn; lia.
Qed.

Lemma filter_length_less {A} (f g : A -> bool) l x :
  (forall x, f x = true -> g x = true) -> x ∈ l -> f x = false -> g x = true -> (length (List.filter f l) < length (List.filter g l))%nat.
Proof.
  intros H Hx Hf Hg. induction l as [|y l IH]; [by apply elem_of_nil in Hx|]. apply elem_of_cons in Hx as [->|Hx]; cbn.
  - rewrite Hf, Hg. cbn. pose proof (filter_length_mono f g l H). lia.
  - specialize (IH Hx). destruct (f y) eqn:E; [rewrite (H _ E); cbn; lia|]. destruct (g y); cbn; lia.
Qed.

(** ** Alerts are paid with events *)

Section Window.
Context (org : string) (kind : BudgetEventKind) (a b : Z).

Definition unpaid (d : World) : Z := alerts_of org kind d - event_days org kind a b d.

(** An alert costs what its event gave. *)
Definition worth (o : string) (k : BudgetEventKind) : Z := if String.eqb o org && bool_decide (k = kind) then 1 else 0.

Lemma worth_nonneg o k : 0 <= worth o k.
Proof. unfold worth. by destruct (_ && _). Qed.

Lemma insert_pays o k day t d :
  day ∈ days a b -> (insert_event o k day t d).2 = true -> unpaid (insert_event o k day t d).1 + worth o k <= unpaid d.
Proof.
  intros Hd. unfold insert_event, unpaid, alerts_of, event_days, worth. destruct (existsb _ _) eqn:E; [done|]. intros _. cbn [fst alerts with_events].
  assert (forall x, recorded org kind d x = true -> recorded org kind (with_events (events d ++ [BudgetEventRow.mk o k day (now t)]) d) x = true) as Hm
    by (intros x Hx; unfold recorded; cbn; rewrite existsb_app; apply orb_true_iff; by left).
  destruct (String.eqb o org && bool_decide (k = kind)) eqn:Ew.
  - apply andb_prop in Ew as [->%String.eqb_eq ->%bool_decide_eq_true].
    pose proof (filter_length_less _ _ (days a b) day Hm Hd E) as Hl. lapply Hl; [lia|].
    unfold recorded. cbn. rewrite existsb_app. apply orb_true_iff. right. cbn. unfold is_event. cbn.
    by rewrite !String.eqb_refl, bool_decide_eq_true_2.
  - pose proof (filter_length_mono _ _ (days a b) Hm). lia.
Qed.

Lemma insert_fails o k day t d : (insert_event o k day t d).2 = false -> (insert_event o k day t d).1 = d.
Proof. unfold insert_event. by destruct (existsb _ _). Qed.

Lemma emit_costs p o k :
  Guarantee.AlertPayload.orgId p = o -> Guarantee.AlertPayload.event p = kind_name k -> spends (within a b) unpaid (worth o k) (emitAlert p).
Proof.
  intros Ho Hk. apply spends_last; [apply worth_nonneg|]. intros t d _. unfold unpaid, alerts_of, worth. change (event_days org kind a b _) with (event_days org kind a b d). cbn.
  rewrite List.filter_app, length_app. cbn. unfold is_alert at 2. rewrite Ho, Hk.
  replace (String.eqb (kind_name k) (kind_name kind)) with (bool_decide (k = kind)) by (by destruct k, kind).
  destruct (_ && _); cbn; lia.
Qed.

(** Record, and alert when the event was new. *)
Lemma record_then {A} o k day now_ (f : bool -> proc World A) :
  default (utcDay now_) day ∈ days a b ->
  spends (within a b) unpaid (worth o k) (f true) -> spends (within a b) unpaid 0 (f false) ->
  spends (within a b) unpaid 0 (recordBudgetEvent o k day now_ ≫= f).
Proof.
  intros Hd Ht Hf. apply spends_exec; [done|]. intros t d _. destruct (insert_event _ _ _ t d).2 eqn:E.
  - pose proof (insert_pays _ _ _ _ _ Hd E). eapply spends_mono; [exact Ht|lia].
  - rewrite (insert_fails _ _ _ _ _ E). eapply spends_mono; [exact Hf|lia].
Qed.

Lemma spends_query {A X} (g : World -> X) (f : X -> proc World A) :
  (forall x, spends (within a b) unpaid 0 (f x)) -> spends (within a b) unpaid 0 (query g ≫= f).
Proof. intros Hf. apply spends_quiet; [done..|]. intros t d _. apply Hf. Qed.

Lemma spends_option {A X} e (o : option X) (f : X -> proc World A) :
  (forall x, spends (within a b) unpaid 0 (f x)) -> spends (within a b) unpaid 0 (of_option e o ≫= f).
Proof. intros Hf. destruct o; [apply Hf|done]. Qed.

Lemma spends_clock {A} (f : Z -> proc World A) :
  (forall x, utcDay x ∈ days a b -> spends (within a b) unpaid 0 (f x)) -> spends (within a b) unpaid 0 (new_Date ≫= f).
Proof.
  intros Hf. apply spends_quiet; [done..|]. intros t d Ht. apply Hf, day_in_days. by apply andb_prop in Ht as [H1%Z.leb_le H2%Z.leb_le].
Qed.

(** Statements on the other tables. *)
Lemma spends_other {X} (q : tick -> World -> World * X) :
  (forall t d, alerts (q t d).1 = alerts d) -> (forall t d, events (q t d).1 = events d) -> spends (within a b) unpaid 0 (exec q).
Proof. intros H1 H2. apply spends_last; [done|]. intros t d _. unfold unpaid, alerts_of, event_days, recorded. rewrite H1, H2. lia. Qed.

Lemma spends_mtd o n : spends (within a b) unpaid 0 (mtdSpendUsd scan o n).
Proof. apply spends_query. intros x. apply spends_option. intros rows. apply spends_query. by intros m. Qed.

Lemma spends_remember o r : spends (within a b) unpaid 0 (remember o r).
Proof. by apply spends_other. Qed.

Lemma spends_month o budget paid : spends (within a b) unpaid 0 (check_month scan ctx o budget paid).
Proof.
  unfold check_month. destruct (effectiveCap _ _ _) as [[cap reason]|]; [|apply spends_remember].
  apply spends_clock. intros n _. apply spends_bind; [apply spends_mtd|]. intros m. apply spends_remember.
Qed.

Lemma spends_check o : spends (within a b) unpaid 0 (checkBudgetHardStop scan ctx o).
Proof.
  apply spends_bind; [by apply spends_other|]. intros [r|]; [done|]. apply spends_catch; [|done]. apply spends_query. intros budget.
  destruct (if platformPaysFor ctx o then platformDailyCapUsd ctx else None) as [cap|]; [|apply spends_month].
  apply spends_clock. intros n _. apply spends_query. intros spent. destruct (geb spent cap); [apply spends_remember|apply spends_month].
Qed.

Lemma spends_enforce o refused : spends (within a b) unpaid 0 (enforceBudgetHardStop scan toPrecision ctx o refused).
Proof.
  apply spends_bind; [apply spends_check|]. intros gate. destruct (BudgetHardStopResult.stopped gate); [|done].
  apply spends_bind; [|done]. apply spends_catch; [by apply spends_other|done].
Qed.

Lemma spends_alert o gate : spends (within a b) unpaid 0 (alert_exceeded o gate).
Proof.
  apply spends_catch; [|done]. apply spends_clock. intros n Hn. apply record_then; [done| |done]. by apply emit_costs.
Qed.

Lemma spends_candidates o today n cs : today ∈ days a b -> spends (within a b) unpaid 0 (emit_candidates o today n cs).
Proof.
  intros Hd. induction cs as [|c cs IH]; [done|]. apply record_then; [done| |exact IH].
  apply spends_bind; [by apply emit_costs|]. intros _. by apply spends_bind.
Qed.

Lemma spends_budget bu n : utcDay n ∈ days a b -> spends (within a b) unpaid 0 (evaluate_budget scan mathPow bu n).
Proof.
  intros Hn. unfold evaluate_budget, spend_series. cbv zeta. apply spends_bind; [apply spends_query; intros o; by destruct o|].
  intros series. apply spends_bind; [apply spends_mtd|]. intros m. apply spends_bind; [by apply spends_candidates|done].
Qed.

Lemma spends_budgets bs n : utcDay n ∈ days a b -> spends (within a b) unpaid 0 (evaluate_budgets scan mathPow bs n).
Proof. intros Hn. induction bs as [|bu bs IH]; [done|]. apply spends_bind; [by apply spends_budget|]. intros r. by apply spends_bind. Qed.

Lemma spends_handler o : spends (within a b) unpaid 0 (budgetEvaluateHandler scan mathPow o).
Proof.
  apply spends_clock. intros n Hn. apply spends_bind.
  - destruct o; [apply spends_query; intros ?|]; by apply spends_other || done.
  - intros bs. by apply spends_budgets.
Qed.

Lemma spends_write rows : spends (within a b) unpaid 0 (write_daily rows).
Proof. induction rows as [|r rows IH]; [done|]. apply spends_bind; [by apply spends_other|done]. Qed.

Lemma spends_aggregate range o : spends (within a b) unpaid 0 (aggregateUsage scan range o).
Proof.
  unfold aggregateUsage. destruct (assertDayRange range); [|done]. apply spends_query. intros x. apply spends_option. intros rows.
  apply spends_bind; [apply spends_write|done].
Qed.

Lemma spends_service p : service p -> spends (within a b) unpaid 0 p.
Proof.
  intros H. destruct H; (apply spends_bind; [|done]).
  - apply spends_check.
  - apply spends_enforce.
  - apply spends_alert.
  - apply spends_handler.
  - apply spends_query. intros x. apply spends_clock. intros n _. apply spends_bind; [apply spends_mtd|].
    intros m. by apply spends_clock.
  - apply spends_query. intros x. apply spends_bind; [by apply spends_other|]. intros row. by apply spends_other.
  - apply spends_aggregate.
  - by apply spends_other.
Qed.

End Window.

Lemma event_days_bound org kind a b d : a <= b + 1 -> event_days org kind a b d <= b - a + 1.
Proof.
  intros H. unfold event_days. pose proof (filter_length_le (recorded org kind d) (days a b)) as Hl.
  assert (length (days a b) = Z.to_nat (b - a + 1)) as E by (unfold days; by rewrite length_map, length_seqZ). lia.
Qed.

(** C37. However the serving path, the sweep and their retries interleave and
    whatever they lose, while the clock stays within an interval of UTC days an
    organization gets at most one alert of a kind for each of those days that
    had no event of the kind yet. *)
Theorem one_alert_a_day org kind a b evs d s :
  a <= b + 1 -> Forall starts evs -> run (within a b) evs (System d ∅) = Some s ->
  alerts_of org kind (store s) <= alerts_of org kind d + (b - a + 1 - event_days org kind a b d).
Proof.
  intros Hab Hev Hr. pose proof (within_credit (within a b) (unpaid org kind a b) evs d s) as H. unfold unpaid in H at 2 3.
  pose proof (event_days_bound org kind a b (store s) Hab). lapply H; [intros H'; specialize (H' Hr); lia|].
  eapply Forall_impl; [exact Hev|]. intros [n p|n t|n t applied e]; cbn; [apply spends_service|done..].
Qed.

(** ** Failing closed *)

(** The cap of an organization: its own when it is hard, else Potion's default
    when Potion pays. *)
Definition cap_applies (budget : option BudgetRow.t) (paid : bool) (cap : number) : Prop :=
  match budget with
  | Some b => if BudgetRow.hardStop b then cap = BudgetRow.monthlyCapUsd b else paid = true /\ cap = platformOrgCapUsd ctx
  | None => paid = true /\ cap = platformOrgCapUsd ctx
  end.

Lemma effectiveCap_applies budget paid :
  match effectiveCap ctx budget paid with
  | Some (cap, _) => forall cap', cap_applies budget paid cap' <-> cap' = cap
  | None => forall cap', ~ cap_applies budget paid cap'
  end.
Proof.
  clear numeric scan mathPow toPrecision. unfold effectiveCap, cap_applies. assert (forall c c' : number, (true = true /\ c' = c) <-> c' = c) as Ht by (intros; tauto).
  destruct budget as [b|]; [destruct (BudgetRow.hardStop b); [done|]|]; (destruct paid; [intros; apply Ht|by intros c [? _]]).
Qed.

(** The month's spend, the rollup and the measurement read at two moments. *)
Definition spent (l1 l2 : list RequestLogRow.t) (org : string) (n : Z) : option number :=
  rows ← liveUsageRollup scan l1 org (UsageRange.mk (month_start (utcDay n)) (utcDay n));
  Some (add (billed rows) (measurementSpendUsd l2 org (month_start (utcDay n)) (utcDay n))).

Definition below_daily (d : World) : Prop :=
  forall cap, platformDailyCapUsd ctx = Some cap -> exists l n, l `prefix_of` logs d /\ geb (platformSpendUsdForDay l n) cap = false.

Definition below_cap (org : string) (r : BudgetHardStopResult.t) (d : World) : Prop :=
  exists cap l1 l2 n, cap_applies (BudgetHardStopResult.budget r) true cap /\
    l1 `prefix_of` logs d /\ l2 `prefix_of` logs d /\ spent l1 l2 org n = Some (BudgetHardStopResult.mtdUsd r) /\
    geb (BudgetHardStopResult.mtdUsd r) cap = false.

(** An answer that lets platform-funded traffic through has read both spends. *)
Definition earned (org : string) (r : BudgetHardStopResult.t) (d : World) : Prop :=
  BudgetHardStopResult.stopped r = false -> platformPaysFor ctx org = true -> below_daily d /\ below_cap org r d.

Definition remembered (d : World) : Prop := forall org c, hardStopCache d !! org = Some c -> earned org (CacheEntry.result c) d.

Lemma below_daily_later d d' : logged d d' -> below_daily d -> below_daily d'.
Proof. intros Hl H cap (l & n & H1 & H2)%H. exists l, n. split; [exact (transitivity H1 Hl)|done]. Qed.

Lemma earned_later org r d d' : logged d d' -> earned org r d -> earned org r d'.
Proof.
  intros Hl H H1 H2. destruct (H H1 H2) as [Hd (cap & l1 & l2 & n & E & P1 & P2 & Es & Hc)].
  split; [by eapply below_daily_later|]. exists cap, l1, l2, n. split; [exact E|]. split; [exact (transitivity P1 Hl)|]. split; [exact (transitivity P2 Hl)|]. by split.
Qed.

Abbreviation always := (fun _ _ => true).
Abbreviation safe := (Statements.ok always remembered logged).

Lemma safe_query {A X} (Ψ : A -> World -> Prop) (g : World -> X) (f : X -> proc World A) d :
  (forall d', logged d d' -> remembered d' -> safe Ψ (f (g d')) d') -> safe Ψ (query g ≫= f) d.
Proof. intros H. by apply ok_query; [exact _|]. Qed.

Lemma safe_clock {A} (Ψ : A -> World -> Prop) (f : Z -> proc World A) d :
  (forall n d', logged d d' -> remembered d' -> safe Ψ (f n) d') -> safe Ψ (new_Date ≫= f) d.
Proof. intros H. apply ok_exec. intros d' t Hl Hi _. split; [done|]. split; [reflexivity|]. by apply H. Qed.

Lemma safe_bind {A B} (Ψ : A -> World -> Prop) (Φ : B -> World -> Prop) p (f : A -> proc World B) d :
  remembered d -> safe Ψ p d -> (forall x d', logged d d' -> remembered d' -> Ψ x d' -> safe Φ (f x) d') -> safe Φ (p ≫= f) d.
Proof. intros Hd Hp Hf. by apply (ok_bind always remembered logged Ψ). Qed.

Lemma safe_catch {A} (Ψ : A -> World -> Prop) (p : proc World A) handler d :
  safe Ψ p d -> (forall e d', logged d d' -> safe Ψ (handler e) d') -> safe Ψ (catch p handler) d.
Proof. intros Hp Hh. by apply ok_catch; [exact _|..]. Qed.

(** Statements that leave the log and the memory alone, or only add to the log. *)
Lemma safe_quiet {X} (q : tick -> World -> World * X) d :
  (forall t d, hardStopCache (q t d).1 = hardStopCache d) -> (forall t d, logs d `prefix_of` logs (q t d).1) -> safe (fun _ _ => True) (exec q) d.
Proof.
  intros H1 H2 d' _ Hi. split; [done|]. intros t _.
  assert (logged d' (q t d').1) as Hl by apply H2. split; [|by split].
  intros org c. rewrite H1. intros Hc. by eapply earned_later, Hi.
Qed.

Lemma safe_remember org r d : (forall d', logged d d' -> earned org r d') -> safe (earned org) (remember org r) d.
Proof.
  intros Hr d' Hl Hi. split; [done|]. intros t _. cbn. split; [|split; [exact (reflexivity (logs d'))|]; split; [|done]].
  - intros o c. cbn. destruct (decide (o = org)) as [->|Hne]; [rewrite lookup_insert_eq; intros [= <-]; by apply Hr|].
    rewrite lookup_insert_ne by done. apply Hi.
  - intros d'' Hl' _. apply Hr. by etransitivity.
Qed.

Lemma safe_mtd org n d : remembered d ->
  safe (fun m d' => exists l1 l2, l1 `prefix_of` logs d' /\ l2 `prefix_of` logs d' /\ spent l1 l2 org n = Some m) (mtdSpendUsd scan org n) d.
Proof.
  intros Hd. unfold mtdSpendUsd. cbv zeta. apply safe_query. intros d1 H1 Hi1. destruct (liveUsageRollup _ _ _ _) as [rows|] eqn:E; [|done].
  apply safe_query. intros d2 H2 Hi2 d3 H3 Hi3. exists (logs d1), (logs d2). split; [exact (transitivity H2 H3)|]. split; [exact H3|].
  unfold spent. by rewrite E.
Qed.

Lemma safe_month org budget paid d : paid = platformPaysFor ctx org ->
  remembered d -> (paid = true -> below_daily d) -> safe (earned org) (check_month scan ctx org budget paid) d.
Proof.
  intros -> Hd Hb. unfold check_month. pose proof (effectiveCap_applies budget (platformPaysFor ctx org)) as Hcap.
  destruct (effectiveCap ctx budget _) as [[cap why]|].
  - apply safe_clock. intros n d1 H1 Hi1. eapply safe_bind; [done|by apply safe_mtd|].
    intros m d2 H2 Hi2 (l1 & l2 & P1 & P2 & Es). apply safe_remember. intros d3 H3 Hs Hp. cbn in Hs.
    split; [eapply below_daily_later; [exact (transitivity H1 (transitivity H2 H3))|by apply Hb]|].
    exists cap, l1, l2, n. cbn. rewrite Hp in Hcap. split; [by apply Hcap|]. split; [exact (transitivity P1 H3)|].
    split; [exact (transitivity P2 H3)|]. by split.
  - apply safe_remember. intros d1 H1 _ Hp. exfalso. rewrite Hp in Hcap.
    unfold cap_applies in Hcap. by destruct budget as [bu|]; [destruct (BudgetRow.hardStop bu)|]; eapply Hcap.
Qed.

Lemma safe_check org d : remembered d -> safe (earned org) (checkBudgetHardStop scan ctx org) d.
Proof.
  intros Hd. unfold checkBudgetHardStop. apply ok_exec. intros d1 t H1 Hi1 _. cbn [fst snd]. split; [done|]. split; [reflexivity|].
  destruct (match hardStopCache d1 !! org with Some c => _ | None => _ end) as [r|] eqn:Ec.
  { destruct (hardStopCache d1 !! org) as [c|] eqn:Eh; [|done]. destruct (_ <? _); [|done]. injection Ec as <-.
    intros d2 H2 _. eapply earned_later; [exact H2|]. by apply Hi1. }
  clear Ec. apply safe_catch; [|intros e d2 _ d3 _ _; unfold earned, failed_check; cbn; congruence].
  apply safe_query. intros d2 H2 Hi2. destruct (platformPaysFor ctx org) eqn:Ep; [|by apply safe_month].
  destruct (platformDailyCapUsd ctx) as [cap|] eqn:Ed; [|apply safe_month; [done..|]; intros _ cap; congruence].
  apply safe_clock. intros n d3 H3 Hi3. apply safe_query. intros d4 H4 Hi4. destruct (geb _ cap) eqn:Eg; [by apply safe_remember|].
  apply safe_month; [done..|]. intros _ cap' [= <-]%(eq_trans (eq_sym Ed)). exists (logs d4), n. by split.
Qed.

Abbreviation any := (fun _ _ => True).

Lemma safe_skip {A} (Ψ : A -> World -> Prop) (p : proc World A) d : safe Ψ p d -> safe any p d.
Proof. intros H. by apply (ok_mono always remembered logged Ψ). Qed.

(** After a process that is safe, another. *)
Lemma safe_then {A B} (p : proc World A) (f : A -> proc World B) (Ψ : B -> World -> Prop) d :
  remembered d -> safe any p d -> (forall x d', remembered d' -> safe Ψ (f x) d') -> safe Ψ (p ≫= f) d.
Proof. intros Hd Hp Hf. eapply safe_bind; [done|exact Hp|]. intros x d' _ Hi _. by apply Hf. Qed.

Lemma safe_record o k day n d : safe any (recordBudgetEvent o k day n) d.
Proof. by apply safe_quiet; intros t d'; cbn; unfold insert_event; destruct (existsb _ _). Qed.

Lemma safe_emit p d : safe any (emitAlert p) d.
Proof. by apply safe_quiet. Qed.

Lemma safe_alert o gate d : remembered d -> safe any (alert_exceeded o gate) d.
Proof.
  intros Hd. apply safe_catch; [|done]. apply safe_clock. intros n d1 _ H1.
  apply safe_then; [done|apply safe_record|]. intros [] d2 _; [apply safe_emit|done].
Qed.

Lemma safe_candidates o today n cs d : remembered d -> safe any (emit_candidates o today n cs) d.
Proof.
  revert d. induction cs as [|c cs IH]; intros d Hd; [done|]. apply safe_then; [done|apply safe_record|].
  intros [] d1 H1; [|by apply IH]. apply safe_then; [done|apply safe_emit|]. intros _ d2 H2. by apply safe_then; [|by apply IH|].
Qed.

Lemma safe_evaluate bu n d : remembered d -> safe any (evaluate_budget scan mathPow bu n) d.
Proof.
  intros Hd. unfold evaluate_budget. cbv zeta. apply safe_then; [done|apply safe_query; intros d1 _ _; by destruct (dailySpendSeries _ _ _ _)|].
  intros series d1 H1. apply safe_then; [done|by eapply safe_skip, safe_mtd|]. intros m d2 H2.
  by apply safe_then; [|by apply safe_candidates|].
Qed.

Lemma safe_sweep bs n d : remembered d -> safe any (evaluate_budgets scan mathPow bs n) d.
Proof.
  revert d. induction bs as [|bu bs IH]; intros d Hd; [done|]. apply safe_then; [done|by apply safe_evaluate|].
  intros r d1 H1. by apply safe_then; [|by apply IH|].
Qed.

Lemma safe_write rows d : remembered d -> safe any (write_daily rows) d.
Proof.
  revert d. induction rows as [|r rows IH]; intros d Hd; [done|]. apply safe_then; [done|by apply safe_quiet|]. intros _ d1. apply IH.
Qed.

(** The cached answer of the organization is dropped. *)
Lemma safe_drop {X} org (x : X) d : safe any (exec (fun _ d => (with_cache (delete org (hardStopCache d)) d, x))) d.
Proof.
  intros d' _ Hi. split; [done|]. intros t _. cbn. split; [|by split; [exact (reflexivity (logs d'))|]].
  intros o c. cbn. rewrite lookup_delete_Some. intros [_ Hc]. by apply Hi.
Qed.

Definition kept (x : answer) (d : World) : Prop := match x with Some (org, r) => earned org r d | None => True end.

Lemma safe_service p d : remembered d -> service p -> safe kept p d.
Proof.
  intros Hd H. destruct H; [eapply safe_bind; [done|by apply safe_check|]|apply safe_then; [done| |done]..].
  - intros r d1 _ _ Hr d2 Hl _. by eapply earned_later.
  - apply safe_then; [done|by eapply safe_skip, safe_check|]. intros gate d1 H1. destruct (BudgetHardStopResult.stopped gate); [|done].
    apply safe_then; [done|apply safe_catch; [by apply safe_quiet; [|intros; apply prefix_app_r]|done]|done].
  - by apply safe_alert.
  - apply safe_clock. intros n d1 _ H1. apply safe_then; [done|destruct org; [by apply safe_query|by apply safe_quiet]|].
    intros bs d2 H2. by apply safe_sweep.
  - apply safe_query. intros d1 _ H1. apply safe_clock. intros n d2 _ H2. apply safe_then; [done|by eapply safe_skip, safe_mtd|].
    intros m d3 H3. by apply safe_clock.
  - apply safe_query. intros d1 _ H1. apply safe_then; [done|by apply safe_quiet|]. intros row d2 H2. apply safe_drop.
  - unfold aggregateUsage. destruct (assertDayRange range); [|done]. apply safe_query. intros d1 _ H1.
    destruct (rollupQuery _ _ _ _) as [rows|]; [|done]. apply (safe_then (write_daily rows) (fun _ => Ret rows)); [done|by apply safe_write|done].
  - by apply safe_quiet; [|intros; apply prefix_app_r].
Qed.


(** ** An uninterrupted check *)

Definition same_clock (ticks : nat -> tick) (n : Z) : Prop := forall k, now (ticks k) = n.

(** No answer of the last five seconds is remembered. *)
Definition forgotten (org : string) (n : Z) (d : World) : Prop :=
  match hardStopCache d !! org with Some c => HARD_STOP_TTL_MS <= n - CacheEntry.at_ c | None => True end.

Definition over_daily (d : World) (n : Z) : Prop :=
  exists cap, platformDailyCapUsd ctx = Some cap /\ geb (platformSpendUsdForDay (logs d) n) cap = true.

Definition cap_for (org : string) (d : World) : number -> Prop := cap_applies (budget_of org d) (platformPaysFor ctx org).

(** The month's spend against a cap; it cannot be read where a sum of tokens
    leaves its 32 bits. *)
Definition over_month (org : string) (d : World) (n : Z) : Prop :=
  exists cap m, cap_for org d cap /\ spent (logs d) (logs d) org n = Some m /\ geb m cap = true.
Definition unreadable (org : string) (d : World) (n : Z) : Prop := (exists cap, cap_for org d cap) /\ spent (logs d) (logs d) org n = None.

Lemma alone_mtd ticks i org n d :
  exists j, alone ticks i (mtdSpendUsd scan org n) d = (d, j, match spent (logs d) (logs d) org n with Some m => inr m | None => inl "rollup failed"%string end).
Proof.
  unfold mtdSpendUsd, spent. cbv zeta. rewrite alone_query.
  destruct (liveUsageRollup _ _ _ _) as [rows|]; [|by eexists]. by eexists.
Qed.

Lemma alone_month ticks i n org paid d : same_clock ticks n -> paid = platformPaysFor ctx org ->
  exists d' j r,
    alone ticks i (catch (check_month scan ctx org (budget_of org d) paid) (fun _ => Ret (failed_check paid))) d = (d', j, inr r) /\
    (BudgetHardStopResult.stopped r = true <-> over_month org d n \/ (paid = true /\ unreadable org d n)).
Proof.
  intros Hn ->. unfold over_month, unreadable, cap_for, check_month. rewrite alone_catch.
  pose proof (effectiveCap_applies (budget_of org d) (platformPaysFor ctx org)) as Hcap.
  destruct (effectiveCap ctx (budget_of org d) _) as [[cap why]|].
  - rewrite alone_clock, Hn, alone_bind. destruct (alone_mtd ticks (S i) org n d) as [j ->].
    destruct (spent (logs d) (logs d) org n) as [m|]; do 3 eexists; (split; [reflexivity|]); cbn.
    + split; [intros H; left; exists cap, m; by rewrite Hcap|]. intros [(c & m' & ->%Hcap & [= <-] & H)|(_ & _ & ?)]; done.
    + split; [intros H; right; split; [done|]; split; [exists cap; by apply Hcap|done]|]. intros [(c & m' & _ & ? & _)|[H _]]; done.
  - do 3 eexists. split; [reflexivity|]. cbn. split; [done|]. intros [(c & m & ?%Hcap & _)|(_ & [x ?%Hcap] & _)]; done.
Qed.

(** An uninterrupted check without a remembered answer always answers: it
    stops exactly when Potion pays and the day's spend of all reached the
    ceiling, or a cap applies to the organization and the month's spend reached
    it, or Potion pays and that spend cannot be read. *)
Theorem hard_stop_decided ticks i n org d :
  same_clock ticks n -> forgotten org n d ->
  exists d' j r, alone ticks i (checkBudgetHardStop scan ctx org) d = (d', j, inr r) /\
    (BudgetHardStopResult.stopped r = true <->
      (platformPaysFor ctx org = true /\ over_daily d n) \/ over_month org d n \/ (platformPaysFor ctx org = true /\ unreadable org d n)).
Proof.
  intros Hn Hf. unfold checkBudgetHardStop, cached. rewrite alone_exec. cbn [fst snd]. rewrite Hn.
  replace (match hardStopCache d !! org with Some c => _ | None => _ end) with (@None BudgetHardStopResult.t).
  2:{ unfold forgotten in Hf. destruct (hardStopCache d !! org) as [c|]; [|done]. by rewrite (proj2 (Z.ltb_ge _ _) Hf). }
  rewrite alone_catch. unfold check_now, getBudget. rewrite alone_query.
  pose proof (fun k => alone_month ticks k n org _ d Hn eq_refl) as Hm. setoid_rewrite alone_catch in Hm.
  destruct (platformPaysFor ctx org) eqn:Ep; [destruct (platformDailyCapUsd ctx) as [cap|] eqn:Ed|].
  - rewrite alone_clock, Hn, alone_query. destruct (geb (platformSpendUsdForDay (logs d) n) cap) eqn:Eg.
    + do 3 eexists. split; [reflexivity|]. cbn. split; [intros _; left; split; [done|by exists cap]|done].
    + destruct (Hm (S (S (S (S i))))) as (d' & j & r & E & H). exists d', j, r. split; [exact E|]. rewrite H. split; [by right|].
      intros [[_ (c & Ec & Hc)]|?]; [|done]. rewrite Ed in Ec. injection Ec as <-. congruence.
  - destruct (Hm (S (S i))) as (d' & j & r & E & H). exists d', j, r. split; [exact E|]. rewrite H. split; [by right|].
    intros [[_ (c & Ec & _)]|?]; [congruence|done].
  - destruct (Hm (S (S i))) as (d' & j & r & E & H). exists d', j, r. split; [exact E|]. rewrite H. split; [by right|]. by intros [[? _]|?].
Qed.

(** ** The rollup *)

Context (scan_perm : forall l, scan l ≡ₚ l).

Lemma rollup_group_row key l r : rollup_group key l = Some r ->
  daily_key (daily_of r) = key /\ UsageRollupRow.requests r = Z.of_nat (length (List.filter is_ok l)).
Proof.
  unfold rollup_group. cbv zeta. destruct (as_int (numeric_int (omap (fun r => Usage.inputTokens <$> _) _))) as [x|]; [|done].
  destruct (as_int (numeric_int (omap (fun r => Usage.outputTokens <$> _) _))) as [y|]; [|done]. destruct key as [[o dy] c]. by intros [= <-].
Qed.

Lemma rollup_groups groups rows : mapM (fun g => rollup_group g.1 g.2) groups = Some rows ->
  map (fun r => daily_key (daily_of r)) rows = map fst groups /\
  map UsageRollupRow.requests rows = map (fun g => Z.of_nat (length (List.filter is_ok g.2))) groups.
Proof.
  intros H%mapM_Some. induction H as [|[key l] r groups rows Hg _ [IH1 IH2]]; [done|]. apply rollup_group_row in Hg as [H1 H2]. cbn. by rewrite H1, H2, IH1, IH2.
Qed.

Lemma rollup_keys range org l rows : rollupQuery scan range org l = Some rows ->
  map (fun r => daily_key (daily_of r)) rows = scan (remove_dups (map key_of (List.filter (selected range org) l))).
Proof. intros [-> _]%rollup_groups. unfold rollup_rows. rewrite map_map. apply map_id. Qed.

Lemma rollup_keys_unique range org l rows : rollupQuery scan range org l = Some rows -> NoDup (map (fun r => daily_key (daily_of r)) rows).
Proof. intros ->%rollup_keys. rewrite scan_perm. apply NoDup_remove_dups. Qed.

(** A list is the sum of its groups. *)
Lemma length_groups {A K} `{EqDecision K} (key : A -> K) (f : A -> bool) (l : list A) ks :
  NoDup ks -> (forall x, x ∈ l -> key x ∈ ks) ->
  foldr Nat.add 0%nat (map (fun k => length (List.filter f (List.filter (fun x => bool_decide (key x = k)) l))) ks) = length (List.filter f l).
Proof.
  intros Hks. induction l as [|x l IH]; intros Hl.
  - cbn. clear. induction ks; [done|]. cbn. lia.
  - assert (forall ks, NoDup ks ->
      foldr Nat.add 0%nat (map (fun k => length (List.filter f (List.filter (fun x => bool_decide (key x = k)) (x :: l)))) ks) =
      ((if bool_decide (key x ∈ ks) then length (List.filter f [x]) else 0) +
       foldr Nat.add 0%nat (map (fun k => length (List.filter f (List.filter (fun x => bool_decide (key x = k)) l))) ks))%nat) as H.
    { clear. intros ks Hks. induction Hks as [|k ks Hk Hks IH]; [done|]. cbn [map foldr]. rewrite IH. clear IH. cbn [List.filter].
      destruct (decide (key x = k)) as [<-|Hne].
      - rewrite (bool_decide_eq_true_2 (key x = key x)), (bool_decide_eq_false_2 (key x ∈ ks)), (bool_decide_eq_true_2 (key x ∈ key x :: ks)) by (done || by left).
        cbn [List.filter]. destruct (f x); cbn; lia.
      - rewrite (bool_decide_eq_false_2 (key x = k)) by done. rewrite (bool_decide_ext (key x ∈ k :: ks) (key x ∈ ks)); [lia|].
        rewrite elem_of_cons. naive_solver. }
    rewrite H by done. rewrite bool_decide_eq_true_2 by (apply Hl; by left). rewrite IH by (intros y Hy; apply Hl; by right).
    cbn. destruct (f x); cbn; lia.
Qed.

(** The rollup is a partition of the served requests: whatever the order the
    groups come in, the requests it reports are the served rows of the window,
    each once. *)
Theorem requests_conserved range org l rows :
  rollupQuery scan range org l = Some rows ->
  UsageTotals.requests (sumRollup rows) = Z.of_nat (length (List.filter is_ok (List.filter (selected range org) l))).
Proof.
  intros Hr. set (sel := List.filter (selected range org) l) in *.
  rewrite <- (length_groups key_of is_ok sel (scan (remove_dups (map key_of sel)))); [| |].
  - assert (forall acc, UsageTotals.requests (fold_left (fun acc r => UsageTotals.mk
      (UsageTotals.requests acc + UsageRollupRow.requests r) (UsageTotals.inputTokens acc + UsageRollupRow.inputTokens r)
      (UsageTotals.outputTokens acc + UsageRollupRow.outputTokens r) (add (UsageTotals.costUsd acc) (UsageRollupRow.costUsd r))
      (add (UsageTotals.platformCostUsd acc) (UsageRollupRow.platformCostUsd r)) (add (UsageTotals.baselineCostUsd acc) (UsageRollupRow.baselineCostUsd r))
      (add (UsageTotals.servingCostUsd acc) (UsageRollupRow.servingCostUsd r)) (add (UsageTotals.infeasibleCostUsd acc) (UsageRollupRow.infeasibleCostUsd r)))
      rows acc) = UsageTotals.requests acc + foldr Z.add 0 (map UsageRollupRow.requests rows)) as Hs.
    { clear. induction rows as [|r rows IH]; intros acc; cbn; [lia|]. rewrite IH. cbn. lia. }
    unfold sumRollup. rewrite Hs. cbn [UsageTotals.requests]. clear Hs.
    apply rollup_groups in Hr as [_ ->]. unfold rollup_rows. rewrite map_map. fold sel. cbn [snd].
    induction (scan _) as [|k ks IH]; [done|]. cbn. lia.
  - rewrite scan_perm. apply NoDup_remove_dups.
  - intros x Hx. rewrite scan_perm. apply elem_of_remove_dups, list_elem_of_fmap. by exists x.
Qed.

(** ** usage_daily *)

Definition daily (key : string * string * string) (table : list UsageDailyRow.t) : option UsageDailyRow.t :=
  find (fun r => bool_decide (daily_key r = key)) table.

Definition write_all (rows : list UsageRollupRow.t) (table : list UsageDailyRow.t) : list UsageDailyRow.t :=
  fold_left (fun t r => upsert (daily_of r) t) rows table.

Lemma daily_upsert key row table : daily key (upsert row table) = if bool_decide (daily_key row = key) then Some row else daily key table.
Proof.
  induction table as [|r table IH]; cbn; [by destruct (bool_decide _)|]. destruct (bool_decide (daily_key r = daily_key row)) eqn:E; cbn.
  - apply bool_decide_eq_true in E. rewrite E. by destruct (bool_decide _).
  - fold (daily key (upsert row table)) (daily key table). rewrite IH. apply bool_decide_eq_false in E. destruct (bool_decide (daily_key r = key)) eqn:Ek; [|done].
    apply bool_decide_eq_true in Ek. by rewrite bool_decide_eq_false_2 by congruence.
Qed.

Lemma upsert_same row table : daily (daily_key row) table = Some row -> upsert row table = table.
Proof.
  induction table as [|r table IH]; cbn; [done|]. destruct (bool_decide _); [by intros [= ->]|]. intros H. by rewrite IH.
Qed.

Lemma daily_written key rows table : NoDup (map (fun r => daily_key (daily_of r)) rows) ->
  daily key (write_all rows table) =
  match find (fun r => bool_decide (daily_key (daily_of r) = key)) rows with Some r => Some (daily_of r) | None => daily key table end.
Proof.
  revert table. induction rows as [|r rows IH]; intros table Hn; [done|]. cbn in Hn. apply NoDup_cons in Hn as [Hr Hn].
  cbn [write_all fold_left]. change (fold_left _ rows _) with (write_all rows (upsert (daily_of r) table)). rewrite IH, daily_upsert by done. cbn.
  destruct (bool_decide (daily_key (daily_of r) = key)) eqn:E; [|done]. apply bool_decide_eq_true in E.
  destruct (find _ rows) as [r'|] eqn:Ef; [|done]. apply find_some in Ef as [Hin Hk%bool_decide_eq_true].
  destruct Hr. rewrite E, <- Hk. apply list_elem_of_fmap. exists r'. split; [done|]. by apply list_elem_of_In.
Qed.

Lemma write_all_again rows table : NoDup (map (fun r => daily_key (daily_of r)) rows) -> write_all rows (write_all rows table) = write_all rows table.
Proof.
  intros Hn. enough (forall rs, rs ⊆ rows -> write_all rs (write_all rows table) = write_all rows table) as H by by apply H.
  induction rs as [|r rs IH]; intros Hs; [done|]. cbn [write_all fold_left]. rewrite upsert_same; [apply IH; set_solver|].
  rewrite daily_written by done. destruct (find _ rows) as [r'|] eqn:E.
  - apply find_some in E as [Hin Hk%bool_decide_eq_true]. f_equal. f_equal.
    eapply (NoDup_key_inj (fun r => daily_key (daily_of r)) rows); [done|by apply list_elem_of_In|set_solver|done].
  - assert (r ∈ rows) as Hr by set_solver. apply list_elem_of_In in Hr. pose proof (find_none _ _ E r Hr) as Hf. cbn in Hf.
    by rewrite bool_decide_eq_true_2 in Hf.
Qed.

Lemma alone_write ticks i rows d : exists j, alone ticks i (write_daily rows) d = (with_usage (write_all rows (usage_daily d)) d, j, inr tt).
Proof.
  revert i d. induction rows as [|r rows IH]; intros i d; [by exists i; destruct d|]. cbn [write_daily]. rewrite alone_exec. cbn [fst snd].
  destruct (IH (S i) (with_usage (upsert (daily_of r) (usage_daily d)) d)) as [j ->]. by exists j.
Qed.

Lemma alone_aggregate ticks i range org d rows :
  assertDayRange range = true -> rollupQuery scan range org (logs d) = Some rows ->
  exists j, alone ticks i (aggregateUsage scan range org) d = (with_usage (write_all rows (usage_daily d)) d, j, inr rows).
Proof.
  intros Ha Hr. unfold aggregateUsage. rewrite Ha, alone_query, Hr. cbn [of_option]. change (Ret rows ≫= ?f) with (f rows). cbv beta.
  rewrite alone_bind. destruct (alone_write ticks (S i) rows d) as [j ->]. by exists j.
Qed.

(** C38. The batch rollup replaces exactly the groups it computed and leaves the
    rest of the table; run again over the same log it changes nothing. *)
Theorem aggregate_converges ticks i range org d rows :
  assertDayRange range = true -> rollupQuery scan range org (logs d) = Some rows ->
  exists d' j, alone ticks i (aggregateUsage scan range org) d = (d', j, inr rows) /\
    (forall key, daily key (usage_daily d') =
      match find (fun r => bool_decide (daily_key (daily_of r) = key)) rows with Some r => Some (daily_of r) | None => daily key (usage_daily d) end) /\
    exists j', alone ticks j (aggregateUsage scan range org) d' = (d', j', inr rows).
Proof.
  intros Ha Hr. pose proof (rollup_keys_unique _ _ _ _ Hr) as Hn. destruct (alone_aggregate ticks i range org d rows Ha Hr) as [j E].
  eexists _, j. split; [exact E|]. split; [intros key; by apply daily_written|].
  destruct (alone_aggregate ticks j range org (with_usage (write_all rows (usage_daily d)) d) rows Ha Hr) as [j' ->]. exists j'.
  cbn. by rewrite write_all_again.
Qed.

End Services.
End BudgetsSpec.
