(* ===== verification/BudgetsExamples.v ===== *)
(** * Budgets at work

    Runs of the budget's processes on concrete rows: the witnesses of
    [BudgetsSpec]'s theorems, and what the code does at its edges. *)

From S2P Require Import Prelude Number Types JsSort Print Calendar Stats Demand Prompt Statements Guarantee UsageRollup Budgets BudgetsSpec.

Module BudgetsExamples.
Import Num Prompt Demand Calendar Statements UsageRollup Budgets BudgetsSpec.
Local Open Scope Z_scope.

(** ** A database *)

Definition total_units (l : list number) : Z := foldr Z.add 0 (map units l).

Lemma total_units_perm l l' : l ≡ₚ l' -> total_units l = total_units l'.
Proof. intros H. unfold total_units. induction H; cbn; lia. Qed.

(** The exact sum, rounded once. *)
#[local] Program Instance exact_sums : Numeric := {
  numeric_float l := SpecFloat.binary_normalize prec emax (total_units l) umin false;
  numeric_int l := (total_units l + 2 ^ 1073) / 2 ^ 1074;
}.
Next Obligation. intros l l' H. cbn. by rewrite (total_units_perm _ _ H). Qed.
Next Obligation. intros l l' H. cbn. by rewrite (total_units_perm _ _ H). Qed.

Abbreviation in_order := (fun l : list (string * string * string) => l).
Definition pow2 (x _ : number) : number := mul x x.
Definition precise (_ : Z) (_ : number) : string := "0".

(** 2026-09-11, at noon. *)
Definition noon : Z := 1789128000000.
Definition at_noon (k : nat) : tick := Tick noon "".

Definition usage_of (cents : Z) : Usage.t := Usage.mk (of_Z 1000) (of_Z 200) (lit cents 2) zero None.
Definition row (ts : Z) (cents : Z) : RequestLogRow.t := RequestLogRow.mk ts "acme" (Some "math"%string) "ok" (Some (usage_of cents)) None false [].
Definition budget (cap : Z) (hard : bool) : BudgetRow.t := BudgetRow.mk "acme" (of_Z cap) hard 80 0.
Definition world (logs : list RequestLogRow.t) (budgets : list BudgetRow.t) : World := MkWorld logs [] budgets [] ∅ [].
Definition served_live (byok : option bool) (daily : option number) : BudgetContext.t := BudgetContext.mk live None daily (fun _ => byok).

Definition check_alone (ctx : BudgetContext.t) (d : World) : World * nat * (string + BudgetHardStopResult.t) :=
  alone at_noon 0 (checkBudgetHardStop in_order ctx "acme") d.

Example noon_day : utcDay noon = "2026-09-11"%string.
Proof. vm_compute. reflexivity. Qed.

Definition outcome (r : World * nat * (string + BudgetHardStopResult.t)) : option (bool * option BudgetStopReason) :=
  match r.2 with inr g => Some (BudgetHardStopResult.stopped g, BudgetHardStopResult.reason g) | inl _ => None end.

(** A soft cap of a customer who pays is not enforced, a hard one is, and an
    organization served on Potion's key has a cap without a budget. *)
Example soft_cap : outcome (check_alone (served_live (Some true) None) (world [row noon 500] [budget 5 false])) = Some (false, None).
Proof. vm_compute. reflexivity. Qed.
Example hard_cap : outcome (check_alone (served_live (Some true) None) (world [row noon 500] [budget 5 true])) = Some (true, Some org_cap).
Proof. vm_compute. reflexivity. Qed.
Example default_cap : outcome (check_alone (served_live (Some false) None) (world [row noon 500; row noon 500] [])) = Some (true, Some platform_org_default_cap).
Proof. vm_compute. reflexivity. Qed.
Example daily_ceiling : outcome (check_alone (served_live None (Some (of_Z 4))) (world [row noon 500] [])) = Some (true, Some platform_daily_cap).
Proof. vm_compute. reflexivity. Qed.

(** ** Witnesses *)

Abbreviation Service := (service in_order pow2 precise (served_live (Some true) None)).
Definition stop : BudgetHardStopResult.t := BudgetHardStopResult.mk true (Some (budget 5 true)) (of_Z 5) (Some org_cap) (Some (of_Z 5)) false.
Definition noon_tick : tick := Tick noon "".

(** Two refused requests and the sweep, on a day that ends over the cap. *)
Definition alert_run : list (event (db := World) (A := answer)) :=
  [Start 0 (discard (alert_exceeded "acme" stop)); Start 1 (discard (alert_exceeded "acme" stop));
   Start 2 (discard (budgetEvaluateHandler in_order pow2 None));
   Answer 0 noon_tick; Answer 1 noon_tick; Answer 2 noon_tick; Answer 2 noon_tick; Answer 2 noon_tick; Answer 2 noon_tick; Answer 2 noon_tick;
   Answer 1 noon_tick; Answer 0 noon_tick; Answer 2 noon_tick; Answer 1 noon_tick; Answer 2 noon_tick; Answer 2 noon_tick].

Definition over_cap : World := world [row noon 500] [budget 5 true].

Lemma one_alert_a_day_witness : exists s,
  run (within 20707 20707) alert_run (System over_cap ∅) = Some s /\
  alerts_of "acme" budget_warning (store s) = 1 /\ alerts_of "acme" budget_exceeded (store s) = 1 /\
  alerts_of "acme" budget_exceeded (store s) <= 0 + (20707 - 20707 + 1 - 0).
Proof.
  eexists. split; [vm_compute; reflexivity|]. split; [reflexivity|]. split; [reflexivity|].
  refine (one_alert_a_day in_order pow2 precise (served_live (Some true) None) "acme" budget_exceeded 20707 20707 alert_run over_cap _ _ _ _).
  - lia.
  - repeat apply Forall_cons_2; [apply alerts_refusal|apply alerts_refusal|apply evaluates|done..].
  - vm_compute. reflexivity.
Defined.

(** A served organization of Potion's key, with a ceiling for the day. *)
Definition funded : BudgetContext.t := served_live (Some false) (Some (of_Z 100)).
Definition checked_run : list (event (db := World) (A := answer)) :=
  [Start 0 (checkBudgetHardStop in_order funded "acme" ≫= fun r => Ret (Some ("acme"%string, r)));
   Answer 0 noon_tick; Answer 0 noon_tick; Answer 0 noon_tick;
   Start 1 (discard (insertRequestLog (fun t => row t 900)));
   Answer 0 noon_tick; Answer 0 noon_tick; Answer 0 noon_tick; Answer 1 noon_tick; Answer 0 noon_tick; Answer 0 noon_tick].


Lemma hard_stop_decided_witness :
  over_month in_order (served_live (Some true) None) "acme" over_cap noon /\
  exists d' j r, check_alone (served_live (Some true) None) over_cap = (d', j, inr r) /\ BudgetHardStopResult.stopped r = true.
Proof.
  assert (over_month in_order (served_live (Some true) None) "acme" over_cap noon) as H
    by (eexists _, _; split; [reflexivity|]; split; [vm_compute; reflexivity|reflexivity]).
  split; [exact H|].
  destruct (hard_stop_decided in_order (served_live (Some true) None) at_noon 0 noon "acme" over_cap (fun _ => eq_refl) I) as (d' & j & r & E & Hs).
  exists d', j, r. split; [exact E|]. apply (proj2 Hs). right. left. exact H.
Defined.

(** ** Usage *)

Definition september : UsageRange.t := UsageRange.mk "2026-09-01" "2026-09-30".
Definition judged : RequestLogRow.t := RequestLogRow.mk noon "acme" None "guarantee_judge" (Some (usage_of 7)) None false [].
Definition measured_row : RequestLogRow.t := RequestLogRow.mk noon "acme" None "eval_live" (Some (usage_of 90)) None false [].
Definition month_log : list RequestLogRow.t := [row noon 500; judged; row (noon + 3600000) 250; measured_row].
Definition month_rows : list UsageRollupRow.t := default [] (rollupQuery in_order september None month_log).
Definition stale : UsageDailyRow.t := UsageDailyRow.mk "acme" "2026-09-11" "math" 1 1000 200 (of_Z 5) (of_Z 5) zero.

(** The judge's call is cost without a request, under its own cluster; what is
    measured is no usage. *)
Example month_requests : map (fun r => (UsageRollupRow.clusterId r, UsageRollupRow.requests r, UsageRollupRow.inputTokens r)) month_rows
  = [("unassigned"%string, 0, 0); ("math"%string, 2, 2000)].
Proof. vm_compute. reflexivity. Qed.

Lemma requests_conserved_witness : UsageTotals.requests (sumRollup month_rows) = 2.
Proof. rewrite (requests_conserved in_order (fun l => Permutation_refl l) september None month_log month_rows); vm_compute; reflexivity. Defined.

Definition rolled_once : World := MkWorld month_log [stale] [] [] ∅ [].

Lemma aggregate_converges_witness : exists d' j,
  alone at_noon 0 (aggregateUsage in_order september None) rolled_once = (d', j, inr month_rows) /\
  length (usage_daily d') = 2%nat /\
  exists j', alone at_noon j (aggregateUsage in_order september None) d' = (d', j', inr month_rows).
Proof.
  destruct (aggregate_converges in_order (fun l => Permutation_refl l) at_noon 0 september None rolled_once month_rows) as (d' & j & E & _ & H).
  - vm_compute. reflexivity.
  - vm_compute. reflexivity.
  - exists d', j. split; [exact E|]. split; [|exact H].
    assert (d' = (alone at_noon 0 (aggregateUsage in_order september None) rolled_once).1.1) as -> by (by rewrite E). vm_compute. reflexivity.
Defined.

(** ** Edges *)

Definition at_ms (ms : Z) : tick := Tick ms "".

(** A budget set while a check is under way: the check remembers the cap it
    read before, and the next request within five seconds is let through, over
    the cap that was just set. *)
Definition lowered_run : list (event (db := World) (A := answer)) :=
  let check := checkBudgetHardStop in_order (served_live (Some true) None) "acme" ≫= fun r => Ret (Some ("acme"%string, r)) in
  [Start 0 check; Answer 0 (at_ms noon); Answer 0 (at_ms noon);
   Start 1 (discard (put_budgets "acme" (UpsertBudget.mk (of_Z 1) (Some true) None)));
   Answer 1 (at_ms (noon + 1)); Answer 1 (at_ms (noon + 2)); Answer 1 (at_ms (noon + 3));
   Answer 0 (at_ms (noon + 4)); Answer 0 (at_ms (noon + 4)); Answer 0 (at_ms (noon + 4)); Answer 0 (at_ms (noon + 5));
   Start 2 check; Answer 2 (at_ms (noon + 4000))].

Definition answered (n : nat) (s : system (db := World) (A := answer)) : option bool :=
  match pool s !! n with Some (Ret (Some (_, r))) => Some (BudgetHardStopResult.stopped r) | _ => None end.

Example put_outrun :
  option_map (fun s => (map BudgetRow.monthlyCapUsd (budgets (store s)), answered 2 s))
    (run (fun _ _ => true) lowered_run (System (world [row noon 500] [budget 9 true]) ∅))
  = Some ([of_Z 1], Some false).
Proof. vm_compute. reflexivity. Qed.

(** What is served in the last millisecond of a day counts on no day. *)
Definition midnight : Z := 1789171200000.
Example last_millisecond :
  (platformSpendUsdForDay [row (midnight - 1) 500] (midnight - 1), platformSpendUsdForDay [row (midnight - 1) 500] midnight,
   platformSpendUsdForDay [row (midnight - 2) 500] (midnight - 1)) = (zero, zero, of_Z 5).
Proof. vm_compute. reflexivity. Qed.

(** A day of more than 2,147,483,647 input tokens in one cluster cannot be
    rolled up: the organization that pays for itself is served past its hard
    cap, the one Potion pays for is stopped. *)
Definition long_row : RequestLogRow.t :=
  RequestLogRow.mk noon "acme" (Some "math"%string) "ok" (Some (Usage.mk (of_Z 2147483648) zero (of_Z 50) zero None)) None false [].
Example too_many_tokens :
  liveUsageRollup in_order [long_row] "acme" september = None /\
  outcome (check_alone (served_live (Some true) None) (world [long_row] [budget 5 true])) = Some (false, None) /\
  outcome (check_alone (served_live (Some false) None) (world [long_row] [budget 5 true])) = Some (true, Some check_failed_platform_paid).
Proof. vm_compute. done. Qed.

(** An amount that prints in exponential notation loses the zeros of its
    exponent. *)
Example tiny_amount (toPrecision : Z -> number -> string) :
  toPrecision 3 (lit 1 10) = "1.00e-10"%string -> formatUsd toPrecision (lit 1 10) = "1.00e-1"%string.
Proof. intros H. unfold formatUsd. rewrite H. vm_compute. reflexivity. Qed.

(** An alert whose dispatch is lost after its event was recorded is not sent
    again that day. *)
Definition lost_alert_run : list (event (db := World) (A := answer)) :=
  [Start 0 (discard (alert_exceeded "acme" stop)); Answer 0 noon_tick; Answer 0 noon_tick; Lose 0 noon_tick false "connection reset";
   Start 1 (discard (alert_exceeded "acme" stop)); Answer 1 noon_tick; Answer 1 noon_tick]%string.
Example alert_lost :
  option_map (fun s => (length (events (store s)), alerts (store s), match pool s !! 1%nat with Some (Ret _) => true | _ => false end))
    (run (fun _ _ => true) lost_alert_run (System over_cap ∅)) = Some (1%nat, [], true).
Proof. vm_compute. reflexivity. Qed.

End BudgetsExamples.
