(* ===== verification/Lift.v ===== *)
(** * Processes over a part of a store

    A repository's functions touch their own tables; a handler that calls
    several repositories is a process over all of them.  [lift] runs a process
    of a part on the whole, and what is known of it there carries over. *)

From S2P Require Import Prelude Statements Credits.

Module Lift.
Import Statements Credits.

(** A part of a store, and the store with the part replaced. *)
Class Lens {small big : Type} (get : big -> small) (put : small -> big -> big) : Prop := {
  get_put s b : get (put s b) = s;
  put_get b : put (get b) b = b;
  put_put s s' b : put s' (put s b) = put s' b;
}.

Section Lift.
Context {small big : Type} (get : big -> small) (put : small -> big -> big).

Fixpoint lift {A} (p : proc small A) : proc big A :=
  match p with
  | Ret a => Ret a
  | Throw e => Throw e
  | Stmt X q k h => Stmt X (fun t b => let '(s, x) := q t (get b) in (put s b, x)) (fun x => lift (k x)) (fun e => lift (h e))
  end.

Lemma lift_alone `{!Lens get put} {A} ticks (p : proc small A) i b :
  alone ticks i (lift p) b = let '(s, j, r) := alone ticks i p (get b) in (put s b, j, r).
Proof.
  revert i b. induction p as [a|e|X q k IH h _]; intros i b; cbn; [by rewrite put_get..|].
  destruct (q (ticks i) (get b)) as [s x]. rewrite IH, (get_put s b). destruct (alone ticks (S i) (k x) s) as [[s' j] r]. by rewrite (put_put s s' b).
Qed.

(** A process whose part the measure does not look at spends nothing. *)
Lemma lift_spends {A} admissible (Φ : big -> Z) (p : proc small A) :
  (forall s b, Φ (put s b) = Φ b) -> spends admissible Φ 0 (lift p).
Proof.
  intros HΦ. induction p as [a|e|X q k IH h IHh]; cbn; [done..|]. split; [done|]. split; [exact IHh|].
  intros t b _. destruct (q t (get b)) as [s x]. cbn. rewrite HΦ, Z.add_0_l, Z.sub_diag. by split.
Qed.

(** What a process of the part keeps, the lifted one keeps. *)
Lemma lift_ok {A} adm adm' (Inv : big -> Prop) (Rel : big -> big -> Prop) (Inv' : small -> Prop) (Rel' : small -> small -> Prop)
    (Φ : A -> small -> Prop) (p : proc small A) b :
  (forall b, Inv b -> Inv' (get b)) -> (forall b b', Rel b b' -> Rel' (get b) (get b')) ->
  (forall t b, adm t b = true -> adm' t (get b) = true) ->
  (forall s b, Inv b -> Inv' s -> Rel' (get b) s -> Inv (put s b) /\ Rel b (put s b) /\ get (put s b) = s) ->
  ok adm' Inv' Rel' Φ p (get b) -> ok adm Inv Rel (fun a b => Φ a (get b)) (lift p) b.
Proof.
  intros HI HR HA HP. revert b. induction p as [a|e|X q k IH h IHh]; cbn; intros b H; [|done|].
  - intros b' Hr Hi. by apply H; [apply HR|apply HI].
  - intros b' Hr Hi. destruct (H (get b') (HR _ _ Hr) (HI _ Hi)) as [H0 H1]. split; [intros e; by apply IHh|].
    intros t Ht. destruct (H1 t (HA _ _ Ht)) as (G1 & G2 & G3 & G4). destruct (q t (get b')) as [s x]. cbn in *.
    destruct (HP s b' Hi G1 G2) as (P1 & P2 & P3). split; [done|]. split; [done|].
    split; [apply IH|intros e; apply IHh]; by rewrite P3.
Qed.

End Lift.
End Lift.
