(* ===== verification/Retention.v ===== *)
(** * Retention: the pairing of db/src/repos/eval-results.ts and the arithmetic of
    workers/src/suite-verify-job.ts

    How much of the incumbent's quality a strategy retains: the items both were
    evaluated on are paired, items the incumbent itself fails are excluded, and
    the mean ratio gets a bootstrap interval whose seed is the evidence itself. *)

From S2P Require Import Prelude Number Types JsSort Print Stats Prompt Recompute.

Module Retention.
Import Num Sort Print Recompute.
Local Open Scope Z_scope.

Definition SUITE_VERIFY_CAP_PER_CELL_USD : number := lit 3 2.
Definition DEFAULT_SUITE_VERIFY_CAP_USD : number := of_Z 5.
Definition SUITE_VERIFY_EPSILON : number := lit 5 2.
Definition DEFAULT_RETENTION_FLOOR : number := lit 9 1.
Definition SUITE_VERIFY_MIN_PAIRS : Z := 5.

Definition deriveSuiteVerifyCapUsd (itemCount : nat) (strategies : Z) : number :=
  max DEFAULT_SUITE_VERIFY_CAP_USD (mul (mul (of_Z (Z.of_nat itemCount)) (of_Z strategies)) SUITE_VERIFY_CAP_PER_CELL_USD).

(** ** Pairs *)

Module QualityPair.
Record t := mk { itemId : string; candidateQuality : number; incumbentQuality : number }.
End QualityPair.

Inductive side := candidate | incumbent.

Module UnpairableItem.
Record t := mk { itemId : string; has : side }.
End UnpairableItem.

Module PairScope.
Record t := mk {
  clusterId : string;
  candidateHash : string;
  incumbentHash : string;
  pricesVersion : string;
  providerMode : string;
  orgId : option string;
  itemIds : option (list string);
}.
End PairScope.

Definition in_scope (s : PairScope.t) (r : EvalResultRow.t) : bool :=
  String.eqb (EvalResultRow.clusterId r) (PairScope.clusterId s) &&
  (String.eqb (EvalResultRow.strategyHash r) (PairScope.candidateHash s) || String.eqb (EvalResultRow.strategyHash r) (PairScope.incumbentHash s)) &&
  String.eqb (EvalResultRow.pricesVersion r) (PairScope.pricesVersion s) && negb (EvalResultRow.stale r) &&
  String.eqb (EvalResultRow.providerMode r) (PairScope.providerMode s) && bool_decide (EvalResultRow.orgId r = PairScope.orgId s) &&
  match PairScope.itemIds s with Some ids => existsb (String.eqb (EvalResultRow.itemId r)) ids | None => true end.

(** [ORDER BY item_id, strategy_hash]. *)
Definition by_item (a b : EvalResultRow.t) : comparison :=
  then_by (fun a b => String.compare (EvalResultRow.itemId a) (EvalResultRow.itemId b))
    (fun a b => String.compare (EvalResultRow.strategyHash a) (EvalResultRow.strategyHash b)) a b.

(** [byItem]: a Map of Maps, in order of insertion. *)
Definition Cells : Type := list (string * list (string * number)).

Definition cells_of (itemId : string) (m : Cells) : list (string * number) := default [] (snd <$> find (fun e => String.eqb e.1 itemId) m).
Definition quality_of (hash : string) (cells : list (string * number)) : option number := snd <$> find (fun c => String.eqb c.1 hash) cells.

Fixpoint set_cells (itemId : string) (cells : list (string * number)) (m : Cells) : Cells :=
  match m with
  | [] => [(itemId, cells)]
  | e :: m => if String.eqb e.1 itemId then (itemId, cells) :: m else e :: set_cells itemId cells m
  end.

(** [None] where a second row of an item and a strategy makes it throw. *)
Definition add_row (m : Cells) (r : EvalResultRow.t) : option Cells :=
  let cells := cells_of (EvalResultRow.itemId r) m in
  match quality_of (EvalResultRow.strategyHash r) cells with
  | Some _ => None
  | None => Some (set_cells (EvalResultRow.itemId r) (cells ++ [(EvalResultRow.strategyHash r, EvalResultRow.quality r)]) m)
  end.

Fixpoint add_rows (rows : list EvalResultRow.t) (m : Cells) : option Cells :=
  match rows with [] => Some m | r :: rows => m ← add_row m r; add_rows rows m end.

Definition pair_of (s : PairScope.t) (e : string * list (string * number)) : QualityPair.t + UnpairableItem.t :=
  match quality_of (PairScope.candidateHash s) e.2, quality_of (PairScope.incumbentHash s) e.2 with
  | Some c, Some i => inl (QualityPair.mk e.1 c i)
  | Some _, None => inr (UnpairableItem.mk e.1 candidate)
  | None, _ => inr (UnpairableItem.mk e.1 incumbent)
  end.

Definition lefts {A B} (l : list (A + B)) : list A := omap (fun x => match x with inl a => Some a | inr _ => None end) l.
Definition rights {A B} (l : list (A + B)) : list B := omap (fun x => match x with inl _ => None | inr b => Some b end) l.

Definition pairedQualities (s : PairScope.t) (rows : list EvalResultRow.t) : option (list QualityPair.t * list UnpairableItem.t) :=
  m ← add_rows (sort by_item (List.filter (in_scope s) rows)) [];
  let l := map (pair_of s) m in Some (lefts l, rights l).

(** ** The verdict's numbers *)

Module RetentionPairEvidence.
Record t := mk { itemId : string; candidateQuality : number; incumbentQuality : number; ratio : number }.
End RetentionPairEvidence.

Module SuiteVerifyRetention.
Record t := mk {
  mean : number;
  ci95 : number * number;
  seed : Z;
  resamples : Z;
  pairs : nat;
  excludedPairs : nat;
  epsilon : number;
  floor : number;
  alpha : number;
  comparisons : number;
  pairEvidence : list RetentionPairEvidence.t;
}.
End SuiteVerifyRetention.

Module RetentionOpts.
Record t := mk { seedKey : string; floor : number; epsilon : option number; minPairs : option Z; comparisons : option number }.
End RetentionOpts.

Definition ratio_of (p : QualityPair.t) : number := div (QualityPair.candidateQuality p) (QualityPair.incumbentQuality p).
Definition pair_order (a b : QualityPair.t) : comparison := String.compare (QualityPair.itemId a) (QualityPair.itemId b).

Definition usable_pairs (epsilon : number) (pairs : list QualityPair.t) : list QualityPair.t :=
  List.filter (fun p => geb (QualityPair.incumbentQuality p) epsilon) pairs.

Definition pair_text (p : QualityPair.t) : string :=
  QualityPair.itemId p +:+ ":" +:+ to_string (QualityPair.candidateQuality p) +:+ "/" +:+ to_string (QualityPair.incumbentQuality p).

Definition evidence_of (p : QualityPair.t) : RetentionPairEvidence.t :=
  RetentionPairEvidence.mk (QualityPair.itemId p) (QualityPair.candidateQuality p) (QualityPair.incumbentQuality p) (ratio_of p).

Definition nat_text (n : nat) : string := show_Z (Z.of_nat n).

Section Retention.
Context (sha256 : string -> string).

(** The insufficiency's reason or the retention; [None] where no percentile
    exists.  More than half is compared without the division. *)
Definition computeRetention (pairs : list QualityPair.t) (opts : RetentionOpts.t) : option (string + SuiteVerifyRetention.t) :=
  let epsilon := default SUITE_VERIFY_EPSILON (RetentionOpts.epsilon opts) in
  let minPairs := default SUITE_VERIFY_MIN_PAIRS (RetentionOpts.minPairs opts) in
  let usable := usable_pairs epsilon pairs in
  let excludedPairs := (length pairs - length usable)%nat in
  if (Z.of_nat (length usable) <? minPairs) || (length pairs <? 2 * excludedPairs)%nat then
    Some (inl (nat_text (length usable) +:+ " usable pairs (" +:+ nat_text excludedPairs +:+ " excluded below epsilon " +:+ to_string epsilon +:+
      ") — need " +:+ show_Z minPairs +:+ "+ with a usable majority"))
  else
    let ordered := sort pair_order usable in
    let ratios := map ratio_of ordered in
    let seedBody := Prompt.Prompt.join "|" (map pair_text ordered) in
    let seed := Stats.seedFromString sha256 (RetentionOpts.seedKey opts +:+ "|" +:+ nat_text (length ordered) +:+ "|" +:+ sha256 seedBody) in
    let comparisons := max one (Num.floor (default one (RetentionOpts.comparisons opts))) in
    let alpha := div (lit 5 2) comparisons in
    '(mean, ci95) ← Stats.bootstrapMeanCi ratios seed Stats.BOOTSTRAP_RESAMPLES alpha;
    Some (inr (SuiteVerifyRetention.mk mean ci95 seed Stats.BOOTSTRAP_RESAMPLES (length ordered) excludedPairs epsilon
      (RetentionOpts.floor opts) alpha comparisons (map evidence_of ordered))).

End Retention.
End Retention.
