(* ===== verification/RetentionSpec.v ===== *)
(** * The retention of a strategy is a function of the evidence

    Neither the order in which the database scans the cells nor the order of
    the pairs reaches the verdict; a pair is two cells of its item and nothing
    else; there is always a retention or a reason why not. *)

From S2P Require Import Prelude Number Rounding Types JsSort Print Stats StatsSpec Prompt Recompute CoverageSpec Retention.

Module RetentionSpec.
Import Num Rounding Sort Print Stats StatsSpec Recompute CoverageSpec Retention.
Local Open Scope Z_scope.

(** ** The map of cells *)

Definition cell_key (r : EvalResultRow.t) : string * string := (EvalResultRow.itemId r, EvalResultRow.strategyHash r).
Definition cell (hash itemId : string) (m : Cells) : option number := quality_of hash (cells_of itemId m).

Lemma find_app_fst {A} (k : string) (l : list (string * A)) x :
  find (fun c => String.eqb c.1 k) (l ++ [x]) = match find (fun c => String.eqb c.1 k) l with Some c => Some c | None => if String.eqb x.1 k then Some x else None end.
Proof. induction l as [|c l IH]; cbn; [by destruct (String.eqb x.1 k)|]. by destruct (String.eqb c.1 k). Qed.

Lemma quality_app hash cells h q :
  quality_of hash (cells ++ [(h, q)]) = match quality_of hash cells with Some x => Some x | None => if String.eqb h hash then Some q else None end.
Proof.
  unfold quality_of. rewrite find_app_fst. cbn. destruct (find _ cells); [done|]. by destruct (String.eqb h hash).
Qed.

Lemma cells_set item cells it m : cells_of it (set_cells item cells m) = if String.eqb item it then cells else cells_of it m.
Proof.
  unfold cells_of. induction m as [|e m IH]; cbn; [by destruct (String.eqb item it)|].
  destruct (String.eqb_spec e.1 item) as [E|Hne]; cbn.
  - destruct (String.eqb_spec item it) as [->|Hit]; cbn; [done|]. destruct (String.eqb_spec e.1 it); [congruence|done].
  - destruct (String.eqb_spec e.1 it) as [E'|Hit]; cbn; [|exact IH]. destruct (String.eqb_spec item it); [congruence|done].
Qed.

Lemma cell_add m r m' hash it :
  add_row m r = Some m' ->
  cell hash it m' = match cell hash it m with Some q => Some q | None => if bool_decide (cell_key r = (it, hash)) then Some (EvalResultRow.quality r) else None end.
Proof.
  unfold add_row, cell. destruct (quality_of _ (cells_of _ m)) as [q|] eqn:E; [done|]. intros [= <-]. rewrite cells_set.
  destruct (String.eqb_spec (EvalResultRow.itemId r) it) as [<-|Hne].
  - rewrite quality_app. destruct (String.eqb_spec (EvalResultRow.strategyHash r) hash) as [<-|Hh].
    + rewrite E. by rewrite bool_decide_eq_true_2.
    + rewrite bool_decide_eq_false_2 by (unfold cell_key; congruence). done.
  - rewrite bool_decide_eq_false_2 by (unfold cell_key; congruence). by destruct (quality_of hash (cells_of it m)).
Qed.

(** Rows are added exactly when no two are of one item and strategy. *)
Lemma add_rows_spec rows m :
  match add_rows rows m with
  | Some m' => NoDup (map cell_key rows) /\ Forall (fun r => cell (EvalResultRow.strategyHash r) (EvalResultRow.itemId r) m = None) rows /\
      forall hash it q, cell hash it m' = Some q <->
        cell hash it m = Some q \/ exists r, r ∈ rows /\ cell_key r = (it, hash) /\ EvalResultRow.quality r = q
  | None => ~ (NoDup (map cell_key rows) /\ Forall (fun r => cell (EvalResultRow.strategyHash r) (EvalResultRow.itemId r) m = None) rows)
  end.
Proof.
  revert m. induction rows as [|r rows IH]; intros m; cbn [add_rows].
  { split; [constructor|]. split; [constructor|]. intros hash it q. split; [by left|]. intros [H|(r & []%elem_of_nil & _)]. exact H. }
  destruct (add_row m r) as [m1|] eqn:E; cbn.
  2:{ intros [_ H]. apply Forall_cons in H as [H _]. unfold add_row in E. unfold cell in H. by rewrite H in E. }
  pose proof (fun hash it => cell_add m r m1 hash it E) as Hc. specialize (IH m1).
  assert ((Forall (fun r0 => cell (EvalResultRow.strategyHash r0) (EvalResultRow.itemId r0) m1 = None) rows) <->
    (cell_key r ∉ map cell_key rows) /\ Forall (fun r0 => cell (EvalResultRow.strategyHash r0) (EvalResultRow.itemId r0) m = None) rows) as Hf.
  { rewrite !Forall_forall. split.
    - intros H. split.
      + intros (r0 & Ek & Hr0)%list_elem_of_fmap. specialize (H r0 Hr0). rewrite Hc in H. destruct (cell _ _ m); [done|].
        rewrite bool_decide_eq_true_2 in H; [done|]. exact Ek.
      + intros r0 Hr0. specialize (H r0 Hr0). rewrite Hc in H. by destruct (cell _ _ m).
    - intros [Hn H] r0 Hr0. rewrite Hc, (H r0 Hr0), bool_decide_eq_false_2; [done|]. intros Ek. apply Hn. apply list_elem_of_fmap.
      exists r0. split; [exact Ek|done]. }
  assert (cell (EvalResultRow.strategyHash r) (EvalResultRow.itemId r) m = None) as Hr.
  { unfold add_row in E. unfold cell. by destruct (quality_of _ _). }
  destruct (add_rows rows m1) as [m'|].
  - destruct IH as (IH1 & IH23 & IH4); apply Hf in IH23 as [IH2 IH3]. split; [by apply NoDup_cons|]. split; [by apply Forall_cons|].
    intros hash it q. rewrite IH4, Hc. split.
    + destruct (cell hash it m) as [x|] eqn:Em; [intros [H|(r0 & H & ?)]; [by left|right; exists r0; split; [by right|done]]|].
      intros [H|(r0 & H & ?)]; [|right; exists r0; split; [by right|done]]. destruct (bool_decide (cell_key r = (it, hash))) eqn:Eb; [|done].
      apply bool_decide_eq_true in Eb. injection H as H. right. exists r. split; [by left|done].
    + intros [->|(r0 & [->|Hr0]%elem_of_cons & Ek & Eq)]; [by left| |right; by exists r0]. left.
      unfold cell_key in Ek. injection Ek as <- <-. rewrite Hr. rewrite bool_decide_eq_true_2 by done. by f_equal.
  - intros [[Hn Hd]%NoDup_cons [_ Hm]%Forall_cons]. apply IH. split; [exact Hd|]. by apply Hf.
Qed.

Lemma cell_empty hash it : cell hash it [] = None.
Proof. done. Qed.

Lemma added_when rows : is_Some (add_rows rows []) <-> NoDup (map cell_key rows).
Proof.
  pose proof (add_rows_spec rows []) as H. destruct (add_rows rows []) as [m|]; [split; [intros _; apply H|by eexists]|].
  split; [by intros []|]. intros Hn. exfalso. apply H. split; [exact Hn|]. apply Forall_forall. by intros.
Qed.

(** ** The order of the scan *)

#[local] Instance consistent_by_item : Consistent (fun _ => True) by_item.
Proof. unfold by_item. apply consistent_then; apply (consistent_string (H := codepoint)). Qed.

Lemma by_item_eq a b : by_item a b = Eq -> cell_key a = cell_key b.
Proof.
  unfold by_item, then_by, cell_key. destruct (String.compare (EvalResultRow.itemId a) _) eqn:E; [|done..].
  apply String.compare_eq_iff in E. intros H%String.compare_eq_iff. congruence.
Qed.

Lemma sort_cells rows rows' : rows ≡ₚ rows' -> NoDup (map cell_key rows) -> sort by_item rows = sort by_item rows'.
Proof.
  intros Hp Hn. apply (sort_order_free (fun _ => True) by_item); [apply Forall_true; intros; exact I|exact Hp|].
  intros x y Hx Hy E%by_item_eq. by apply (NoDup_key_inj cell_key rows).
Qed.

(** The pairing of a scan is that of every other order of its rows; where two
    rows stand for one item and strategy both are refused. *)
Theorem pairing_scan_free s rows rows' : rows ≡ₚ rows' -> pairedQualities s rows = pairedQualities s rows'.
Proof.
  intros Hp. unfold pairedQualities. set (l := List.filter (in_scope s) rows). set (l' := List.filter (in_scope s) rows').
  assert (l ≡ₚ l') as Hl by (by apply filter_permutation).
  destruct (decide (NoDup (map cell_key l))) as [Hn|Hn]; [by rewrite (sort_cells l l')|].
  assert (forall k, k ≡ₚ l -> add_rows (sort by_item k) [] = None) as H.
  { intros k Hk. destruct (add_rows (sort by_item k) []) as [m|] eqn:E; [|done]. exfalso. apply Hn.
    assert (is_Some (add_rows (sort by_item k) [])) as Hs by by eexists. apply added_when in Hs. revert Hs. by rewrite sort_perm, Hk. }
  by rewrite !H.
Qed.

(** ** What a pair is *)

Lemma set_cells_keys item cells m : map fst (set_cells item cells m) = if bool_decide (item ∈ map fst m) then map fst m else map fst m ++ [item].
Proof.
  induction m as [|e m IH]; [done|]. cbn. destruct (String.eqb_spec e.1 item) as [<-|Hne].
  - rewrite bool_decide_eq_true_2 by by left. done.
  - cbn. rewrite IH. rewrite (bool_decide_ext (item ∈ e.1 :: map fst m) (item ∈ map fst m)); [by destruct (bool_decide _)|].
    rewrite elem_of_cons. split; [intros [?|?]; [congruence|done]|by right].
Qed.

Lemma set_cells_nodup item cells m : NoDup (map fst m) -> NoDup (map fst (set_cells item cells m)).
Proof.
  intros Hn. rewrite set_cells_keys. destruct (bool_decide _) eqn:E; [done|]. apply bool_decide_eq_false in E.
  apply NoDup_app. split; [done|]. split; [|apply NoDup_singleton]. intros x Hx ->%list_elem_of_singleton. by apply E.
Qed.

Lemma add_rows_keys rows m m' : add_rows rows m = Some m' -> NoDup (map fst m) -> NoDup (map fst m').
Proof.
  revert m. induction rows as [|r rows IH]; intros m; cbn; [by intros [= <-]|].
  unfold add_row. destruct (quality_of _ _); cbn; [done|]. intros H Hn. apply (IH _ H). by apply set_cells_nodup.
Qed.

Lemma cells_in (m : Cells) e : NoDup (map fst m) -> e ∈ m -> cells_of e.1 m = e.2.
Proof.
  intros Hn He. unfold cells_of. destruct (find _ m) as [e'|] eqn:E; cbn.
  - apply find_some in E as [Hin Hk%String.eqb_eq]. f_equal. apply (NoDup_key_inj fst m); [done|by apply list_elem_of_In|done|done].
  - apply list_elem_of_In in He. pose proof (find_none _ _ E e He) as Hf. cbn in Hf. by rewrite String.eqb_refl in Hf.
Qed.

Lemma cell_in (m : Cells) hash it q : cell hash it m = Some q -> exists e, e ∈ m /\ e.1 = it /\ quality_of hash e.2 = Some q.
Proof.
  unfold cell, cells_of. destruct (find _ m) as [e|] eqn:E; cbn; [|done]. intros Hq. exists e.
  apply find_some in E as [Hin Hk%String.eqb_eq]. split; [by apply list_elem_of_In|]. by split.
Qed.

(** The cell of a strategy on an item. *)
Definition evaluated (s : PairScope.t) (rows : list EvalResultRow.t) (hash itemId : string) (q : number) : Prop :=
  exists r, r ∈ rows /\ in_scope s r = true /\ EvalResultRow.itemId r = itemId /\ EvalResultRow.strategyHash r = hash /\ EvalResultRow.quality r = q.

(** Items are paired once, with the qualities of their two cells; nothing that
    has both is left out, and what has one is reported. *)
Theorem pairing_sound s rows pairs unpairable :
  pairedQualities s rows = Some (pairs, unpairable) ->
  NoDup (map QualityPair.itemId pairs) /\
  (forall it c i, QualityPair.mk it c i ∈ pairs <->
    evaluated s rows (PairScope.candidateHash s) it c /\ evaluated s rows (PairScope.incumbentHash s) it i) /\
  (forall it, UnpairableItem.mk it candidate ∈ unpairable <->
    (exists c, evaluated s rows (PairScope.candidateHash s) it c) /\ ~ exists i, evaluated s rows (PairScope.incumbentHash s) it i).
Proof.
  unfold pairedQualities. destruct (add_rows _ []) as [m|] eqn:E; cbn; [|done]. intros [= <- <-].
  pose proof (add_rows_keys _ _ _ E ltac:(constructor)) as Hk.
  pose proof (add_rows_spec (sort by_item (List.filter (in_scope s) rows)) []) as Hs. rewrite E in Hs. destruct Hs as (_ & _ & Hs).
  assert (forall hash it q, cell hash it m = Some q <-> evaluated s rows hash it q) as Hc.
  { intros hash it q. rewrite Hs, cell_empty. unfold evaluated, cell_key. split.
    - intros [?|(r & Hr & Ek & Eq)]; [done|]. apply elem_of_sort, elem_filter in Hr as [Hr Hf]. injection Ek as E1 E2. by exists r.
    - intros (r & Hr & Hf & E1 & E2 & Eq). right. exists r. split; [by apply elem_of_sort, elem_filter|]. split; [congruence|done]. }
  assert (forall e, e ∈ m -> forall hash q, quality_of hash e.2 = Some q <-> evaluated s rows hash e.1 q) as He.
  { intros e Hin hash q. rewrite <- Hc. unfold cell. by rewrite (cells_in m e Hk Hin). }
  split; [|split].
  - clear - Hk. induction m as [|e m IH]; [constructor|]. cbn in Hk. apply NoDup_cons in Hk as [H1 H2]. cbn.
    destruct (pair_of s e) as [p|u] eqn:Ep; [|by apply IH]. cbn. apply NoDup_cons. split; [|by apply IH].
    assert (forall e p, pair_of s e = inl p -> QualityPair.itemId p = e.1) as Hid.
    { clear. intros e p. unfold pair_of.
      destruct (quality_of (PairScope.candidateHash s) e.2), (quality_of (PairScope.incumbentHash s) e.2); [|done..]. by intros [= <-]. }
    intros (p' & Eid & Hp)%list_elem_of_fmap. apply list_elem_of_omap in Hp as (x & (e' & -> & He')%list_elem_of_fmap & Hx).
    destruct (pair_of s e') as [p0|] eqn:Ep'; [|done]. injection Hx as ->. apply H1. rewrite <- (Hid _ _ Ep), Eid, (Hid _ _ Ep').
    by apply list_elem_of_fmap_2.
  - intros it c i. unfold lefts. rewrite list_elem_of_omap. split.
    + intros (x & (e & -> & Hin)%list_elem_of_fmap & Hx). unfold pair_of in Hx.
      destruct (quality_of (PairScope.candidateHash s) e.2) as [c'|] eqn:E1; [|done].
      destruct (quality_of (PairScope.incumbentHash s) e.2) as [i'|] eqn:E2; [|done]. injection Hx as <- -> ->. by split; apply He.
    + intros [(e & Hin & <- & Hq)%Hc%cell_in Hi]. exists (inl (QualityPair.mk e.1 c i)). split; [|done].
      apply list_elem_of_fmap. exists e. split; [|done]. unfold pair_of. rewrite Hq. apply He in Hi; [|done]. by rewrite Hi.
  - intros it. unfold rights. rewrite list_elem_of_omap. split.
    + intros (x & (e & -> & Hin)%list_elem_of_fmap & Hx). unfold pair_of in Hx.
      destruct (quality_of (PairScope.candidateHash s) e.2) as [c'|] eqn:E1; [|done].
      destruct (quality_of (PairScope.incumbentHash s) e.2) as [i'|] eqn:E2; [done|]. injection Hx as <-. split; [exists c'; by apply He|].
      intros (i & Hi). apply He in Hi; [|done]. congruence.
    + intros [(c & (e & Hin & <- & Hq)%Hc%cell_in) Hi]. exists (inr (UnpairableItem.mk e.1 candidate)). split; [|done].
      apply list_elem_of_fmap. exists e. split; [|done]. unfold pair_of. rewrite Hq.
      destruct (quality_of (PairScope.incumbentHash s) e.2) as [i|] eqn:E2; [|done]. exfalso. apply Hi. exists i. by apply He.
Qed.

(** ** The order of the pairs *)

Section Retention.
Context (sha256 : string -> string).

#[local] Instance consistent_pair_order : Consistent (fun _ => True) pair_order.
Proof. apply (consistent_string (H := codepoint)). Qed.

(** C35. The verdict's numbers, interval and seed included, depend on the set of
    pairs only. *)
Theorem retention_order_free pairs pairs' opts :
  pairs ≡ₚ pairs' -> NoDup (map QualityPair.itemId pairs) -> computeRetention sha256 pairs opts = computeRetention sha256 pairs' opts.
Proof.
  intros Hp Hn. unfold computeRetention. cbv zeta. set (eps := default SUITE_VERIFY_EPSILON _).
  pose proof (filter_permutation (fun p => geb (QualityPair.incumbentQuality p) eps) _ _ Hp) as Hu. fold (usable_pairs eps pairs) (usable_pairs eps pairs') in Hu.
  rewrite (Permutation_length Hu), (Permutation_length Hp).
  replace (sort pair_order (usable_pairs eps pairs')) with (sort pair_order (usable_pairs eps pairs)); [done|].
  apply (sort_order_free (fun _ => True) pair_order); [apply Forall_true; intros; exact I|exact Hu|].
  intros x y [Hx _]%elem_filter [Hy _]%elem_filter Exy%String.compare_eq_iff. by apply (NoDup_key_inj QualityPair.itemId pairs).
Qed.

(** ** A retention or a reason *)

Lemma bootstrap_defined l seed r alpha :
  l <> [] -> Z.of_nat (length l) < 2 ^ 21 -> unital alpha -> 1 <= r < 2 ^ 31 -> is_Some (Stats.bootstrapMeanCi l seed r alpha).
Proof.
  intros Hne Hl Ha Hr. unfold Stats.bootstrapMeanCi, Stats.bootstrapCi.
  destruct (resamples_all (fun _ => True) l (fun buf => Stats.mean_of (map Stats.or_nan buf)) (Z.to_nat r) (Stats.mulberry32 seed) Hne Hl) as [Hlen _]; [done|].
  destruct (percentile_indices alpha r Ha Hr) as [Hi Hj]. unfold Stats.percentiles.
  assert (length (Stats.ascending (Stats.resamples l (fun buf => Stats.mean_of (map Stats.or_nan buf)) (Z.to_nat r) (Stats.mulberry32 seed))) = Z.to_nat r) as El
    by (etransitivity; [apply sort_length|exact Hlen]).
  set (stats := Stats.resamples _ _ _ _) in *. clearbody stats.
  destruct (at_lookup (Stats.ascending stats) (Stats.lo_index alpha r)) as (lo & -> & _); [lia|].
  destruct (at_lookup (Stats.ascending stats) (Stats.hi_index alpha r)) as (hi & E2 & _); [lia|]. cbn. by rewrite E2.
Qed.

Lemma default_alpha : unital (div (lit 5 2) (max one (Num.floor one))).
Proof. by vm_compute. Qed.

Lemma evidence_ids l : map RetentionPairEvidence.itemId (map evidence_of l) = map QualityPair.itemId l.
Proof. by rewrite map_map. Qed.

(** Without a family of comparisons there is always an answer: a retention over
    the usable pairs, each listed once in the order of the items, when there are
    enough of them and they are not a minority, and the reason otherwise. *)
Theorem retention_or_reason pairs opts :
  RetentionOpts.comparisons opts = None -> Z.of_nat (length pairs) < 2 ^ 21 ->
  let epsilon := default SUITE_VERIFY_EPSILON (RetentionOpts.epsilon opts) in
  let minPairs := default SUITE_VERIFY_MIN_PAIRS (RetentionOpts.minPairs opts) in
  let usable := usable_pairs epsilon pairs in
  let enough := minPairs <= Z.of_nat (length usable) /\ (length pairs <= 2 * length usable)%nat in
  1 <= minPairs ->
  match computeRetention sha256 pairs opts with
  | Some (inr v) => enough /\ SuiteVerifyRetention.pairs v = length usable /\ (SuiteVerifyRetention.pairs v + SuiteVerifyRetention.excludedPairs v = length pairs)%nat /\
      SuiteVerifyRetention.pairEvidence v ≡ₚ map evidence_of usable /\
      StronglySorted (fun a b => String.compare a b <> Gt) (map RetentionPairEvidence.itemId (SuiteVerifyRetention.pairEvidence v))
  | Some (inl _) => ~ enough
  | None => False
  end.
Proof.
  intros Hc Hl epsilon minPairs usable enough Hm. unfold computeRetention. rewrite Hc. cbn [default]. cbv zeta. fold epsilon minPairs usable.
  assert (length usable <= length pairs)%nat as Hle by (apply filter_length_le).
  destruct ((Z.of_nat (length usable) <? minPairs) || (length pairs <? 2 * (length pairs - length usable))%nat) eqn:E.
  - apply orb_true_iff in E. rewrite Z.ltb_lt, Nat.ltb_lt in E. unfold enough. lia.
  - apply orb_false_iff in E. rewrite Z.ltb_ge, Nat.ltb_ge in E.
    destruct (bootstrap_defined (map ratio_of (sort pair_order usable))
      (Stats.seedFromString sha256 (RetentionOpts.seedKey opts +:+ "|" +:+ nat_text (length (sort pair_order usable)) +:+ "|" +:+
         sha256 (Prompt.Prompt.join "|" (map pair_text (sort pair_order usable)))))
      Stats.BOOTSTRAP_RESAMPLES (div (lit 5 2) (max one (Num.floor one)))) as [[mean ci] ->].
    + intros Hnil%(f_equal length). rewrite length_map, sort_length in Hnil. cbn in Hnil. lia.
    + rewrite length_map, sort_length. lia.
    + exact default_alpha.
    + by vm_compute.
    + cbn -[div max Num.floor evidence_of]. rewrite sort_length. split; [unfold enough; lia|]. split; [done|]. split; [lia|].
      split; [apply Permutation_map, sort_perm|]. rewrite evidence_ids.
      pose proof (sort_sorted (fun _ => True) pair_order usable ltac:(by apply Forall_true)) as Hs.
      induction Hs as [|x l _ IH Hx]; cbn; constructor; [exact IH|]. by apply Forall_map.
Qed.

End Retention.

End RetentionSpec.
