(* ===== verification/Suites.v ===== *)
(** * Derived suites, their certifications and the verdicts: db/src/repos/derived-suites.ts,
    suite-certifications.ts, verdicts.ts and suiteContentHash of core/src/hash.ts

    A suite is the items a guarantee is measured on.  A certification vouches for
    one suite at one version and one content; it backs a contractual claim only
    while the suite is still that.  Every verification leaves a verdict. *)

From Stdlib Require Import Ascii.
From S2P Require Import Prelude Number Types JsSort Print Program Prompt Statements Guarantee GuaranteeJobs.

Module Suites.
Import Num Sort Print Program Prompt Statements Guarantee.
Local Open Scope Z_scope.

(** ** Tables *)

Module DerivedSuiteRow.
Record t := mk { suiteId : string; clusterId : string; orgId : string; manifest : fields; version : string }.
End DerivedSuiteRow.

Module DerivedSuiteItemRow.
Record t := mk {
  suiteId : string;
  itemId : string;
  clusterId : string;
  prompt : json;
  reference : option json;
  scoring : fields;
  sourceTraceId : option string;
  createdAt : Z;
}.
End DerivedSuiteItemRow.

Inductive SuiteCertificationStatus := pending | certified | failed | superseded | invalidated.
#[export] Instance status_dec : EqDecision SuiteCertificationStatus.
Proof. solve_decision. Defined.

Module SuiteCertificationRow.
Record t := mk {
  id : string;
  orgId : string;
  clusterId : string;
  suiteId : string;
  suiteVersion : string;
  suiteContentHash : option string;
  incumbentHash : option string;
  incumbentDesignationId : option string;
  providerMode : ProviderMode;
  status : SuiteCertificationStatus;
  statusReason : option string;
  evidence : fields;
  spendUsd : number;
  createdAt : Z;
}.
End SuiteCertificationRow.

Module GuaranteeVerdictRow.
Record t := mk {
  id : string;
  orgId : string;
  policyId : string;
  clusterId : string;
  suiteId : option string;
  suiteVersion : option string;
  candidateHash : string;
  incumbentHash : option string;
  incumbentDesignationId : option string;
  providerMode : ProviderMode;
  pricesVersion : option string;
  outcome : string;
  retention : option fields;
  unpairable : json;
  detail : option string;
  runId : option string;
  spendUsd : number;
  rubricHash : option string;
  calibrationId : option string;
  advisoryIncidentId : option string;
  verdictIncidentId : option string;
  supersededBy : option string;
  supersedeReason : option string;
  createdAt : Z;
}.
End GuaranteeVerdictRow.

Record SuiteDb := MkSuiteDb {
  derived_suites : list DerivedSuiteRow.t;
  derived_suite_items : list DerivedSuiteItemRow.t;
  suite_certifications : list SuiteCertificationRow.t;
  guarantee_verdicts : list GuaranteeVerdictRow.t;
}.

Definition with_suites (l : list DerivedSuiteRow.t) (d : SuiteDb) : SuiteDb := MkSuiteDb l (derived_suite_items d) (suite_certifications d) (guarantee_verdicts d).
Definition with_items (l : list DerivedSuiteItemRow.t) (d : SuiteDb) : SuiteDb := MkSuiteDb (derived_suites d) l (suite_certifications d) (guarantee_verdicts d).
Definition with_certifications (l : list SuiteCertificationRow.t) (d : SuiteDb) : SuiteDb := MkSuiteDb (derived_suites d) (derived_suite_items d) l (guarantee_verdicts d).
Definition with_verdicts (l : list GuaranteeVerdictRow.t) (d : SuiteDb) : SuiteDb := MkSuiteDb (derived_suites d) (derived_suite_items d) (suite_certifications d) l.

(** ** derived-suites.ts *)

(** The numbers of a version, which is decimal numbers between dots. *)
Definition version_part (s : string) : Z := digits_value 0 (digit_run s).1.
Fixpoint split_dots (s : string) : list string :=
  match s with
  | EmptyString => [EmptyString]
  | String c s =>
      if Ascii.eqb c "."%char then EmptyString :: split_dots s
      else match split_dots s with p :: l => String c p :: l | [] => [String c EmptyString] end
  end.

Definition bumpPatch (version : string) : string :=
  let part i d := default d (version_part <$> nth_error (split_dots version) i) in
  show_Z (part 0%nat 1) +:+ "." +:+ show_Z (part 1%nat 0) +:+ "." +:+ show_Z (part 2%nat 0 + 1).

Definition of_suite (suiteId : string) (r : DerivedSuiteRow.t) : bool := String.eqb (DerivedSuiteRow.suiteId r) suiteId.
Definition item_of (suiteId : string) (r : DerivedSuiteItemRow.t) : bool := String.eqb (DerivedSuiteItemRow.suiteId r) suiteId.

Definition suite_row (suiteId : string) (d : SuiteDb) : option DerivedSuiteRow.t := find (of_suite suiteId) (derived_suites d).
Definition items_of (suiteId : string) (d : SuiteDb) : list DerivedSuiteItemRow.t := List.filter (item_of suiteId) (derived_suite_items d).

Definition set_version (version : string) (r : DerivedSuiteRow.t) : DerivedSuiteRow.t :=
  DerivedSuiteRow.mk (DerivedSuiteRow.suiteId r) (DerivedSuiteRow.clusterId r) (DerivedSuiteRow.orgId r) (DerivedSuiteRow.manifest r) version.

Definition update_version (suiteId version : string) : proc SuiteDb unit :=
  exec (fun _ d => (with_suites (map (fun r => if of_suite suiteId r then set_version version r else r) (derived_suites d)) d, tt)).

Definition bumpSuiteVersion (suiteId : string) : proc SuiteDb (option string) :=
  row ← query (suite_row suiteId);
  match row with
  | Some r => let next := bumpPatch (DerivedSuiteRow.version r) in _ ← update_version suiteId next; Ret (Some next)
  | None => Ret None
  end.

(** An item to be put into a suite. *)
Module NewItem.
Record t := mk { id : string; clusterId : string; prompt : json; reference : option json; scoring : fields; sourceTraceId : option string }.
End NewItem.

Module DerivedSuiteUpsert.
Record t := mk { suiteId : string; clusterId : string; orgId : string; manifest : fields; items : list NewItem.t; itemCap : Z }.
End DerivedSuiteUpsert.

Module DerivedSuiteUpsertResult.
Record t := mk { created : bool; itemsAdded : nat; version : string }.
End DerivedSuiteUpsertResult.

Definition insert_suite (u : DerivedSuiteUpsert.t) : proc SuiteDb unit :=
  o ← exec (fun _ d =>
    match suite_row (DerivedSuiteUpsert.suiteId u) d with
    | Some _ => (d, None)
    | None => (with_suites (derived_suites d ++ [DerivedSuiteRow.mk (DerivedSuiteUpsert.suiteId u) (DerivedSuiteUpsert.clusterId u)
        (DerivedSuiteUpsert.orgId u) (DerivedSuiteUpsert.manifest u) "1.0.0"]) d, Some tt)
    end);
  of_option "duplicate key" o.

(** INSERT ... ON CONFLICT DO NOTHING. *)
Definition insert_item (suiteId : string) (i : NewItem.t) : proc SuiteDb unit :=
  exec (fun t d =>
    if existsb (fun r => item_of suiteId r && String.eqb (DerivedSuiteItemRow.itemId r) (NewItem.id i)) (derived_suite_items d) then (d, tt)
    else (with_items (derived_suite_items d ++ [DerivedSuiteItemRow.mk suiteId (NewItem.id i) (NewItem.clusterId i) (NewItem.prompt i)
        (NewItem.reference i) (NewItem.scoring i) (NewItem.sourceTraceId i) (now t)]) d, tt)).

(** [new Map(items.map((i) => [i.id, i]))]: the last item of an id, in the place
    of the first. *)
Fixpoint by_id (items : list NewItem.t) (m : list NewItem.t) : list NewItem.t :=
  match items with
  | [] => m
  | i :: items =>
      by_id items (if existsb (fun j => String.eqb (NewItem.id j) (NewItem.id i)) m
                   then map (fun j => if String.eqb (NewItem.id j) (NewItem.id i) then i else j) m else m ++ [i])
  end.

(** [slice(0, n)]: a negative end counts from the back. *)
Definition slice_to {A} (n : Z) (l : list A) : list A := if 0 <=? n then take (Z.to_nat n) l else take (Z.to_nat (Z.of_nat (length l) + n)) l.

Definition roster (before : list string) (candidates : list NewItem.t) (cap : Z) : list string :=
  slice_to cap (sort String.compare (GuaranteeJobs.first_seen [] (before ++ map NewItem.id candidates))).

Fixpoint add_items (suiteId : string) (before : list string) (candidates : list NewItem.t) (ids : list string) (added : nat) : proc SuiteDb nat :=
  match ids with
  | [] => Ret added
  | id :: ids =>
      if existsb (String.eqb id) before then add_items suiteId before candidates ids added
      else match find (fun i => String.eqb (NewItem.id i) id) candidates with
           | Some i => _ ← insert_item suiteId i; add_items suiteId before candidates ids (S added)
           | None => add_items suiteId before candidates ids added
           end
  end.

Definition upsertDerivedSuite (u : DerivedSuiteUpsert.t) : proc SuiteDb DerivedSuiteUpsertResult.t :=
  let suiteId := DerivedSuiteUpsert.suiteId u in
  existing ← query (suite_row suiteId);
  _ ← match existing with Some _ => Ret tt | None => insert_suite u end;
  before ← query (fun d => map DerivedSuiteItemRow.itemId (items_of suiteId d));
  let candidates := by_id (DerivedSuiteUpsert.items u) [] in
  itemsAdded ← add_items suiteId before candidates (roster before candidates (DerivedSuiteUpsert.itemCap u)) 0;
  match existing with
  | Some r =>
      if (0 <? itemsAdded)%nat then
        let version := bumpPatch (DerivedSuiteRow.version r) in
        _ ← update_version suiteId version; Ret (DerivedSuiteUpsertResult.mk false itemsAdded version)
      else Ret (DerivedSuiteUpsertResult.mk false itemsAdded (DerivedSuiteRow.version r))
  | None => Ret (DerivedSuiteUpsertResult.mk true itemsAdded "1.0.0")
  end.

(** [`${clusterId}-replays-v2`] when it has items, else [-v1]. *)
Definition suite_id_for (clusterId : string) (d : SuiteDb) : string :=
  let v2 := clusterId +:+ "-replays-v2" in
  match items_of v2 d with [] => clusterId +:+ "-replays-v1" | _ => v2 end.
Definition derivedSuiteIdFor (clusterId : string) : proc SuiteDb string := query (suite_id_for clusterId).

Module LoadedDerivedSuite.
Record t := mk { suite : DerivedSuiteRow.t; items : list DerivedSuiteItemRow.t }.
End LoadedDerivedSuite.

Definition by_item_id (a b : DerivedSuiteItemRow.t) : comparison := String.compare (DerivedSuiteItemRow.itemId a) (DerivedSuiteItemRow.itemId b).

Definition loadDerivedSuite (suiteId : string) : proc SuiteDb (option LoadedDerivedSuite.t) :=
  suite ← query (suite_row suiteId);
  match suite with
  | None => Ret None
  | Some r => items ← query (fun d => sort by_item_id (items_of suiteId d)); Ret (Some (LoadedDerivedSuite.mk r items))
  end.

Definition by_suite_id (a b : DerivedSuiteRow.t) : comparison := String.compare (DerivedSuiteRow.suiteId a) (DerivedSuiteRow.suiteId b).
Definition listDerivedSuites (orgId : option string) : proc SuiteDb (list DerivedSuiteRow.t) :=
  query (fun d => sort by_suite_id (List.filter (fun r => match orgId with Some o => String.eqb (DerivedSuiteRow.orgId r) o | None => true end) (derived_suites d))).

Definition llm_judged (r : DerivedSuiteItemRow.t) : bool := bool_decide (text "kind" (DerivedSuiteItemRow.scoring r) = Some "llm-judge"%string).
Definition set_rubric (rubricText : string) (r : DerivedSuiteItemRow.t) : DerivedSuiteItemRow.t :=
  DerivedSuiteItemRow.mk (DerivedSuiteItemRow.suiteId r) (DerivedSuiteItemRow.itemId r) (DerivedSuiteItemRow.clusterId r) (DerivedSuiteItemRow.prompt r)
    (DerivedSuiteItemRow.reference r) (put "rubric" (JStr rubricText) (DerivedSuiteItemRow.scoring r)) (DerivedSuiteItemRow.sourceTraceId r)
    (DerivedSuiteItemRow.createdAt r).

Definition restampDerivedSuiteRubric (suiteId rubricText : string) : proc SuiteDb nat :=
  n ← exec (fun _ d =>
    let hit r := item_of suiteId r && llm_judged r in
    (with_items (map (fun r => if hit r then set_rubric rubricText r else r) (derived_suite_items d)) d, length (List.filter hit (derived_suite_items d))));
  if (0 <? n)%nat then _ ← bumpSuiteVersion suiteId; Ret n else Ret n.

(** [cutoff]: an instant, or everything. *)
Definition purged (suiteId : string) (cutoff : option Z) (r : DerivedSuiteItemRow.t) : bool :=
  item_of suiteId r && match cutoff with Some at_ => DerivedSuiteItemRow.createdAt r <? at_ | None => true end.

Fixpoint purge_suites (suites : list string) (cutoff : option Z) (deleted emptied : nat) (ids : list string) : proc SuiteDb (nat * nat * list string) :=
  match suites with
  | [] => Ret (deleted, emptied, ids)
  | suiteId :: suites =>
      gone ← exec (fun _ d =>
        (with_items (List.filter (fun r => negb (purged suiteId cutoff r)) (derived_suite_items d)) d,
         map DerivedSuiteItemRow.itemId (List.filter (purged suiteId cutoff) (derived_suite_items d))));
      let deleted := (deleted + length (gone : list string))%nat in
      let ids := ids ++ gone in
      match gone with
      | [] => purge_suites suites cutoff deleted emptied ids
      | _ =>
          _ ← bumpSuiteVersion suiteId;
          remaining ← query (fun d => length (items_of suiteId d));
          purge_suites suites cutoff deleted (if (remaining =? 0)%nat then S emptied else emptied) ids
      end
  end.

Definition purgeDerivedSuiteItems (orgId : string) (cutoff : option Z) : proc SuiteDb (nat * nat * list string) :=
  suites ← query (fun d => map DerivedSuiteRow.suiteId (List.filter (fun r => String.eqb (DerivedSuiteRow.orgId r) orgId) (derived_suites d)));
  purge_suites suites cutoff 0 0 [].

Module ClusterCertificationState.
Record t := mk {
  certified : bool;
  reason : option string;
  certification : option SuiteCertificationRow.t;
  currentSuiteId : option string;
  currentSuiteVersion : option string;
}.
End ClusterCertificationState.

Module CertificationInvalidation.
Record t := mk {
  certificationId : string;
  orgId : string;
  clusterId : string;
  suiteId : string;
  certifiedHash : option string;
  liveHash : string;
  reason : string;
}.
End CertificationInvalidation.

Section Content.
(** sha256 of the text of a JSON tree. *)
Context (content_sha : json -> string).

Definition content_json (r : DerivedSuiteItemRow.t) : json :=
  JObj [("itemId", JStr (DerivedSuiteItemRow.itemId r)); ("prompt", DerivedSuiteItemRow.prompt r);
        ("reference", default JNull (DerivedSuiteItemRow.reference r)); ("scoring", JObj (DerivedSuiteItemRow.scoring r))]%string.

Definition suiteContentHash (items : list DerivedSuiteItemRow.t) : string :=
  content_sha (canonicalJson (JArr (map content_json (sort by_item_id items)))).

Definition content_hash (suiteId : string) (d : SuiteDb) : string := suiteContentHash (items_of suiteId d).
Definition computeSuiteContentHash (suiteId : string) : proc SuiteDb string := query (content_hash suiteId).

(** ** suite-certifications.ts *)

Definition is_certified (r : SuiteCertificationRow.t) : bool := bool_decide (SuiteCertificationRow.status r = certified).

Definition active_for (suiteId orgId : string) (r : SuiteCertificationRow.t) : bool :=
  String.eqb (SuiteCertificationRow.suiteId r) suiteId && String.eqb (SuiteCertificationRow.orgId r) orgId && is_certified r.

Definition set_status (status : SuiteCertificationStatus) (reason : string) (r : SuiteCertificationRow.t) : SuiteCertificationRow.t :=
  SuiteCertificationRow.mk (SuiteCertificationRow.id r) (SuiteCertificationRow.orgId r) (SuiteCertificationRow.clusterId r) (SuiteCertificationRow.suiteId r)
    (SuiteCertificationRow.suiteVersion r) (SuiteCertificationRow.suiteContentHash r) (SuiteCertificationRow.incumbentHash r)
    (SuiteCertificationRow.incumbentDesignationId r) (SuiteCertificationRow.providerMode r) status (Some reason) (SuiteCertificationRow.evidence r)
    (SuiteCertificationRow.spendUsd r) (SuiteCertificationRow.createdAt r).

Definition is_refusal (evidence : fields) : bool := match get "refused" evidence with Some (JBool true) => true | _ => false end.

(** One transaction; the partial unique index on the certified rows of a suite
    refuses the row, and with it the demotion, when another organization's row
    is in its way. *)
Definition insert_certification (row : string -> Z -> SuiteCertificationRow.t) (t : tick) (d : SuiteDb) : SuiteDb * option string :=
  let row := row (uuid t) (now t) in
  let suiteId := SuiteCertificationRow.suiteId row in
  let demoted :=
    if is_refusal (SuiteCertificationRow.evidence row) then suite_certifications d
    else map (fun r => if active_for suiteId (SuiteCertificationRow.orgId row) r
                       then set_status superseded ("superseded by " +:+ SuiteCertificationRow.id row +:+ " (re-certification)") r else r)
           (suite_certifications d) in
  if is_certified row && existsb (fun r => String.eqb (SuiteCertificationRow.suiteId r) suiteId && is_certified r) demoted then (d, None)
  else (with_certifications (demoted ++ [row]) d, Some (SuiteCertificationRow.id row)).

Definition insertSuiteCertificationTx (row : string -> Z -> SuiteCertificationRow.t) : proc SuiteDb string :=
  o ← exec (insert_certification row); of_option "unique violation" o.

Definition newest_certification (a b : SuiteCertificationRow.t) : comparison := SuiteCertificationRow.createdAt b ?= SuiteCertificationRow.createdAt a.

Definition listSuiteCertifications (orgId : string) : proc SuiteDb (list SuiteCertificationRow.t) :=
  query (fun d => sort newest_certification (List.filter (fun r => String.eqb (SuiteCertificationRow.orgId r) orgId) (suite_certifications d))).

Definition active_certification (suiteId orgId : string) (d : SuiteDb) : option SuiteCertificationRow.t := find (active_for suiteId orgId) (suite_certifications d).
Definition activeCertificationForSuite (suiteId orgId : string) : proc SuiteDb (option SuiteCertificationRow.t) := query (active_certification suiteId orgId).

Definition certified_rows (clusterId orgId : string) (d : SuiteDb) : list SuiteCertificationRow.t :=
  sort newest_certification (List.filter (fun r =>
    String.eqb (SuiteCertificationRow.clusterId r) clusterId && String.eqb (SuiteCertificationRow.orgId r) orgId && is_certified r) (suite_certifications d)).
Definition certifiedRowsForCluster (clusterId orgId : string) : proc SuiteDb (list SuiteCertificationRow.t) := query (certified_rows clusterId orgId).

Definition first_twelve (s : string) : string := String.substring 0 12 s.

(** The suite of the cluster is not there, or not the organization's. *)
Definition suite_missing (clusterId orgId suiteId : string) : proc SuiteDb ClusterCertificationState.t :=
  emptied ← query (fun d => List.filter (fun r => String.eqb (DerivedSuiteRow.clusterId r) clusterId && String.eqb (DerivedSuiteRow.orgId r) orgId) (derived_suites d));
  prior ← certifiedRowsForCluster clusterId orgId;
  let priorCertified := head prior in
  match emptied with
  | e :: _ =>
      Ret (ClusterCertificationState.mk false
        (Some ("suite not certified — every item of '" +:+ DerivedSuiteRow.suiteId e +:+ "' has been purged (retention), so there is no instrument left to measure on"
           +:+ match priorCertified with Some _ => " — the prior certification is void; re-derive and re-certify" | None => "" end)%string)
        priorCertified (Some suiteId) None)
  | [] => Ret (ClusterCertificationState.mk false (Some ("suite not certified — no derived suite '" +:+ suiteId +:+ "' for this org")%string) None (Some suiteId) None)
  end.

Definition not_certified (reason : string) (certification : option SuiteCertificationRow.t) (suiteId version : string) : ClusterCertificationState.t :=
  ClusterCertificationState.mk false (Some reason) certification (Some suiteId) (Some version).

Definition no_active (clusterId orgId suiteId version : string) : proc SuiteDb ClusterCertificationState.t :=
  rows ← certifiedRowsForCluster clusterId orgId;
  match find (fun r => negb (String.eqb (SuiteCertificationRow.suiteId r) suiteId)) rows with
  | Some p =>
      Ret (not_certified ("suite not certified — certification is for '" +:+ SuiteCertificationRow.suiteId p +:+ "'@" +:+ SuiteCertificationRow.suiteVersion p +:+
        ", the cluster now measures on '" +:+ suiteId +:+ "'@" +:+ version +:+ " (suite generation changed) — re-certify") (Some p) suiteId version)
  | None =>
      Ret (not_certified ("suite not certified — incumbent self-retention gate not passed (run suite:certify; " +:+
        "an uncertified suite may be inspected but may not back a contractual claim)") None suiteId version)
  end.

Definition certificationStateForCluster (clusterId orgId : string) : proc SuiteDb ClusterCertificationState.t :=
  if negb (String.prefix "agent-" clusterId) then Ret (ClusterCertificationState.mk true None None None None)
  else
    suiteId ← derivedSuiteIdFor clusterId;
    suite ← query (suite_row suiteId);
    match suite with
    | Some s =>
        if String.eqb (DerivedSuiteRow.orgId s) orgId then
          let version := DerivedSuiteRow.version s in
          active ← activeCertificationForSuite suiteId orgId;
          match active with
          | None => no_active clusterId orgId suiteId version
          | Some a =>
              if negb (String.eqb (SuiteCertificationRow.suiteVersion a) version) then
                Ret (not_certified ("suite not certified — certification is for suite version " +:+ SuiteCertificationRow.suiteVersion a +:+
                  ", the suite is now " +:+ version +:+ " (re-derivation invalidates certification; re-certify)") (Some a) suiteId version)
              else
                liveHash ← computeSuiteContentHash suiteId;
                match SuiteCertificationRow.suiteContentHash a with
                | None =>
                    Ret (not_certified ("suite not certified — this certification predates content-hash binding and cannot " +:+
                      "demonstrate which instrument it vouched for (re-certify)") (Some a) suiteId version)
                | Some h =>
                    if negb (String.eqb h liveHash) then
                      Ret (not_certified ("suite not certified — the suite's CONTENT changed since certification (certified " +:+ first_twelve h +:+
                        "…, now " +:+ first_twelve liveHash +:+ "…): items were added, purged, or re-scored against a different rubric. The certification " +:+
                        "vouched for a different instrument — re-certify") (Some a) suiteId version)
                    else Ret (ClusterCertificationState.mk true None (Some a) (Some suiteId) (Some version))
                end
          end
        else suite_missing clusterId orgId suiteId
    | None => suite_missing clusterId orgId suiteId
    end.

(** The update names the row by its id alone. *)
Fixpoint invalidate_rows (rows : list SuiteCertificationRow.t) (out : list CertificationInvalidation.t) : proc SuiteDb (list CertificationInvalidation.t) :=
  match rows with
  | [] => Ret out
  | row :: rows =>
      liveHash ← computeSuiteContentHash (SuiteCertificationRow.suiteId row);
      if bool_decide (SuiteCertificationRow.suiteContentHash row = Some liveHash) then invalidate_rows rows out
      else
        let reason := match SuiteCertificationRow.suiteContentHash row with
                      | None => "certification predates content-hash binding; cannot demonstrate its instrument"%string
                      | Some h => ("suite content changed (certified " +:+ first_twelve h +:+ "…, now " +:+ first_twelve liveHash +:+ "…)")%string
                      end in
        _ ← exec (fun _ d => (with_certifications
              (map (fun r => if String.eqb (SuiteCertificationRow.id r) (SuiteCertificationRow.id row) then set_status invalidated reason r else r)
                 (suite_certifications d)) d, tt));
        invalidate_rows rows (out ++ [CertificationInvalidation.mk (SuiteCertificationRow.id row) (SuiteCertificationRow.orgId row)
          (SuiteCertificationRow.clusterId row) (SuiteCertificationRow.suiteId row) (SuiteCertificationRow.suiteContentHash row) liveHash reason])
  end.

Definition invalidateDriftedCertifications (orgId : string) : proc SuiteDb (list CertificationInvalidation.t) :=
  rows ← query (fun d => List.filter (fun r => String.eqb (SuiteCertificationRow.orgId r) orgId && is_certified r) (suite_certifications d));
  invalidate_rows rows [].

End Content.

(** ** verdicts.ts *)

Definition insertGuaranteeVerdict (row : string -> Z -> GuaranteeVerdictRow.t) : proc SuiteDb string :=
  exec (fun t d => let row := row (uuid t) (now t) in (with_verdicts (guarantee_verdicts d ++ [row]) d, GuaranteeVerdictRow.id row)).

Definition verdict_of (orgId policyId clusterId : string) (r : GuaranteeVerdictRow.t) : bool :=
  String.eqb (GuaranteeVerdictRow.orgId r) orgId && String.eqb (GuaranteeVerdictRow.policyId r) policyId && String.eqb (GuaranteeVerdictRow.clusterId r) clusterId.

(** [ORDER BY created_at DESC, id DESC]. *)
Definition newest_verdict (a b : GuaranteeVerdictRow.t) : comparison :=
  then_by (fun a b => GuaranteeVerdictRow.createdAt b ?= GuaranteeVerdictRow.createdAt a)
    (fun a b => String.compare (GuaranteeVerdictRow.id b) (GuaranteeVerdictRow.id a)) a b.

Definition standing (r : GuaranteeVerdictRow.t) : bool := bool_decide (GuaranteeVerdictRow.supersededBy r = None).

Definition latest_verdict (orgId policyId clusterId : string) (d : SuiteDb) : option GuaranteeVerdictRow.t :=
  head (sort newest_verdict (List.filter (fun r => verdict_of orgId policyId clusterId r && standing r) (guarantee_verdicts d))).
Definition latestVerdictForTuple (orgId policyId clusterId : string) : proc SuiteDb (option GuaranteeVerdictRow.t) := query (latest_verdict orgId policyId clusterId).

Definition listGuaranteeVerdicts (orgId : string) (limit : nat) : proc SuiteDb (list GuaranteeVerdictRow.t) :=
  query (fun d => take limit (sort newest_verdict (List.filter (fun r => String.eqb (GuaranteeVerdictRow.orgId r) orgId) (guarantee_verdicts d)))).

Definition tupleHasAnyVerdict (orgId policyId clusterId : string) : proc SuiteDb bool :=
  query (fun d => existsb (verdict_of orgId policyId clusterId) (guarantee_verdicts d)).

Definition set_superseded (newId reason : string) (r : GuaranteeVerdictRow.t) : GuaranteeVerdictRow.t :=
  GuaranteeVerdictRow.mk (GuaranteeVerdictRow.id r) (GuaranteeVerdictRow.orgId r) (GuaranteeVerdictRow.policyId r) (GuaranteeVerdictRow.clusterId r)
    (GuaranteeVerdictRow.suiteId r) (GuaranteeVerdictRow.suiteVersion r) (GuaranteeVerdictRow.candidateHash r) (GuaranteeVerdictRow.incumbentHash r)
    (GuaranteeVerdictRow.incumbentDesignationId r) (GuaranteeVerdictRow.providerMode r) (GuaranteeVerdictRow.pricesVersion r) (GuaranteeVerdictRow.outcome r)
    (GuaranteeVerdictRow.retention r) (GuaranteeVerdictRow.unpairable r) (GuaranteeVerdictRow.detail r) (GuaranteeVerdictRow.runId r)
    (GuaranteeVerdictRow.spendUsd r) (GuaranteeVerdictRow.rubricHash r) (GuaranteeVerdictRow.calibrationId r) (GuaranteeVerdictRow.advisoryIncidentId r)
    (GuaranteeVerdictRow.verdictIncidentId r) (Some newId) (Some reason) (GuaranteeVerdictRow.createdAt r).

(** One transaction: [None] where it throws and is rolled back. *)
Definition supersede_verdicts (orgId : string) (priorIds : list string) (newId reason : string) (d : SuiteDb) : SuiteDb * option nat :=
  let hit r := existsb (String.eqb (GuaranteeVerdictRow.id r)) priorIds && String.eqb (GuaranteeVerdictRow.orgId r) orgId && standing r in
  let updated := length (List.filter hit (guarantee_verdicts d)) in
  if existsb (fun r => String.eqb (GuaranteeVerdictRow.id r) newId && String.eqb (GuaranteeVerdictRow.orgId r) orgId) (guarantee_verdicts d) &&
     (updated =? length priorIds)%nat
  then (with_verdicts (map (fun r => if hit r then set_superseded newId reason r else r) (guarantee_verdicts d)) d, Some updated)
  else (d, None).

Definition supersedeVerdict (orgId : string) (priorIds : list string) (newId reason : string) : proc SuiteDb nat :=
  match priorIds with
  | [] => Ret 0%nat
  | _ => o ← exec (fun _ => supersede_verdicts orgId priorIds newId reason); of_option "not superseded" o
  end.

End Suites.
