(* ===== verification/SuiteVerify.v ===== *)
(** * The contractual leg: workers/src/suite-verify-job.ts

    [guarantee:suite-verify] evaluates the serving strategy and the incumbent on
    the cluster's suite and renders a verdict from their retention;
    [suite:certify] asks whether the incumbent reproduces its own recorded
    outputs, without which no verdict of the suite has contractual effects.
    Both are processes over [World], whose parts are the stores of the
    guarantee, of the budgets and of the suites. *)

From Stdlib Require Import Ascii.
From S2P Require Import Prelude Number Types JsSort Print Stats Prompt Recompute Statements Lift Guarantee GuaranteeJobs UsageRollup Budgets Retention Suites.

Module SuiteVerify.
Import Num Print Recompute Statements Lift Guarantee Retention Suites.
Local Open Scope Z_scope.

(** ** The store *)

Module ClusterRow.
Record t := mk { id : string; orgId : option string }.
End ClusterRow.

Module ClusterRubricRow.
Record t := mk { clusterId : string; status : string; rubricHash : string; calibrationId : option string }.
End ClusterRubricRow.

Module EvalRunRow.
Record t := mk { id : string; options : fields; budgetCapUsd : number; provider : ProviderMode; status : string; spendUsd : number; orgId : string }.
End EvalRunRow.

(** What an evaluation writes: cells, and a log row for every paid call. *)
Record EvalStore := MkEvalStore { eval_results : list EvalResultRow.t; spend_logs : list UsageRollup.RequestLogRow.t }.

Record World := MkWorld {
  guarantee : Guarantee.Db;
  ledger : Budgets.World;
  suites : SuiteDb;
  clusters : list ClusterRow.t;
  cluster_rubrics : list ClusterRubricRow.t;
  results : list EvalResultRow.t;
  eval_runs : list EvalRunRow.t;
}.

Definition put_guarantee (g : Guarantee.Db) (w : World) : World := MkWorld g (ledger w) (suites w) (clusters w) (cluster_rubrics w) (results w) (eval_runs w).
Definition put_ledger (l : Budgets.World) (w : World) : World := MkWorld (guarantee w) l (suites w) (clusters w) (cluster_rubrics w) (results w) (eval_runs w).
Definition put_suites (s : SuiteDb) (w : World) : World := MkWorld (guarantee w) (ledger w) s (clusters w) (cluster_rubrics w) (results w) (eval_runs w).
Definition put_results (l : list EvalResultRow.t) (w : World) : World := MkWorld (guarantee w) (ledger w) (suites w) (clusters w) (cluster_rubrics w) l (eval_runs w).
Definition put_runs (l : list EvalRunRow.t) (w : World) : World := MkWorld (guarantee w) (ledger w) (suites w) (clusters w) (cluster_rubrics w) (results w) l.
Definition eval_store (w : World) : EvalStore := MkEvalStore (results w) (Budgets.logs (ledger w)).
Definition put_eval_store (e : EvalStore) (w : World) : World := put_results (eval_results e) (put_ledger (Budgets.with_logs (spend_logs e) (ledger w)) w).

Definition on_guarantee {A} : proc Guarantee.Db A -> proc World A := lift guarantee put_guarantee.
Definition on_ledger {A} : proc Budgets.World A -> proc World A := lift ledger put_ledger.
Definition on_suites {A} : proc SuiteDb A -> proc World A := lift suites put_suites.
Definition on_evals {A} : proc EvalStore A -> proc World A := lift eval_store put_eval_store.

(** ** An evaluation

    What the harness is asked and what it answers; [clusterId] is that of the
    sink of a live run's calls, [metering] its reconciliation with them. *)

Module EvalOptions.
Record t := mk {
  suiteV2Ids : list string;
  strategies : list StrategyConfig;
  budgetCapUsd : number;
  provider : ProviderMode;
  resume : bool;
  orgId : string;
  clusterId : string;
  judgeModelOverride : option string;
}.
End EvalOptions.

Module RunSummary.
Record t := mk {
  runId : string;
  spendUsd : number;
  executedSpendUsd : number;
  executed : nat;
  providerMode : ProviderMode;
  results : list (string * number);
  metering : option json;
}.
End RunSummary.

(** [BudgetCapError], or the summary; other failures are thrown. *)
Inductive evaluation := over_budget (message : string) | ran (summary : RunSummary.t).

(** ** Results *)

Inductive VerifyOutcome :=
| contractual_breach | all_clear | self_incumbent | no_incumbent | incumbent_unresolvable | no_suite | insufficient_pairs | budget_refused | mode_mismatch.
#[export] Instance verify_outcome_dec : EqDecision VerifyOutcome.
Proof. solve_decision. Defined.

Definition outcome_name (o : VerifyOutcome) : string :=
  match o with
  | contractual_breach => "contractual-breach" | all_clear => "all-clear" | self_incumbent => "self-incumbent" | no_incumbent => "no-incumbent"
  | incumbent_unresolvable => "incumbent-unresolvable" | no_suite => "no-suite" | insufficient_pairs => "insufficient-pairs"
  | budget_refused => "budget-refused" | mode_mismatch => "mode-mismatch"
  end.

Inductive effects := applied | withheld_uncertified.

Module VerifyResult.
Record t := mk {
  outcome : VerifyOutcome;
  providerMode : ProviderMode;
  runId : option string;
  spendUsd : number;
  retention : option SuiteVerifyRetention.t;
  verdictIncidentId : option string;
  advisoryResolved : bool;
  restoredIncidentId : option string;
  recoveryUnconfirmed : bool;
  detail : option string;
  contractualEffects : option effects;
}.
End VerifyResult.

(** [VerdictProvenance]: what the run learned. *)
Module Provenance.
Record t := mk {
  incumbentHash : option string;
  incumbentDesignationId : option string;
  suiteId : option string;
  suiteVersion : option string;
  pricesVersion : option string;
  rubricHash : option string;
  calibrationId : option string;
  unpairable : list UnpairableItem.t;
}.
End Provenance.

Definition no_provenance : Provenance.t := Provenance.mk None None None None None None None [].

Definition RECOVERY_UNCONFIRMED_AFTER : nat := 3.
Definition AGENT_SUITE_ITEM_CAP_V2 : nat := 200.
Definition CERTIFICATION_SELF_RETENTION_FLOOR : number := lit 9 1.

(** What the measured part of a run knows. *)
Module Measured.
Record t := mk {
  floor : number;
  incumbent : ClusterIncumbentRow.t;
  suiteId : string;
  suiteVersion : string;
  summary : RunSummary.t;
  retention : SuiteVerifyRetention.t;
  unpairable : list UnpairableItem.t;
  rubric : option ClusterRubricRow.t;
}.
End Measured.

(** What is known before the evaluation. *)
Module Subject.
Record t := mk {
  policy : Policy;
  action : GuaranteeAction;
  floor : number;
  advisoryRow : option IncidentRow.t;
  restoreRow : option IncidentRow.t;
  incumbent : ClusterIncumbentRow.t;
  servingCfg : StrategyConfig;
  incumbentCfg : StrategyConfig;
}.
End Subject.

(** [suite:certify]. *)
Module SuiteCertifyPayload.
Record t := mk { orgId : string; clusterId : string; suiteId : option string; capUsd : option number }.
End SuiteCertifyPayload.

Inductive CertifyOutcome := passed | not_passed | missing_suite | missing_incumbent | over_hard_stop | false_mode.
#[export] Instance certify_outcome_dec : EqDecision CertifyOutcome.
Proof. solve_decision. Defined.

Definition certify_name (o : CertifyOutcome) : string :=
  match o with
  | passed => "certified" | not_passed => "not-certified" | missing_suite => "no-suite" | missing_incumbent => "no-incumbent"
  | over_hard_stop => "budget-refused" | false_mode => "mode-mismatch"
  end.

Module SuiteCertifyResult.
Record t := mk {
  outcome : CertifyOutcome;
  suiteId : string;
  selfRetentionMean : option number;
  providerMode : ProviderMode;
  runId : option string;
  spendUsd : number;
  detail : option string;
}.
End SuiteCertifyResult.

Module CertifyProvenance.
Record t := mk { suiteVersion : option string; incumbentHash : option string; incumbentDesignationId : option string; evidence : fields }.
End CertifyProvenance.

(** ** JSON *)

Definition str (s : string) : json := JStr s.
Definition json_bool (b : bool) : json := JBool b.

Definition pair_json (p : RetentionPairEvidence.t) : json :=
  JObj [("itemId", JStr (RetentionPairEvidence.itemId p)); ("candidateQuality", JNum (RetentionPairEvidence.candidateQuality p));
        ("incumbentQuality", JNum (RetentionPairEvidence.incumbentQuality p)); ("ratio", JNum (RetentionPairEvidence.ratio p))]%string.

Definition retention_fields (r : SuiteVerifyRetention.t) : fields :=
  [("mean", JNum (SuiteVerifyRetention.mean r)); ("ci95", json_ci (SuiteVerifyRetention.ci95 r)); ("seed", JNum (of_Z (SuiteVerifyRetention.seed r)));
   ("resamples", JNum (of_Z (SuiteVerifyRetention.resamples r))); ("pairs", json_nat (SuiteVerifyRetention.pairs r));
   ("excludedPairs", json_nat (SuiteVerifyRetention.excludedPairs r)); ("epsilon", JNum (SuiteVerifyRetention.epsilon r));
   ("floor", JNum (SuiteVerifyRetention.floor r)); ("alpha", JNum (SuiteVerifyRetention.alpha r));
   ("comparisons", JNum (SuiteVerifyRetention.comparisons r)); ("pairEvidence", JArr (map pair_json (SuiteVerifyRetention.pairEvidence r)))]%string.
Definition retention_json (r : SuiteVerifyRetention.t) : json := JObj (retention_fields r).

Definition side_name (s : side) : string := match s with candidate => "candidate" | incumbent => "incumbent" end.
Definition unpairable_json (l : list UnpairableItem.t) : json :=
  JArr (map (fun u => JObj [("itemId", JStr (UnpairableItem.itemId u)); ("has", JStr (side_name (UnpairableItem.has u)))]%string) l).

Definition mode_json (m : ProviderMode) : json := JStr (mode_name m).
Definition opt_field (k : string) (o : option string) : fields := match o with Some s => [(k, JStr s)] | None => [] end.

(** ** Reads *)

Definition live_evidence (clusterId orgId : string) (w : World) : bool :=
  existsb (fun r => String.eqb (EvalResultRow.clusterId r) clusterId && bool_decide (EvalResultRow.orgId r = Some orgId) &&
    String.eqb (EvalResultRow.providerMode r) "live" && negb (EvalResultRow.stale r)) (results w).
Definition hasLiveEvidence (clusterId orgId : string) : proc World bool := query (live_evidence clusterId orgId).

Definition approved_rubric (clusterId : string) (w : World) : option ClusterRubricRow.t :=
  find (fun r => String.eqb (ClusterRubricRow.clusterId r) clusterId && String.eqb (ClusterRubricRow.status r) "approved") (cluster_rubrics w).
Definition approvedRubricForCluster (clusterId : string) : proc World (option ClusterRubricRow.t) := query (approved_rubric clusterId).

Definition getPolicyById (orgId id : string) : proc World (option PolicyRow.t) :=
  query (fun w => find (fun p => String.eqb (PolicyRow.orgId p) orgId && String.eqb (PolicyRow.id p) id) (policies (guarantee w))).

Definition loadCfg (hash : string) : proc World (option StrategyConfig) := query (fun w => GuaranteeJobs.stored_config hash (guarantee w)).

Definition insert_run (row : EvalRunRow.t) : proc World unit :=
  o ← exec (fun _ w => if existsb (fun r => String.eqb (EvalRunRow.id r) (EvalRunRow.id row)) (eval_runs w) then (w, None) else (put_runs (eval_runs w ++ [row]) w, Some tt));
  of_option "duplicate key" o.

(** The cluster, which must be the organization's. *)
Definition own_cluster (clusterId orgId : string) : proc World unit :=
  row ← query (fun w => find (fun r => String.eqb (ClusterRow.id r) clusterId) (clusters w));
  match row with
  | None => Throw ("unknown cluster '" +:+ clusterId +:+ "'")
  | Some c => if bool_decide (ClusterRow.orgId c = Some orgId) then Ret tt else Throw ("cluster '" +:+ clusterId +:+ "' does not belong to org '" +:+ orgId +:+ "'")
  end.

(** The incident a payload names, of the kind it must have. *)
Definition attached (orgId : string) (id : option string) (kind : IncidentKind.t) (what : string) : proc World (option IncidentRow.t) :=
  match GuaranteeJobs.named id with
  | None => Ret None
  | Some i =>
      row ← on_guarantee (getIncidentByIdForOrg orgId i);
      match row with
      | Some r => if bool_decide (IncidentRow.kind r = kind) then Ret (Some r) else Throw (what +:+ " '" +:+ i +:+ "' not found for org '" +:+ orgId +:+ "'")
      | None => Throw (what +:+ " '" +:+ i +:+ "' not found for org '" +:+ orgId +:+ "'")
      end
  end.

Section Handlers.
Context (sha256 : string -> string) (content_sha : json -> string) {dates : IsoDates} {numeric : UsageRollup.Numeric}.
Context (scan : list (string * string * string) -> list (string * string * string)).
(** POTION_EVAL_PROVIDER; the price table's version and the judge a live run can
    reach; the harness. *)
Context (providerMode : ProviderMode) (pricesVersion : string) (reachable_judge : option string) (runEval : EvalOptions.t -> proc EvalStore evaluation).

Abbreviation Payload := SuiteVerifyPayload.t.

(** [appendIncidentVerifyAttempt] on what is attached. *)
Definition recordAttempt (p : Payload) (outcome : VerifyOutcome) (detail : option string) : proc World unit :=
  now ← new_Date;
  let attempt id := on_guarantee (appendIncidentVerifyAttempt (SuiteVerifyPayload.orgId p) id (toISOString now) (outcome_name outcome) detail) in
  _ ← match GuaranteeJobs.named (SuiteVerifyPayload.advisoryIncidentId p) with Some id => _ ← attempt id; Ret tt | None => Ret tt end;
  match GuaranteeJobs.named (SuiteVerifyPayload.restoreForIncidentId p) with Some id => _ ← attempt id; Ret tt | None => Ret tt end.

Definition emit (a : AlertPayload.t) : proc World unit := on_guarantee (GuaranteeJobs.swallow (GuaranteeJobs.emitAlert a)).

Definition resolve_advisory (p : Payload) (resolution : fields) : proc World bool :=
  match GuaranteeJobs.named (SuiteVerifyPayload.advisoryIncidentId p) with
  | Some id => r ← on_guarantee (resolveAdvisoryWithEvidence (SuiteVerifyPayload.orgId p) id resolution); Ret (bool_decide (is_Some (r : option IncidentRow.t)))
  | None => Ret false
  end.

Definition base (outcome : VerifyOutcome) (detail : option string) : VerifyResult.t :=
  VerifyResult.mk outcome providerMode None zero None None false None false detail None.

(** A recorded refusal. *)
Definition refuse (p : Payload) (outcome : VerifyOutcome) (detail : string) (prov : Provenance.t) : proc World (VerifyResult.t * Provenance.t) :=
  _ ← recordAttempt p outcome (Some detail); Ret (base outcome (Some detail), prov).

(** The rollback is lifted: [None] where it was not open any more. *)
Definition restore (p : Payload) (row : IncidentRow.t) (resolution alertDetail : fields) : proc World (option string) :=
  match GuaranteeJobs.named (SuiteVerifyPayload.restoreForIncidentId p) with
  | None => Ret None
  | Some id =>
      restored ← on_guarantee (resolveIncidentWithEvidence (SuiteVerifyPayload.orgId p) id IncidentKind.rollback resolution);
      match restored with
      | Some r =>
          _ ← emit (AlertPayload.mk (SuiteVerifyPayload.orgId p) "guarantee_restored" (Some (IncidentRow.id r)) (Some (IncidentRow.createdAt row)) alertDetail);
          Ret (Some (IncidentRow.id r))
      | None => Ret None
      end
  end.

(** Serving the incumbent itself. *)
Definition verify_self (p : Payload) (floor : number) (restoreRow : option IncidentRow.t) (prov : Provenance.t) : proc World (VerifyResult.t * Provenance.t) :=
  advisoryResolved ← resolve_advisory p [("verdict", JStr "all-clear"); ("reason", JStr "self-incumbent"); ("providerMode", mode_json providerMode); ("floor", JNum floor)]%string;
  restoredIncidentId ←
    match restoreRow with
    | Some row =>
        restore p row [("resolvedBy", JStr "auto-restore"); ("verdict", JStr "self-incumbent"); ("providerMode", mode_json providerMode); ("floor", JNum floor)]%string
          [("clusterId", JStr (SuiteVerifyPayload.clusterId p)); ("fromStrategy", JStr (SuiteVerifyPayload.servingStrategyHash p)); ("reason", JStr "self-incumbent");
           ("providerMode", mode_json providerMode)]%string
    | None => Ret None
    end;
  Ret (VerifyResult.mk self_incumbent providerMode None zero None None advisoryResolved restoredIncidentId false
         (Some "serving strategy IS the incumbent — retention 1.0 by identity"%string) None, prov).

(** The hard-stop budget of a live run: the refusal's reason. *)
Definition budget_refusal (orgId : string) (capUsd : number) : proc World (option string) :=
  match providerMode with
  | mock => Ret None
  | live =>
      budget ← on_ledger (Budgets.getBudget orgId);
      match budget with
      | Some b =>
          if Budgets.BudgetRow.hardStop b then
            now ← new_Date;
            mtd ← on_ledger (Budgets.mtdSpendUsd scan orgId now);
            if gtb (add mtd capUsd) (Budgets.BudgetRow.monthlyCapUsd b) then
              Ret (Some ("hard-stop budget would be exceeded (MTD $" +:+ toFixed 2 mtd +:+ " + cap $" +:+ toFixed 2 capUsd +:+ " > monthly $" +:+
                toFixed 2 (Budgets.BudgetRow.monthlyCapUsd b) +:+ ") — no spend occurred"))
            else Ret None
          else Ret None
      | None => Ret None
      end
  end.

(** [registryPrices], and the judge of a live run. *)
Definition judge_of_run (refusal : string) : proc World (option string) :=
  match providerMode with
  | mock => Ret None
  | live => match reachable_judge with Some j => Ret (Some j) | None => Throw refusal end
  end.

Definition run_row (summary : RunSummary.t) (suiteId : string) (hashes : list string) (clusterId purpose : string) (capUsd : number) (orgId : string) : EvalRunRow.t :=
  EvalRunRow.mk (RunSummary.runId summary)
    ([("suiteIds", JArr []); ("suiteV2Ids", JArr [JStr suiteId]); ("strategyHashes", JArr (map JStr hashes)); ("agentCluster", JStr clusterId); ("purpose", JStr purpose)]%string
     ++ match RunSummary.metering summary with Some m => [("metering"%string, m)] | None => [] end)
    capUsd providerMode "completed" (RunSummary.spendUsd summary) orgId.

(** ** The verdict and its effects *)

Definition evidence_fields (p : Payload) (m : Measured.t) : fields :=
  ([("leg", JStr "suite"); ("policyId", JStr (SuiteVerifyPayload.policyId p)); ("clusterId", JStr (SuiteVerifyPayload.clusterId p));
    ("fromStrategy", JStr (SuiteVerifyPayload.servingStrategyHash p)); ("retention", retention_json (Measured.retention m));
    ("unpairableItems", unpairable_json (Measured.unpairable m)); ("suiteId", JStr (Measured.suiteId m)); ("suiteVersion", JStr (Measured.suiteVersion m))]%string
   ++ match Measured.rubric m with
      | Some r => ("rubricHash"%string, JStr (ClusterRubricRow.rubricHash r)) :: opt_field "calibrationId" (ClusterRubricRow.calibrationId r)
      | None => []
      end
   ++ [("incumbent", JObj [("hash", JStr (ClusterIncumbentRow.strategyHash (Measured.incumbent m))); ("designationId", JStr (ClusterIncumbentRow.id (Measured.incumbent m)))]%string);
       ("runId", JStr (RunSummary.runId (Measured.summary m))); ("spendUsd", JNum (RunSummary.spendUsd (Measured.summary m))); ("providerMode", mode_json providerMode)]%string
   ++ opt_field "advisoryIncidentId" (SuiteVerifyPayload.advisoryIncidentId p)).

Definition ci_lower (m : Measured.t) : number := (SuiteVerifyRetention.ci95 (Measured.retention m)).1.
Definition ci_upper (m : Measured.t) : number := (SuiteVerifyRetention.ci95 (Measured.retention m)).2.
Definition breached (m : Measured.t) : bool := ltb (ci_upper m) (Measured.floor m).

(** [{ ...spent, outcome, retention, ... }]. *)
Definition rendered (m : Measured.t) (outcome : VerifyOutcome) (verdictIncidentId : option string) (advisoryResolved : bool)
    (restoredIncidentId : option string) (recoveryUnconfirmed : bool) (detail : option string) (e : effects) : VerifyResult.t :=
  VerifyResult.mk outcome providerMode (Some (RunSummary.runId (Measured.summary m))) (RunSummary.spendUsd (Measured.summary m))
    (Some (Measured.retention m)) verdictIncidentId advisoryResolved restoredIncidentId recoveryUnconfirmed detail (Some e).

(** The suite is not certified: the verdict is recorded and nothing follows. *)
Definition withhold (p : Payload) (m : Measured.t) (reason : option string) : proc World VerifyResult.t :=
  let outcome := if breached m then contractual_breach else all_clear in
  let detail := ("uncertified-suite: contractual effects withheld — " +:+ default "suite not certified" reason)%string in
  _ ← recordAttempt p outcome (Some detail);
  Ret (rendered m outcome None false None false (Some detail) withheld_uncertified).

Definition payload_tuple (p : Payload) : Tuple.t :=
  Tuple.mk (SuiteVerifyPayload.orgId p) (SuiteVerifyPayload.policyId p) (SuiteVerifyPayload.clusterId p) (SuiteVerifyPayload.servingStrategyHash p).

Definition insert_verdict_incident (p : Payload) (policy : Policy) (action : GuaranteeAction) (m : Measured.t) : proc World IncidentRow.t :=
  let insert kind detail := on_guarantee (insertIncidentRow (SuiteVerifyPayload.orgId p) kind detail) in
  match action with
  | rollback =>
      target ← on_guarantee (resolveRollbackTarget (SuiteVerifyPayload.clusterId p) policy (SuiteVerifyPayload.servingStrategyHash p));
      match target with
      | Some t => insert IncidentKind.rollback (spread (evidence_fields p m) (target_fields t))
      | None => insert IncidentKind.quality_breach (spread (evidence_fields p m) no_target_fields)
      end
  | alert => insert IncidentKind.quality_breach (evidence_fields p m)
  end.

Definition breach_alert (p : Payload) (action : GuaranteeAction) (m : Measured.t) (incidentId : string) (clockStartAt : Z) : AlertPayload.t :=
  AlertPayload.mk (SuiteVerifyPayload.orgId p) (match action with rollback => "rollback" | alert => "quality_breach" end) (Some incidentId) (Some clockStartAt)
    [("incidentId", JStr incidentId); ("clusterId", JStr (SuiteVerifyPayload.clusterId p)); ("strategyHash", JStr (SuiteVerifyPayload.servingStrategyHash p));
     ("retention", JNum (SuiteVerifyRetention.mean (Measured.retention m))); ("retentionCi95", json_ci (SuiteVerifyRetention.ci95 (Measured.retention m)));
     ("floor", JNum (Measured.floor m))]%string.

Definition render_breach (p : Payload) (policy : Policy) (action : GuaranteeAction) (advisoryRow : option IncidentRow.t) (m : Measured.t) : proc World VerifyResult.t :=
  _ ← recordAttempt p contractual_breach None;
  existing ← on_guarantee (openContractualIncidentForTuple (payload_tuple p));
  match existing with
  | Some e =>
      advisoryResolved ← resolve_advisory p
        [("verdict", JStr "contractual-breach"); ("escalatedTo", JStr (IncidentRow.id e)); ("deduped", json_bool true);
         ("retention", retention_json (Measured.retention m)); ("providerMode", mode_json providerMode)]%string;
      Ret (rendered m contractual_breach (Some (IncidentRow.id e)) advisoryResolved None false
             (Some "deduped: an unresolved contractual incident already covers this tuple"%string) applied)
  | None =>
      incident ← insert_verdict_incident p policy action m;
      advisoryResolved ← resolve_advisory p
        [("verdict", JStr "contractual-breach"); ("escalatedTo", JStr (IncidentRow.id incident)); ("retention", retention_json (Measured.retention m));
         ("providerMode", mode_json providerMode)]%string;
      _ ← emit (breach_alert p action m (IncidentRow.id incident) (default (IncidentRow.createdAt incident) (IncidentRow.createdAt <$> advisoryRow)));
      Ret (rendered m contractual_breach (Some (IncidentRow.id incident)) advisoryResolved None false None applied)
  end.

Definition NOT_CONFIDENT : string := "all-clear-not-confident".

(** The trailing run of the attempts, read from the last; [None] where an entry
    has no properties to read. *)
Fixpoint trailing_run (reversed : list json) (run : nat) : option nat :=
  match reversed with
  | [] => Some run
  | JNull :: _ => None
  | JObj o :: l => if bool_decide (text "outcome" o = Some NOT_CONFIDENT) then trailing_run l (S run) else Some run
  | _ :: _ => Some run
  end.

Definition confident_resolution (m : Measured.t) : fields :=
  [("resolvedBy", JStr "auto-restore"); ("verdict", JStr "confident-recovery"); ("retention", retention_json (Measured.retention m));
   ("providerMode", mode_json providerMode); ("runId", JStr (RunSummary.runId (Measured.summary m))); ("floor", JNum (Measured.floor m))]%string.

Definition restored_detail (p : Payload) (row : IncidentRow.t) (m : Measured.t) : fields :=
  [("clusterId", JStr (SuiteVerifyPayload.clusterId p)); ("fromStrategy", JStr (SuiteVerifyPayload.servingStrategyHash p));
   ("toStrategy", default JNull (get "toStrategy" (IncidentRow.detail row))); ("retention", retention_json (Measured.retention m));
   ("floor", JNum (Measured.floor m)); ("providerMode", mode_json providerMode)]%string.

Definition unconfirmed_detail (p : Payload) (run : nat) (m : Measured.t) : fields :=
  [("clusterId", JStr (SuiteVerifyPayload.clusterId p)); ("fromStrategy", JStr (SuiteVerifyPayload.servingStrategyHash p));
   ("consecutiveNonConfident", json_nat run); ("retention", retention_json (Measured.retention m)); ("floor", JNum (Measured.floor m));
   ("providerMode", mode_json providerMode);
   ("note", JStr "uncertainty never auto-restores and never silently persists — human review")]%string.

(** An all-clear that is not confident: recorded, and escalated once when it
    has been so too often. *)
Definition not_confident (p : Payload) (id : string) (row : IncidentRow.t) (m : Measured.t) : proc World bool :=
  at_ ← new_Date;
  appended ← on_guarantee (appendIncidentVerifyAttempt (SuiteVerifyPayload.orgId p) id (toISOString at_) NOT_CONFIDENT
    (Some ("retention CI95 lower " +:+ toFixed 3 (ci_lower m) +:+ " < floor " +:+ to_string (Measured.floor m) +:+ " — uncertainty never auto-restores")%string));
  run ← of_option "Cannot read properties of null"
    (trailing_run (rev (match appended with Some r => entries "verifyAttempts" (IncidentRow.detail r) | None => [] end)) 0);
  if (RECOVERY_UNCONFIRMED_AFTER <=? run)%nat then
    at_ ← new_Date;
    won ← on_guarantee (markRecoveryUnconfirmed (SuiteVerifyPayload.orgId p) id
      [("at", JStr (toISOString at_)); ("consecutiveNonConfident", json_nat run); ("floor", JNum (Measured.floor m))]%string);
    match won with
    | Some _ =>
        _ ← emit (AlertPayload.mk (SuiteVerifyPayload.orgId p) "guarantee_recovery_unconfirmed" (Some id) (Some (IncidentRow.createdAt row)) (unconfirmed_detail p run m));
        Ret true
    | None => Ret false
    end
  else Ret false.

Definition render_clear (p : Payload) (restoreRow : option IncidentRow.t) (m : Measured.t) : proc World VerifyResult.t :=
  advisoryResolved ← resolve_advisory p
    [("verdict", JStr "all-clear"); ("retention", retention_json (Measured.retention m)); ("providerMode", mode_json providerMode);
     ("evidence", JObj (evidence_fields p m))]%string;
  recovery ← match GuaranteeJobs.named (SuiteVerifyPayload.restoreForIncidentId p), restoreRow with
             | Some id, Some row =>
                 if geb (ci_lower m) (Measured.floor m) then
                   restored ← restore p row (confident_resolution m) (restored_detail p row m); Ret (restored, false)
                 else unconfirmed ← not_confident p id row m; Ret (None, unconfirmed)
             | _, _ => Ret (None, false)
             end;
  Ret (rendered m all_clear None advisoryResolved (recovery : option string * bool).1 recovery.2 None applied).

(** The certification gate, and what it lets through. *)
Definition verdict_on (p : Payload) (policy : Policy) (action : GuaranteeAction) (advisoryRow restoreRow : option IncidentRow.t) (m : Measured.t) :
    proc World VerifyResult.t :=
  certState ← on_suites (certificationStateForCluster content_sha (SuiteVerifyPayload.clusterId p) (SuiteVerifyPayload.orgId p));
  if negb (ClusterCertificationState.certified certState) then withhold p m (ClusterCertificationState.reason certState)
  else if breached m then render_breach p policy action advisoryRow m
  else render_clear p restoreRow m.

(** ** guarantee:suite-verify *)

Definition verify_options (p : Payload) (x : Subject.t) (suiteId : string) (capUsd : number) (judge : option string) : EvalOptions.t :=
  EvalOptions.mk [suiteId] [Subject.servingCfg x; Subject.incumbentCfg x] capUsd providerMode true (SuiteVerifyPayload.orgId p) (SuiteVerifyPayload.clusterId p) judge.

Definition pair_scope (p : Payload) (incumbentHash : string) (loaded : LoadedDerivedSuite.t) : PairScope.t :=
  PairScope.mk (SuiteVerifyPayload.clusterId p) (SuiteVerifyPayload.servingStrategyHash p) incumbentHash pricesVersion (mode_name providerMode)
    (Some (SuiteVerifyPayload.orgId p)) (Some (map DerivedSuiteItemRow.itemId (LoadedDerivedSuite.items loaded))).

Definition retention_opts (p : Payload) (incumbentHash : string) (floor : number) : RetentionOpts.t :=
  RetentionOpts.mk ("suite-verify|" +:+ SuiteVerifyPayload.orgId p +:+ "|" +:+ SuiteVerifyPayload.policyId p +:+ "|" +:+ SuiteVerifyPayload.clusterId p +:+ "|" +:+
    SuiteVerifyPayload.servingStrategyHash p +:+ "|" +:+ incumbentHash) floor None None None.

(** The retention over the cells of the suite's items. *)
Definition measure (p : Payload) (x : Subject.t) (suiteId : string) (loaded : LoadedDerivedSuite.t) (summary : RunSummary.t) (prov : Provenance.t) :
    proc World (VerifyResult.t * Provenance.t) :=
  let inc := Subject.incumbent x in
  let hash := ClusterIncumbentRow.strategyHash inc in
  cells ← query results;
  paired ← of_option "duplicate live cell" (pairedQualities (pair_scope p hash loaded) cells);
  let '(pairs, unpairable) := paired in
  let prov := Provenance.mk (Provenance.incumbentHash prov) (Provenance.incumbentDesignationId prov) (Provenance.suiteId prov) (Provenance.suiteVersion prov)
                (Provenance.pricesVersion prov) None None unpairable in
  computed ← of_option "no interval" (computeRetention sha256 pairs (retention_opts p hash (Subject.floor x)));
  match computed with
  | inl insufficient =>
      _ ← recordAttempt p insufficient_pairs (Some insufficient);
      Ret (VerifyResult.mk insufficient_pairs providerMode (Some (RunSummary.runId summary)) (RunSummary.spendUsd summary) None None false None false
             (Some insufficient) None, prov)
  | inr retention =>
      rubric ← approvedRubricForCluster (SuiteVerifyPayload.clusterId p);
      let prov := Provenance.mk (Provenance.incumbentHash prov) (Provenance.incumbentDesignationId prov) (Provenance.suiteId prov) (Provenance.suiteVersion prov)
                    (Provenance.pricesVersion prov) (ClusterRubricRow.rubricHash <$> rubric) (rubric ≫= ClusterRubricRow.calibrationId) unpairable in
      r ← verdict_on p (Subject.policy x) (Subject.action x) (Subject.advisoryRow x) (Subject.restoreRow x)
            (Measured.mk (Subject.floor x) inc suiteId (DerivedSuiteRow.version (LoadedDerivedSuite.suite loaded)) summary retention unpairable rubric);
      Ret (r, prov)
  end.

(** A strategy that is not its own reference is evaluated with it. *)
Definition verify_measured (p : Payload) (x : Subject.t) (prov : Provenance.t) : proc World (VerifyResult.t * Provenance.t) :=
  let inc := Subject.incumbent x in
  suiteId ← on_suites (derivedSuiteIdFor (SuiteVerifyPayload.clusterId p));
  let known version prices := Provenance.mk (Provenance.incumbentHash prov) (Provenance.incumbentDesignationId prov) (Some suiteId) version prices None None [] in
  suite ← on_suites (loadDerivedSuite suiteId);
  let no_suite_text := ("derived suite '" +:+ suiteId +:+ "' is empty — nothing to verify against")%string in
  match suite with
  | None => refuse p no_suite no_suite_text (known None None)
  | Some loaded =>
      match LoadedDerivedSuite.items loaded with
      | [] => refuse p no_suite no_suite_text (known None None)
      | _ =>
          let version := Some (DerivedSuiteRow.version (LoadedDerivedSuite.suite loaded)) in
          let capUsd := default (deriveSuiteVerifyCapUsd (length (LoadedDerivedSuite.items loaded)) 2) (SuiteVerifyPayload.capUsd p) in
          refused ← budget_refusal (SuiteVerifyPayload.orgId p) capUsd;
          match refused with
          | Some detail => refuse p budget_refused detail (known version None)
          | None =>
              judge ← judge_of_run "suite-verify refused: no reachable live judge-class model (set OPENROUTER_API_KEY or peers) — no spend occurred";
              evaluated ← on_evals (runEval (verify_options p x suiteId capUsd judge));
              match evaluated with
              | over_budget message => Throw message
              | ran summary =>
                  _ ← insert_run (run_row summary suiteId [SuiteVerifyPayload.servingStrategyHash p; ClusterIncumbentRow.strategyHash inc]
                        (SuiteVerifyPayload.clusterId p) "guarantee:suite-verify" capUsd (SuiteVerifyPayload.orgId p));
                  measure p x suiteId loaded summary (known version (Some pricesVersion))
              end
          end
      end
  end.

Definition quoted (s : string) : string := let q := String (Ascii.ascii_of_nat 34) EmptyString in q +:+ s +:+ q.
Definition mode_mismatch_text (clusterId this_run rerun : string) : string :=
  "mode mismatch: cluster '" +:+ clusterId +:+ "' holds LIVE evidence but this " +:+ this_run +:+ " MOCK (POTION_EVAL_PROVIDER is not " +:+ quoted "live" +:+ ") — " +:+ rerun +:+ "re-run with POTION_EVAL_PROVIDER=live. No spend occurred.".

(** A live contract is not measured by a mock. *)
Definition false_live (clusterId orgId : string) : proc World bool :=
  match providerMode with mock => hasLiveEvidence clusterId orgId | live => Ret false end.

Definition runSuiteVerify (p : Payload) : proc World (VerifyResult.t * Provenance.t) :=
  let orgId := SuiteVerifyPayload.orgId p in
  let clusterId := SuiteVerifyPayload.clusterId p in
  let serving := SuiteVerifyPayload.servingStrategyHash p in
  _ ← own_cluster clusterId orgId;
  policyRow ← getPolicyById orgId (SuiteVerifyPayload.policyId p);
  policy ← of_option ("unknown policy '" +:+ SuiteVerifyPayload.policyId p +:+ "' for org '" +:+ orgId +:+ "'")%string policyRow;
  g ← of_option ("policy '" +:+ SuiteVerifyPayload.policyId p +:+ "' carries no guarantee config")%string (guarantee_of (PolicyRow.config policy));
  advisoryRow ← attached orgId (SuiteVerifyPayload.advisoryIncidentId p) IncidentKind.advisory "advisory";
  restoreRow ← attached orgId (SuiteVerifyPayload.restoreForIncidentId p) IncidentKind.rollback "rollback";
  falsely ← false_live clusterId orgId;
  if (falsely : bool) then
    refuse p mode_mismatch (mode_mismatch_text clusterId "verify would run" "a mock verdict on a live-evidence cluster is a false-live event; ") no_provenance
  else
    designated ← on_guarantee (activeIncumbent orgId clusterId);
    match designated with
    | None => refuse p no_incumbent "no active incumbent designation — designate one to enable retention verdicts" no_provenance
    | Some inc =>
        let hash := ClusterIncumbentRow.strategyHash inc in
        let prov := Provenance.mk (Some hash) (Some (ClusterIncumbentRow.id inc)) None None None None None [] in
        incumbentCfg ← loadCfg hash;
        match incumbentCfg with
        | None => refuse p incumbent_unresolvable ("incumbent strategy '" +:+ hash +:+ "' not in strategy_configs — re-designate") prov
        | Some incumbentCfg =>
            servingCfg ← loadCfg serving;
            match servingCfg with
            | None => refuse p incumbent_unresolvable ("serving strategy '" +:+ serving +:+ "' not in strategy_configs") prov
            | Some servingCfg =>
                let floor := default DEFAULT_RETENTION_FLOOR (GuaranteeConfig.retentionFloor g) in
                if String.eqb serving hash then verify_self p floor restoreRow prov
                else verify_measured p (Subject.mk (PolicyRow.config policy) (GuaranteeConfig.action g) floor advisoryRow restoreRow inc servingCfg incumbentCfg) prov
            end
        end
    end.

Definition verdict_row (p : Payload) (r : VerifyResult.t) (prov : Provenance.t) (suiteId : string) (id : string) (at_ : Z) : GuaranteeVerdictRow.t :=
  GuaranteeVerdictRow.mk id (SuiteVerifyPayload.orgId p) (SuiteVerifyPayload.policyId p) (SuiteVerifyPayload.clusterId p) (Some suiteId) (Provenance.suiteVersion prov)
    (SuiteVerifyPayload.servingStrategyHash p) (Provenance.incumbentHash prov) (Provenance.incumbentDesignationId prov) (VerifyResult.providerMode r)
    (Provenance.pricesVersion prov) (outcome_name (VerifyResult.outcome r)) (retention_fields <$> VerifyResult.retention r) (unpairable_json (Provenance.unpairable prov))
    (VerifyResult.detail r) (VerifyResult.runId r) (VerifyResult.spendUsd r) (Provenance.rubricHash prov) (Provenance.calibrationId prov)
    (SuiteVerifyPayload.advisoryIncidentId p) (VerifyResult.verdictIncidentId r) None None at_.

(** What [guaranteeSuiteVerifyHandler] runs under its delivery guard: the result
    and the id of its verdict. *)
Definition guaranteeSuiteVerify (p : Payload) : proc World (VerifyResult.t * string) :=
  ran ← runSuiteVerify p;
  let '(r, prov) := (ran : _ * _) in
  suiteId ← match Provenance.suiteId prov with Some s => Ret s | None => on_suites (derivedSuiteIdFor (SuiteVerifyPayload.clusterId p)) end;
  id ← on_suites (insertGuaranteeVerdict (verdict_row p r prov suiteId));
  Ret (r, id).

(** ** suite:certify *)

Definition self_retention (qualities : list (string * number)) : number :=
  match qualities with
  | [] => zero
  | _ => div (fold_left (fun a q => add a q.2) qualities zero) (of_Z (Z.of_nat (length qualities)))
  end.

Definition quality_json (q : string * number) : json := JObj [("itemId", JStr q.1); ("quality", JNum q.2)]%string.

Definition certify_evidence (mean : number) (loaded : LoadedDerivedSuite.t) (summary : RunSummary.t) (judge : option string) : fields :=
  ([("selfRetentionMean"%string, JNum mean); ("floor"%string, JNum CERTIFICATION_SELF_RETENTION_FLOOR);
    ("items"%string, json_nat (length (LoadedDerivedSuite.items loaded))); ("executed"%string, json_nat (RunSummary.executed summary));
    ("perItem"%string, JArr (map quality_json (take AGENT_SUITE_ITEM_CAP_V2 (RunSummary.results summary))));
    ("providerMode"%string, mode_json (RunSummary.providerMode summary)); ("runId"%string, JStr (RunSummary.runId summary));
    ("suiteVersion"%string, JStr (DerivedSuiteRow.version (LoadedDerivedSuite.suite loaded)))]
   ++ opt_field "judgeModel" judge
   ++ [("executedSpendUsd"%string, JNum (RunSummary.executedSpendUsd summary))]
   ++ match RunSummary.metering summary with Some m => [("metering"%string, m)] | None => [] end).

Definition certify_refused (outcome : CertifyOutcome) (suiteId detail : string) : SuiteCertifyResult.t :=
  SuiteCertifyResult.mk outcome suiteId None providerMode None zero (Some detail).

Definition certify_detail (certified : bool) (mean : number) (executed : nat) : string :=
  if certified then "incumbent self-retention " +:+ toFixed 4 mean +:+ " ≥ floor " +:+ to_string CERTIFICATION_SELF_RETENTION_FLOOR +:+ " over " +:+ nat_text executed +:+ " items"
  else "incumbent self-retention " +:+ toFixed 4 mean +:+ " below floor " +:+ to_string CERTIFICATION_SELF_RETENTION_FLOOR +:+ " over " +:+ nat_text executed +:+
       " items — the suite does not reproduce the incumbent's own baseline".

(** The fresh evaluation of the incumbent: no cell is reused. *)
Definition certify_measured (p : SuiteCertifyPayload.t) (suiteId : string) (loaded : LoadedDerivedSuite.t) (inc : ClusterIncumbentRow.t)
    (incumbentCfg : StrategyConfig) : proc World (SuiteCertifyResult.t * CertifyProvenance.t) :=
  let orgId := SuiteCertifyPayload.orgId p in
  let prov := CertifyProvenance.mk (Some (DerivedSuiteRow.version (LoadedDerivedSuite.suite loaded))) (Some (ClusterIncumbentRow.strategyHash inc)) (Some (ClusterIncumbentRow.id inc)) in
  let capUsd := default (deriveSuiteVerifyCapUsd (length (LoadedDerivedSuite.items loaded)) 1) (SuiteCertifyPayload.capUsd p) in
  refused ← budget_refusal orgId capUsd;
  match refused with
  | Some detail => Ret (certify_refused over_hard_stop suiteId detail, prov [])
  | None =>
      judge ← judge_of_run "suite:certify refused: no reachable live judge-class model — no spend occurred";
      evaluated ← on_evals (runEval (EvalOptions.mk [suiteId] [incumbentCfg] capUsd providerMode false orgId (SuiteCertifyPayload.clusterId p) judge));
      match evaluated with
      | over_budget message => Ret (certify_refused over_hard_stop suiteId (message +:+ " (projection preflight) — no spend occurred")%string, prov [])
      | ran summary =>
          _ ← insert_run (run_row summary suiteId [ClusterIncumbentRow.strategyHash inc] (SuiteCertifyPayload.clusterId p) "suite:certify" capUsd orgId);
          let mean := self_retention (RunSummary.results summary) in
          let ok := geb mean CERTIFICATION_SELF_RETENTION_FLOOR in
          Ret (SuiteCertifyResult.mk (if ok then passed else not_passed) suiteId (Some mean) providerMode (Some (RunSummary.runId summary))
                 (RunSummary.executedSpendUsd summary) (Some (certify_detail ok mean (RunSummary.executed summary))),
               prov (certify_evidence mean loaded summary judge))
      end
  end.

(** An explicit suite must be the cluster's. *)
Definition own_suite (p : SuiteCertifyPayload.t) (loaded : option LoadedDerivedSuite.t) : bool :=
  match SuiteCertifyPayload.suiteId p, loaded with
  | Some _, Some l =>
      String.eqb (DerivedSuiteRow.clusterId (LoadedDerivedSuite.suite l)) (SuiteCertifyPayload.clusterId p) &&
      String.eqb (DerivedSuiteRow.orgId (LoadedDerivedSuite.suite l)) (SuiteCertifyPayload.orgId p)
  | _, _ => true
  end.

Definition runSuiteCertify (p : SuiteCertifyPayload.t) : proc World (SuiteCertifyResult.t * CertifyProvenance.t) :=
  let orgId := SuiteCertifyPayload.orgId p in
  let clusterId := SuiteCertifyPayload.clusterId p in
  _ ← own_cluster clusterId orgId;
  suiteId ← match SuiteCertifyPayload.suiteId p with Some s => Ret s | None => on_suites (derivedSuiteIdFor clusterId) end;
  suite ← on_suites (loadDerivedSuite suiteId);
  if negb (own_suite p suite) then Throw ("suite '" +:+ suiteId +:+ "' does not belong to cluster '" +:+ clusterId +:+ "'")
  else
    let empty := (certify_refused missing_suite suiteId ("derived suite '" +:+ suiteId +:+ "' is empty — nothing to certify against. No spend occurred.")%string,
                  CertifyProvenance.mk None None None []) in
    match suite with
    | None => Ret empty
    | Some loaded =>
        match LoadedDerivedSuite.items loaded with
        | [] => Ret empty
        | _ =>
            let version := Some (DerivedSuiteRow.version (LoadedDerivedSuite.suite loaded)) in
            falsely ← false_live clusterId orgId;
            if (falsely : bool) then Ret (certify_refused false_mode suiteId (mode_mismatch_text clusterId "certification would run" ""), CertifyProvenance.mk version None None [])
            else
              designated ← on_guarantee (activeIncumbent orgId clusterId);
              match designated with
              | None =>
                  Ret (certify_refused missing_incumbent suiteId
                         "no active incumbent designation — certification measures the incumbent against its own outputs. No spend occurred.",
                       CertifyProvenance.mk version None None [])
              | Some inc =>
                  cfg ← loadCfg (ClusterIncumbentRow.strategyHash inc);
                  match cfg with
                  | None =>
                      Ret (certify_refused missing_incumbent suiteId
                             ("incumbent strategy '" +:+ ClusterIncumbentRow.strategyHash inc +:+ "' not in strategy_configs — re-designate. No spend occurred.")%string,
                           CertifyProvenance.mk version (Some (ClusterIncumbentRow.strategyHash inc)) (Some (ClusterIncumbentRow.id inc)) [])
                  | Some cfg => certify_measured p suiteId loaded inc cfg
                  end
              end
        end
    end.

Definition measured_outcome (o : CertifyOutcome) : bool := match o with passed | not_passed => true | _ => false end.
Definition certify_status (o : CertifyOutcome) : SuiteCertificationStatus := match o with passed => certified | _ => failed end.

Definition certification_row (p : SuiteCertifyPayload.t) (r : SuiteCertifyResult.t) (prov : CertifyProvenance.t) (contentHash : string) (id : string) (at_ : Z) :
    SuiteCertificationRow.t :=
  let outcome := SuiteCertifyResult.outcome r in
  SuiteCertificationRow.mk id (SuiteCertifyPayload.orgId p) (SuiteCertifyPayload.clusterId p) (SuiteCertifyResult.suiteId r)
    (default "unknown"%string (CertifyProvenance.suiteVersion prov)) (Some contentHash) (CertifyProvenance.incumbentHash prov) (CertifyProvenance.incumbentDesignationId prov)
    (SuiteCertifyResult.providerMode r) (certify_status outcome)
    (match outcome with
     | passed => None
     | not_passed => SuiteCertifyResult.detail r
     | _ => Some ("refused-" +:+ certify_name outcome +:+ ": " +:+ default "" (SuiteCertifyResult.detail r))%string
     end)
    (if measured_outcome outcome then CertifyProvenance.evidence prov else [("refused", JBool true); ("kind", JStr (certify_name outcome))]%string)
    (SuiteCertifyResult.spendUsd r) at_.

(** What [suiteCertifyHandler] runs under its delivery guard: the result, its
    status, the id of its certification and the suite's version. *)
Definition suiteCertify (p : SuiteCertifyPayload.t) : proc World (SuiteCertifyResult.t * SuiteCertificationStatus * string * option string) :=
  ran ← runSuiteCertify p;
  let '(r, prov) := (ran : _ * _) in
  contentHash ← on_suites (computeSuiteContentHash content_sha (SuiteCertifyResult.suiteId r));
  id ← on_suites (insertSuiteCertificationTx (certification_row p r prov contentHash));
  Ret (r, certify_status (SuiteCertifyResult.outcome r), id, CertifyProvenance.suiteVersion prov).

End Handlers.
End SuiteVerify.
