(* ===== verification/SuiteVerifySpec.v ===== *)
(** * What a contractual verdict promises

    Whatever verifications, certifications, changes of the suites and other
    jobs interleave, and whichever statements are lost: a result follows from
    its interval, effects on an agent's cluster rest on a certification that
    measured the incumbent against itself, and every result has its verdict. *)

From S2P Require Import Prelude Number Types JsSort Print Stats Prompt Recompute Statements Lift Guarantee GuaranteeJobs UsageRollup Budgets Retention Suites SuiteVerify.

Module SuiteVerifySpec.
Import Num Print Recompute Statements Lift Guarantee Retention Suites SuiteVerify.
Local Open Scope Z_scope.

#[export] Instance guarantee_lens : Lens guarantee put_guarantee.
Proof. by split; intros; destruct_and?; repeat match goal with w : World |- _ => destruct w end. Qed.
#[export] Instance ledger_lens : Lens ledger put_ledger.
Proof. by split; intros; repeat match goal with w : World |- _ => destruct w end. Qed.
#[export] Instance suites_lens : Lens suites put_suites.
Proof. by split; intros; repeat match goal with w : World |- _ => destruct w end. Qed.
#[export] Instance evals_lens : Lens eval_store put_eval_store.
Proof. split; [intros [] [? [] ? ? ? ? ?]|intros [? [] ? ? ? ? ?]|intros [] [] [? [] ? ? ? ? ?]]; done. Qed.

(** ** What is kept *)

(** The same certification, whatever became of its status. *)
Definition same_certification (r r' : SuiteCertificationRow.t) : Prop :=
  SuiteCertificationRow.id r = SuiteCertificationRow.id r' /\ SuiteCertificationRow.orgId r = SuiteCertificationRow.orgId r' /\
  SuiteCertificationRow.clusterId r = SuiteCertificationRow.clusterId r' /\ SuiteCertificationRow.suiteId r = SuiteCertificationRow.suiteId r' /\
  SuiteCertificationRow.suiteVersion r = SuiteCertificationRow.suiteVersion r' /\
  SuiteCertificationRow.suiteContentHash r = SuiteCertificationRow.suiteContentHash r' /\
  SuiteCertificationRow.incumbentHash r = SuiteCertificationRow.incumbentHash r' /\ SuiteCertificationRow.evidence r = SuiteCertificationRow.evidence r' /\
  SuiteCertificationRow.providerMode r = SuiteCertificationRow.providerMode r'.

(** The same verdict, superseded since or not. *)
Definition same_verdict (r r' : GuaranteeVerdictRow.t) : Prop :=
  GuaranteeVerdictRow.id r = GuaranteeVerdictRow.id r' /\ GuaranteeVerdictRow.orgId r = GuaranteeVerdictRow.orgId r' /\
  GuaranteeVerdictRow.policyId r = GuaranteeVerdictRow.policyId r' /\ GuaranteeVerdictRow.clusterId r = GuaranteeVerdictRow.clusterId r' /\
  GuaranteeVerdictRow.candidateHash r = GuaranteeVerdictRow.candidateHash r' /\ GuaranteeVerdictRow.outcome r = GuaranteeVerdictRow.outcome r' /\
  GuaranteeVerdictRow.retention r = GuaranteeVerdictRow.retention r' /\ GuaranteeVerdictRow.runId r = GuaranteeVerdictRow.runId r' /\
  GuaranteeVerdictRow.verdictIncidentId r = GuaranteeVerdictRow.verdictIncidentId r'.

#[export] Instance same_certification_preorder : PreOrder same_certification.
Proof. split; [done|]. intros r r' r'' H H'. unfold same_certification in *. naive_solver congruence. Qed.
#[export] Instance same_verdict_preorder : PreOrder same_verdict.
Proof. split; [done|]. intros r r' r'' H H'. unfold same_verdict in *. naive_solver congruence. Qed.

(** Every row of the one has its like in the other. *)
Definition persists {A} (R : A -> A -> Prop) (l l' : list A) : Prop := forall r, r ∈ l -> exists r', r' ∈ l' /\ R r r'.

#[export] Instance persists_preorder {A} (R : A -> A -> Prop) `{!PreOrder R} : PreOrder (persists R).
Proof.
  split; [intros l r Hr; by exists r|]. intros l l' l'' H H' r (r' & Hr' & E)%H. destruct (H' r' Hr') as (r'' & Hr'' & E').
  exists r''. split; [done|by etransitivity].
Qed.

Lemma persists_map {A} (R : A -> A -> Prop) (f : A -> A) l : (forall r, R r (f r)) -> persists R l (map f l).
Proof. intros H r Hr. exists (f r). split; [by apply list_elem_of_fmap_2|done]. Qed.
Lemma persists_app {A} (R : A -> A -> Prop) `{!Reflexive R} l l' : persists R l (l ++ l').
Proof. intros r Hr. exists r. split; [by apply elem_of_app; left|done]. Qed.

Record preserved (d d' : SuiteDb) : Prop := {
  keeps_certifications : persists same_certification (suite_certifications d) (suite_certifications d');
  keeps_verdicts : persists same_verdict (guarantee_verdicts d) (guarantee_verdicts d');
}.
#[export] Instance preserved_preorder : PreOrder preserved.
Proof. split; [intros d; by split|]. intros d d' d'' [H1 H2] [H3 H4]. split; by etransitivity. Qed.

(** The evidence of a certification: the fresh qualities of the incumbent on the
    items, whose mean reaches the bar. *)
Definition measured_certification (r : SuiteCertificationRow.t) : Prop :=
  exists loaded summary judge,
    SuiteCertificationRow.evidence r = certify_evidence (self_retention (RunSummary.results summary)) loaded summary judge /\
    geb (self_retention (RunSummary.results summary)) CERTIFICATION_SELF_RETENTION_FLOOR = true /\
    LoadedDerivedSuite.items loaded <> [] /\
    SuiteCertificationRow.suiteVersion r = DerivedSuiteRow.version (LoadedDerivedSuite.suite loaded) /\
    SuiteCertificationRow.suiteId r = DerivedSuiteRow.suiteId (LoadedDerivedSuite.suite loaded) /\
    Forall (fun i => DerivedSuiteItemRow.suiteId i = SuiteCertificationRow.suiteId r) (LoadedDerivedSuite.items loaded).

Definition all_measured (d : SuiteDb) : Prop :=
  Forall (fun r => SuiteCertificationRow.status r = certified -> measured_certification r) (suite_certifications d).

Definition sound_world (w : World) : Prop := all_measured (suites w).
Definition later (w w' : World) : Prop := preserved (suites w) (suites w').
#[export] Instance later_preorder : PreOrder later.
Proof. split; [by intros w; red|]. intros w w' w'' H H'. red in H, H' |- *. by etransitivity. Qed.

(** ** Processes that leave the suites alone *)

Fixpoint calm {A} (P : A -> Prop) (p : proc World A) : Prop :=
  match p with
  | Ret a => P a
  | Throw _ => True
  | Stmt X q k h => (forall t w, suites (q t w).1 = suites w) /\ (forall x, calm P (k x)) /\ (forall e, calm P (h e))
  end.

Lemma calm_bind {A B} (P : A -> Prop) (Q : B -> Prop) (p : proc World A) (f : A -> proc World B) :
  calm P p -> (forall a, P a -> calm Q (f a)) -> calm Q (p ≫= f).
Proof. intros H Hf. induction p as [a|e|X q k IH h IHh]; cbn in *; [by apply Hf|done|]. destruct H as (H1 & H2 & H3). split; [done|]. by split; intros; [apply IH|apply IHh]. Qed.

Lemma calm_mono {A} (P Q : A -> Prop) (p : proc World A) : (forall a, P a -> Q a) -> calm P p -> calm Q p.
Proof. intros Hpq. induction p as [a|e|X q k IH h IHh]; cbn in *; [by apply Hpq|done|]. intros (H1 & H2 & H3). split; [done|]. by split; intros; [apply IH|apply IHh]. Qed.

Lemma calm_query {X} (f : World -> X) : calm (fun _ => True) (query f).
Proof. done. Qed.
Lemma calm_clock : calm (fun _ => True) (new_Date (db := World)).
Proof. done. Qed.
Lemma calm_option {A} e (o : option A) : calm (fun a => o = Some a) (of_option e o).
Proof. by destruct o. Qed.

Lemma calm_lift {small A} (get : World -> small) put (p : proc small A) : (forall s w, suites (put s w) = suites w) -> calm (fun _ => True) (lift get put p).
Proof.
  intros H. induction p as [a|e|X q k IH h IHh]; cbn; [done..|]. split; [|by split]. intros t w. destruct (q t (get w)). apply H.
Qed.

(** Reads of the suites. *)
Fixpoint reads {A} (p : proc SuiteDb A) : Prop :=
  match p with
  | Ret _ | Throw _ => True
  | Stmt X q k h => (forall t d, (q t d).1 = d) /\ (forall x, reads (k x)) /\ (forall e, reads (h e))
  end.
Lemma reads_bind {A B} (p : proc SuiteDb A) (f : A -> proc SuiteDb B) : reads p -> (forall a, reads (f a)) -> reads (p ≫= f).
Proof. intros H Hf. induction p as [a|e|X q k IH h IHh]; cbn in *; [done..|]. destruct H as (H1 & H2 & H3). split; [done|]. by split; intros; [apply IH|apply IHh]. Qed.
Lemma calm_reads {A} (p : proc SuiteDb A) : reads p -> calm (fun _ => True) (on_suites p).
Proof.
  induction p as [a|e|X q k IH h IHh]; cbn; [done..|]. intros (H1 & H2 & H3). split; [|by split; intros; [apply IH|apply IHh]].
  intros t w. destruct (q t (suites w)) as [d x] eqn:E. cbn. specialize (H1 t (suites w)). by rewrite E in H1.
Qed.

Section Spec.
Context (sha256 : string -> string) (content_sha : json -> string) {dates : IsoDates} {numeric : UsageRollup.Numeric}.
Context (scan : list (string * string * string) -> list (string * string * string)).
Context (providerMode : ProviderMode) (pricesVersion : string) (reachable_judge : option string) (runEval : EvalOptions.t -> proc EvalStore evaluation).

Abbreviation safe := (ok (fun (_ : tick) (_ : World) => true) sound_world later).

Lemma safe_calm {A} (P : A -> Prop) (p : proc World A) w : calm P p -> safe (fun a _ => P a) p w.
Proof.
  revert w. induction p as [a|e|X q k IH h IHh]; cbn; intros w H; [done..|]. destruct H as (H1 & H2 & H3).
  intros w' Hr Hi. split; [intros e; by apply IHh|]. intros t _.
  assert (sound_world (q t w').1) by (unfold sound_world; by rewrite H1).
  assert (later w' (q t w').1) by (unfold later; by rewrite H1).
  split; [done|]. split; [done|]. split; [by apply IH|intros e; by apply IHh].
Qed.

Lemma calm_then {A B} (P : A -> Prop) (Ψ : B -> World -> Prop) (p : proc World A) (f : A -> proc World B) w :
  sound_world w -> calm P p -> (forall a w', P a -> later w w' -> sound_world w' -> safe Ψ (f a) w') -> safe Ψ (p ≫= f) w.
Proof. intros Hw Hp Hf. eapply ok_bind; [exact _|done|by apply safe_calm|]. intros a w' Hr Hi Ha. by apply Hf. Qed.

(** ** The result *)

Definition below (v : SuiteVerifyRetention.t) : bool := ltb (SuiteVerifyRetention.ci95 v).2 (SuiteVerifyRetention.floor v).
Definition confident (v : SuiteVerifyRetention.t) : bool := geb (SuiteVerifyRetention.ci95 v).1 (SuiteVerifyRetention.floor v).

(** What a result claims follows from what was measured. *)
Record lawful (r : VerifyResult.t) : Prop := {
  lawful_outcome :
    match VerifyResult.retention r with
    | Some v => VerifyResult.outcome r = (if below v then contractual_breach else all_clear) /\ VerifyResult.contractualEffects r <> None
    | None => VerifyResult.outcome r <> contractual_breach /\ VerifyResult.outcome r <> all_clear /\ VerifyResult.contractualEffects r = None
    end;
  lawful_withheld : VerifyResult.contractualEffects r = Some withheld_uncertified ->
    VerifyResult.verdictIncidentId r = None /\ VerifyResult.advisoryResolved r = false /\ VerifyResult.restoredIncidentId r = None /\
    VerifyResult.recoveryUnconfirmed r = false;
  lawful_incident : VerifyResult.verdictIncidentId r <> None -> VerifyResult.outcome r = contractual_breach;
  lawful_advisory : VerifyResult.advisoryResolved r = true -> VerifyResult.retention r <> None \/ VerifyResult.outcome r = self_incumbent;
  lawful_restored : VerifyResult.restoredIncidentId r <> None ->
    VerifyResult.outcome r = self_incumbent \/ exists v, VerifyResult.retention r = Some v /\ below v = false /\ confident v = true;
  lawful_unconfirmed : VerifyResult.recoveryUnconfirmed r = true ->
    VerifyResult.restoredIncidentId r = None /\ exists v, VerifyResult.retention r = Some v /\ below v = false /\ confident v = false;
  lawful_free : VerifyResult.runId r = None -> VerifyResult.spendUsd r = zero /\ VerifyResult.retention r = None;
}.

Ltac calm_step :=
  match goal with
  | |- calm _ (of_option _ _ ≫= _) => eapply calm_bind; [apply calm_option|intros ? ?]
  | |- calm _ (_ ≫= _) => apply (calm_bind (fun _ => True)); [|intros ? _]
  | |- calm _ (on_guarantee _) => apply calm_lift; done
  | |- calm _ (on_ledger _) => apply calm_lift; done
  | |- calm _ (on_evals _) => apply calm_lift; done
  | |- calm _ new_Date => exact calm_clock
  | |- calm _ (query _) => apply calm_query
  | |- calm _ (match ?x with _ => _ end) => destruct x
  | |- calm _ (if ?x then _ else _) => destruct x
  | |- calm (fun _ => True) (Ret _) => exact I
  | |- calm _ (Throw _) => exact I
  | _ => by auto
  end.

Lemma calm_attempt p o detail : calm (fun _ => True) (recordAttempt p o detail).
Proof. unfold recordAttempt. repeat calm_step. Qed.
Lemma calm_emit a : calm (fun _ => True) (emit a).
Proof. unfold emit. repeat calm_step. Qed.
Lemma calm_resolve p f : calm (fun _ => True) (resolve_advisory p f).
Proof. unfold resolve_advisory. repeat calm_step. Qed.
#[local] Hint Resolve calm_attempt calm_emit calm_resolve : core.
Lemma calm_restore p row f g : calm (fun _ => True) (restore p row f g).
Proof. unfold restore. repeat calm_step. Qed.
#[local] Hint Resolve calm_restore : core.

Definition coherent (m : Measured.t) : Prop := SuiteVerifyRetention.floor (Measured.retention m) = Measured.floor m.

Lemma breached_below m : coherent m -> breached m = below (Measured.retention m).
Proof. unfold coherent, breached, below, ci_upper. by intros ->. Qed.

(** A result that measured [m]. *)
Definition follows (m : Measured.t) (e : effects) (r : VerifyResult.t) : Prop :=
  lawful r /\ VerifyResult.retention r = Some (Measured.retention m) /\ VerifyResult.contractualEffects r = Some e.

Ltac by_law := split; cbn; naive_solver.

Lemma calm_withhold p m reason : coherent m -> calm (follows m withheld_uncertified) (withhold providerMode p m reason).
Proof.
  intros Hm. unfold withhold. repeat calm_step. cbn. rewrite (breached_below m Hm). split; [|done].
  destruct (below (Measured.retention m)) eqn:E; split; cbn; rewrite ?E; naive_solver.
Qed.

Lemma calm_incident p policy action m : calm (fun _ => True) (insert_verdict_incident providerMode p policy action m).
Proof. unfold insert_verdict_incident. repeat calm_step. Qed.
#[local] Hint Resolve calm_incident : core.

Lemma calm_breach p policy action row m : coherent m -> breached m = true -> calm (follows m applied) (render_breach providerMode p policy action row m).
Proof.
  intros Hm Hb. rewrite (breached_below m Hm) in Hb. unfold render_breach. repeat calm_step; cbn; (split; [|done]); split; cbn; rewrite ?Hb; naive_solver.
Qed.

Lemma calm_not_confident p id row m : calm (fun _ => True) (not_confident providerMode p id row m).
Proof. unfold not_confident. repeat calm_step. Qed.

Lemma calm_clear p row m : coherent m -> breached m = false -> calm (follows m applied) (render_clear providerMode p row m).
Proof.
  intros Hm Hb. rewrite (breached_below m Hm) in Hb. unfold render_clear. calm_step; [by auto|].
  apply (calm_bind (fun x : option string * bool =>
    (x.1 <> None -> confident (Measured.retention m) = true) /\ (x.2 = true -> x.1 = None /\ confident (Measured.retention m) = false))).
  - destruct (GuaranteeJobs.named _) as [id|]; [destruct row as [row|]|]; [|by cbn..].
    assert (geb (ci_lower m) (Measured.floor m) = confident (Measured.retention m)) as -> by (unfold confident, ci_lower; by rewrite Hm).
    destruct (confident (Measured.retention m)).
    + apply (calm_bind (fun _ => True)); [by auto|]. intros o _. cbn. naive_solver.
    + apply (calm_bind (fun _ => True)); [apply calm_not_confident|]. intros b _. cbn. naive_solver.
  - intros [restored unconfirmed] [H1 H2]. cbn in *. split; [|done]. split; cbn; rewrite ?Hb; naive_solver.
Qed.

(** ** The certification gate *)

(** A certification of the cluster's suite that was measured. *)
Definition backed (clusterId orgId : string) (d : SuiteDb) : Prop :=
  exists c, c ∈ suite_certifications d /\ SuiteCertificationRow.orgId c = orgId /\
    (SuiteCertificationRow.suiteId c = clusterId +:+ "-replays-v2" \/ SuiteCertificationRow.suiteId c = clusterId +:+ "-replays-v1") /\
    measured_certification c.

Lemma measured_same r r' : same_certification r r' -> measured_certification r -> measured_certification r'.
Proof.
  intros (_ & _ & _ & E1 & E2 & _ & _ & E3 & _) (loaded & summary & judge & H). exists loaded, summary, judge. by rewrite <- E1, <- E2, <- E3.
Qed.

Lemma backed_later clusterId orgId d d' : backed clusterId orgId d -> preserved d d' -> backed clusterId orgId d'.
Proof.
  intros (c & Hc & E1 & E2 & Hm) [Hk _]. destruct (Hk c Hc) as (c' & Hc' & Hs). exists c'. split; [done|].
  pose proof (measured_same _ _ Hs Hm). destruct Hs as (_ & Eo & _ & Es & _). rewrite <- Eo, <- Es. done.
Qed.

Abbreviation safe_suites := (ok (fun (_ : tick) (_ : SuiteDb) => true) all_measured preserved).

Lemma safe_read {A X} (Φ : A -> SuiteDb -> Prop) (f : SuiteDb -> X) (k : X -> proc SuiteDb A) d :
  (forall d', preserved d d' -> all_measured d' -> safe_suites Φ (k (f d')) d') -> safe_suites Φ (query f ≫= k) d.
Proof. intros H. by apply ok_query; [exact _|]. Qed.

Lemma gate_backed clusterId orgId d :
  safe_suites (fun st d => ClusterCertificationState.certified st = true -> String.prefix "agent-" clusterId = true -> backed clusterId orgId d)
    (certificationStateForCluster content_sha clusterId orgId) d.
Proof.
  unfold certificationStateForCluster. destruct (String.prefix "agent-" clusterId); [|by intros ?]. cbn [negb].
  assert (forall suiteId d, safe_suites (fun st d => ClusterCertificationState.certified st = true -> true = true -> backed clusterId orgId d)
    (suite_missing clusterId orgId suiteId) d) as Hmissing.
  { intros suiteId d0. apply safe_read. intros d1 _ _. apply safe_read. intros d2 _ _. by destruct (List.filter _ (derived_suites d1)); intros ? ? ?. }
  apply safe_read. intros d1 _ _. set (suiteId := suite_id_for clusterId d1). apply safe_read. intros d2 _ _.
  destruct (suite_row suiteId d2) as [s|]; [|apply Hmissing]. destruct (String.eqb (DerivedSuiteRow.orgId s) orgId); [|apply Hmissing].
  apply safe_read. intros d3 _ Hi3. destruct (active_certification suiteId orgId d3) as [a|] eqn:Ea.
  - assert (backed clusterId orgId d3) as Hb.
    { apply find_some in Ea as [Hin Ha]. unfold active_for in Ha. rewrite !andb_true_iff, !String.eqb_eq in Ha. destruct Ha as [[E1 E2] E3].
      exists a. split; [by apply list_elem_of_In|]. split; [done|]. split.
      - rewrite E1. subst suiteId. unfold suite_id_for. destruct (items_of _ d1); [by right|by left].
      - unfold all_measured in Hi3. rewrite Forall_forall in Hi3. apply Hi3; [by apply list_elem_of_In|]. by apply bool_decide_eq_true in E3. }
    destruct (negb _); [by intros ? ? ?|]. apply safe_read. intros d4 Hr4 _. destruct (SuiteCertificationRow.suiteContentHash a) as [h|]; [|by intros ? ? ?].
    destruct (negb _); [by intros ? ? ?|]. intros d5 Hr5 _ _ _. eapply backed_later; [|exact Hr5]. by eapply backed_later.
  - apply safe_read. intros d4 _ _. by destruct (find _ _); intros ? ? ?.
Qed.

(** ** Verification *)

Definition backing (p : SuiteVerifyPayload.t) (r : VerifyResult.t) (w : World) : Prop :=
  VerifyResult.contractualEffects r = Some applied -> String.prefix "agent-" (SuiteVerifyPayload.clusterId p) = true ->
  backed (SuiteVerifyPayload.clusterId p) (SuiteVerifyPayload.orgId p) (suites w).

Lemma safe_suites_lift {A} (Φ : A -> SuiteDb -> Prop) (p : proc SuiteDb A) w :
  safe_suites Φ p (suites w) -> safe (fun a w => Φ a (suites w)) (on_suites p) w.
Proof.
  intros H. apply (lift_ok suites put_suites _ (fun _ _ => true) sound_world later all_measured preserved); [by intros|by intros|done| |exact H].
  intros s b _ Hs Hr. split; [done|]. by split.
Qed.

Lemma safe_verdict p policy action row row' m w :
  sound_world w -> coherent m ->
  safe (fun r w => lawful r /\ backing p r w) (verdict_on content_sha providerMode p policy action row row' m) w.
Proof.
  intros Hw Hm. unfold verdict_on. eapply ok_bind; [exact _|done|apply safe_suites_lift, gate_backed|]. cbn beta. intros st w1 H1 Hw1 Hg.
  destruct (ClusterCertificationState.certified st); cbn [negb].
  - assert (forall e p', calm (follows m e) p' -> safe (fun r w => lawful r /\ backing p r w) p' w1) as Hend.
    { intros e p' Hp. eapply ok_mono; [exact _|by apply (safe_calm _ _ w1 Hp)|]. cbn. intros r w2 H2 _ (Hl & _ & _). split; [done|].
      intros _ Ha. eapply backed_later; [by apply Hg|exact H2]. }
    destruct (breached m) eqn:Eb; eapply Hend; [by apply calm_breach|by apply calm_clear].
  - eapply ok_mono; [exact _|by apply safe_calm, calm_withhold|]. cbn. intros r w2 _ _ (Hl & _ & He). split; [done|]. intros Ea. congruence.
Qed.

Definition unmeasured (x : VerifyResult.t * Provenance.t) : Prop := lawful x.1 /\ VerifyResult.contractualEffects x.1 = None.
Definition promised (p : SuiteVerifyPayload.t) (x : VerifyResult.t * Provenance.t) (w : World) : Prop := lawful x.1 /\ backing p x.1 w.

Lemma safe_unmeasured p (q : proc World (VerifyResult.t * Provenance.t)) w : calm unmeasured q -> safe (promised p) q w.
Proof.
  intros H. eapply ok_mono; [exact _|by apply safe_calm|]. intros x w' _ _ [Hl He]. split; [done|]. intros E. congruence.
Qed.

Lemma calm_refuse p o detail prov : o <> contractual_breach -> o <> all_clear -> calm unmeasured (refuse providerMode p o detail prov).
Proof. intros H1 H2. unfold refuse. calm_step; [by auto|]. cbn. split; [|done]. split; cbn; naive_solver. Qed.

Lemma calm_self p floor row prov : calm unmeasured (verify_self providerMode p floor row prov).
Proof. unfold verify_self. repeat calm_step. cbn. split; [|done]. split; cbn; naive_solver. Qed.

Lemma calm_budget orgId cap : calm (fun _ => True) (budget_refusal scan providerMode orgId cap).
Proof. unfold budget_refusal. repeat calm_step. Qed.
Lemma calm_judge s : calm (fun _ => True) (judge_of_run providerMode reachable_judge s).
Proof. unfold judge_of_run. repeat calm_step. Qed.
Lemma calm_insert_run r : calm (fun _ => True) (insert_run r).
Proof. split; [intros t w; by destruct (existsb _ _)|]. split; [by intros [[]|]|done]. Qed.
Lemma calm_own_cluster c o : calm (fun _ => True) (own_cluster c o).
Proof. unfold own_cluster. repeat calm_step. Qed.
Lemma calm_attached o id k s : calm (fun _ => True) (attached o id k s).
Proof. unfold attached. repeat calm_step. Qed.
Lemma calm_false_live c o : calm (fun _ => True) (false_live providerMode c o).
Proof. unfold false_live, hasLiveEvidence. repeat calm_step. Qed.
#[local] Hint Resolve calm_budget calm_judge calm_insert_run calm_own_cluster calm_attached calm_false_live : core.

Lemma computed_floor pairs opts v : computeRetention sha256 pairs opts = Some (inr v) -> SuiteVerifyRetention.floor v = RetentionOpts.floor opts.
Proof.
  unfold computeRetention. cbv zeta. destruct (_ || _); [done|]. destruct (Stats.bootstrapMeanCi _ _ _ _) as [[mean ci]|]; cbn; [|done].
  set (r := SuiteVerifyRetention.mk _ _ _ _ _ _ _ _ _ _ _). intros H. assert (r = v) as <- by congruence. reflexivity.
Qed.

Lemma reads_load suiteId : reads (loadDerivedSuite suiteId).
Proof. unfold loadDerivedSuite. apply reads_bind; [done|]. by intros [r|]. Qed.

(** A quiet beginning. *)
Ltac first_calm :=
  eapply (calm_then (fun _ => True));
  [done|first [by auto|by apply calm_lift|by apply calm_reads, reads_load|by apply calm_reads|by eapply calm_mono; [|apply calm_option]]|].
Ltac refused := apply safe_unmeasured, calm_refuse; done.

Lemma safe_measure p x suiteId loaded summary prov w :
  sound_world w -> safe (promised p) (measure sha256 content_sha providerMode pricesVersion p x suiteId loaded summary prov) w.
Proof.
  intros Hw. unfold measure. cbv zeta. first_calm. intros cells w1 _ _ H1.
  first_calm. intros [pairs unpairable] w2 _ _ H2.
  set (opts := retention_opts p _ _). eapply (calm_then (fun c => computeRetention sha256 pairs opts = Some c)); [done|apply calm_option|]. intros [insufficient|v] w3 Ev _ H3.
  - apply safe_unmeasured. calm_step; [by auto|]. cbn. split; [|done]. split; cbn; naive_solver.
  - first_calm. intros rubric w4 _ _ H4. eapply ok_bind; [exact _|done|apply safe_verdict; [done|]|].
    + red. cbn. by rewrite (computed_floor _ _ _ Ev).
    + intros r w5 H5 _ [Hl Hb] w6 H6 _. split; [done|]. intros Ea Hp. eapply backed_later; [by apply Hb|exact H6].
Qed.

Lemma safe_measured p x prov w :
  sound_world w -> safe (promised p) (verify_measured sha256 content_sha scan providerMode pricesVersion reachable_judge runEval p x prov) w.
Proof.
  intros Hw. unfold verify_measured. cbv zeta. first_calm. intros suiteId w1 _ _ H1.
  first_calm. intros [loaded|] w2 _ _ H2; [|refused].
  destruct (LoadedDerivedSuite.items loaded); [refused|]. first_calm. intros [detail|] w3 _ _ H3; [refused|].
  first_calm. intros judge w4 _ _ H4. first_calm. intros [message|summary] w5 _ _ H5; [done|].
  first_calm. intros _ w6 _ _ H6. by apply safe_measure.
Qed.

Lemma safe_verify p w :
  sound_world w -> safe (promised p) (runSuiteVerify sha256 content_sha scan providerMode pricesVersion reachable_judge runEval p) w.
Proof.
  intros Hw. unfold runSuiteVerify. cbv zeta. first_calm. intros _ w1 _ _ H1. first_calm. intros row w2 _ _ H2.
  first_calm. intros policy w3 _ _ H3.
  first_calm. intros g w4 _ _ H4.
  first_calm. intros advisoryRow w5 _ _ H5. first_calm. intros restoreRow w6 _ _ H6. first_calm. intros [] w7 _ _ H7; [refused|].
  first_calm. intros [inc|] w8 _ _ H8; [|refused]. first_calm. intros [icfg|] w9 _ _ H9; [|refused].
  first_calm. intros [scfg|] w10 _ _ H10; [|refused].
  destruct (String.eqb _ _); [apply safe_unmeasured, calm_self|by apply safe_measured].
Qed.

(** ** The verdict's row *)

Definition recorded (p : SuiteVerifyPayload.t) (r : VerifyResult.t) (id : string) (d : SuiteDb) : Prop :=
  exists v, v ∈ guarantee_verdicts d /\ GuaranteeVerdictRow.id v = id /\ GuaranteeVerdictRow.orgId v = SuiteVerifyPayload.orgId p /\
    GuaranteeVerdictRow.policyId v = SuiteVerifyPayload.policyId p /\ GuaranteeVerdictRow.clusterId v = SuiteVerifyPayload.clusterId p /\
    GuaranteeVerdictRow.candidateHash v = SuiteVerifyPayload.servingStrategyHash p /\
    GuaranteeVerdictRow.outcome v = outcome_name (VerifyResult.outcome r) /\
    GuaranteeVerdictRow.retention v = retention_fields <$> VerifyResult.retention r /\ GuaranteeVerdictRow.runId v = VerifyResult.runId r /\
    GuaranteeVerdictRow.verdictIncidentId v = VerifyResult.verdictIncidentId r.

Lemma recorded_later p r id d d' : recorded p r id d -> preserved d d' -> recorded p r id d'.
Proof.
  intros (v & Hv & H) [_ Hk]. destruct (Hk v Hv) as (v' & Hv' & Hs). exists v'. split; [done|].
  destruct Hs as (<- & <- & <- & <- & <- & <- & <- & <- & <-). exact H.
Qed.

Definition kept_promise (p : SuiteVerifyPayload.t) (x : VerifyResult.t * string) (w : World) : Prop :=
  lawful x.1 /\ backing p x.1 w /\ recorded p x.1 x.2 (suites w).

Lemma safe_insert {X A} (q : tick -> SuiteDb -> SuiteDb * X) (Ψ : A -> World -> Prop) (f : X -> proc World A) w :
  (forall t d, all_measured d -> all_measured (q t d).1 /\ preserved d (q t d).1) ->
  (forall t w', later w w' -> sound_world w' ->
    let w'' := put_suites (q t (suites w')).1 w' in later w' w'' -> sound_world w'' -> safe Ψ (f (q t (suites w')).2) w'') ->
  safe Ψ (on_suites (exec q) ≫= f) w.
Proof.
  intros Hq Hf w' Hr Hi. split; [done|]. intros t _. specialize (Hf t w' Hr Hi). destruct (Hq t (suites w') Hi) as [H1 H2].
  destruct (q t (suites w')) as [d x]. cbn in *. split; [done|]. split; [done|]. split; [by apply Hf|done].
Qed.

Lemma insert_verdict_kept row d : all_measured d -> let d' := with_verdicts (guarantee_verdicts d ++ [row]) d in all_measured d' /\ preserved d d'.
Proof. intros H. split; [done|]. split; [cbn; done|]. cbn. apply persists_app. exact _. Qed.

Lemma safe_handler p w :
  sound_world w -> safe (kept_promise p) (guaranteeSuiteVerify sha256 content_sha scan providerMode pricesVersion reachable_judge runEval p) w.
Proof.
  intros Hw. unfold guaranteeSuiteVerify. eapply ok_bind; [exact _|done|by apply safe_verify|]. intros [r prov] w1 _ H1 [Hl Hb]. cbn in Hl, Hb.
  assert (forall suiteId w2, later w1 w2 ->
    safe (kept_promise p) (id ← on_suites (insertGuaranteeVerdict (verdict_row p r prov suiteId)); Ret (r, id)) w2) as Hend.
  { intros suiteId w2 H2. apply safe_insert; [intros t d Hd; by apply insert_verdict_kept|].
    intros t w3 H3 _ w4 H4 _ w5 H5 _. cbn. split; [done|]. split.
    - intros Ea Hp. eapply backed_later; [by apply Hb|]. change (later w1 w5). by repeat (etransitivity; [eassumption|]).
    - eapply recorded_later; [|exact H5]. exists (verdict_row p r prov suiteId (uuid t) (now t)). split; [|by repeat split].
      cbn. apply elem_of_app. right. by left. }
  destruct (Provenance.suiteId prov) as [suiteId|]; [by apply Hend|].
  eapply (calm_then (fun _ => True)); [done|by apply calm_reads|]. intros suiteId w2 _ H2 _. by apply Hend.
Qed.

(** ** Certification *)

Definition loaded_of (suiteId : string) (l : LoadedDerivedSuite.t) : Prop :=
  DerivedSuiteRow.suiteId (LoadedDerivedSuite.suite l) = suiteId /\
  Forall (fun i => DerivedSuiteItemRow.suiteId i = suiteId) (LoadedDerivedSuite.items l).

Lemma safe_load suiteId d : safe_suites (fun l _ => forall l', l = Some l' -> loaded_of suiteId l') (loadDerivedSuite suiteId) d.
Proof.
  apply safe_read. intros d1 _ _. destruct (suite_row suiteId d1) as [r|] eqn:E; [|by intros ? ? ? ? [=]].
  apply safe_read. intros d2 _ _ d3 _ _ l' [= <-]. split; cbn.
  - by apply find_some in E as [_ E%String.eqb_eq].
  - rewrite Forall_forall. intros i Hi. apply Sort.elem_of_sort in Hi. apply list_elem_of_In, filter_In in Hi as [_ H]. by apply String.eqb_eq in H.
Qed.

(** A passed certification was measured. *)
Definition passes (x : SuiteCertifyResult.t * CertifyProvenance.t) : Prop :=
  SuiteCertifyResult.outcome x.1 = passed -> exists loaded summary judge,
    CertifyProvenance.evidence x.2 = certify_evidence (self_retention (RunSummary.results summary)) loaded summary judge /\
    geb (self_retention (RunSummary.results summary)) CERTIFICATION_SELF_RETENTION_FLOOR = true /\ LoadedDerivedSuite.items loaded <> [] /\
    CertifyProvenance.suiteVersion x.2 = Some (DerivedSuiteRow.version (LoadedDerivedSuite.suite loaded)) /\ loaded_of (SuiteCertifyResult.suiteId x.1) loaded.

Lemma calm_certify p suiteId loaded inc cfg :
  loaded_of suiteId loaded -> LoadedDerivedSuite.items loaded <> [] -> calm passes (certify_measured scan providerMode reachable_judge runEval p suiteId loaded inc cfg).
Proof.
  intros Hl Hne. unfold certify_measured. cbv zeta. apply (calm_bind (fun _ => True)); [by auto|]. intros [detail|] _; [done|].
  apply (calm_bind (fun _ => True)); [by auto|]. intros judge _. apply (calm_bind (fun _ => True)); [by apply calm_lift|]. intros [message|summary] _; [done|].
  apply (calm_bind (fun _ => True)); [by auto|]. intros _ _. cbn. destruct (geb _ _) eqn:E; [|done]. intros _.
  exists loaded, summary, judge. split; [reflexivity|]. split; [exact E|]. split; [exact Hne|]. split; [reflexivity|exact Hl].
Qed.

Lemma safe_certify p w : sound_world w -> safe (fun x _ => passes x) (runSuiteCertify scan providerMode reachable_judge runEval p) w.
Proof.
  intros Hw. unfold runSuiteCertify. cbv zeta. first_calm. intros _ w1 _ _ H1.
  eapply (calm_then (fun _ => True)); [done|by destruct (SuiteCertifyPayload.suiteId p); [|apply calm_reads]|]. intros suiteId w2 _ _ H2.
  eapply ok_bind; [exact _|done|apply safe_suites_lift, safe_load|]. cbn beta. intros suite w3 _ _ Hs.
  destruct (negb _); [done|]. destruct suite as [loaded|]; [|by intros ? ? ? ?]. specialize (Hs _ eq_refl).
  destruct (LoadedDerivedSuite.items loaded) as [|i items] eqn:Ei; [by intros ? ? ? ?|]. apply safe_calm.
  apply (calm_bind (fun _ => True)); [by auto|]. intros [] _; [done|]. apply (calm_bind (fun _ => True)); [by apply calm_lift|]. intros [inc|] _; [|done].
  apply (calm_bind (fun _ => True)); [done|]. intros [cfg|] _; [|done]. apply calm_certify; [done|by rewrite Ei].
Qed.

Lemma set_status_same status reason r : same_certification r (set_status status reason r).
Proof. done. Qed.

(** Demotions keep what is certified measured. *)
Lemma demote_kept (f : SuiteCertificationRow.t -> bool) (g : SuiteCertificationRow.t -> SuiteCertificationRow.t) l :
  (forall r, same_certification r (g r)) -> (forall r, SuiteCertificationRow.status (g r) <> certified) ->
  Forall (fun r => SuiteCertificationRow.status r = certified -> measured_certification r) l ->
  let l' := map (fun r => if f r then g r else r) l in
  Forall (fun r => SuiteCertificationRow.status r = certified -> measured_certification r) l' /\ persists same_certification l l'.
Proof.
  intros Hs Hg H. split; [|apply persists_map; intros r; destruct (f r); [apply Hs|done]].
  apply Forall_map. eapply Forall_impl; [exact H|]. cbn. intros r Hr. destruct (f r); [|done]. intros E. by apply Hg in E.
Qed.

Lemma insert_certification_kept row t d :
  all_measured d -> (SuiteCertificationRow.status (row (uuid t) (now t)) = certified -> measured_certification (row (uuid t) (now t))) ->
  all_measured (insert_certification row t d).1 /\ preserved d (insert_certification row t d).1.
Proof.
  intros Hd Hrow. unfold insert_certification. set (r := row (uuid t) (now t)) in *. set (demoted := if is_refusal _ then _ else _).
  assert (Forall (fun r => SuiteCertificationRow.status r = certified -> measured_certification r) demoted /\
    persists same_certification (suite_certifications d) demoted) as [H1 H2].
  { subst demoted. destruct (is_refusal _); [by split|]. by apply demote_kept. }
  destruct (_ && _); [by split|]. split; [apply Forall_app; by split; [|constructor]|]. split; [|cbn; done].
  cbn. etransitivity; [exact H2|]. apply persists_app. exact _.
Qed.

(** A certification's row: of the payload's cluster. *)
Definition certification_kept (p : SuiteCertifyPayload.t) (x : SuiteCertifyResult.t * SuiteCertificationStatus * string * option string) (w : World) : Prop :=
  exists c, c ∈ suite_certifications (suites w) /\ SuiteCertificationRow.id c = x.1.2 /\ SuiteCertificationRow.orgId c = SuiteCertifyPayload.orgId p /\
    SuiteCertificationRow.clusterId c = SuiteCertifyPayload.clusterId p /\ SuiteCertificationRow.suiteId c = SuiteCertifyResult.suiteId x.1.1.1 /\
    (x.1.1.2 = certified -> measured_certification c).

Lemma safe_suiteCertify p w :
  sound_world w -> safe (certification_kept p) (suiteCertify content_sha scan providerMode reachable_judge runEval p) w.
Proof.
  intros Hw. unfold suiteCertify. eapply ok_bind; [exact _|done|by apply safe_certify|]. intros [r prov] w1 _ H1 Hp. cbn beta iota.
  first_calm. intros hash w2 _ _ H2. set (row := certification_row p r prov hash).
  assert (forall id at_, SuiteCertificationRow.status (row id at_) = certified -> measured_certification (row id at_)) as Hrow.
  { intros id at_ E. assert (SuiteCertifyResult.outcome r = passed) as Eo by by destruct r as [[] ? ? ? ? ? ?].
    destruct (Hp Eo) as (loaded & summary & judge & E1 & E2 & E3 & E4 & E5 & E6). exists loaded, summary, judge. subst row. unfold certification_row. cbn.
    rewrite Eo. cbn. cbn in E1, E4. rewrite E4. split; [exact E1|]. split; [exact E2|].
    split; [exact E3|]. split; [reflexivity|]. split; [symmetry; exact E5|exact E6]. }
  assert (forall t d, all_measured d -> all_measured (insert_certification row t d).1 /\ preserved d (insert_certification row t d).1) as Hins
    by (intros t d Hd; apply insert_certification_kept; [exact Hd|apply Hrow]).
  eapply ok_bind; [exact _|done| |].
  - unfold insertSuiteCertificationTx.
    apply (safe_insert (insert_certification row) (fun id w => exists c, c ∈ suite_certifications (suites w) /\ exists at_, same_certification (row id at_) c)); [exact Hins|].
    cbn zeta. intros t w3 H3 _ H4 _. destruct (insert_certification row t (suites w3)) as [d o] eqn:E.
    destruct o as [id|]; [|done]. unfold insert_certification in E. destruct (_ && _); [done|]. injection E as <- <-.
    intros w4 H5 _.
    destruct (keeps_certifications _ _ H5 (row (uuid t) (now t))) as (c & Hc & Hs); [cbn; apply elem_of_app; right; by left|].
    exists c. split; [done|]. by exists (now t).
  - cbn beta. intros id w3 _ _ (c & Hc & at_ & Hs) w4 H4 _. destruct (keeps_certifications _ _ H4 c Hc) as (c' & Hc' & Hs').
    assert (same_certification (row id at_) c') as Hs2 by by etransitivity. exists c'. cbn. split; [done|].
    pose proof Hs2 as (<- & <- & <- & <- & _). repeat split; try done. intros E. eapply measured_same; [exact Hs2|]. apply Hrow. exact E.
Qed.

(** ** Every run *)

(** Processes of the suites that keep their certifications and verdicts. *)
Fixpoint keeps {A} (p : proc SuiteDb A) : Prop :=
  match p with
  | Ret _ | Throw _ => True
  | Stmt X q k h => (forall t d, all_measured d -> all_measured (q t d).1 /\ preserved d (q t d).1) /\ (forall x, keeps (k x)) /\ (forall e, keeps (h e))
  end.

Lemma keeps_bind {A B} (p : proc SuiteDb A) (f : A -> proc SuiteDb B) : keeps p -> (forall a, keeps (f a)) -> keeps (p ≫= f).
Proof. intros H Hf. induction p as [a|e|X q k IH h IHh]; cbn in *; [done..|]. destruct H as (H1 & H2 & H3). split; [done|]. by split; intros; [apply IH|apply IHh]. Qed.

Lemma keeps_exec {X} (q : tick -> SuiteDb -> SuiteDb * X) :
  (forall t d, suite_certifications (q t d).1 = suite_certifications d /\ guarantee_verdicts (q t d).1 = guarantee_verdicts d) -> keeps (exec q).
Proof.
  intros H. split; [|by split]. intros t d Hd. destruct (H t d) as [E1 E2]. split; [unfold all_measured; by rewrite E1|].
  split; [by rewrite E1|by rewrite E2].
Qed.

Lemma safe_keeps {A} (p : proc SuiteDb A) d : keeps p -> safe_suites (fun _ _ => True) p d.
Proof.
  revert d. induction p as [a|e|X q k IH h IHh]; cbn; intros d H; [done..|]. destruct H as (H1 & H2 & H3).
  intros d' _ Hi. split; [intros e; by apply IHh|]. intros t _. destruct (H1 t d' Hi). split; [done|]. split; [done|]. split; [by apply IH|intros e; by apply IHh].
Qed.

#[local] Hint Extern 1 (keeps (query _)) => apply keeps_exec; done : core.

Lemma keeps_version suiteId version : keeps (update_version suiteId version).
Proof. by apply keeps_exec. Qed.
Lemma keeps_bump suiteId : keeps (bumpSuiteVersion suiteId).
Proof. unfold bumpSuiteVersion. apply keeps_bind; [done|]. intros [r|]; [|done]. by apply keeps_bind; [apply keeps_version|]. Qed.

Lemma keeps_add suiteId before candidates ids n : keeps (add_items suiteId before candidates ids n).
Proof.
  revert n. induction ids as [|id ids IH]; intros n; cbn [add_items]; [done|]. destruct (existsb _ before); [done|]. destruct (find _ candidates) as [i|]; [|done].
  apply keeps_bind; [|by intros _]. apply keeps_exec. intros t d. by destruct (existsb _ _).
Qed.

Lemma keeps_upsert u : keeps (upsertDerivedSuite u).
Proof.
  unfold upsertDerivedSuite. apply keeps_bind; [by apply keeps_exec|]. intros existing. apply keeps_bind.
  - destruct existing; [done|]. apply keeps_bind; [|by intros [[]|]]. apply keeps_exec. intros t d. by destruct (suite_row _ d).
  - intros _. apply keeps_bind; [by apply keeps_exec|]. intros before. apply keeps_bind; [apply keeps_add|]. intros added.
    destruct existing as [r|]; [|done]. destruct (0 <? added)%nat; [|done]. by apply keeps_bind; [apply keeps_version|].
Qed.

Lemma keeps_restamp suiteId rubric : keeps (restampDerivedSuiteRubric suiteId rubric).
Proof.
  apply keeps_bind; [by apply keeps_exec|]. intros n. destruct (0 <? n)%nat; [|done]. by apply keeps_bind; [apply keeps_bump|].
Qed.

Lemma keeps_purge orgId cutoff : keeps (purgeDerivedSuiteItems orgId cutoff).
Proof.
  apply keeps_bind; [by apply keeps_exec|]. intros suites.
  enough (forall deleted emptied ids, keeps (purge_suites suites cutoff deleted emptied ids)) as H by apply H.
  induction suites as [|s suites IH]; intros deleted emptied ids; cbn [purge_suites]; [done|].
  apply keeps_bind; [by apply keeps_exec|]. intros [|g gone]; [apply IH|]. apply keeps_bind; [apply keeps_bump|]. intros _.
  apply keeps_bind; [by apply keeps_exec|]. intros n. apply IH.
Qed.

Lemma keeps_invalidate orgId : keeps (invalidateDriftedCertifications content_sha orgId).
Proof.
  apply keeps_bind; [by apply keeps_exec|]. intros rows. generalize (@nil CertificationInvalidation.t).
  induction rows as [|row rows IH]; intros out; cbn [invalidate_rows]; [done|]. apply keeps_bind; [by apply keeps_exec|]. intros hash.
  destruct (bool_decide _); [apply IH|]. apply keeps_bind; [|intros _; apply IH]. split; [|done]. intros t d Hd.
  destruct (demote_kept (fun r => String.eqb (SuiteCertificationRow.id r) (SuiteCertificationRow.id row)) (set_status invalidated
    match SuiteCertificationRow.suiteContentHash row with
    | Some h => "suite content changed (certified " +:+ first_twelve h +:+ "…, now " +:+ first_twelve hash +:+ "…)"
    | None => "certification predates content-hash binding; cannot demonstrate its instrument" end) (suite_certifications d)) as [H1 H2]; [done|done|exact Hd|].
  split; [exact H1|]. split; [exact H2|done].
Qed.

Lemma keeps_supersede orgId priorIds newId reason : keeps (supersedeVerdict orgId priorIds newId reason).
Proof.
  destruct priorIds as [|id ids]; [done|]. apply keeps_bind; [|by intros [n|]]. split; [|done]. intros t d Hd. unfold supersede_verdicts.
  cbv zeta. destruct (_ && _); [|by split]. split; [exact Hd|]. split; [cbn; done|]. apply persists_map. intros r. by destruct (_ && _).
Qed.

(** What is answered: the payload and its result, where there is one. *)
Inductive answer :=
| verified (p : SuiteVerifyPayload.t) (r : VerifyResult.t) (verdictId : string)
| certification (p : SuiteCertifyPayload.t) (x : SuiteCertifyResult.t * SuiteCertificationStatus * string * option string)
| unit_answer.

(** The jobs of the contractual leg, the operations on suites and verdicts, and
    any process over the guarantee's tables, the ledger or the cells. *)
Inductive service : proc World answer -> Prop :=
| verifies p :
    service (x ← guaranteeSuiteVerify sha256 content_sha scan providerMode pricesVersion reachable_judge runEval p; Ret (verified p x.1 x.2))
| certifies p : service (x ← suiteCertify content_sha scan providerMode reachable_judge runEval p; Ret (certification p x))
| upserts u : service (_ ← on_suites (upsertDerivedSuite u); Ret unit_answer)
| restamps suiteId rubric : service (_ ← on_suites (restampDerivedSuiteRubric suiteId rubric); Ret unit_answer)
| purges orgId cutoff : service (_ ← on_suites (purgeDerivedSuiteItems orgId cutoff); Ret unit_answer)
| invalidates orgId : service (_ ← on_suites (invalidateDriftedCertifications content_sha orgId); Ret unit_answer)
| supersedes orgId priorIds newId reason : service (_ ← on_suites (supersedeVerdict orgId priorIds newId reason); Ret unit_answer)
| guarantees {A} (q : proc Guarantee.Db A) : service (_ ← on_guarantee q; Ret unit_answer)
| budgets {A} (q : proc Budgets.World A) : service (_ ← on_ledger q; Ret unit_answer)
| evaluates {A} (q : proc EvalStore A) : service (_ ← on_evals q; Ret unit_answer).

Definition delivers (x : answer) (w : World) : Prop :=
  match x with
  | verified p r id => kept_promise p (r, id) w
  | certification p x => certification_kept p x w
  | unit_answer => True
  end.

Lemma serves_well q w : sound_world w -> service q -> safe delivers q w.
Proof.
  assert (forall A (p : proc World A) w, sound_world w -> safe (fun _ _ => True) p w -> safe delivers (_ ← p; Ret unit_answer) w) as Hunit
    by (intros A p w0 H0 Hp; by eapply ok_bind; [exact _|done|exact Hp|]).
  assert (forall A (p : proc SuiteDb A) w, sound_world w -> keeps p -> safe delivers (_ ← on_suites p; Ret unit_answer) w) as Hsuites
    by (intros A p w0 H0 Hp; apply Hunit; [done|]; by apply (safe_suites_lift (fun _ _ => True)), safe_keeps).
  assert (forall w w' p r id, kept_promise p (r, id) w -> later w w' -> kept_promise p (r, id) w') as Hlater.
  { intros w1 w2 p r id (H1 & H2 & H3) Hr. split; [done|]. split; [|by eapply recorded_later]. intros Ea Hp. eapply backed_later; [by apply H2|exact Hr]. }
  assert (forall w w' p x, certification_kept p x w -> later w w' -> certification_kept p x w') as Hlater'.
  { intros w1 w2 p x (c & Hc & H) [Hk _]. destruct (Hk c Hc) as (c' & Hc' & Hs). exists c'. split; [done|].
    destruct H as (H1 & H2 & H3 & H4 & H5). pose proof Hs as (<- & <- & <- & <- & _). repeat split; try done.
    intros E. eapply measured_same; [exact Hs|]. by apply H5. }
  intros Hw [p|p|u|s rubric|o cutoff|o|o ids new reason|A q'|A q'|A q'].
  - eapply ok_bind; [exact _|done|by apply safe_handler|]. intros [r id] w1 _ _ H w2 Hr _. by eapply Hlater.
  - eapply ok_bind; [exact _|done|by apply safe_suiteCertify|]. intros x w1 _ _ H w2 Hr _. by eapply Hlater'.
  - apply Hsuites; [done|apply keeps_upsert].
  - apply Hsuites; [done|apply keeps_restamp].
  - apply Hsuites; [done|apply keeps_purge].
  - apply Hsuites; [done|apply keeps_invalidate].
  - apply Hsuites; [done|apply keeps_supersede].
  - apply Hunit; [done|]. by apply (safe_calm (fun _ => True)), calm_lift.
  - apply Hunit; [done|]. by apply (safe_calm (fun _ => True)), calm_lift.
  - apply Hunit; [done|]. by apply (safe_calm (fun _ => True)), calm_lift.
Qed.

Abbreviation any_clock := (fun (_ : tick) (_ : World) => true).
Definition starts (ev : event (db := World) (A := answer)) : Prop := match ev with Start _ p => service p | _ => True end.

Lemma service_sound evs w s :
  sound_world w -> Forall starts evs -> run any_clock evs (System w ∅) = Some s -> sound any_clock sound_world later delivers w s.
Proof.
  intros Hw Hev Hr. eapply system_ok; [exact _|exact Hw| |exact Hr]. eapply Forall_impl; [exact Hev|].
  intros [n p|n t|n t applied e]; cbn; [|done..]. intros Hp w' Hw'. by apply serves_well.
Qed.


(** C33. Every verification that returned has its verdict: one row of its tuple with
    its outcome, its retention, its run and its incident, which nothing takes
    away; and no verdict is ever lost. *)
Theorem verdict_recorded evs w s n p r id :
  sound_world w -> Forall starts evs -> run any_clock evs (System w ∅) = Some s -> pool s !! n = Some (Ret (verified p r id)) ->
  recorded p r id (suites (store s)) /\ persists same_verdict (guarantee_verdicts (suites w)) (guarantee_verdicts (suites (store s))).
Proof.
  intros Hw Hev Hr Hn. pose proof (service_sound _ _ _ Hw Hev Hr) as Hs.
  destruct (sound_returned _ _ _ _ _ _ _ _ Hs Hn) as (_ & _ & H). split; [exact H|]. destruct Hs as (_ & Hp & _). apply Hp.
Qed.


(** ** The gate, uninterrupted *)

Definition vouched (clusterId orgId : string) (d : SuiteDb) : Prop :=
  let suiteId := suite_id_for clusterId d in
  exists s c, suite_row suiteId d = Some s /\ DerivedSuiteRow.orgId s = orgId /\ active_certification suiteId orgId d = Some c /\
    SuiteCertificationRow.suiteVersion c = DerivedSuiteRow.version s /\ SuiteCertificationRow.suiteContentHash c = Some (content_hash content_sha suiteId d).

(** The gate opens for a cluster that is not an agent's, and else exactly for
    an active certification of the cluster's suite of that organization at its
    version and with its content; it only reads, and a closed gate says why. *)
Theorem gate_decides ticks i clusterId orgId d :
  exists st j, alone ticks i (certificationStateForCluster content_sha clusterId orgId) d = (d, j, inr st) /\
    (ClusterCertificationState.certified st = true <-> (String.prefix "agent-" clusterId = true -> vouched clusterId orgId d)) /\
    (ClusterCertificationState.reason st = None <-> ClusterCertificationState.certified st = true).
Proof.
  unfold certificationStateForCluster. destruct (String.prefix "agent-" clusterId) eqn:Ep; cbn [negb].
  2: { eexists _, _. split; [reflexivity|]. cbn. by repeat split. }
  assert (forall st, ClusterCertificationState.certified st = false -> ClusterCertificationState.reason st <> None -> ~ vouched clusterId orgId d ->
    (ClusterCertificationState.certified st = true <-> (true = true -> vouched clusterId orgId d)) /\
    (ClusterCertificationState.reason st = None <-> ClusterCertificationState.certified st = true)) as Hclosed by (intros st -> Hn Hv; split; split; naive_solver).
  assert (forall i s, ~ vouched clusterId orgId d -> exists st j, alone ticks i (suite_missing clusterId orgId s) d = (d, j, inr st) /\
    (ClusterCertificationState.certified st = true <-> (true = true -> vouched clusterId orgId d)) /\
    (ClusterCertificationState.reason st = None <-> ClusterCertificationState.certified st = true)) as Hmissing.
  { intros k s Hv. unfold suite_missing, certifiedRowsForCluster. rewrite !alone_query.
    destruct (List.filter _ (derived_suites d)); (eexists _, _; split; [reflexivity|]); by apply Hclosed. }
  unfold derivedSuiteIdFor. rewrite alone_query. set (suiteId := suite_id_for clusterId d) in *. rewrite alone_query.
  destruct (suite_row suiteId d) as [s|] eqn:Es; [|apply Hmissing; intros (? & ? & E & _); fold suiteId in E; congruence].
  destruct (String.eqb_spec (DerivedSuiteRow.orgId s) orgId) as [Eo|Eo]; [|apply Hmissing; intros (? & ? & E & E' & _); fold suiteId in E; congruence].
  unfold activeCertificationForSuite. rewrite alone_query. destruct (active_certification suiteId orgId d) as [c|] eqn:Ec.
  - destruct (String.eqb_spec (SuiteCertificationRow.suiteVersion c) (DerivedSuiteRow.version s)) as [Ev|Ev]; cbn [negb].
    2: { eexists _, _. split; [reflexivity|]. apply Hclosed; [done..|]. intros (? & ? & E & _ & E1 & E2 & _). fold suiteId in E, E1. congruence. }
    unfold computeSuiteContentHash. rewrite alone_query. destruct (SuiteCertificationRow.suiteContentHash c) as [h|] eqn:Eh.
    2: { eexists _, _. split; [reflexivity|]. apply Hclosed; [done..|]. intros (? & ? & E & _ & E1 & _ & E2). fold suiteId in E, E1. congruence. }
    destruct (String.eqb_spec h (content_hash content_sha suiteId d)) as [Ehh|Ehh]; cbn [negb].
    2: { eexists _, _. split; [reflexivity|]. apply Hclosed; [done..|]. intros (? & ? & E & _ & E1 & _ & E2). fold suiteId in E, E1, E2. congruence. }
    eexists _, _. split; [reflexivity|]. cbn. split; [|done]. split; [|done]. intros _ _. exists s, c. fold suiteId. by rewrite Eh, Ehh.
  - unfold no_active, certifiedRowsForCluster. rewrite alone_query.
    destruct (find _ _); (eexists _, _; split; [reflexivity|]; apply Hclosed; [done..|]; intros (? & ? & E & _ & E1 & _); fold suiteId in E, E1; congruence).
Qed.

End Spec.
End SuiteVerifySpec.
