(* ===== verification/SuiteVerifyExamples.v ===== *)
(** * The contractual leg at work

    A certification and the verification it backs, on concrete rows: the
    witnesses of [SuiteVerifySpec]'s theorems. *)

From S2P Require Import Prelude Number Types JsSort Print Stats StatsSpec Prompt Evidence Recompute Statements Lift Guarantee Store GuaranteeJobs GuaranteeSafety UsageRollup Budgets BudgetsExamples.
From S2P Require Import Retention RetentionSpec Suites SuiteVerify SuiteVerifySpec.

Module SuiteVerifyExamples.
Import Num Sort Print Evidence Recompute Statements Lift Guarantee Retention Suites SuiteVerify SuiteVerifySpec.
Local Open Scope Z_scope.

#[local] Existing Instance GuaranteeSafety.decimal_dates.
#[local] Existing Instance BudgetsExamples.exact_sums.

(** ** A cluster and its suite *)

Definition digest (_ : string) : string := "00000000".
Definition content_digest (j : json) : string := match j with JArr (_ :: _) => "five items" | _ => "nothing" end.

Definition ids : list string := ["i1"; "i2"; "i3"; "i4"; "i5"].
Definition item (id : string) : DerivedSuiteItemRow.t :=
  DerivedSuiteItemRow.mk "agent-a-replays-v1" id "agent-a" (JStr id) None [("kind", JStr "exact")]%string None 100.
Definition suite_db : SuiteDb := MkSuiteDb [DerivedSuiteRow.mk "agent-a-replays-v1" "agent-a" "acme" [] "1.0.0"] (map item ids) [] [].

Definition cfg : StrategyConfig := single "m".
Definition promise (action : GuaranteeAction) : GuaranteeConfig.t :=
  GuaranteeConfig.mk (lit 7 1) None (of_Z 60) one action None None None None None (Some true).
Definition policy (action : GuaranteeAction) : PolicyRow.t := PolicyRow.mk "pol" "acme" (max_quality one None (Some (promise action))).
Definition reference : ClusterIncumbentRow.t := ClusterIncumbentRow.mk "d1" "acme" "agent-a" "trusted" true None 50.
Definition guarantee_db (incidents : list IncidentRow.t) : Guarantee.Db :=
  Guarantee.MkDb [] incidents [reference] [policy alert] [("cheap", cfg); ("trusted", cfg)]%string (Store.Db [] [] []) [] [] [] [].

Definition cell (hash id : string) (quality : number) : EvalResultRow.t :=
  EvalResultRow.mk (hash +:+ id) "r" id "agent-a" hash cfg quality "exact" "default" None (Usage.mk zero zero zero zero None) (LatencyMs.mk zero zero zero) [] "v1" "mock"
    (Some "acme"%string) false "".
Definition cells (quality : number) : list EvalResultRow.t := map (fun id => cell "cheap" id quality) ids ++ map (fun id => cell "trusted" id one) ids.

Definition world (incidents : list IncidentRow.t) (quality : number) : World :=
  MkWorld (guarantee_db incidents) (BudgetsExamples.world [] []) suite_db [ClusterRow.mk "agent-a" (Some "acme"%string)] [] (cells quality) [].

(** An evaluation whose cells are all there. *)
Definition cached (o : EvalOptions.t) : proc EvalStore evaluation :=
  exec (fun t e => (e, ran (RunSummary.mk ("run-" +:+ uuid t) zero zero 5 (EvalOptions.provider o) (map (fun id => (id, one)) ids) None))).

Abbreviation verify := (guaranteeSuiteVerify digest content_digest (fun l => l) mock "v1" None cached).
Abbreviation certify := (suiteCertify content_digest (fun l => l) mock None cached).

Definition request (restore : option string) : SuiteVerifyPayload.t := SuiteVerifyPayload.mk "acme" "pol" "agent-a" "cheap" None restore None.
Definition certify_request : SuiteCertifyPayload.t := SuiteCertifyPayload.mk "acme" "agent-a" None None.

Definition tick_at (k : nat) : tick := Tick (1000 + Z.of_nat k) (show_Z (Z.of_nat k)).
Definition answers (n from count : nat) : list (event (db := World) (A := answer)) := map (fun k => Answer n (tick_at k)) (seq from count).

(** ** The retention of half *)

Definition half : number := lit 5 1.
Definition half_pairs : list QualityPair.t := map (fun id => QualityPair.mk id half one) ids.

Lemma mean_of_halves buf : length buf = 5%nat -> Forall (fun o => exists x, o = Some x /\ x ∈ repeat half 5) buf -> Stats.mean_of (map Stats.or_nan buf) = half.
Proof.
  intros Hl Hb. replace buf with (repeat (Some half) 5); [by vm_compute|]. symmetry. rewrite <- Hl. apply Forall_eq_repeat.
  eapply Forall_impl; [exact Hb|]. cbn beta. intros o (x & -> & Hx%list_elem_of_In). by rewrite (repeat_spec _ _ _ Hx).
Qed.

Lemma bootstrap_halves seed r :
  1 <= r < 2 ^ 31 -> Stats.bootstrapMeanCi (repeat half 5) seed r (lit 5 2) = Some (half, (half, half)).
Proof.
  intros Hr. unfold Stats.bootstrapMeanCi, Stats.bootstrapCi.
  destruct (StatsSpec.resamples_all (fun x => x = half) (repeat half 5) (fun buf => Stats.mean_of (map Stats.or_nan buf)) (Z.to_nat r) (Stats.mulberry32 seed))
    as [Hlen Hall]; [done|done| |].
  { intros buf Hl Hb. by apply mean_of_halves. }
  destruct (StatsSpec.percentiles_some _ (lit 5 2) r ltac:(by vm_compute) Hr Hlen) as (lo & hi & E & Ilo & Ihi & _).
  - eapply Forall_impl; [exact Hall|]. by intros x ->.
  - rewrite Forall_forall in Hall. rewrite E. cbn [mbind option_bind]. rewrite (Hall lo), (Hall hi) by done. by vm_compute.
Qed.

Definition half_retention (opts : RetentionOpts.t) : SuiteVerifyRetention.t :=
  SuiteVerifyRetention.mk half (half, half)
    (Stats.seedFromString digest (RetentionOpts.seedKey opts +:+ "|" +:+ nat_text 5 +:+ "|" +:+ digest (Prompt.Prompt.join "|" (map pair_text half_pairs))))
    Stats.BOOTSTRAP_RESAMPLES 5 0 SUITE_VERIFY_EPSILON (RetentionOpts.floor opts) (lit 5 2) one (map evidence_of half_pairs).

Lemma halves_retained key floor :
  let opts := RetentionOpts.mk key floor None None None in computeRetention digest half_pairs opts = Some (inr (half_retention opts)).
Proof.
  intros opts. unfold computeRetention. cbv zeta. cbn [RetentionOpts.epsilon RetentionOpts.minPairs RetentionOpts.comparisons RetentionOpts.seedKey opts default].
  assert (usable_pairs SUITE_VERIFY_EPSILON half_pairs = half_pairs) as -> by (vm_compute; reflexivity).
  assert (sort pair_order half_pairs = half_pairs) as -> by (vm_compute; reflexivity).
  assert (map ratio_of half_pairs = repeat half 5) as -> by (vm_compute; reflexivity).
  assert (max one (Num.floor one) = one) as -> by (vm_compute; reflexivity).
  assert (div (lit 5 2) one = lit 5 2) as -> by (vm_compute; reflexivity).
  rewrite bootstrap_halves by (by vm_compute). reflexivity.
Qed.

(** ** A breach with effects *)

Definition certified_world : World := Eval vm_compute in (alone tick_at 0 (certify certify_request) (world [] half)).1.1.

(** Runs one statement sequence of a process on concrete rows. *)
#[local] Ltac ran :=
  rewrite alone_bind;
  match goal with |- context [alone ?t ?i ?p ?w] =>
    let r := eval vm_compute in (alone t i p w) in
    let E := fresh in
    assert (alone t i p w = r) as E by (vm_compute; reflexivity); rewrite E; clear E end;
  cbv beta iota.

Lemma breach_run : exists w j r id,
  alone tick_at 11 (verify (request None)) certified_world = (w, j, inr (r, id)) /\ VerifyResult.outcome r = contractual_breach /\
  VerifyResult.contractualEffects r = Some applied /\ map IncidentRow.kind (incidents (guarantee w)) = [IncidentKind.quality_breach] /\
  map AlertPayload.event (alerts (guarantee w)) = ["quality_breach"%string].
Proof.
  eexists _, _, _, _. split.
  - unfold guaranteeSuiteVerify. rewrite alone_bind. unfold runSuiteVerify. cbv zeta. do 10 ran.
    match goal with |- context [if ?b then _ else _] => change b with false end. cbv iota.
    unfold verify_measured. cbv zeta. do 2 ran. cbn [LoadedDerivedSuite.items]. cbv iota. do 4 ran.
    unfold measure. cbv zeta. do 2 ran.
    match goal with |- context [computeRetention digest ?ps ?o] =>
      let k := eval vm_compute in (RetentionOpts.seedKey o) in
      let f := eval vm_compute in (RetentionOpts.floor o) in
      replace (computeRetention digest ps o) with (computeRetention digest half_pairs (RetentionOpts.mk k f None None None)) by (f_equal; vm_compute; reflexivity)
    end.
    rewrite halves_retained. vm_compute. reflexivity.
  - by repeat split.
Qed.

(** ** Witnesses *)

Abbreviation any_clock := (fun (_ : tick) (_ : World) => true).

Lemma serve_alone n (p : proc World answer) i (s : system) d j r :
  pool s !! n = None -> alone tick_at i p (store s) = (d, j, inr r) ->
  run any_clock (Start n p :: map (fun k => Answer n (tick_at k)) (seq i (j - i))) s = Some (System d (<[n := Ret r]> (pool s))).
Proof.
  intros Hn Ha. cbn [run step]. rewrite Hn. cbn [mbind option_bind].
  rewrite (run_alone any_clock n p tick_at i (System (store s) (<[n := p]> (pool s))) d j r); cbn [pool store];
    [by rewrite insert_insert_eq|by rewrite lookup_insert_eq|done|done].
Qed.

Definition certifying : proc World answer := x ← certify certify_request; Ret (certification certify_request x).
Definition verifying : proc World answer := x ← verify (request None); Ret (verified (request None) x.1 x.2).
Abbreviation serves := (starts digest content_digest (fun l => l) mock "v1" None cached).

Lemma certifying_served : serves (Start 0 certifying).
Proof. exact (certifies digest content_digest (fun l => l) mock "v1" None cached certify_request). Qed.
Lemma verifying_served : serves (Start 1 verifying).
Proof. exact (verifies digest content_digest (fun l => l) mock "v1" None cached (request None)). Qed.
Lemma serves_answers n l : Forall serves (map (fun k => Answer n (tick_at k)) l).
Proof. apply Forall_map, Forall_true. by intros k. Qed.

Lemma breach_served : exists evs s r id,
  Forall serves evs /\ run any_clock evs (System (world [] half) ∅) = Some s /\ pool s !! 1%nat = Some (Ret (verified (request None) r id)) /\
  VerifyResult.outcome r = contractual_breach /\ VerifyResult.contractualEffects r = Some applied.
Proof.
  destruct breach_run as (w & j & r & id & E & Ho & He & _).
  assert (exists x, alone tick_at 0 certifying (world [] half) = (certified_world, 11%nat, inr x)) as (x & E0) by (eexists; vm_compute; reflexivity).
  exists ((Start 0 certifying :: map (fun k => Answer 0 (tick_at k)) (seq 0 (11 - 0))) ++ (Start 1 verifying :: map (fun k => Answer 1 (tick_at k)) (seq 11 (j - 11)))).
  eexists _, r, id. split; [|split; [|split; [|by split]]].
  - apply Forall_app. split; (apply Forall_cons_2; [|apply serves_answers]); [exact certifying_served|exact verifying_served].
  - rewrite run_app, (serve_alone 0 certifying 0 _ certified_world 11 x); [|done|exact E0]. cbn [mbind option_bind].
    apply (serve_alone 1 verifying 11); [done|]. cbn [store]. unfold verifying. rewrite alone_bind, E. reflexivity.
  - cbn [pool]. by rewrite lookup_insert_eq.
Qed.


Lemma verdict_recorded_witness : exists evs s r id,
  run any_clock evs (System (world [] half) ∅) = Some s /\ pool s !! 1%nat = Some (Ret (verified (request None) r id)) /\
  recorded (request None) r id (suites (store s)).
Proof.
  destruct breach_served as (evs & s & r & id & Hev & Hr & Hn & _). exists evs, s, r, id. split; [exact Hr|]. split; [exact Hn|].
  apply (verdict_recorded digest content_digest (fun l => l) mock "v1" None cached evs (world [] half) s 1 (request None) r id (Forall_nil_2 _) Hev Hr Hn).
Defined.


Lemma retention_or_reason_witness :
  exists v, computeRetention digest half_pairs (RetentionOpts.mk "k" half None None None) = Some (inr v) /\ SuiteVerifyRetention.pairs v = 5%nat.
Proof.
  eexists. split; [apply halves_retained|].
  pose proof (RetentionSpec.retention_or_reason digest half_pairs (RetentionOpts.mk "k" half None None None) eq_refl) as H. cbn -[computeRetention] in H.
  rewrite halves_retained in H. apply H; vm_compute; congruence.
Defined.

Lemma retention_order_free_witness :
  NoDup (map QualityPair.itemId half_pairs) /\
  computeRetention digest (rev half_pairs) (RetentionOpts.mk "k" half None None None) = computeRetention digest half_pairs (RetentionOpts.mk "k" half None None None).
Proof.
  assert (NoDup (map QualityPair.itemId half_pairs)) as Hn by (vm_compute; repeat (constructor; [set_solver|]); constructor).
  split; [exact Hn|]. symmetry. apply (RetentionSpec.retention_order_free digest half_pairs (rev half_pairs)); [by rewrite (Permutation_rev half_pairs) at 1|exact Hn].
Defined.

End SuiteVerifyExamples.
